(* ===== verification/_CoqProject ===== *)
-Q . S2P
Prelude.v
Misc.v
Atomic.v
LinkedList.v
AvlTree.v
AvlTreeBalance.v
AvlTreeSwap.v
AvlTreeSpec.v
HeapAlloc.v
Sys.v
Ranges.v
Buddy.v
PageTable.v
VirtLayout.v
VirtMapper.v
Boot.v
UData.v
Zones.v
Futex.v
CpuMarker.v
Thread.v
Int.v
Time.v
Apic.v
Console.v
Sched.v
SchedInv.v
SchedSafe.v
SchedSpec.v
Cap.v
MemSys.v
Syscall.v
Locks.v
SyscallSafe.v
Init.v
NLVec.v
Elf.v
Spawn.v
UserLib.v
