(* ===== verification/Prelude.v ===== *)
(** * Aurora kernel: verification library (root file)

    Aurora is a capability-based kernel for x86-64 in Rust: [kernel/], the library
    [libutil/] it shares with user programs, the constants [sys_consts/], and the system
    call library [sys/] and standard library [std/] of user programs, all under [src/].
    This development translates that code into Rocq functions and proves what they do.
    It is a shallow embedding: a definition has the name of the function it translates
    where Rocq allows it and follows its order of effects, its checks and its early returns.

    ** How code is modelled

    - A computation that returns, panics, runs into undefined behaviour or has not finished
      is an outcome [res] ([Ret], [Panic], [UB], [NoFuel]); one that works on a state is
      [M S A], a function from a state to an outcome and a new state.  Errors the code
      returns ([Option], [Result]) are [option] and sums inside the outcome.
    - [usize] and [u64] are integers.  [uadd], [usub] and [umul] overflow as the profile says: a
      panic with overflow checks on, reduction modulo [2^64] with them off (class [Build], with
      the instances [dev] and [release]).  Narrower words are reduced where the code casts.
    - Pointers are addresses.  Linked structures live in heaps, [gmap]s from addresses to nodes,
      which the operations read and overwrite in the order of the code; reading an address
      that holds nothing is [UB].
    - A function that holds a lock throughout is one step.  Where the code gives a lock up,
      or works on atomics, it is cut at those places and theorems quantify over every
      interleaving.  Atomics are sequentially consistent.
    - Code outside [src/] is a parameter: a class with the operations used and, where theorems
      need them, its documented laws.

    ** Interfaces

    [Build] (this file): the build profile.  [ListNode], [ListNodeLaws] ([LinkedList]) and [Ord],
    [OrdLaws] ([AvlTree]): what the traits of the code ask of the nodes.  [UtilCalls], [PageSource]
    ([HeapAlloc]): where the heap gets pages.  [AddrOps], [AddrLaws] ([Ranges]): the address types
    of the crate [x86_64].  [FrameAllocator] ([PageTable]) and [PhysMem] ([VirtLayout]): the
    trait that page tables take frames from and the memory of layouts; [Zones] discharges both
    with the zone manager.  [Addresses] ([VirtLayout]): the two address types and the
    offset of the linear map.  [HwaTag] ([Boot]): elements of firmware tables.  [Cpu]
    ([CpuMarker]): the number of the processor that runs.  [Devices] ([Time]): what hardware answers, a
    function of all accesses before.  [Bitfields], [BitfieldLaws] ([Apic]): the crate
    [modular_bitfield].  [CapObject] ([Cap]): what capabilities do to the counts of an
    object; the scheduler's futexes and shared memory are instances.  [Heap] ([NLVec]): fresh addresses.

    ** The files, from the bottom up

    Libraries ([libutil/src/]).
    - [Misc] ([misc.rs]): alignment, bit ranges, logarithms, against their arithmetic meaning.
    - [Atomic] ([atomic.rs]): [AtomicU128] by its accesses to two words.  [atomic_linearizable]: any
      schedule is explained by whole operations, one at a time, each at one of its own steps.
    - [LinkedList] ([collections/linked_list.rs]): the intrusive list on a heap of nodes.
      [list_refines]: every operation is that of sequences, and touches no other node.
    - [AvlTree], [AvlTreeBalance], [AvlTreeSwap], [AvlTreeSpec] ([collections/tree.rs]): the intrusive
      tree, its rotations, the swap with the predecessor; [avl_map]: a sorted map, balanced, in
      logarithmic time.  [pop_unbalances] shows the one operation that is not.
    - [NLVec] ([collections/nlvec.rs], [nlvecmap.rs]): the vector and map that are copied and exchanged.
      [nlvecmap_equiv]: for one caller a finite map; [nlvec_linearizable]: for many, and what
      frees under a reader ([nlvec_races]).
    - [HeapAlloc] ([mem/heap.rs], [kernel/src/mem/heap.rs]): zones and free nodes; [heap_safe]: any
      history of allocations and frees keeps blocks apart and aligned.
    - [Futex] ([futex.rs], [sched/sync.rs]): the lock and its kernel side by atomic steps;
      [mutual_exclusion], and the run that loses a wake-up ([lost_wakeup]).
    - [Locks] ([cell.rs], [RWFutex], [kernel/src/util/imutex.rs]): counts of readers and writers, and the
      spin lock with interrupts off: [cell_exclusion], [imutex_never_waits].
    - [UserLib] ([lib.rs], [std/src/io.rs], [std/src/rt.rs], [kernel/src/int/manager.rs]): the table of calls, and
      how user programs print ([write_str_prints]).

    Memory ([kernel/src/mem/]).
    - [Sys] (error codes, option words, privilege levels), [Ranges] ([mod.rs]: frames and ranges,
      [split_at_spec]).
    - [Buddy] and [Zones] ([phys_alloc.rs]): the buddy allocator of a zone and the manager of the
      zones; [buddy_safe], [zones_safe]: any history keeps allocations apart, without panic.
    - [PageTable], [VirtLayout], [VirtMapper] ([virt_alloc.rs]): four-level tables as a store of
      words ([set_then_remove]), layouts and the iterator that maps them ([map_plan]), and the
      address space with its ordered map: [mapper_safe] over any sequence of its
      methods, [find_range_spec].
    - [MemSys] ([sys.rs], [shared_mem.rs]): [realloc] and shared memory; [smem_map_unmap].

    Processor and devices ([kernel/src/int/], [time/], [gdt.rs], [kdata.rs], [util/io.rs]).
    - [CpuMarker], [Int]: the marks of processors, descriptors, the record behind [gs] and its
      guards ([guards_safe]), the table of handlers ([dispatch_spec]).
    - [Time], [Apic]: the interrupt controllers and timers on a log of accesses; [apic_routes],
      [send_ipi_roundtrip].
    - [Console]: the text screen refines an unbounded page ([console_refines]).
    - [Boot] ([mb2.rs], [acpi/], [util/hwa_iter.rs]): the tables firmware hands over; [hwa_terminates],
      [region_new_spec].

    Processes ([kernel/src/sched/], [cap/], [syscall/]).
    - [Thread] ([thread.rs]): stacks, registers ([new_thread_ring]), message buffers.
    - [Sched], [SchedInv], [SchedSafe], [SchedSpec] ([mod.rs], [process.rs], [thread.rs], [sync.rs]): the list of
      threads, the processes and kernel futexes, as events under the lock.  [sched_safe]: in
      every reachable state each thread is on the one queue its state names and no
      pointer dangles; [schedule_spec], [round_robin], and three runs that go wrong.
    - [Cap] ([cap/], [key.rs], [FutexMap]): ids, maps and counts of capabilities; [capmap_typed],
      [cap_attenuates].
    - [UData] ([syscall/udata.rs]): what is copied from user memory, [fetch_spec].
    - [Syscall], [SyscallSafe] ([syscall/mod.rs], [sched/sys.rs], [util/mod.rs]): the record [Kernel] of all
      components, every handler, dispatch; [syscall_frame], [syscall_isolation], [abi_roundtrip].
      [syscalls_keep_sched] composes the handlers with [sched_safe].
    - [Elf] ([elf.rs]) and [Spawn] ([Process::from_elf]): the parser ([elf_parser_spec]), what is in the
      pages of a program ([elf_loaded]), and the process it becomes ([from_elf_spec]).
    - [Init] ([main.rs], [sched::init], [syscall::init], [smp_init]): [init_spec], from the memory map to a
      kernel that [syscalls_keep_sched] and [from_elf_spec] speak of.

    The refinements stack: [SchedSafe] and [Buddy] use sequences for the lists that
    [LinkedList] implements, [Sched] uses finite maps for the trees of [AvlTree], [VirtMapper]
    runs over any [FrameAllocator] and [PhysMem], and [Zones] provides them over [Buddy].

    ** Loops and fuel

    Structural loops are [Fixpoint]s.  The others take fuel and give [NoFuel] when it runs out,
    which is no result, so a theorem whose conclusion is [Ret] says that the loop ends.  Such
    theorems ask for: the bytes of a table ([hwa_terminates]); the pages of a layout
    ([map_plan], [unmap_plan]) or a range ([take_all_tiles]); the orders between two block sizes
    ([split_order]); twice the logarithm of the number of nodes ([avl_map]: [enough]); the length
    of a queue ([state_move], [kf_unblock]); the keys between two bounds ([bsearch]);
    two ticks ([wait_calibrate]).  The compare-and-exchange loops of [NLVec] and [Futex], interleaved, are
    steps of a relation and have no fuel.  Invariants such as [mapper_safe] and
    [syscalls_keep_sched] speak of every run that returns, whatever its fuel; loops that
    do not end are stated as such ([log2_const_terminates], [iter_stuck], [terminate_hangs],
    [realloc_shrink_hangs]).

    ** Not modelled, and why

    - Assembly: the boot code, the entry stubs of interrupts and system calls and the
      instructions wrapped in [arch/x64/mod.rs].  What they hand to the Rust code (saved registers,
      system call arguments) is an argument of the definitions, and the instructions the
      modelled code runs are steps on the registers and devices of the model.
    - The bytes of memory, except where the code reads them: firmware tables, user data, ELF
      files and loaded sections.  Copies made by [realloc] and zeroing are not state.
    - The translation buffer ([invlpg]), and the flushing the code leaves to [cr3].
    - Pointer wrappers ([ptr.rs], [MemOwner], [id.rs]): addresses and integers here.
      Formatting ([core::fmt], [Display]) and messages.
    - Weaker memory orderings of atomics; the code asks for [Relaxed] in places.
    - [Process::spawn], [cap_info], the message system calls, most of [sys/]: [todo!()],
      [unimplemented!()] or commented out in the code.
    - [print_memory] and the test functions of [main.rs], the build script, the servers of [initrd/],
      which only print. *)

From Stdlib Require Export ZArith Lia List.
From stdpp Require Export base tactics numbers list gmap.

#[export] Set Warnings "-clear-no-such-hyp".
#[global] Open Scope Z_scope.

(** ** Outcomes

    A Rust computation either returns, panics (a failed [assert!], [unwrap],
    index or checked arithmetic), runs into undefined behaviour (an [unsafe]
    dereference of an address that holds no object of the expected type), or,
    for loops executed with fuel, has not finished yet. *)
Inductive res (A : Type) : Type :=
  | Ret (a : A)
  | Panic
  | UB
  | NoFuel.
Arguments Ret {A} a.
Arguments Panic {A}.
Arguments UB {A}.
Arguments NoFuel {A}.

#[global] Instance res_ret : MRet res := @Ret.
#[global] Instance res_bind : MBind res := λ A B f m,
  match m with
  | Ret a => f a
  | Panic => Panic
  | UB => UB
  | NoFuel => NoFuel
  end.
#[global] Instance res_fmap : FMap res := λ A B f m, m ≫= λ a, Ret (f a).

Lemma res_bind_ret {A B} (f : A → res B) a : (Ret a ≫= f) = f a.
Proof. reflexivity. Qed.

Lemma res_bind_Ret_inv {A B} (m : res A) (f : A → res B) b :
  m ≫= f = Ret b → ∃ a, m = Ret a ∧ f a = Ret b.
Proof. destruct m; simpl; intros; try discriminate; eauto. Qed.

Lemma res_bind_assoc {A B C} (m : res A) (f : A → res B) (g : B → res C) :
  (m ≫= f) ≫= g = m ≫= (λ a, f a ≫= g).
Proof. by destruct m. Qed.

(** Does the outcome carry a value? *)
Definition returns {A} (m : res A) : bool :=
  match m with Ret _ => true | _ => false end.

(** [Option::unwrap] and [Option::expect]. *)
Definition unwrap {A} (o : option A) : res A :=
  match o with Some a => Ret a | None => Panic end.

(** [assert!]. *)
Definition assert_ (b : bool) : res () := if b then Ret () else Panic.

(** ** State and outcome

    Code that mutates memory threads a state through its outcomes. *)
Definition M (S A : Type) : Type := S → res (A * S).

#[global] Instance M_ret S : MRet (M S) := λ A a s, Ret (a, s).
#[global] Instance M_bind S : MBind (M S) := λ A B f m s,
  match m s with
  | Ret (a, s') => f a s'
  | Panic => Panic
  | UB => UB
  | NoFuel => NoFuel
  end.

Definition lift {S A} (m : res A) : M S A := λ s, a ← m; Ret (a, s).
Definition get {S} : M S S := λ s, Ret (s, s).
Definition put {S} (s : S) : M S () := λ _, Ret ((), s).

Lemma M_bind_Ret {S A B} (m : M S A) (f : A → M S B) s a s' :
  m s = Ret (a, s') → (m ≫= f) s = f a s'.
Proof. intros H. unfold mbind, M_bind. by rewrite H. Qed.

Lemma M_ret_eq {S A} (a : A) (s : S) : (mret a : M S A) s = Ret (a, s).
Proof. reflexivity. Qed.

Lemma lift_Ret {S A} (a : A) (s : S) : lift (Ret a) s = Ret (a, s).
Proof. reflexivity. Qed.

Lemma M_bind_Ret_inv {S A B} (m : M S A) (f : A → M S B) s b s'' :
  (m ≫= f) s = Ret (b, s'') → ∃ a s', m s = Ret (a, s') ∧ f a s' = Ret (b, s'').
Proof.
  unfold mbind, M_bind. destruct (m s) as [[a s']| | |]; intros; try discriminate; eauto.
Qed.

(** Total correctness: [m] returns from [s] with a value and a state in [Q]. *)
Definition wp {S A} (m : M S A) (s : S) (Q : A → S → Prop) : Prop :=
  ∃ a s', m s = Ret (a, s') ∧ Q a s'.

Lemma wp_ret {S A} (a : A) (s : S) (Q : A → S → Prop) : Q a s → wp (mret a) s Q.
Proof. intros H. by exists a, s. Qed.

Lemma wp_bind {S A B} (m : M S A) (f : A → M S B) s Q :
  wp m s (λ a s', wp (f a) s' Q) → wp (m ≫= f) s Q.
Proof.
  intros (a & s' & Hm & b & s'' & Hf & HQ). exists b, s''.
  by rewrite (M_bind_Ret _ _ _ _ _ Hm).
Qed.

Lemma wp_lift {S A} (m : res A) (a : A) (s : S) (Q : A → S → Prop) :
  m = Ret a → Q a s → wp (lift m) s Q.
Proof. intros -> H. by exists a, s. Qed.

Lemma wp_get {S} (s : S) (Q : S → S → Prop) : Q s s → wp get s Q.
Proof. intros H. by exists s, s. Qed.

Lemma wp_put {S} (s s' : S) (Q : () → S → Prop) : Q () s' → wp (put s') s Q.
Proof. intros H. by exists (), s'. Qed.

Lemma wp_mono {S A} (m : M S A) s (Q Q' : A → S → Prop) :
  wp m s Q → (∀ a s', Q a s' → Q' a s') → wp m s Q'.
Proof. intros (a & s' & Hm & HQ) H. exists a, s'. eauto. Qed.

Lemma wp_det {S A} (m : M S A) s (Q : A → S → Prop) a s' :
  wp m s Q → m s = Ret (a, s') → Q a s'.
Proof. intros (b & t & Hm & HQ) Hr. rewrite Hm in Hr. by injection Hr as -> ->. Qed.

(** ** A heap of nodes

    Intrusive containers follow raw pointers to nodes: the heap maps addresses
    to nodes, [null] is address 0. *)
Abbreviation null := 0 (only parsing).

Section heap.
Context {T : Type}.
Abbreviation heap := (gmap Z T).

(** Reading through a reference: undefined if no node lives there. *)
Definition deref (a : Z) : M heap T := λ h,
  match h !! a with Some n => Ret (n, h) | None => UB end.

(** [ptr.as_ref().unwrap()]: panics on null. *)
Definition as_ref_unwrap (a : Z) : M heap Z := λ h,
  if a =? null then Panic else (deref a ≫= λ _, mret a) h.

Definition store (a : Z) (f : T → T) : M heap () := λ h,
  match h !! a with Some n => Ret ((), <[a := f n]> h) | None => UB end.

Lemma wp_deref h a nd Q : h !! a = Some nd → Q nd h → wp (deref a) h Q.
Proof. intros Ha HQ. exists nd, h. unfold deref. by rewrite Ha. Qed.

Lemma wp_store h a f nd Q :
  h !! a = Some nd → Q () (<[a := f nd]> h) → wp (store a f) h Q.
Proof. intros Ha HQ. eexists _, _. unfold store. by rewrite Ha. Qed.

Lemma wp_as_ref h a nd Q :
  a ≠ null → h !! a = Some nd → Q a h → wp (as_ref_unwrap a) h Q.
Proof.
  intros Hne Ha HQ. exists a, h. unfold as_ref_unwrap.
  destruct (Z.eqb_spec a 0); [done|]. unfold deref, mbind, M_bind. by rewrite Ha.
Qed.
End heap.

(** ** 64-bit unsigned arithmetic

    [usize], [u64] and addresses are [Z] in [0, 2^64).  The dev profile of the
    repository builds with overflow checks, the release profile
    ([run.sh release]) without: arithmetic is parametrised by the profile. *)
Abbreviation U64 := 18446744073709551616 (only parsing).
Abbreviation usize_max := 18446744073709551615 (only parsing).

Class Build := overflow_checks : bool.
Definition dev : Build := true.
Definition release : Build := false.

Definition is_usize (n : Z) : Prop := 0 <= n < U64.

Section arith.
Context {B : Build}.

Definition checked (r : Z) : res Z :=
  if (0 <=? r) && (r <? U64) then Ret r
  else if overflow_checks then Panic
  else Ret (r mod U64).

Definition uadd (a b : Z) : res Z := checked (a + b).
Definition usub (a b : Z) : res Z := checked (a - b).
Definition umul (a b : Z) : res Z := checked (a * b).

(** [a << k]: the shift amount is checked, the bits shifted out are lost. *)
Definition ushl (a k : Z) : res Z :=
  if (0 <=? k) && (k <? 64) then Ret (Z.shiftl a k mod U64)
  else if overflow_checks then Panic
  else Ret (Z.shiftl a (k mod 64) mod U64).

Lemma checked_ok r : 0 <= r < U64 → checked r = Ret r.
Proof.
  intros H. unfold checked.
  destruct (Z.leb_spec 0 r), (Z.ltb_spec r U64); simpl; reflexivity || lia.
Qed.

Lemma uadd_ok a b : 0 <= a + b < U64 → uadd a b = Ret (a + b).
Proof. apply checked_ok. Qed.
Lemma usub_ok a b : 0 <= a - b < U64 → usub a b = Ret (a - b).
Proof. apply checked_ok. Qed.
Lemma umul_ok a b : 0 <= a * b < U64 → umul a b = Ret (a * b).
Proof. apply checked_ok. Qed.

Lemma ushl_1_ok k : 0 <= k < 64 → ushl 1 k = Ret (2 ^ k).
Proof.
  intros H. unfold ushl.
  destruct (Z.leb_spec 0 k), (Z.ltb_spec k 64); simpl; try lia.
  rewrite Z.shiftl_1_l, Z.mod_small; [done|].
  split; [apply Z.pow_nonneg; lia|].
  change U64 with (2 ^ 64). apply Z.pow_lt_mono_r; lia.
Qed.

(** Whatever the profile, a returned result is a machine word. *)
Lemma checked_range r n : checked r = Ret n → is_usize n.
Proof.
  unfold checked, is_usize.
  destruct (Z.leb_spec 0 r), (Z.ltb_spec r U64); simpl;
    destruct overflow_checks; intros [= <-]; try lia;
    apply Z.mod_pos_bound; lia.
Qed.
End arith.

Create Rewrite HintDb ures.
#[export] Hint Rewrite @uadd_ok @usub_ok @umul_ok @ushl_1_ok using lia : ures.

(** [u] runs the arithmetic whose bounds [lia] can show. *)
Ltac u := repeat (progress (autorewrite with ures; cbn [mbind res_bind])).

(** [dret H] splits a hypothesis "a computation returned" into its steps. *)
Ltac dret H :=
  match type of H with
  | (_ ≫= _) = Ret _ =>
      let a := fresh "a" in let E := fresh "E" in
      apply res_bind_Ret_inv in H as (a & E & H)
  | (_ ≫= _) _ = Ret _ =>
      let a := fresh "a" in let s := fresh "s" in let E := fresh "E" in
      apply M_bind_Ret_inv in H as (a & s & E & H)
  end.

(** [zb] splits the boolean comparisons of the goal, with their meaning. *)
Ltac zb :=
  repeat match goal with
    | |- context [?a <? ?b] => destruct (Z.ltb_spec a b)
    | |- context [?a <=? ?b] => destruct (Z.leb_spec a b)
    | |- context [?a =? ?b] => destruct (Z.eqb_spec a b)
    end; cbn [andb orb negb]; try lia.

(** ** Powers of two and alignment *)
Definition pow2 (n : Z) : Prop := ∃ k, 0 <= k /\ n = 2 ^ k.

Lemma pow2_pos n : pow2 n → 0 < n.
Proof. intros (k & Hk & ->). apply Z.pow_pos_nonneg; lia. Qed.

Lemma pow2_le_divide a b : pow2 a → pow2 b → a <= b → (a | b).
Proof.
  intros (i & Hi & ->) (j & Hj & ->) Hle.
  apply Z.pow_le_mono_r_iff in Hle; [|lia|lia].
  exists (2 ^ (j - i)). rewrite <- Z.pow_add_r by lia. f_equal. lia.
Qed.

Lemma pow2_max a b : pow2 a → pow2 b → pow2 (Z.max a b).
Proof. intros Ha Hb. destruct (Z.max_spec a b) as [[_ ->]|[_ ->]]; done. Qed.

(** Two multiples of [m] that differ, differ by at least [m]. *)
Lemma divide_gap m a b : 0 < m → (m | a) → (m | b) → a < b → a + m <= b.
Proof. intros Hm [x ->] [y ->] H. assert (x < y) by nia. nia. Qed.

Lemma divide_mod0 m a : 0 < m → (m | a) ↔ a mod m = 0.
Proof. intros. symmetry. apply Z.mod_divide. lia. Qed.

(** ** Lists without duplicates *)
Section nodup.
Context {A : Type}.
Implicit Types (xs ys : list A).

Lemma NoDup_mid xs a ys :
  NoDup (xs ++ a :: ys) ↔ (a ∉ xs) ∧ (a ∉ ys) ∧ NoDup (xs ++ ys).
Proof.
  rewrite <- Permutation_middle, NoDup_cons, elem_of_app. naive_solver.
Qed.

Lemma NoDup_snoc xs a : NoDup (xs ++ [a]) ↔ (a ∉ xs) ∧ NoDup xs.
Proof. rewrite NoDup_mid, app_nil_r. pose proof (not_elem_of_nil a). naive_solver. Qed.

Lemma NoDup_app_disjoint xs ys a : NoDup (xs ++ ys) → a ∈ xs → a ∈ ys → False.
Proof. rewrite NoDup_app. intros (_ & H & _) H1 H2. exact (H a H1 H2). Qed.

(** Where the element at an index of a list sits. *)
Lemma take_mid_drop xs i a :
  xs !! i = Some a → xs = take i xs ++ a :: drop (S i) xs.
Proof. intros H. symmetry. by apply take_drop_middle. Qed.
End nodup.
