(* ===== verification/Misc.v ===== *)
(** * Machine-word helpers: [libutil/src/misc.rs]

    [align_up], [align_down], [align_of], [page_aligned], [get_bits],
    [get_bits_raw], [log2], [log2_up], [log2_const], [log2_up_const],
    [optac], [optnac] and [aligned_nonnull], on [Z] words of 64 bits.

    [bsf] and [bsr] are the x86 bit scans that the inline assembly runs.
    A [Range<usize>] [s..e] is the pair of its bounds. *)

From S2P Require Import Prelude.

Definition PAGE_SIZE : Z := 4096.

(** 64-bit complement, Rust's [!]. *)
Definition unot (n : Z) : Z := Z.lnot n mod U64.

Section misc.
Context {B : Build}.

Definition align_up (addr align : Z) : res Z :=
  a ← uadd addr align;
  a ← usub a 1;
  m ← usub align 1;
  Ret (Z.land a (unot m)).

Definition align_down (addr align : Z) : res Z :=
  m ← usub align 1;
  Ret (Z.land addr (unot m)).
End misc.

(** [bsf]: index of the lowest set bit; [bsr]: index of the highest one. *)
Definition bsf (n : Z) : Z := Z.log2 (Z.land n (- n)).
Definition bsr (n : Z) : Z := Z.log2 n.

Definition align_of (addr : Z) : Z :=
  if addr =? 0 then Z.shiftl 1 63 else Z.shiftl 1 (bsf addr).

Definition page_aligned (addr : Z) : bool := PAGE_SIZE <=? align_of addr.

(** [bits] is the range [s..e]; [wrapping_shr] is given shifts below 64. *)
Definition get_bits (n : Z) (bits : Z * Z) : Z :=
  let '(s, e) := bits in
  if e =? 0 then 0 else
  let l := if 63 <? s then 63 else s in
  let h := if 64 <? e then 63 else e - 1 in
  if h <? l then 0 else
  let temp := if h =? 63 then usize_max else Z.shiftl 1 (h + 1) - 1 in
  Z.shiftr (Z.land temp n) l.

Definition get_bits_raw (n : Z) (bits : Z * Z) : Z :=
  let '(s, e) := bits in
  let l := if 63 <? s then 63 else s in
  let h := if 63 <? e then 63 else e in
  if h <=? l then 0 else
  let temp := if h =? 63 then usize_max else Z.shiftl 1 (h + 1) - 1 in
  Z.shiftl (Z.shiftr (Z.land temp n) l) l mod U64.

Definition log2 (n : Z) : Z := if n =? 0 then 0 else bsr n.

Section log2.
Context {B : Build}.

Definition log2_up (n : Z) : res Z :=
  if n =? 1 then Ret 1
  else b ← ushl 1 (log2 n); a ← align_up n b; Ret (log2 a).

(** [while get_bits(n, out..64) > 0 { out += 1 }], with fuel. *)
Fixpoint log2_const_loop (fuel : nat) (n out : Z) : res Z :=
  match fuel with
  | O => NoFuel
  | S fuel =>
      if 0 <? get_bits n (out, 64)
      then out ← uadd out 1; log2_const_loop fuel n out
      else Ret out
  end.

Definition log2_const (fuel : nat) (n : Z) : res Z :=
  if n =? 0 then Ret 0
  else out ← log2_const_loop fuel n 0; usub out 1.

Definition log2_up_const (fuel : nat) (n : Z) : res Z :=
  if n =? 1 then Ret 1
  else
    l ← log2_const fuel n;
    b ← ushl 1 l;
    a ← align_up n b;
    log2_const fuel a.
End log2.

Definition optac {A} (opt : option A) (f : A → bool) : bool :=
  match opt with Some val => f val | None => false end.

Definition optnac {A} (opt : option A) (f : A → bool) : bool :=
  match opt with Some val => f val | None => true end.

(** [aligned_nonnull::<T>(ptr)], given [core::mem::align_of::<T>()]. *)
Definition aligned_nonnull (align_T ptr : Z) : bool :=
  (align_T =? align_of ptr) && negb (ptr =? 0).

(** ** Rounding to a power of two *)

Lemma land_unot a k :
  is_usize a → 0 <= k < 64 → Z.land a (unot (2 ^ k - 1)) = a - a mod 2 ^ k.
Proof.
  intros Ha Hk. unfold unot, is_usize in *.
  change U64 with (2 ^ 64) in *.
  rewrite <- Z.land_ones by lia.
  rewrite (Z.land_comm (Z.lnot _)), Z.land_assoc, Z.land_ones by lia.
  rewrite (Z.mod_small a) by done.
  rewrite <- Z.ldiff_land.
  replace (2 ^ k - 1) with (Z.ones k) by (rewrite Z.ones_equiv; lia).
  rewrite Z.ldiff_ones_r by lia.
  rewrite Z.shiftl_mul_pow2, Z.shiftr_div_pow2 by lia.
  pose proof (Z.div_mod a (2 ^ k)). lia.
Qed.

Lemma pow2_lt_64 k : 0 <= k → 2 ^ k < U64 → k < 64.
Proof.
  intros Hk H. change U64 with (2 ^ 64) in H.
  apply Z.pow_lt_mono_r_iff in H; lia.
Qed.

Section rounding.
Context {B : Build}.

Lemma align_down_eq a m :
  is_usize a → pow2 m → m < U64 → align_down a m = Ret (a - a mod m).
Proof.
  intros Ha Hp Hm. unfold align_down.
  pose proof (pow2_pos m Hp). destruct Hp as (k & Hk & ->).
  pose proof (pow2_lt_64 k Hk Hm). u. rewrite land_unot; [done..|lia].
Qed.

Lemma align_up_eq a m :
  0 <= a → pow2 m → a + m < U64 →
  align_up a m = Ret (a + m - 1 - (a + m - 1) mod m).
Proof.
  intros Ha Hp Hm. unfold align_up.
  pose proof (pow2_pos m Hp). destruct Hp as (k & Hk & ->).
  pose proof (pow2_lt_64 k Hk ltac:(lia)). u.
  rewrite land_unot; [done| |lia]. unfold is_usize. lia.
Qed.

(** [align_up(addr, align)] for a power of two [align] and no overflow
    returns, in both build profiles, the least multiple of [align] that is
    not below [addr]. *)
Theorem align_up_least a m :
  0 <= a → pow2 m → a + m < U64 →
  ∃ r, align_up a m = Ret r ∧ (m | r) ∧ a <= r < a + m ∧
       ∀ r', (m | r') → a <= r' → r <= r'.
Proof.
  intros Ha Hp Hm. eexists; split; [by apply align_up_eq|].
  pose proof (pow2_pos m Hp) as Hm0.
  set (x := a + m - 1).
  assert (Hdiv : (m | x - x mod m)).
  { exists (x / m). pose proof (Z.div_mod x m). lia. }
  pose proof (Z.mod_pos_bound x m Hm0) as Hmod.
  repeat split; [done|subst x; lia|subst x; lia|].
  intros r' Hr' Hle. destruct (Z.le_gt_cases (x - x mod m) r') as [|Hlt]; [done|].
  pose proof (divide_gap m r' _ Hm0 Hr' Hdiv Hlt). subst x. lia.
Qed.
End rounding.

(** ** Alignment of an address *)

Lemma bsf_pos_decomp n : 0 < n → ∃ q, n = (2 * q + 1) * 2 ^ bsf n ∧ 0 <= bsf n.
Proof.
  intros Hn. destruct n as [|p|p]; try lia. unfold bsf. clear Hn.
  induction p as [p IH|p IH|].
  - exists (Z.pos p). replace (Z.land (Z.pos p~1) (- Z.pos p~1)) with 1; [simpl; lia|].
    apply Z.bits_inj'. intros i Hi. rewrite Z.land_spec.
    destruct (Z.eq_dec i 0) as [->|]; [done|].
    replace (- Z.pos p~1) with (Z.lnot (2 * Z.pos p)) by (unfold Z.lnot; lia).
    rewrite Z.lnot_spec by lia.
    replace (Z.pos p~1) with (2 * Z.pos p + 1) by lia.
    replace i with (Z.succ (i - 1)) by lia.
    rewrite Z.testbit_odd_succ, Z.testbit_even_succ by lia.
    change 1 with (2 * 0 + 1). rewrite Z.testbit_odd_succ, Z.bits_0 by lia.
    by destruct (Z.testbit _ _).
  - destruct IH as (q & Hq & H0). exists q.
    assert (Z.land (Z.pos p~0) (- Z.pos p~0) = 2 * Z.land (Z.pos p) (- Z.pos p)) as ->.
    { replace (Z.pos p~0) with (Z.shiftl (Z.pos p) 1) by (rewrite Z.shiftl_mul_pow2; lia).
      replace (- Z.shiftl (Z.pos p) 1) with (Z.shiftl (- Z.pos p) 1)
        by (rewrite !Z.shiftl_mul_pow2; lia).
      rewrite <- Z.shiftl_land, Z.shiftl_mul_pow2; lia. }
    assert (0 < Z.land (Z.pos p) (- Z.pos p)).
    { assert (0 <= Z.land (Z.pos p) (- Z.pos p)) by (apply Z.land_nonneg; lia).
      destruct (Z.eq_dec (Z.land (Z.pos p) (- Z.pos p)) 0) as [E|]; [|lia].
      exfalso. rewrite E in Hq. simpl in Hq.
      assert (Z.testbit (Z.land (Z.pos p) (- Z.pos p)) 0 = true) as Hb; [|by rewrite E in Hb].
      rewrite Z.land_spec, !Z.bit0_odd, Z.odd_opp.
      replace (Z.pos p) with (1 + 2 * q) by lia. by rewrite Z.odd_add_mul_2. }
    rewrite Z.log2_double by done.
    rewrite Z.pow_succ_r by done. nia.
  - exists 0. simpl. lia.
Qed.

Lemma align_of_pow2 a : pow2 (align_of a).
Proof.
  unfold align_of. destruct (Z.eqb_spec a 0).
  - exists 63. split; [lia|reflexivity].
  - exists (bsf a). unfold bsf. split; [apply Z.log2_nonneg|].
    rewrite Z.shiftl_mul_pow2; [lia|apply Z.log2_nonneg].
Qed.

Lemma align_of_divide a : is_usize a → (align_of a | a).
Proof.
  intros Ha. unfold align_of. destruct (Z.eqb_spec a 0) as [->|Hne].
  - apply Z.divide_0_r.
  - destruct (bsf_pos_decomp a) as (q & Hq & H0); [unfold is_usize in Ha; lia|].
    exists (2 * q + 1). rewrite Z.shiftl_mul_pow2; lia.
Qed.

Lemma align_of_lower a p : is_usize a → pow2 p → p <= align_of a → (p | a).
Proof.
  intros Ha Hp Hle. transitivity (align_of a); [|by apply align_of_divide].
  apply pow2_le_divide; auto using align_of_pow2.
Qed.

Lemma align_of_greatest a p :
  is_usize a → pow2 p → p <= 2 ^ 63 → (p | a) → p <= align_of a.
Proof.
  intros Ha Hp Hp63 Hdiv. unfold align_of. destruct (Z.eqb_spec a 0) as [->|Hne].
  { change (Z.shiftl 1 63) with (2 ^ 63). done. }
  unfold is_usize in Ha.
  destruct (bsf_pos_decomp a) as (q & Hq & H0); [lia|].
  rewrite Z.shiftl_mul_pow2, Z.mul_1_l by done.
  destruct (Z.le_gt_cases p (2 ^ bsf a)) as [|Hgt]; [done|exfalso].
  destruct Hp as (k & Hk & ->).
  apply Z.pow_lt_mono_r_iff in Hgt; [|lia|lia].
  assert (Hd : (2 ^ (bsf a + 1) | a)).
  { transitivity (2 ^ k); [|done]. exists (2 ^ (k - (bsf a + 1))).
    rewrite <- Z.pow_add_r by lia. f_equal. lia. }
  destruct Hd as [z Hz]. rewrite Z.pow_add_r in Hz by lia.
  pose proof (Z.pow_pos_nonneg 2 (bsf a)).
  assert (2 * q + 1 = z * 2); [|lia].
  apply (Z.mul_reg_r _ _ (2 ^ bsf a)); lia.
Qed.

(** a threshold test on [align_of], as the code makes them, is a
    divisibility test: [align_of(addr) >= p] iff [p] divides [addr]. *)
Theorem align_of_ge a p :
  is_usize a → pow2 p → p <= 2 ^ 63 → (p <= align_of a ↔ (p | a)).
Proof.
  intros Ha Hp Hp63. split; [|by apply align_of_greatest].
  intros Hle. by apply align_of_lower.
Qed.

Lemma page_aligned_spec a : is_usize a → page_aligned a = true ↔ (PAGE_SIZE | a).
Proof.
  intros Ha. unfold page_aligned. rewrite Z.leb_le.
  assert (pow2 PAGE_SIZE) by by exists 12.
  split; [by apply align_of_lower|]. apply align_of_greatest; [done|done|unfold PAGE_SIZE; lia].
Qed.

(** ** Bit fields *)

Lemma get_bits_zero n : get_bits n (0, 0) = 0.
Proof. reflexivity. Qed.

Lemma get_bits_val n s e :
  is_usize n → 0 <= s → s < e → e <= 64 →
  get_bits n (s, e) = (n / 2 ^ s) mod 2 ^ (e - s).
Proof.
  intros Hn Hs Hse He. unfold get_bits.
  destruct (Z.eqb_spec e 0), (Z.ltb_spec 63 s), (Z.ltb_spec 64 e); try lia.
  destruct (Z.ltb_spec (e - 1) s); [lia|]. destruct (Z.eqb_spec (e - 1) 63).
  - assert (e = 64) as -> by lia. change usize_max with (Z.ones 64).
    unfold is_usize in Hn.
    rewrite Z.land_comm, Z.land_ones by lia.
    change (2 ^ 64) with U64. rewrite (Z.mod_small n) by done.
    rewrite Z.shiftr_div_pow2, Z.mod_small; [done| |done].
    split; [apply Z.div_pos; [lia|apply Z.pow_pos_nonneg; lia]|].
    apply Z.div_lt_upper_bound; [apply Z.pow_pos_nonneg; lia|].
    rewrite <- Z.pow_add_r by lia. replace (s + (64 - s)) with 64 by lia.
    change (2 ^ 64) with U64. lia.
  - replace (e - 1 + 1) with e by lia.
    replace (Z.shiftl 1 e - 1) with (Z.ones e)
      by (unfold Z.ones; rewrite Z.shiftl_1_l; lia).
    rewrite Z.land_comm, Z.land_ones, Z.shiftr_div_pow2 by lia.
    replace (2 ^ e) with (2 ^ s * 2 ^ (e - s)).
    + pose proof (Z.pow_pos_nonneg 2 s). pose proof (Z.pow_pos_nonneg 2 (e - s)).
      rewrite Z.rem_mul_r by lia. rewrite (Z.mul_comm (2 ^ s)), Z.div_add by lia.
      rewrite Z.div_small; [lia|]. apply Z.mod_pos_bound. lia.
    + rewrite <- Z.pow_add_r by lia. f_equal. lia.
Qed.

(** [get_bits(n, s..e)] extracts the bits [s], ..., [e - 1] of [n] as a
    number, for every range of bits of a word. *)
Theorem get_bits_spec n s e :
  is_usize n → 0 <= s → s < e → e <= 64 →
  get_bits n (s, e) = (n / 2 ^ s) mod 2 ^ (e - s).
Proof.
  intros. by apply get_bits_val.
Qed.

Lemma get_bits_range n s e :
  is_usize n → 0 <= s → s < e → e <= 64 → 0 <= get_bits n (s, e) < 2 ^ (e - s).
Proof.
  intros. rewrite get_bits_val by done. apply Z.mod_pos_bound.
  apply Z.pow_pos_nonneg; lia.
Qed.

(** Unlike [get_bits], [get_bits_raw] keeps the bit at the end of the range. *)
Lemma get_bits_raw_inclusive : get_bits_raw 255 (0, 4) = 31 ∧ get_bits 255 (0, 4) = 15.
Proof. split; reflexivity. Qed.

(** A word made of two disjoint parts. *)
Lemma lor_shiftl_add a b k : 0 <= k → 0 <= b < 2 ^ k → Z.lor (Z.shiftl a k) b = a * 2 ^ k + b.
Proof.
  intros Hk Hb. assert (Z.land (Z.shiftl a k) b = 0) as H0.
  { apply Z.bits_inj'. intros n Hn. rewrite Z.land_spec, Z.bits_0. destruct (Z.lt_ge_cases n k).
    - by rewrite Z.shiftl_spec_low by lia.
    - rewrite <- (Z.mod_small b (2 ^ k)) by done. by rewrite Z.mod_pow2_bits_high, andb_false_r by lia. }
  by rewrite <- Z.lxor_lor, <- Z.add_nocarry_lxor, Z.shiftl_mul_pow2 by done.
Qed.

(** ** Logarithms *)

Lemma get_bits_from n out :
  is_usize n → 0 <= out → get_bits n (out, 64) = n / 2 ^ Z.min out 63.
Proof.
  intros Hn Hout. unfold is_usize in Hn.
  destruct (Z.le_gt_cases out 63) as [Hle|Hgt].
  - rewrite get_bits_val by (done || lia). rewrite Z.min_l by lia.
    apply Z.mod_small. split; [apply Z.div_pos; [lia|apply Z.pow_pos_nonneg; lia]|].
    apply Z.div_lt_upper_bound; [apply Z.pow_pos_nonneg; lia|].
    rewrite <- Z.pow_add_r by lia. replace (out + (64 - out)) with 64 by lia.
    change (2 ^ 64) with U64. lia.
  - rewrite Z.min_r by lia. rewrite <- Z.shiftr_div_pow2 by lia.
    unfold get_bits. destruct (Z.ltb_spec 63 out); [|lia].
    change (Z.shiftr (Z.land (Z.ones 64) n) 63 = Z.shiftr n 63).
    rewrite Z.land_comm, Z.land_ones by lia. change (2 ^ 64) with U64.
    by rewrite Z.mod_small.
Qed.

Lemma get_bits_from_pos n out :
  is_usize n → 0 <= out → 0 < get_bits n (out, 64) ↔ 2 ^ Z.min out 63 <= n.
Proof.
  intros Hn Hout. rewrite get_bits_from by done.
  pose proof (Z.pow_pos_nonneg 2 (Z.min out 63)).
  pose proof (Z.div_mod n (2 ^ Z.min out 63)).
  pose proof (Z.mod_pos_bound n (2 ^ Z.min out 63)). nia.
Qed.

Lemma log2_const_loop_ok {B : Build} n fuel out :
  0 < n < 2 ^ 63 → 0 <= out <= Z.log2 n + 1 → Z.log2 n + 1 - out < Z.of_nat fuel →
  log2_const_loop fuel n out = Ret (Z.log2 n + 1).
Proof.
  intros Hn. pose proof (Z.log2_lt_pow2 n 63 ltac:(lia)) as Hlog.
  assert (is_usize n) by (unfold is_usize; lia).
  revert out. induction fuel as [|fuel IH]; intros out Hout Hf; [lia|]. cbn [log2_const_loop].
  pose proof (get_bits_from_pos n out ltac:(done) ltac:(lia)) as Hpos.
  pose proof (Z.log2_le_pow2 n out ltac:(lia)) as Hle.
  rewrite Z.min_l in Hpos by lia.
  destruct (Z.ltb_spec 0 (get_bits n (out, 64))).
  - u. apply IH; lia.
  - f_equal. lia.
Qed.

Lemma log2_const_loop_diverges {B : Build} n fuel out :
  2 ^ 63 <= n < U64 → 0 <= out → out + Z.of_nat fuel < U64 →
  log2_const_loop fuel n out = NoFuel.
Proof.
  intros Hn. assert (is_usize n) by (unfold is_usize; lia).
  revert out. induction fuel as [|fuel IH]; intros out Hout Hf; [done|]. cbn [log2_const_loop].
  pose proof (get_bits_from_pos n out ltac:(done) ltac:(lia)) as Hpos.
  pose proof (Z.pow_le_mono_r 2 (Z.min out 63) 63).
  destruct (Z.ltb_spec 0 (get_bits n (out, 64))); [|lia].
  u. apply IH; lia.
Qed.

(** the compile-time loop [log2_const] terminates with the binary logarithm
    exactly for words below [2^63]: for a word with the top bit set the test
    [get_bits(n, out..64) > 0] never becomes false, since the start of the range
    is clamped to 63. *)
Theorem log2_const_terminates {B : Build} n :
  0 < n < U64 →
  (n < 2 ^ 63 → log2_const 65 n = Ret (Z.log2 n)) ∧
  (2 ^ 63 <= n → ∀ fuel, Z.of_nat fuel < U64 → log2_const fuel n = NoFuel).
Proof.
  intros Hn. unfold log2_const. destruct (Z.eqb_spec n 0); [lia|]. split.
  - intros Hlt. pose proof (Z.log2_lt_pow2 n 63). pose proof (Z.log2_nonneg n).
    rewrite log2_const_loop_ok by lia. u. f_equal. lia.
  - intros Hge fuel Hf. by rewrite log2_const_loop_diverges by lia.
Qed.

Lemma log2_const_terminates_witness :
  (@log2_const dev 65 24 = Ret 4) ∧ (∀ fuel, Z.of_nat fuel < U64 → @log2_const dev fuel (2 ^ 63) = NoFuel).
Proof.
  split.
  - apply (@log2_const_terminates dev 24); lia.
  - apply (@log2_const_terminates dev (2 ^ 63)); lia.
Defined.

(** [log2_up] rounds up, except that it sends 1 to 1. *)
Lemma log2_up_spec {B : Build} n :
  1 < n <= 2 ^ 62 → log2_up n = Ret (Z.log2_up n).
Proof.
  intros Hn. unfold log2_up, log2, bsr.
  destruct (Z.eqb_spec n 1), (Z.eqb_spec n 0); try lia.
  pose proof (Z.log2_nonneg n). pose proof (Z.log2_spec n).
  assert (Z.log2 n < 63) by (apply Z.log2_lt_pow2; lia).
  rewrite ushl_1_ok by lia. cbn [mbind res_bind].
  set (b := 2 ^ Z.log2 n) in *. rewrite Z.pow_succ_r in * by lia. fold b in H0.
  rewrite align_up_eq; [|lia|by exists (Z.log2 n)|lia]. cbn [mbind res_bind].
  f_equal. destruct (Z.eq_dec n b) as [Heq|Hne].
  - assert ((n + b - 1) mod b = b - 1) as ->.
    { replace (n + b - 1) with (b - 1 + 1 * b) by lia.
      rewrite Z_mod_plus_full. apply Z.mod_small. lia. }
    replace (n + b - 1 - (b - 1)) with n by lia.
    destruct (Z.eqb_spec n 0); [lia|].
    transitivity (Z.log2_up b); [symmetry; apply Z.log2_up_pow2; lia|by rewrite <- Heq].
  - assert ((n + b - 1) mod b = n - b - 1) as ->.
    { replace (n + b - 1) with (n - b - 1 + 2 * b) by lia.
      rewrite Z_mod_plus_full. apply Z.mod_small. lia. }
    replace (n + b - 1 - (n - b - 1)) with (2 * b) by lia.
    destruct (Z.eqb_spec (2 * b) 0); [lia|]. subst b.
    rewrite <- Z.pow_succ_r, Z.log2_pow2 by lia.
    symmetry. apply Z.log2_up_unique; [lia|]. rewrite Z.pred_succ, Z.pow_succ_r by lia. lia.
Qed.

(** ** Witnesses *)

Lemma align_up_least_witness :
  ∃ r, @align_up dev 4097 4096 = Ret r ∧ (4096 | r) ∧ 4097 <= r < 4097 + 4096 ∧
       ∀ r', (4096 | r') → 4097 <= r' → r <= r'.
Proof.
  apply (@align_up_least dev 4097 4096); [lia| |lia].
  exists 12. split; [lia|reflexivity].
Defined.

Lemma align_of_ge_witness : 4096 <= align_of 12288 ↔ (4096 | 12288).
Proof.
  apply (align_of_ge 12288 4096); [unfold is_usize; lia| |lia].
  exists 12. split; [lia|reflexivity].
Defined.

Lemma get_bits_spec_witness : get_bits 0xdeadbeef (12, 21) = (0xdeadbeef / 2 ^ 12) mod 2 ^ (21 - 12).
Proof. apply (get_bits_spec 0xdeadbeef 12 21); unfold is_usize; lia. Defined.
