(* ===== verification/Atomic.v ===== *)
(** * 128-bit atomics: [libutil/src/atomic.rs]

    An [AtomicU128] is two words.  Its operations are built from [compare_swap], one
    locked instruction on both, and [swap] starts from a copy that reads the words one
    after the other.  Threads interleave at their accesses to the shared words: a thread is
    the place it has reached in an operation, [astep] runs its next access, and [arun]
    runs the threads in the order a schedule names them.

    [atomic_linearizable]: whatever the schedule, every operation that has returned took
    effect at once, at one of its own steps, torn copies included; and a thread that
    runs alone returns after at most four accesses. *)

From S2P Require Import Prelude.
From S2P Require Import Misc.

Abbreviation U128 := (2 ^ 128) (only parsing).
Definition is_u128 (n : Z) : Prop := 0 <= n < U128.

(** ** The value *)
Record AtomicU128 := mkU128 { low : Z; high : Z }.

(** [num as u64], [num.wrapping_shr(64) as u64]. *)
Definition u128_new (num : Z) : AtomicU128 := mkU128 (num mod U64) (Z.shiftr num 64 mod U64).
Definition u128_num (self : AtomicU128) : Z := Z.lor (low self) (Z.shiftl (high self) 64).
Definition u128_copy (self : AtomicU128) : AtomicU128 := u128_new (u128_num self).

#[global] Instance AtomicU128_eq_dec : EqDecision AtomicU128.
Proof. solve_decision. Defined.

(** [lock cmpxchg16b]: the zero flag, [rdx] and [rax], and the memory. *)
Definition cmpxchg16b (rdx rax rcx rbx : Z) (mem : AtomicU128) : bool * Z * Z * AtomicU128 :=
  if decide (mem = mkU128 rax rdx) then (true, rdx, rax, mkU128 rbx rcx)
  else (false, high mem, low mem, mem).

(** [compare_swap]: the memory, [cmp_with] and [result] afterwards. *)
Definition compare_swap (mem cmp_with result : AtomicU128) : bool * AtomicU128 * AtomicU128 * AtomicU128 :=
  let '(zf, rdx, rax, mem) := cmpxchg16b (high cmp_with) (low cmp_with) (high result) (low result) mem in
  (zf, mem, mkU128 rax rdx, mkU128 (low result) (high result)).

(** ** Operations *)
Inductive aop :=
  | ALoad
  | AStore (num : Z)
  | ASwap (num : Z)
  | ACompareExchange (current new : Z)
  | AFetchUpdate (f : Z → option Z).

Inductive ares := RUnit | RNum (n : Z) | ROk (n : Z) | RErr (n : Z).

(** What [swap] and [store] return of the old number. *)
Definition swap_result (o : aop) (n : Z) : ares := match o with AStore _ => RUnit | _ => RNum n end.

(** The place of a thread, with its local variables: the shared access it does next. *)
Inductive apc :=
  | PLoad (cmp_with result : AtomicU128)              (* [load], at [compare_swap] *)
  | PLow (o : aop) (num : AtomicU128)                 (* [swap], at [self.copy()]: the low word *)
  | PHigh (o : aop) (num : AtomicU128) (l : Z)        (* the high word *)
  | PSwap (o : aop) (num res : AtomicU128)            (* at [compare_swap] *)
  | PExchange (current new : AtomicU128)              (* [compare_exchange] *)
  | PUpdateLoad (f : Z → option Z) (cmp_with result : AtomicU128)   (* [fetch_update], in [load] *)
  | PUpdate (f : Z → option Z) (current new : AtomicU128)           (* in [compare_exchange] *)
  | PDone (r : ares).

(** The call of an operation, up to its first access. *)
Definition acall (o : aop) : apc :=
  match o with
  | ALoad => PLoad (u128_new 0) (u128_new 0)
  | AStore num | ASwap num => PLow o (u128_new num)
  | ACompareExchange current new => PExchange (u128_new current) (u128_new new)
  | AFetchUpdate f => PUpdateLoad f (u128_new 0) (u128_new 0)
  end.

(** [while let Some(num) = f(val)]. *)
Definition update_next (f : Z → option Z) (val : Z) : apc :=
  match f val with
  | Some num => PUpdate f (u128_new val) (u128_new num)
  | None => PDone (RErr val)
  end.

(** One access of a thread to the shared words, and what it computes until the next. *)
Definition astep (mem : AtomicU128) (p : apc) : AtomicU128 * apc :=
  match p with
  | PLoad cmp_with result =>
      let '(_, mem, cmp_with, _) := compare_swap mem cmp_with result in (mem, PDone (RNum (u128_num cmp_with)))
  | PLow o num => (mem, PHigh o num (low mem))
  | PHigh o num l => (mem, PSwap o num (u128_new (u128_num (mkU128 l (high mem)))))
  | PSwap o num res =>
      let '(ok, mem, res, num) := compare_swap mem res num in
      (mem, if ok : bool then PDone (swap_result o (u128_num res)) else PSwap o num res)
  | PExchange current new =>
      let '(ok, mem, current, _) := compare_swap mem current new in
      (mem, PDone (if ok : bool then ROk (u128_num current) else RErr (u128_num current)))
  | PUpdateLoad f cmp_with result =>
      let '(_, mem, cmp_with, _) := compare_swap mem cmp_with result in (mem, update_next f (u128_num cmp_with))
  | PUpdate f current new =>
      let '(ok, mem, current, _) := compare_swap mem current new in
      (mem, if ok : bool then PDone (ROk (u128_num current)) else update_next f (u128_num current))
  | PDone r => (mem, PDone r)
  end.

(** ** Threads *)

(** The shared words, the threads, and the operations that have returned, in the order of
    the accesses at which they did. *)
Record astate := mkAState { mem : AtomicU128; apcs : list apc; returned : list (nat * ares) }.

Definition ainit (num : Z) (ops : list aop) : astate := mkAState (u128_new num) (map acall ops) [].

Definition is_done (p : apc) : option ares := match p with PDone r => Some r | _ => None end.

(** The next access of thread [t]; a thread that has returned does none. *)
Definition athread (t : nat) (s : astate) : astate :=
  match apcs s !! t with
  | Some p =>
      match is_done p with
      | Some _ => s
      | None =>
          let '(m, p) := astep (mem s) p in
          mkAState m (<[t := p]> (apcs s))
            (returned s ++ match is_done p with Some r => [(t, r)] | None => [] end)
      end
  | None => s
  end.

Definition arun (schedule : list nat) (s : astate) : astate := fold_left (λ s t, athread t s) schedule s.

(** ** What the operations promise *)

(** An operation at once: the number afterwards, and the result. *)
Definition aspec (o : aop) (v : Z) : Z * ares :=
  match o with
  | ALoad => (v, RNum v)
  | AStore n => (n, RUnit)
  | ASwap n => (n, RNum v)
  | ACompareExchange current new => if v =? current then (new, ROk v) else (v, RErr v)
  | AFetchUpdate f => match f v with Some n => (n, ROk v) | None => (v, RErr v) end
  end.

(** The results of a sequence of operations, one at a time, are those listed, and the
    number ends as [w]. *)
Inductive at_once (ops : list aop) : Z → list (nat * ares) → Z → Prop :=
  | once_nil v : at_once ops v [] v
  | once_cons v t o r l w : ops !! t = Some o → (aspec o v).2 = r → at_once ops (aspec o v).1 l w →
      at_once ops v ((t, r) :: l) w.

Definition op_ok (o : aop) : Prop :=
  match o with
  | ALoad => True
  | AStore n | ASwap n => is_u128 n
  | ACompareExchange current new => is_u128 current ∧ is_u128 new
  | AFetchUpdate f => ∀ v n, is_u128 v → f v = Some n → is_u128 n
  end.

(** ** Lemmas *)

Definition cell_ok (c : AtomicU128) : Prop := is_usize (low c) ∧ is_usize (high c).

Lemma u128_num_add c : cell_ok c → u128_num c = high c * 2 ^ 64 + low c.
Proof. intros [Hl Hh]. unfold u128_num. rewrite Z.lor_comm. by apply lor_shiftl_add. Qed.

Lemma u128_num_range c : cell_ok c → is_u128 (u128_num c).
Proof. intros H. rewrite u128_num_add by done. destruct H. unfold is_u128, is_usize in *. lia. Qed.

Lemma u128_new_ok n : cell_ok (u128_new n).
Proof. split; apply Z.mod_pos_bound; lia. Qed.

Lemma u128_new_num c : cell_ok c → u128_new (u128_num c) = c.
Proof.
  intros H. rewrite u128_num_add by done. destruct c as [l h], H as [Hl Hh]. unfold is_usize in *. cbn [low high] in *.
  unfold u128_new. rewrite Z.shiftr_div_pow2 by lia. f_equal.
  - change U64 with (2 ^ 64). rewrite Z.add_comm, Z_mod_plus_full. apply Z.mod_small. lia.
  - rewrite Z.div_add_l, (Z.div_small l) by lia. rewrite Z.mod_small; lia.
Qed.

Lemma u128_num_new n : is_u128 n → u128_num (u128_new n) = n.
Proof.
  intros H. rewrite u128_num_add by apply u128_new_ok. unfold u128_new, is_u128 in *. cbn [low high].
  rewrite Z.shiftr_div_pow2 by lia. pose proof (Z.div_mod n (2 ^ 64) ltac:(lia)).
  rewrite (Z.mod_small (n / 2 ^ 64)); [change U64 with (2 ^ 64); lia|].
  split; [apply Z.div_pos; lia|]. apply Z.div_lt_upper_bound; lia.
Qed.

Lemma u128_new_inj c n : cell_ok c → is_u128 n → c = u128_new n ↔ u128_num c = n.
Proof.
  intros Hc Hn. split.
  - intros ->. by apply u128_num_new.
  - intros <-. by rewrite u128_new_num.
Qed.

Lemma compare_swap_eq mem c r :
  compare_swap mem c r = if decide (mem = c) then (true, r, mem, r) else (false, mem, mem, r).
Proof.
  unfold compare_swap, cmpxchg16b. destruct mem as [ml mh], c as [cl ch], r as [rl rh]. cbn [low high].
  destruct (decide _) as [E|]; [by injection E as -> ->|done].
Qed.

(** *** What a thread has computed so far *)
Definition swaps (o : aop) (n : Z) : Prop := o = AStore n ∨ o = ASwap n.

Definition pc_ok (o : aop) (p : apc) : Prop :=
  match p with
  | PLoad c r => o = ALoad ∧ c = u128_new 0 ∧ r = u128_new 0
  | PLow o' num | PHigh o' num _ | PSwap o' num _ => o' = o ∧ ∃ n, swaps o n ∧ num = u128_new n
  | PExchange c r => ∃ current new, o = ACompareExchange current new ∧ c = u128_new current ∧ r = u128_new new
  | PUpdateLoad f c r => o = AFetchUpdate f ∧ c = u128_new 0 ∧ r = u128_new 0
  | PUpdate f c r => o = AFetchUpdate f ∧ ∃ v n, is_u128 v ∧ f v = Some n ∧ c = u128_new v ∧ r = u128_new n
  | PDone _ => True
  end.

(** The accesses a thread has left if it runs alone. *)
Definition left (mem : AtomicU128) (p : apc) : nat :=
  match p with
  | PDone _ => 0
  | PLoad _ _ | PExchange _ _ => 1
  | PSwap _ _ c | PUpdate _ c _ => if decide (mem = c) then 1 else 2
  | PHigh _ _ _ | PUpdateLoad _ _ _ => 3
  | PLow _ _ => 4
  end.

(** An access that does not return leaves the number alone; one that does is the operation. *)
Definition step_ok (o : aop) (mem mem' : AtomicU128) (p' : apc) : Prop :=
  cell_ok mem' ∧
  match is_done p' with
  | Some r => aspec o (u128_num mem) = (u128_num mem', r)
  | None => mem' = mem ∧ pc_ok o p'
  end.

Lemma update_next_ok f mem :
  cell_ok mem → op_ok (AFetchUpdate f) → step_ok (AFetchUpdate f) mem mem (update_next f (u128_num mem)).
Proof.
  intros Hc Ho. split; [done|]. unfold update_next. pose proof (u128_num_range _ Hc) as Hr.
  cbn [aspec]. destruct (f (u128_num mem)) as [n|] eqn:E; cbn [is_done]; [|done].
  split; [done|]. split; [done|]. by exists (u128_num mem), n.
Qed.

Lemma astep_ok o mem p mem' p' :
  cell_ok mem → op_ok o → pc_ok o p → is_done p = None → astep mem p = (mem', p') → step_ok o mem mem' p'.
Proof.
  intros Hc Ho Hp Hd E. pose proof (u128_num_range _ Hc) as Hr.
  destruct p as [c r|o' num|o' num l|o' num c|c r|f c r|f c r|r]; cbn [astep] in E; rewrite ?compare_swap_eq in E.
  - destruct Hp as (-> & -> & ->). destruct (decide _) as [<-|]; injection E as <- <-; by split.
  - injection E as <- <-. by split.
  - injection E as <- <-. by split.
  - destruct Hp as (-> & n & Hn & ->). destruct (decide _) as [->|].
    + injection E as <- <-. split; [apply u128_new_ok|]. cbn [is_done].
      destruct Hn as [-> | ->]; cbn [aspec swap_result]; by rewrite u128_num_new by exact Ho.
    + injection E as <- <-. split; [done|]. split; [done|]. split; [done|]. by exists n.
  - destruct Hp as (a & b & -> & -> & ->). destruct Ho as [Ha Hb]. cbn [aspec].
    destruct (decide _) as [E'|E']; injection E as <- <-; (split; [first [done|apply u128_new_ok]|]); cbn [is_done aspec].
    + apply u128_new_inj in E'; [|done|done]. by rewrite E', Z.eqb_refl, u128_num_new.
    + rewrite u128_new_inj in E' by done. by apply Z.eqb_neq in E' as ->.
  - destruct Hp as (-> & -> & ->). destruct (decide _) as [<-|]; injection E as <- <-; by apply update_next_ok.
  - destruct Hp as (-> & v & n & Hv & Hf & -> & ->). destruct (decide _) as [E'|E']; injection E as <- <-; [|by apply update_next_ok].
    split; [apply u128_new_ok|]. cbn [is_done aspec]. apply u128_new_inj in E'; [|done|done]. rewrite E', Hf.
    by rewrite u128_num_new by exact (Ho v n Hv Hf).
  - done.
Qed.

Lemma left_next mem f n : cell_ok mem → n = u128_num mem → (left mem (update_next f n) <= 1)%nat.
Proof.
  intros Hc ->. unfold update_next. destruct (f _); cbn [left]; [|lia]. rewrite u128_new_num by done. by rewrite decide_True.
Qed.

Lemma left_step mem p mem' p' :
  cell_ok mem → (∀ f c r, p = PUpdateLoad f c r → c = r) → is_done p = None → astep mem p = (mem', p') →
  (left mem' p' < left mem p)%nat.
Proof.
  intros Hc Hl Hd E.
  destruct p as [c r|o' num|o' num l|o' num c|c r|f c r|f c r|r]; [..|done]; cbn [astep] in E; rewrite ?compare_swap_eq in E.
  - destruct (decide _); injection E as <- <-; cbn [left]; lia.
  - injection E as <- <-. cbn [left]. lia.
  - injection E as <- <-. cbn [left]. destruct (decide _); lia.
  - cbn [left]. destruct (decide _); injection E as <- <-; cbn [left]; [lia|]. rewrite decide_True by done. lia.
  - destruct (decide _); injection E as <- <-; cbn [left]; lia.
  - rewrite <- (Hl f c r eq_refl) in E. cbn [left]. destruct (decide (mem = c)) as [<-|]; injection E as <- <-;
      (eapply Nat.le_lt_trans; [by apply left_next|lia]).
  - cbn [left]. destruct (decide (mem = c)); injection E as <- <-; [cbn [left]; lia|].
    eapply Nat.le_lt_trans; [by apply left_next|lia].
Qed.

Lemma left_max mem p : (left mem p <= 4)%nat.
Proof. destruct p; cbn [left]; try destruct (decide _); lia. Qed.

(** *** All threads *)
Lemma once_snoc ops v l w t o r v' :
  at_once ops v l w → ops !! t = Some o → aspec o w = (v', r) → at_once ops v (l ++ [(t, r)]) v'.
Proof.
  induction 1 as [w|v t' o' r' l w Ht Hr H IH]; intros Ho E; cbn [app].
  - eapply once_cons; [done|by rewrite E|]. rewrite E. constructor.
  - eapply once_cons; [done|done|]. by apply IH.
Qed.

Record ainv (ops : list aop) (num : Z) (s : astate) : Prop := {
  ai_cell : cell_ok (mem s);
  ai_len : length (apcs s) = length ops;
  ai_once : at_once ops num (returned s) (u128_num (mem s));
  ai_pc t p o : apcs s !! t = Some p → ops !! t = Some o → pc_ok o p;
  ai_done t r : apcs s !! t = Some (PDone r) ↔ (t, r) ∈ returned s;
  ai_nodup : NoDup (returned s).*1;
}.

Lemma acall_ok o : op_ok o → pc_ok o (acall o) ∧ is_done (acall o) = None.
Proof.
  destruct o as [|n|n|c n|f]; cbn; intros _; (split; [|done]).
  - done.
  - split; [done|]. exists n. split; [by left|done].
  - split; [done|]. exists n. split; [by right|done].
  - by exists c, n.
  - done.
Qed.

Lemma ainit_inv num ops : is_u128 num → Forall op_ok ops → ainv ops num (ainit num ops).
Proof.
  intros Hn Hops. constructor; cbn [mem apcs returned ainit].
  - apply u128_new_ok.
  - by rewrite length_map.
  - rewrite u128_num_new by done. constructor.
  - intros t p o Hp Ho. rewrite list_lookup_fmap, Ho in Hp. injection Hp as <-.
    apply acall_ok. by eapply Forall_lookup_1.
  - intros t r. split; [|by intros ?%elem_of_nil]. rewrite list_lookup_fmap. destruct (ops !! t) as [o|] eqn:Eo; [|done].
    intros [= E]. pose proof (proj2 (acall_ok o ltac:(by eapply Forall_lookup_1))) as H. by rewrite E in H.
  - constructor.
Qed.

Lemma athread_inv ops num t s : Forall op_ok ops → ainv ops num s → ainv ops num (athread t s).
Proof.
  intros Hops [Hc Hl Ho Hp Hd Hn]. unfold athread. destruct (apcs s !! t) as [p|] eqn:Et; [|by constructor].
  destruct (is_done p) as [r|] eqn:Ed; [by constructor|]. destruct (astep (mem s) p) as [m' p'] eqn:E.
  assert (∃ o, ops !! t = Some o) as [o Eo].
  { apply lookup_lt_is_Some. rewrite <- Hl. by apply lookup_lt_Some in Et. }
  destruct (astep_ok o (mem s) p m' p' Hc ltac:(by eapply Forall_lookup_1) (Hp t p o Et Eo) Ed E) as [Hc' Hs].
  assert (pc_ok o p') as Hp' by (destruct p'; try done; exact (proj2 Hs)).
  assert (∀ r, (t, r) ∉ returned s) as Hnew.
  { intros r Hr. apply Hd in Hr. rewrite Et in Hr. injection Hr as ->. done. }
  constructor; cbn [mem apcs returned].
  - done.
  - by rewrite length_insert.
  - destruct (is_done p') as [r|]; [by eapply once_snoc|]. rewrite app_nil_r. by destruct Hs as [-> _].
  - intros u q o' Hu Ho'. destruct (decide (u = t)) as [->|Hne].
    + rewrite list_lookup_insert_eq in Hu by (by eapply lookup_lt_Some). injection Hu as <-. congruence.
    + rewrite list_lookup_insert_ne in Hu by done. by eapply Hp.
  - intros u r. destruct (decide (u = t)) as [->|Hne].
    + rewrite list_lookup_insert_eq by (by eapply lookup_lt_Some). rewrite elem_of_app.
      destruct p'; cbn [is_done]; split; intros H; try (by destruct H as [H|H%elem_of_nil]; [by apply Hnew in H|]); try discriminate H.
      * injection H as <-. right. apply list_elem_of_singleton. done.
      * destruct H as [H|H%list_elem_of_singleton]; [by apply Hnew in H|]. by injection H as ->.
    + rewrite list_lookup_insert_ne by done. rewrite Hd, elem_of_app. split; [by left|]. intros [H|H]; [done|].
      destruct (is_done p'); [|by apply elem_of_nil in H]. apply list_elem_of_singleton in H. by injection H as -> _.
  - rewrite fmap_app. destruct (is_done p') as [r|]; [|by rewrite app_nil_r]. apply NoDup_snoc. split; [|done].
    intros ([u r'] & Hu & Hin)%list_elem_of_fmap. cbn in Hu. subst u. by apply Hnew in Hin.
Qed.

Lemma arun_inv ops num sched s : Forall op_ok ops → ainv ops num s → ainv ops num (arun sched s).
Proof. intros Hops. revert s. induction sched as [|t l IH]; intros s Hs; [done|]. apply IH. by apply athread_inv. Qed.

Lemma solo_returns ops num t n s p :
  Forall op_ok ops → ainv ops num s → apcs s !! t = Some p → (left (mem s) p <= n)%nat →
  ∃ r, apcs (arun (repeat t n) s) !! t = Some (PDone r).
Proof.
  intros Hops. revert s p. induction n as [|n IH]; intros s p Hs Hp Hn.
  - destruct p; cbn [left] in Hn; try destruct (decide _); try lia. by exists r.
  - cbn [repeat arun fold_left]. destruct (is_done p) as [r|] eqn:Ed.
    + destruct p; try done. apply (IH _ (PDone r0)); [by apply athread_inv| |cbn; lia].
      unfold athread. by rewrite Hp.
    + destruct (astep (mem s) p) as [m' p'] eqn:E.
      assert (∃ o, ops !! t = Some o) as [o Eo].
      { apply lookup_lt_is_Some. rewrite <- (ai_len _ _ _ Hs). by apply lookup_lt_Some in Hp. }
      assert (left m' p' < left (mem s) p)%nat as Hlt.
      { eapply left_step; [apply Hs| |done|done]. intros f c r ->. pose proof (ai_pc _ _ _ Hs _ _ _ Hp Eo) as (_ & -> & ->). done. }
      apply (IH _ p'); [by apply athread_inv| |].
      * unfold athread. rewrite Hp, Ed, E. apply list_lookup_insert_eq. by eapply lookup_lt_Some.
      * unfold athread. rewrite Hp, Ed, E. cbn [mem]. lia.
Qed.

(** C10: any number of threads, each in an operation of one shared [AtomicU128], under any
    schedule of their accesses to its two words: the operations that have returned took
    effect one at a time, each at its last access, with the results of the
    specification, and the number is what they leave; an operation that has not
    returned has changed nothing; no operation returns twice; and a thread that is let
    run alone returns within four accesses. *)
Theorem atomic_linearizable num ops schedule :
  is_u128 num → Forall op_ok ops →
  let s := arun schedule (ainit num ops) in
  at_once ops num (returned s) (u128_num (mem s)) ∧
  NoDup (returned s).*1 ∧
  (∀ t r, apcs s !! t = Some (PDone r) ↔ (t, r) ∈ returned s) ∧
  ∀ t, (t < length ops)%nat → ∃ r, apcs (arun (repeat t 4) s) !! t = Some (PDone r).
Proof.
  intros Hn Hops s. pose proof (arun_inv ops num schedule _ Hops (ainit_inv num ops Hn Hops)) as Hs. fold s in Hs.
  split; [apply Hs|]. split; [apply Hs|]. split; [apply Hs|].
  intros t Ht. rewrite <- (ai_len _ _ _ Hs) in Ht. apply lookup_lt_is_Some in Ht as [p Hp].
  eapply solo_returns; [done|done|done|apply left_max].
Qed.

(** ** A torn copy *)

(** Thread 0 copies the low word of 5, thread 1 stores [2 ^ 64 + 7], thread 0 copies the high
    word: it expects [2 ^ 64 + 5], which the number never was. *)
Definition demo_aops : list aop := [ASwap 9; AStore (2 ^ 64 + 7); AFetchUpdate (λ v, if v <? 2 ^ 64 then Some (v + 1) else None)].
Definition demo_schedule : list nat := [0; 1; 1; 1; 0; 0; 0; 2; 2]%nat.

Example torn_copy :
  apcs (arun (take 5 demo_schedule) (ainit 5 demo_aops)) !! 0%nat =
    Some (PSwap (ASwap 9) (u128_new 9) (u128_new (2 ^ 64 + 5))).
Proof. vm_compute. reflexivity. Qed.

Lemma demo_aops_ok : Forall op_ok demo_aops.
Proof.
  constructor; [done|]. constructor; [done|]. constructor; [|constructor]. intros v n Hv. destruct (Z.ltb_spec v (2 ^ 64)); [|done]. intros [= <-].
  unfold is_u128 in *. lia.
Qed.

Lemma atomic_linearizable_witness :
  ∃ s, arun demo_schedule (ainit 5 demo_aops) = s ∧ returned s = [(1%nat, RUnit); (0%nat, RNum (2 ^ 64 + 7)); (2%nat, ROk 9)] ∧
    at_once demo_aops 5 (returned s) 10.
Proof.
  eexists. split; [reflexivity|]. split; [vm_compute; reflexivity|].
  pose proof (atomic_linearizable 5 demo_aops demo_schedule ltac:(done) demo_aops_ok) as [H _].
  replace (u128_num (mem (arun demo_schedule (ainit 5 demo_aops)))) with 10 in H by (vm_compute; reflexivity). exact H.
Defined.
