(* ===== verification/LinkedList.v ===== *)
(** * Intrusive doubly linked list: [libutil/src/collections/linked_list.rs]

    Nodes live in a heap ([gmap] from addresses to nodes); a list is the record
    of its [start], [end] and [len].  The operations are written on the heap the
    way the code follows and overwrites the [prev] and [next] pointers, with the
    stale [start] and [end] that [pop] leaves behind.

    [is_list h l xs] says that [l] represents the sequence of addresses [xs] in
    [h].  The theorems show that every operation implements its operation on
    sequences ([spec]), touches no node outside the list and keeps the
    payloads, and that [append] does not, since it forgets to add the lengths. *)

From S2P Require Import Prelude.

(** ** The [ListNode] trait and its safety contract *)

Class ListNode (T : Type) := {
  next_ptr : T → Z;
  set_next : Z → T → T;
  prev_ptr : T → Z;
  set_prev : Z → T → T;
}.

(** "next_ptr must return pointer value previously set by set_next, same for
    prev_ptr and set_prev": what [LinkedList] relies on.  [payload] is the rest
    of the node, which the setters leave alone. *)
Class ListNodeLaws (T P : Type) `{ListNode T} := {
  payload : T → P;
  next_set_next p n : next_ptr (set_next p n) = p;
  prev_set_prev p n : prev_ptr (set_prev p n) = p;
  next_set_prev p n : next_ptr (set_prev p n) = next_ptr n;
  prev_set_next p n : prev_ptr (set_next p n) = prev_ptr n;
  payload_set_next p n : payload (set_next p n) = payload n;
  payload_set_prev p n : payload (set_prev p n) = payload n;
}.

Record LinkedList := mkList { l_start : Z; l_end : Z; l_len : Z }.

(** The constructor of the code. *)
Definition new : LinkedList := mkList null null 0.

Section ops.
Context {B : Build} {T : Type} `{ListNode T}.
Abbreviation heap := (gmap Z T).
Abbreviation HM := (M heap).

Definition node_next (a : Z) : HM Z := n ← deref a; mret (next_ptr n).
Definition node_prev (a : Z) : HM Z := n ← deref a; mret (prev_ptr n).
Definition node_set_next (a p : Z) : HM () := store a (set_next p).
Definition node_set_prev (a p : Z) : HM () := store a (set_prev p).

Definition push (self : LinkedList) (val : Z) : HM (LinkedList * Z) :=
  start ←
    (if l_len self =? 0 then
       node_set_prev val null;;
       node_set_next val null;;
       mret val
     else
       e ← as_ref_unwrap (l_end self);
       node_set_next e val;;
       node_set_prev val (l_end self);;
       node_set_next val null;;
       mret (l_start self));
  len ← lift (uadd (l_len self) 1);
  mret (mkList start val len, val).

Definition pop (self : LinkedList) : HM (LinkedList * option Z) :=
  if l_len self =? 0 then mret (self, None) else
  let out := l_end self in
  out_ref ← as_ref_unwrap (l_end self);
  e ←
    (if 1 <? l_len self then
       e ← node_prev out_ref;
       r ← as_ref_unwrap e;
       node_set_next r null;;
       mret e
     else mret (l_end self));
  len ← lift (usub (l_len self) 1);
  mret (mkList (l_start self) e len, Some out).

Definition push_front (self : LinkedList) (val : Z) : HM (LinkedList * Z) :=
  e ←
    (if l_len self =? 0 then
       node_set_prev val null;;
       node_set_next val null;;
       mret val
     else
       s ← as_ref_unwrap (l_start self);
       node_set_prev s val;;
       node_set_next val (l_start self);;
       node_set_prev val null;;
       mret (l_end self));
  len ← lift (uadd (l_len self) 1);
  mret (mkList val e len, val).

Definition pop_front (self : LinkedList) : HM (LinkedList * option Z) :=
  if l_len self =? 0 then mret (self, None) else
  let out := l_start self in
  out_ref ← as_ref_unwrap (l_start self);
  s ←
    (if 1 <? l_len self then
       s ← node_next out_ref;
       r ← as_ref_unwrap s;
       node_set_prev r null;;
       mret s
     else mret (l_start self));
  len ← lift (usub (l_len self) 1);
  mret (mkList s (l_end self) len, Some out).

(** [node] is a [UniquePtr]: a reference to a live node. *)
Definition insert_before (self : LinkedList) (new_node node : Z)
    : HM (LinkedList * Z) :=
  lift (assert_ (negb (l_len self =? 0)));;
  len ← lift (uadd (l_len self) 1);
  p ← node_prev node;
  start ←
    (if p =? null then
       node_set_prev new_node null;;
       mret new_node
     else
       node_set_prev new_node p;;
       node_set_next p new_node;;
       mret (l_start self));
  node_set_prev node new_node;;
  node_set_next new_node node;;
  mret (mkList start (l_end self) len, new_node).

Definition insert_after (self : LinkedList) (new_node node : Z)
    : HM (LinkedList * Z) :=
  lift (assert_ (negb (l_len self =? 0)));;
  len ← lift (uadd (l_len self) 1);
  p ← node_next node;
  e ←
    (if p =? null then
       node_set_next new_node null;;
       mret new_node
     else
       node_set_next new_node p;;
       node_set_prev p new_node;;
       mret (l_end self));
  node_set_next node new_node;;
  node_set_prev new_node node;;
  mret (mkList (l_start self) e len, new_node).

Definition remove_node (self : LinkedList) (node : Z) : HM (LinkedList * Z) :=
  prev ← node_prev node;
  next ← node_next node;
  start ←
    (if prev =? null then mret next
     else p ← as_ref_unwrap prev; node_set_next p next;; mret (l_start self));
  e ←
    (if next =? null then mret prev
     else n ← as_ref_unwrap next; node_set_prev n prev;; mret (l_end self));
  len ← lift (usub (l_len self) 1);
  mret (mkList start e len, node).

Definition update_node (self : LinkedList) (old new : Z) : HM LinkedList :=
  p ← node_prev old;
  start ←
    (if p =? null then node_set_prev new null;; mret new
     else node_set_next p new;; node_set_prev new p;; mret (l_start self));
  n ← node_next old;
  e ←
    (if n =? null then node_set_next new null;; mret new
     else node_set_prev n new;; node_set_next new n;; mret (l_end self));
  mret (mkList start e (l_len self)).

(** Returns the new [self] and the new [other].  The second branch does not
    touch [self.len], as in the source. *)
Definition append (self other : LinkedList) : HM (LinkedList * LinkedList) :=
  if l_len other =? 0 then mret (self, other) else
  self' ←
    (if l_len self =? 0 then
       mret (mkList (l_start other) (l_end other) (l_len other))
     else
       e ← as_ref_unwrap (l_end self);
       node_set_next e (l_start other);;
       s ← as_ref_unwrap (l_start other);
       node_set_prev s (l_end self);;
       mret (mkList (l_start self) (l_end other) (l_len self)));
  mret (self', mkList null null 0).

(** [for _ in 0..k { node = node.next_ptr().as_ref().unwrap() }]. *)
Fixpoint follow (dir : Z → HM Z) (k : nat) (node : Z) : HM Z :=
  match k with
  | O => mret node
  | S k => p ← dir node; node ← as_ref_unwrap p; follow dir k node
  end.

Definition get_node (self : LinkedList) (index : Z) : HM Z :=
  if l_len self <=? index then lift Panic else
  i2 ← lift (umul index 2);
  if l_len self <? i2 then
    node ← as_ref_unwrap (l_end self);
    follow node_prev (Z.to_nat (l_len self - index - 1)) node
  else
    node ← as_ref_unwrap (l_start self);
    follow node_next (Z.to_nat index) node.

(** [get_node_mut] runs the same walk. *)
Definition get_node_mut := get_node.

Definition list_get (self : LinkedList) (index : Z) : HM (option Z) :=
  if l_len self <=? index then mret None
  else n ← get_node self index; mret (Some n).

Definition list_get_mut (self : LinkedList) (index : Z) : HM (option Z) :=
  if l_len self <=? index then mret None
  else n ← get_node_mut self index; mret (Some n).

(** [g] and [gm]: [get(index).expect(..)]. *)
Definition list_g (self : LinkedList) (index : Z) : HM Z :=
  o ← list_get self index; lift (unwrap o).
Definition list_gm (self : LinkedList) (index : Z) : HM Z :=
  o ← list_get_mut self index; lift (unwrap o).

Definition insert (self : LinkedList) (index val : Z)
    : HM (LinkedList * option Z) :=
  if l_len self <? index then mret (self, None) else
  if index =? 0 then r ← push_front self val; mret (r.1, Some r.2) else
  if index =? l_len self then r ← push self val; mret (r.1, Some r.2) else
  node ← get_node self index;
  r ← insert_before self val node;
  mret (r.1, Some r.2).

Definition remove (self : LinkedList) (index : Z) : HM (LinkedList * option Z) :=
  if l_len self <=? index then mret (self, None) else
  if index =? 0 then pop_front self else
  last ← lift (usub (l_len self) 1);
  if index =? last then pop self else
  node ← get_node self index;
  r ← remove_node self node;
  mret (r.1, Some r.2).

(** [Iter] and [IterMut]: [next] and [next_back] on the bounds and the number
    of nodes left. *)
Definition iter_next (it : LinkedList) : HM (LinkedList * option Z) :=
  if l_len it =? 0 then mret (it, None) else
  out ← as_ref_unwrap (l_start it);
  s ← node_next out;
  len ← lift (usub (l_len it) 1);
  mret (mkList s (l_end it) len, Some out).

Definition iter_next_back (it : LinkedList) : HM (LinkedList * option Z) :=
  if l_len it =? 0 then mret (it, None) else
  out ← as_ref_unwrap (l_end it);
  e ← node_prev out;
  len ← lift (usub (l_len it) 1);
  mret (mkList (l_start it) e len, Some out).

Definition iter (self : LinkedList) : LinkedList :=
  mkList (l_start self) (l_end self) (l_len self).
Definition iter_mut (self : LinkedList) : LinkedList :=
  mkList (l_start self) (l_end self) (l_len self).

(** A [for] loop over an iterator collects its items. *)
Fixpoint collect (fuel : nat) (it : LinkedList) : HM (list Z) :=
  match fuel with
  | O => lift NoFuel
  | S fuel =>
      r ← iter_next it;
      match r.2 with
      | None => mret []
      | Some a => rest ← collect fuel r.1; mret (a :: rest)
      end
  end.

(** Calls of [next] and [next_back] in any order. *)
Fixpoint collect_both (calls : list bool) (it : LinkedList) : HM (list (option Z)) :=
  match calls with
  | [] => mret []
  | back :: calls =>
      r ← (if back : bool then iter_next_back it else iter_next it);
      rest ← collect_both calls r.1;
      mret (r.2 :: rest)
  end.
End ops.

(** What such calls give of a sequence. *)
Fixpoint both_ends (calls : list bool) (xs : list Z) : list (option Z) :=
  match calls with
  | [] => []
  | false :: calls => head xs :: both_ends calls (tail xs)
  | true :: calls => last xs :: both_ends calls (removelast xs)
  end.

(** ** Representation of a sequence of addresses *)

Definition first_of (d : Z) (xs : list Z) : Z :=
  match xs with [] => d | a :: _ => a end.
Fixpoint last_of (d : Z) (xs : list Z) : Z :=
  match xs with [] => d | a :: xs => last_of a xs end.

Lemma first_of_app d xs ys : first_of d (xs ++ ys) = first_of (first_of d ys) xs.
Proof. by destruct xs. Qed.
Lemma last_of_app d xs ys : last_of d (xs ++ ys) = last_of (last_of d xs) ys.
Proof. revert d. induction xs; simpl; auto. Qed.
Lemma last_of_snoc d xs a : last_of d (xs ++ [a]) = a.
Proof. by rewrite last_of_app. Qed.

Lemma last_of_ne d xs : xs ≠ [] → ∃ xs', xs = xs' ++ [last_of d xs].
Proof.
  destruct xs as [|x xs _] using rev_ind; [done|].
  intros _. exists xs. by rewrite last_of_snoc.
Qed.
Lemma last_of_null xs : null ∉ xs → last_of null xs = null → xs = [].
Proof.
  destruct xs as [|x xs _] using rev_ind; [done|].
  rewrite last_of_snoc. intros H ->. set_solver.
Qed.
Lemma first_of_null xs : null ∉ xs → first_of null xs = null → xs = [].
Proof. destruct xs; simpl; [done|]. intros H ->. set_solver. Qed.

Section repr.
Context {T P : Type} `{NL : ListNode T, !ListNodeLaws T P}.
Abbreviation heap := (gmap Z T).

Definition node_at (h : heap) (a p n : Z) : Prop :=
  ∃ nd, h !! a = Some nd ∧ prev_ptr nd = p ∧ next_ptr nd = n.

(** The segment [xs] between the neighbours [pp] and [nn]. *)
Fixpoint dseg (h : heap) (pp : Z) (xs : list Z) (nn : Z) : Prop :=
  match xs with
  | [] => True
  | a :: xs => node_at h a pp (first_of nn xs) ∧ dseg h a xs nn
  end.

Definition is_list (h : heap) (l : LinkedList) (xs : list Z) : Prop :=
  l_len l = Z.of_nat (length xs) ∧ NoDup xs ∧ (null ∉ xs) ∧ dseg h null xs null ∧
  (xs ≠ [] → l_start l = first_of null xs ∧ l_end l = last_of null xs).

(** [h'] differs from [h] at most in the links of the nodes in [A]. *)
Definition only_links (h h' : heap) (A : list Z) : Prop :=
  (∀ a, a ∉ A → h' !! a = h !! a) ∧ fmap (payload (T:=T)) h' = fmap payload h.

Lemma dseg_app h pp xs ys nn :
  dseg h pp (xs ++ ys) nn ↔
  dseg h pp xs (first_of nn ys) ∧ dseg h (last_of pp xs) ys nn.
Proof.
  revert pp. induction xs as [|x xs IH]; intros pp; simpl; [tauto|].
  rewrite IH, first_of_app. tauto.
Qed.

Lemma dseg_frame h h' pp xs nn :
  (∀ a, a ∈ xs → h' !! a = h !! a) → dseg h pp xs nn → dseg h' pp xs nn.
Proof.
  revert pp. induction xs as [|x xs IH]; intros pp Hf; simpl; [done|].
  intros [(nd & Hx & Hp & Hn) Hs]. split.
  - exists nd. rewrite Hf by set_solver. done.
  - apply IH; [set_solver|done].
Qed.

Lemma dseg_insert h pp xs nn a nd :
  a ∉ xs → dseg h pp xs nn → dseg (<[a := nd]> h) pp xs nn.
Proof.
  intros Ha. apply dseg_frame. intros b Hb. apply lookup_insert_ne. set_solver.
Qed.

Lemma node_at_insert_ne h a b nd p n :
  a ≠ b → node_at h a p n → node_at (<[b := nd]> h) a p n.
Proof. intros Hne (nd' & H & ?). exists nd'. by rewrite lookup_insert_ne. Qed.

Lemma node_at_insert_eq h a nd p n :
  prev_ptr nd = p → next_ptr nd = n → node_at (<[a := nd]> h) a p n.
Proof. intros. exists nd. by rewrite lookup_insert_eq. Qed.

Lemma only_links_refl h A : only_links h h A.
Proof. by split. Qed.

Lemma only_links_insert h h' A a nd nd' :
  h' !! a = Some nd → payload nd' = payload nd → a ∈ A →
  only_links h h' A → only_links h (<[a := nd']> h') A.
Proof.
  intros Ha Hpl HA [Hout Hpay]. split.
  - intros b Hb. rewrite lookup_insert_ne; [auto|set_solver].
  - rewrite fmap_insert, Hpl, Hpay. apply insert_id.
    rewrite <- Hpay, lookup_fmap, Ha. done.
Qed.

Lemma only_links_mono h h' A A' :
  A ⊆ A' → only_links h h' A → only_links h h' A'.
Proof. intros Hs [H1 H2]. split; [set_solver|done]. Qed.

(** Another list of the same heap is framed by [only_links]. *)
Lemma is_list_frame h h' l xs A :
  only_links h h' A → (∀ a, a ∈ xs → a ∉ A) → is_list h l xs → is_list h' l xs.
Proof.
  intros [Hout _] Hd (H1 & H2 & H3 & H4 & H5). repeat split; try done.
  - eapply dseg_frame; [|done]. auto.
  - by apply H5.
  - by apply H5.
Qed.

(** *** Stepping through heap commands *)

Lemma wp_node_next (h : heap) a p n Q :
  node_at h a p n → Q n h → wp (node_next a) h Q.
Proof.
  intros (nd & Ha & Hp & Hn) HQ. apply wp_bind. eapply wp_deref; [done|].
  apply wp_ret. by rewrite Hn.
Qed.

Lemma wp_node_prev (h : heap) a p n Q :
  node_at h a p n → Q p h → wp (node_prev a) h Q.
Proof.
  intros (nd & Ha & Hp & Hn) HQ. apply wp_bind. eapply wp_deref; [done|].
  apply wp_ret. by rewrite Hp.
Qed.

(** Writing a link: the node has it, every other node is as before. *)
Lemma wp_set_next (h h0 : heap) A a p n q (Q : () → heap → Prop) :
  node_at h a p n → only_links h0 h A → a ∈ A →
  (∀ h', node_at h' a p q →
    (∀ b p' n', a ≠ b → node_at h b p' n' → node_at h' b p' n') →
    (∀ pp xs nn, a ∉ xs → dseg h pp xs nn → dseg h' pp xs nn) →
    only_links h0 h' A → Q () h') →
  wp (node_set_next a q) h Q.
Proof.
  intros (nd & Ha & Hp & Hn) HA Hin HQ. eapply wp_store; [done|]. apply HQ.
  - apply node_at_insert_eq; [by rewrite prev_set_next|apply next_set_next].
  - intros. by apply node_at_insert_ne.
  - intros. by apply dseg_insert.
  - eapply only_links_insert; eauto. apply payload_set_next.
Qed.

Lemma wp_set_prev (h h0 : heap) A a p n q (Q : () → heap → Prop) :
  node_at h a p n → only_links h0 h A → a ∈ A →
  (∀ h', node_at h' a q n →
    (∀ b p' n', a ≠ b → node_at h b p' n' → node_at h' b p' n') →
    (∀ pp xs nn, a ∉ xs → dseg h pp xs nn → dseg h' pp xs nn) →
    only_links h0 h' A → Q () h') →
  wp (node_set_prev a q) h Q.
Proof.
  intros (nd & Ha & Hp & Hn) HA Hin HQ. eapply wp_store; [done|]. apply HQ.
  - apply node_at_insert_eq; [apply prev_set_prev|by rewrite next_set_prev].
  - intros. by apply node_at_insert_ne.
  - intros. by apply dseg_insert.
  - eapply only_links_insert; eauto. apply payload_set_prev.
Qed.

Lemma node_at_as_ref (h : heap) a p n Q :
  a ≠ null → node_at h a p n → Q a h → wp (as_ref_unwrap a) h Q.
Proof. intros Hne (nd & Ha & _) HQ. by eapply wp_as_ref. Qed.
End repr.

(** [lstep] runs one heap command; the facts about the old heap are carried to
    the new one. *)
Ltac carry h :=
  repeat match goal with
  | H : node_at h ?b _ _, Ho : (∀ b p' n', ?a ≠ b → node_at h b p' n' → _) |- _ =>
      first [apply Ho in H; [|congruence] | clear H]
  | H : dseg h _ _ _, Hs : (∀ pp xs nn, ?a ∉ xs → dseg h pp xs nn → _) |- _ =>
      apply Hs in H; [|set_solver]
  end;
  repeat match goal with
  | H : (∀ b p' n', _ ≠ b → node_at h b p' n' → _) |- _ => clear H
  | H : (∀ pp xs nn, _ ∉ xs → dseg h pp xs nn → _) |- _ => clear H
  end;
  try match goal with H : only_links _ h _ |- _ => clear H end.

Ltac lset lem :=
  eapply lem; [eassumption|eassumption|set_solver|];
  lazymatch goal with |- ∀ h', node_at _ _ _ _ → (∀ b p' n', _ → node_at ?h _ _ _ → _) → _ =>
    let h' := fresh "h" in intros h' ? ? ? ?; carry h end.

Ltac lstep :=
  lazymatch goal with
  | |- wp (_ ≫= _) _ _ => apply wp_bind
  | |- wp (mret _) _ _ => apply wp_ret
  | |- wp (lift (assert_ _)) _ _ => eapply wp_lift; [zb; reflexivity|]
  | |- wp (lift _) _ _ => eapply wp_lift; [u; reflexivity|]
  | |- wp (node_next _) _ _ => eapply wp_node_next; [eassumption|]
  | |- wp (node_prev _) _ _ => eapply wp_node_prev; [eassumption|]
  | |- wp (as_ref_unwrap _) _ _ => eapply node_at_as_ref; [|eassumption|]; [congruence|]
  | |- wp (node_set_next _ _) _ _ => lset wp_set_next
  | |- wp (node_set_prev _ _) _ _ => lset wp_set_prev
  | |- wp (if ?a =? ?b then _ else _) _ _ => destruct (Z.eqb_spec a b); [try (exfalso; congruence || lia)|try (exfalso; congruence || lia)]
  | |- wp (if ?a <? ?b then _ else _) _ _ => destruct (Z.ltb_spec a b); [try (exfalso; congruence || lia)|try (exfalso; congruence || lia)]
  | |- wp (if ?a <=? ?b then _ else _) _ _ => destruct (Z.leb_spec a b); [try (exfalso; congruence || lia)|try (exfalso; congruence || lia)]
  end.

(** ** Each operation implements its operation on sequences *)
Section specs.
Context {B : Build} {T P : Type} `{NL : ListNode T, NLL : !ListNodeLaws T P}.
Abbreviation heap := (gmap Z T).
Implicit Types (h : heap) (l : LinkedList) (xs : list Z).

Lemma live_node_at h a : is_Some (h !! a) → ∃ p n, node_at h a p n.
Proof. intros [nd Hnd]. by exists (prev_ptr nd), (next_ptr nd), nd. Qed.

Lemma push_spec h l xs a :
  is_list h l xs → a ≠ null → a ∉ xs → is_Some (h !! a) →
  Z.of_nat (length xs) + 1 < U64 →
  wp (push l a) h (λ r h',
    is_list h' r.1 (xs ++ [a]) ∧ r.2 = a ∧ only_links h h' (xs ++ [a])).
Proof.
  intros (Hlen & Hnd & Hnull & Hseg & Hends) Ha Hax Hlive Hbound.
  apply live_node_at in Hlive as (p & n & Hna).
  pose proof (only_links_refl h (xs ++ [a])) as Hol.
  unfold push. lstep. lstep.
  - destruct xs; [|simpl in *; lia]. repeat lstep. unfold is_list; simpl. split_and!; try done.
    + rewrite Hlen. simpl. lia.
    + apply NoDup_singleton.
    + set_solver.
  - assert (xs ≠ []) as Hne by (intros ->; simpl in *; lia).
    destruct (Hends Hne) as [Hs He].
    destruct (last_of_ne null xs Hne) as [ys Hys]. rewrite <- He in Hys.
    set (e := l_end l) in *. clearbody e. subst xs.
    apply dseg_app in Hseg as [Hys [Hnae _]]. simpl in Hnae, Hys.
    apply NoDup_snoc in Hnd as [Hey Hndy].
    assert (e ≠ null) by set_solver. assert (a ≠ e) by set_solver.
    assert (a ∉ ys) by set_solver.
    repeat lstep. unfold is_list; simpl. split_and!; try done.
    + rewrite Hlen, !length_app. simpl. lia.
    + rewrite !NoDup_snoc. set_solver.
    + set_solver.
    + rewrite !dseg_app, last_of_snoc. simpl. done.
    + intros _. rewrite last_of_snoc, !first_of_app in *. split; [|done].
      destruct ys; simpl in *; done.
Qed.

Lemma is_list_mid h l xs a ys :
  is_list h l (xs ++ a :: ys) →
  node_at h a (last_of null xs) (first_of null ys) ∧
  dseg h null xs a ∧ dseg h a ys null ∧ a ≠ null ∧ (null ∉ xs) ∧ (null ∉ ys) ∧
  (a ∉ xs) ∧ (a ∉ ys) ∧ NoDup (xs ++ ys).
Proof.
  intros (_ & Hnd & Hnull & Hseg & _).
  apply dseg_app in Hseg as [Hxs Hseg]. simpl in Hseg. destruct Hseg as [Ha Hys].
  apply NoDup_mid in Hnd as (Hax & Hay & Hnd).
  split_and!; (done || set_solver).
Qed.

Lemma is_list_len h l xs : is_list h l xs → l_len l = Z.of_nat (length xs).
Proof. by intros [? _]. Qed.

Lemma is_list_nonempty h l xs : is_list h l xs → l_len l ≠ 0 → xs ≠ [].
Proof. intros [Hl _] Hne ->. by apply Hne. Qed.

Lemma is_list_nil h l : l_len l = 0 → is_list h l [].
Proof. intros Hl. unfold is_list. split_and!; try done; [apply NoDup_nil_2|set_solver]. Qed.

Lemma is_list_empty h l xs : is_list h l xs → l_len l = 0 → xs = [].
Proof. intros Hl H0. apply is_list_len in Hl. destruct xs; [done|simpl in *; lia]. Qed.

Lemma pop_spec h l xs :
  is_list h l xs → Z.of_nat (length xs) < U64 →
  wp (pop l) h (λ r h',
    match xs with
    | [] => is_list h' r.1 [] ∧ r.2 = None
    | _ => is_list h' r.1 (removelast xs) ∧ r.2 = Some (last_of null xs)
    end ∧ only_links h h' xs).
Proof.
  intros Hl Hbound. pose proof (only_links_refl h xs) as Hol.
  unfold pop. destruct (Z.eqb_spec (l_len l) 0) as [H0|H0].
  - pose proof (is_list_empty _ _ _ Hl H0); subst xs. apply wp_ret. by split_and!.
  - pose proof (is_list_nonempty _ _ _ Hl H0) as Hne.
    pose proof Hl as (Hlen & Hnd & Hnull & _ & Hends). specialize (Hends Hne) as [Hs He].
    destruct (last_of_ne null xs Hne) as [ys Hys]. rewrite <- He in Hys.
    set (e := l_end l) in *. clearbody e. subst xs.
    pose proof (is_list_mid _ _ _ _ _ Hl) as (Hna & Hsy & _ & Hnz & Hny & _ & Hey & _ & Hndy).
    rewrite app_nil_r in Hndy.
    assert (match ys ++ [e] with [] => False | _ => True end) by (by destruct ys).
    destruct (ys ++ [e]) as [|z zs] eqn:Hzs; [done|rewrite <- Hzs in *].
    rewrite removelast_last, last_of_snoc. rewrite length_app in Hlen. simpl in Hlen.
    rewrite length_app in Hbound. simpl in Hbound.
    lstep. lstep. lstep. lstep.
    + destruct (last_of_ne null ys) as [ws Hws]; [intros ->; simpl in *; lia|].
      set (d := last_of null ys) in *. clearbody d. subst ys.
      apply dseg_app in Hsy as [Hsw [Hnd' _]]. simpl in Hnd', Hsw.
      apply NoDup_snoc in Hndy as [Hdw Hndw].
      assert (d ≠ null) by set_solver. rewrite length_app in *. simpl in *.
      repeat lstep. unfold is_list; simpl. split_and!; try done.
      * rewrite length_app. simpl. lia.
      * by apply NoDup_snoc.
      * by apply dseg_app.
      * intros _. rewrite last_of_snoc, Hs, !first_of_app. by destruct ws.
    + assert (ys = []) as -> by (destruct ys; [done|simpl in *; lia]).
      repeat lstep. split_and!; try done. apply is_list_nil. simpl in *. lia.
Qed.

Lemma push_front_spec h l xs a :
  is_list h l xs → a ≠ null → a ∉ xs → is_Some (h !! a) →
  Z.of_nat (length xs) + 1 < U64 →
  wp (push_front l a) h (λ r h',
    is_list h' r.1 (a :: xs) ∧ r.2 = a ∧ only_links h h' (a :: xs)).
Proof.
  intros Hl Ha Hax Hlive Hbound. pose proof Hl as (Hlen & Hnd & Hnull & Hseg & Hends).
  apply live_node_at in Hlive as (p & n & Hna).
  pose proof (only_links_refl h (a :: xs)) as Hol.
  unfold push_front. lstep. lstep.
  - pose proof (is_list_empty _ _ _ Hl e); subst xs. repeat lstep.
    unfold is_list; simpl. split_and!; try done.
    + simpl in *. lia.
    + apply NoDup_singleton.
    + set_solver.
  - pose proof (is_list_nonempty _ _ _ Hl n0) as Hne.
    destruct (Hends Hne) as [Hs He]. destruct xs as [|s xs]; [done|]. simpl in Hs.
    rewrite Hs. destruct Hseg as [Hnas Hseg].
    apply NoDup_cons in Hnd as [Hsx Hndx].
    assert (s ≠ null) by set_solver. assert (a ≠ s) by set_solver.
    assert (a ∉ xs) by set_solver.
    repeat lstep. unfold is_list; simpl. split_and!; try done.
    + simpl in *. lia.
    + rewrite !NoDup_cons. set_solver.
    + set_solver.
Qed.

Lemma pop_front_spec h l xs :
  is_list h l xs → Z.of_nat (length xs) < U64 →
  wp (pop_front l) h (λ r h',
    match xs with
    | [] => is_list h' r.1 [] ∧ r.2 = None
    | a :: xs' => is_list h' r.1 xs' ∧ r.2 = Some a
    end ∧ only_links h h' xs).
Proof.
  intros Hl Hbound. pose proof (only_links_refl h xs) as Hol.
  unfold pop_front. destruct (Z.eqb_spec (l_len l) 0) as [H0|H0].
  - pose proof (is_list_empty _ _ _ Hl H0); subst xs. apply wp_ret. by split_and!.
  - pose proof (is_list_nonempty _ _ _ Hl H0) as Hne.
    pose proof Hl as (Hlen & Hnd & Hnull & Hseg & Hends). specialize (Hends Hne) as [Hs He].
    destruct xs as [|s xs]; [done|]. simpl in Hs. rewrite Hs in *.
    destruct Hseg as [Hna Hseg]. apply NoDup_cons in Hnd as [Hsx Hndx].
    assert (s ≠ null) by set_solver. simpl in Hlen, Hbound.
    lstep. lstep. lstep. lstep.
    + destruct xs as [|t xs]; [simpl in *; lia|]. destruct Hseg as [Hnt Hseg].
      apply NoDup_cons in Hndx as [Htx Hndx].
      assert (t ≠ null) by set_solver. simpl in *.
      repeat lstep. unfold is_list; simpl. split_and!; try done.
      * lia.
      * by apply NoDup_cons.
      * set_solver.
    + assert (xs = []) as -> by (destruct xs; [done|simpl in *; lia]).
      repeat lstep. split_and!; try done. apply is_list_nil. simpl in *. lia.
Qed.

Lemma is_list_ends h l xs a ys :
  is_list h l (xs ++ a :: ys) →
  l_start l = first_of a xs ∧ l_end l = last_of a ys.
Proof.
  intros (_ & _ & _ & _ & Hends). destruct Hends as [-> ->]; [by destruct xs|].
  rewrite first_of_app, last_of_app. done.
Qed.

Ltac nonempty_len Hlen := rewrite ?length_app in *; simpl length in *; try lia.

Lemma insert_before_spec h l xs a ys b :
  is_list h l (xs ++ a :: ys) → b ≠ null → b ∉ xs ++ a :: ys → is_Some (h !! b) →
  Z.of_nat (length (xs ++ a :: ys)) + 1 < U64 →
  wp (insert_before l b a) h (λ r h',
    is_list h' r.1 (xs ++ b :: a :: ys) ∧ r.2 = b ∧
    only_links h h' (xs ++ b :: a :: ys)).
Proof.
  intros Hl Hb Hbx Hlive Hbound. apply live_node_at in Hlive as (p & n & Hnb).
  pose proof (only_links_refl h (xs ++ b :: a :: ys)) as Hol.
  pose proof (is_list_len _ _ _ Hl) as Hlen.
  pose proof (is_list_ends _ _ _ _ _ Hl) as [Hs He].
  pose proof (is_list_mid _ _ _ _ _ Hl) as (Hna & Hsx & Hsy & Ha & Hnx & Hny & Hax & Hay & Hnd).
  assert (b ≠ a) by set_solver. assert (b ∉ xs) by set_solver. assert (b ∉ ys) by set_solver.
  assert (NoDup (xs ++ b :: a :: ys)).
  { rewrite NoDup_mid, NoDup_mid. set_solver. }
  unfold insert_before. nonempty_len Hlen. lstep. lstep. lstep. lstep. lstep. lstep.
  lstep. lstep.
  - apply last_of_null in e; [|done]. subst xs. simpl in *.
    repeat lstep. unfold is_list; simpl. split_and!; try done; [lia|set_solver].
  - destruct (last_of_ne null xs) as [ws Hws]; [by intros ->|].
    set (d := last_of null xs) in *. clearbody d. subst xs.
    apply dseg_app in Hsx as [Hsw [Hnad _]]. simpl in Hnad, Hsw.
    assert (d ≠ b) by set_solver. assert (d ≠ a) by set_solver.
    assert (d ∉ ys). { intros Hin. eapply (NoDup_app_disjoint _ _ d Hnd); set_solver. }
    assert (d ∉ ws).
    { apply NoDup_app in Hnd as [Hnd _]. by apply NoDup_snoc in Hnd as [? _]. }
    assert (b ∉ ws) by set_solver. assert (a ∉ ws) by set_solver.
    repeat lstep. unfold is_list; simpl. split_and!; try done.
    + rewrite !length_app in *. simpl in *. lia.
    + set_solver.
    + rewrite !dseg_app, last_of_snoc. simpl. done.
    + intros _. rewrite Hs, He, !first_of_app, !last_of_app. by destruct ws.
Qed.

Lemma insert_after_spec h l xs a ys b :
  is_list h l (xs ++ a :: ys) → b ≠ null → b ∉ xs ++ a :: ys → is_Some (h !! b) →
  Z.of_nat (length (xs ++ a :: ys)) + 1 < U64 →
  wp (insert_after l b a) h (λ r h',
    is_list h' r.1 (xs ++ a :: b :: ys) ∧ r.2 = b ∧
    only_links h h' (xs ++ a :: b :: ys)).
Proof.
  intros Hl Hb Hbx Hlive Hbound. apply live_node_at in Hlive as (p & n & Hnb).
  pose proof (only_links_refl h (xs ++ a :: b :: ys)) as Hol.
  pose proof (is_list_len _ _ _ Hl) as Hlen.
  pose proof (is_list_ends _ _ _ _ _ Hl) as [Hs He].
  pose proof (is_list_mid _ _ _ _ _ Hl) as (Hna & Hsx & Hsy & Ha & Hnx & Hny & Hax & Hay & Hnd).
  assert (b ≠ a) by set_solver. assert (b ∉ xs) by set_solver. assert (b ∉ ys) by set_solver.
  assert (NoDup (xs ++ a :: b :: ys)).
  { rewrite NoDup_mid, NoDup_mid. set_solver. }
  unfold insert_after. nonempty_len Hlen. lstep. lstep. lstep. lstep. lstep. lstep.
  lstep. lstep.
  - apply first_of_null in e; [|done]. subst ys. simpl in *.
    repeat lstep. unfold is_list; simpl. split_and!; try done.
    + rewrite !length_app in *. simpl in *. lia.
    + set_solver.
    + rewrite !dseg_app. simpl. done.
    + intros _. by rewrite Hs, first_of_app, last_of_app.
  - destruct ys as [|d ys]; [done|]. simpl in n0.
    destruct Hsy as [Hnad Hsy].
    assert (d ≠ b) by set_solver. assert (d ≠ a) by set_solver.
    assert (d ∉ xs). { intros Hin. eapply (NoDup_app_disjoint _ _ d Hnd); set_solver. }
    assert (d ∉ ys). { apply NoDup_app in Hnd as (_ & _ & Hnd). by apply NoDup_cons in Hnd as [? _]. }
    assert (b ∉ ys) by set_solver. assert (a ∉ ys) by set_solver.
    simpl first_of. repeat lstep. unfold is_list; simpl. split_and!; try done.
    + rewrite !length_app in *. simpl in *. lia.
    + set_solver.
    + rewrite !dseg_app. simpl. done.
    + intros _. rewrite Hs, He, !first_of_app, !last_of_app. by destruct xs.
Qed.

Lemma remove_node_spec h l xs a ys :
  is_list h l (xs ++ a :: ys) → Z.of_nat (length (xs ++ a :: ys)) < U64 →
  wp (remove_node l a) h (λ r h',
    is_list h' r.1 (xs ++ ys) ∧ r.2 = a ∧ only_links h h' (xs ++ ys)).
Proof.
  intros Hl Hbound. pose proof (only_links_refl h (xs ++ ys)) as Hol.
  pose proof (is_list_len _ _ _ Hl) as Hlen.
  pose proof (is_list_ends _ _ _ _ _ Hl) as [Hs He].
  pose proof (is_list_mid _ _ _ _ _ Hl) as (Hna & Hsx & Hsy & Ha & Hnx & Hny & Hax & Hay & Hnd).
  unfold remove_node. nonempty_len Hlen. lstep. lstep. lstep. lstep. lstep.
  eapply (wp_mono _ _ (λ s h', s = first_of (first_of null ys) xs ∧ dseg h' null xs (first_of null ys) ∧
      dseg h' a ys null ∧ only_links h h' (xs ++ ys))).
  { destruct (Z.eqb_spec (last_of null xs) 0).
    - apply last_of_null in e; [|done]. subst xs. by repeat lstep.
    - destruct (last_of_ne null xs) as [ws Hws]; [by intros ->|].
      set (d := last_of null xs) in *. clearbody d. subst xs.
      apply dseg_app in Hsx as [Hsw [Hnad _]]. simpl in Hnad, Hsw.
      assert (d ∉ ys). { intros Hin. eapply (NoDup_app_disjoint _ _ d Hnd); set_solver. }
      assert (d ∉ ws). { apply NoDup_app in Hnd as [Hnd _]. by apply NoDup_snoc in Hnd as [? _]. }
      repeat lstep. rewrite !dseg_app. simpl. split_and!; try done.
      rewrite Hs, !first_of_app. by destruct ws. }
  clear Hol Hsx Hsy Hna. intros s h1 (-> & Hsx & Hsy & Hol). lstep.
  eapply (wp_mono _ _ (λ e h', e = last_of (last_of null xs) ys ∧ dseg h' null xs (first_of null ys) ∧
      dseg h' (last_of null xs) ys null ∧ only_links h h' (xs ++ ys))).
  { destruct (Z.eqb_spec (first_of null ys) 0).
    - apply first_of_null in e; [|done]. subst ys. by repeat lstep.
    - destruct ys as [|d ys]; [done|]. simpl in n. destruct Hsy as [Hnad Hsy].
      assert (d ∉ xs). { intros Hin. eapply (NoDup_app_disjoint _ _ d Hnd); set_solver. }
      assert (d ∉ ys). { apply NoDup_app in Hnd as (_ & _ & Hnd). by apply NoDup_cons in Hnd as [? _]. }
      simpl first_of in *. repeat lstep. simpl. by split_and!. }
  clear Hol Hsx Hsy. intros e h2 (-> & Hsx & Hsy & Hol). repeat lstep.
  unfold is_list; simpl. split_and!; try done.
  - rewrite !length_app in *. simpl in *. lia.
  - set_solver.
  - by apply dseg_app.
  - intros _. by rewrite first_of_app, last_of_app.
Qed.

Lemma update_node_spec h l xs a ys b :
  is_list h l (xs ++ a :: ys) → b ≠ null → b ∉ xs ++ a :: ys → is_Some (h !! b) →
  wp (update_node l a b) h (λ l' h',
    is_list h' l' (xs ++ b :: ys) ∧ only_links h h' (xs ++ b :: ys)).
Proof.
  intros Hl Hb Hbx Hlive. apply live_node_at in Hlive as (p & n & Hnb).
  pose proof (only_links_refl h (xs ++ b :: ys)) as Hol.
  pose proof (is_list_len _ _ _ Hl) as Hlen.
  pose proof (is_list_ends _ _ _ _ _ Hl) as [Hs He].
  pose proof (is_list_mid _ _ _ _ _ Hl) as (Hna & Hsx & Hsy & Ha & Hnx & Hny & Hax & Hay & Hnd).
  assert (b ≠ a) by set_solver. assert (b ∉ xs) by set_solver. assert (b ∉ ys) by set_solver.
  unfold update_node. lstep. lstep. lstep.
  eapply (wp_mono _ _ (λ s h', s = first_of b xs ∧ dseg h' null xs b ∧ dseg h' a ys null ∧
      node_at h' a (last_of null xs) (first_of null ys) ∧
      (∃ q, node_at h' b (last_of null xs) q) ∧ only_links h h' (xs ++ b :: ys))).
  { destruct (Z.eqb_spec (last_of null xs) 0) as [e|e].
    - rewrite e in *. apply last_of_null in e; [|done]. subst xs.
      repeat lstep. split_and!; eauto.
    - destruct (last_of_ne null xs) as [ws Hws]; [by intros ->|].
      set (d := last_of null xs) in *. clearbody d. subst xs.
      apply dseg_app in Hsx as [Hsw [Hnad _]]. simpl in Hnad, Hsw.
      assert (d ≠ b) by set_solver. assert (d ≠ a) by set_solver.
      assert (d ∉ ys). { intros Hin. eapply (NoDup_app_disjoint _ _ d Hnd); set_solver. }
      assert (d ∉ ws). { apply NoDup_app in Hnd as [Hnd _]. by apply NoDup_snoc in Hnd as [? _]. }
      assert (b ∉ ws) by set_solver.
      repeat lstep. rewrite dseg_app. simpl. split_and!; eauto.
      rewrite Hs, !first_of_app. by destruct ws. }
  clear dependent p n. clear Hol Hsx Hsy Hna.
  intros s h1 (-> & Hsx & Hsy & Hna & (q & Hnb) & Hol). lstep. lstep. lstep.
  eapply (wp_mono _ _ (λ e h', e = last_of b ys ∧ dseg h' null xs b ∧ dseg h' b ys null ∧
      node_at h' b (last_of null xs) (first_of null ys) ∧ only_links h h' (xs ++ b :: ys))).
  { destruct (Z.eqb_spec (first_of null ys) 0) as [e|e].
    - apply first_of_null in e; [|done]. subst ys. by repeat lstep.
    - destruct ys as [|d ys]; [done|]. simpl in e. destruct Hsy as [Hnad Hsy].
      assert (d ∉ xs). { intros Hin. eapply (NoDup_app_disjoint _ _ d Hnd); set_solver. }
      assert (d ∉ ys). { apply NoDup_app in Hnd as (_ & _ & Hnd). by apply NoDup_cons in Hnd as [? _]. }
      assert (d ≠ b) by set_solver. assert (b ∉ ys) by set_solver.
      simpl first_of in *. repeat lstep. simpl. by split_and!. }
  clear Hol Hsx Hsy. intros e h2 (-> & Hsx & Hsy & Hnb' & Hol). lstep.
  split; [|done]. unfold is_list; simpl. split_and!.
  - rewrite !length_app in *. simpl in *. lia.
  - by apply NoDup_mid.
  - set_solver.
  - apply dseg_app. simpl. done.
  - intros _. rewrite first_of_app, last_of_app. done.
Qed.

(** *** Walking the list *)

Lemma first_of_drop d xs i c : xs !! i = Some c → first_of d (drop i xs) = c.
Proof. intros H. by rewrite (drop_S xs c i). Qed.

Lemma last_of_take d xs i c : xs !! i = Some c → last_of d (take (S i) xs) = c.
Proof. intros H. rewrite (take_S_r _ _ c) by done. apply last_of_snoc. Qed.

Lemma is_list_lookup h l xs i a :
  is_list h l xs → xs !! i = Some a →
  node_at h a (last_of null (take i xs)) (first_of null (drop (S i) xs)) ∧ a ≠ null.
Proof.
  intros Hl Hi. rewrite (take_mid_drop xs i a Hi) in Hl.
  apply is_list_mid in Hl as (? & _ & _ & ? & _). done.
Qed.

Lemma follow_next_spec h l xs k i a b :
  is_list h l xs → xs !! i = Some a → xs !! (i + k)%nat = Some b →
  wp (follow node_next k a) h (λ r h', r = b ∧ h' = h).
Proof.
  intros Hl. revert i a. induction k as [|k IH]; intros i a Ha Hb.
  - rewrite Nat.add_0_r in Hb. cbn [follow]. lstep. split; [congruence|done].
  - destruct (lookup_lt_is_Some_2 xs (S i)) as [c Hc].
    { apply lookup_lt_Some in Hb. lia. }
    destruct (is_list_lookup _ _ _ _ _ Hl Ha) as [Hna _].
    destruct (is_list_lookup _ _ _ _ _ Hl Hc) as [Hnc Hc0].
    rewrite (first_of_drop _ _ _ _ Hc) in Hna.
    cbn [follow]. lstep. lstep. lstep. lstep.
    apply (IH (S i)); [done|]. by rewrite <- Hb; f_equal; lia.
Qed.

Lemma follow_prev_spec h l xs k i a b :
  is_list h l xs → xs !! (i + k)%nat = Some a → xs !! i = Some b →
  wp (follow node_prev k a) h (λ r h', r = b ∧ h' = h).
Proof.
  intros Hl. revert a. induction k as [|k IH]; intros a Ha Hb.
  - rewrite Nat.add_0_r in Ha. cbn [follow]. lstep. split; [congruence|done].
  - destruct (lookup_lt_is_Some_2 xs (i + k)%nat) as [c Hc].
    { apply lookup_lt_Some in Ha. lia. }
    rewrite Nat.add_succ_r in Ha.
    destruct (is_list_lookup _ _ _ _ _ Hl Ha) as [Hna _].
    destruct (is_list_lookup _ _ _ _ _ Hl Hc) as [Hnc Hc0].
    rewrite (last_of_take _ _ _ _ Hc) in Hna.
    cbn [follow]. lstep. lstep. lstep. lstep. by apply IH.
Qed.

Lemma first_of_lookup d xs a : xs !! 0%nat = Some a → first_of d xs = a.
Proof. destruct xs; simpl; congruence. Qed.
Lemma last_of_lookup d xs a : xs !! (length xs - 1)%nat = Some a → last_of d xs = a.
Proof.
  destruct xs as [|x xs _] using rev_ind; [done|].
  rewrite length_app, last_of_snoc, lookup_app_r by (simpl; lia).
  replace (_ - _ - _)%nat with 0%nat by (simpl; lia). simpl. congruence.
Qed.

Lemma get_node_spec h l xs i a :
  is_list h l xs → 2 * Z.of_nat (length xs) < U64 → xs !! i = Some a →
  wp (get_node l (Z.of_nat i)) h (λ r h', r = a ∧ h' = h).
Proof.
  intros Hl Hbound Hi. pose proof (is_list_len _ _ _ Hl) as Hlen.
  pose proof (lookup_lt_Some _ _ _ Hi) as Hlt.
  pose proof Hl as (_ & _ & _ & _ & Hends). destruct Hends as [Hs He]; [by destruct xs|].
  unfold get_node. lstep. lstep. lstep. lstep.
  - destruct (lookup_lt_is_Some_2 xs (length xs - 1)) as [c Hc]; [lia|].
    rewrite He, (last_of_lookup _ _ _ Hc).
    destruct (is_list_lookup _ _ _ _ _ Hl Hc) as [Hnc Hc0]. lstep. lstep.
    eapply (follow_prev_spec h l xs _ i); [done| |done].
    rewrite <- Hc. f_equal. lia.
  - destruct (lookup_lt_is_Some_2 xs 0) as [c Hc]; [lia|].
    rewrite Hs, (first_of_lookup _ _ _ Hc).
    destruct (is_list_lookup _ _ _ _ _ Hl Hc) as [Hnc Hc0]. lstep. lstep.
    rewrite Nat2Z.id. by eapply (follow_next_spec h l xs _ 0).
Qed.

(** *** Iteration *)

Lemma collect_spec h pp xs nn it fuel :
  dseg h pp xs nn → null ∉ xs → l_len it = Z.of_nat (length xs) →
  (xs ≠ [] → l_start it = first_of null xs) → (length xs < fuel)%nat →
  Z.of_nat (length xs) < U64 →
  wp (collect fuel it) h (λ r h', r = xs ∧ h' = h).
Proof.
  revert pp xs it. induction fuel as [|fuel IH]; intros pp xs it Hseg Hnull Hlen Hs Hf Hb; [lia|].
  cbn [collect]. lstep. unfold iter_next. destruct xs as [|a xs].
  - destruct (Z.eqb_spec (l_len it) 0); [|simpl in *; lia]. lstep. cbn [snd]. by lstep.
  - destruct Hseg as [Hna Hseg]. rewrite Hs by done. cbn [first_of].
    assert (a ≠ null) by set_solver. simpl in Hlen, Hf, Hb.
    repeat lstep. cbn [fst snd]. repeat lstep.
    eapply (wp_mono _ _ (λ r h', r = xs ∧ h' = h)).
    + eapply IH; [done|set_solver|simpl; lia| |lia|lia].
      intros Hne. simpl. by destruct xs.
    + intros r h' [-> ->]. by lstep.
Qed.

Lemma iter_spec h l xs :
  is_list h l xs → Z.of_nat (length xs) < U64 →
  wp (collect (S (length xs)) (iter l)) h (λ r h', r = xs ∧ h' = h).
Proof.
  intros (Hlen & _ & Hnull & Hseg & Hends) Hb. eapply collect_spec; [done..| |lia|done].
  intros Hne. by apply Hends.
Qed.

(** An iterator that is used from both ends gives each node once: from the front in order,
    from the back in reverse, and nothing once the two have met. *)
Lemma collect_both_spec h calls : ∀ pp xs nn it,
  dseg h pp xs nn → null ∉ xs → l_len it = Z.of_nat (length xs) →
  (xs ≠ [] → l_start it = first_of null xs ∧ l_end it = last_of null xs) →
  Z.of_nat (length xs) < U64 →
  wp (collect_both calls it) h (λ r h', r = both_ends calls xs ∧ h' = h).
Proof.
  induction calls as [|back calls IH]; intros pp xs nn it Hseg Hnull Hlen Hends Hb; cbn [collect_both]; [by lstep|].
  apply wp_bind. destruct (Z.eqb_spec (l_len it) 0) as [H0|H0].
  - assert (xs = []) as -> by (destruct xs; simpl in *; [done|lia]).
    assert (wp (if back : bool then iter_next_back it else iter_next it) h (λ r h', r = (it, None) ∧ h' = h)) as Hnone.
    { destruct back; unfold iter_next, iter_next_back; rewrite (proj2 (Z.eqb_eq _ _) H0); by lstep. }
    eapply wp_mono; [exact Hnone|]. intros r h' [-> ->]. lstep. eapply wp_mono; [by eapply (IH pp [] nn)|].
    intros rest h' [-> ->]. lstep. by destruct back.
  - assert (xs ≠ []) as Hne by (intros ->; simpl in *; lia). destruct (Hends Hne) as [Hs He]. destruct back; cbn [both_ends].
    + destruct xs as [|a xs _] using rev_ind; [done|]. clear Hne.
      apply dseg_app in Hseg as [Hseg [Hna _]]. cbn [first_of] in Hna, Hseg.
      rewrite last_of_snoc in He. rewrite length_app in Hlen, Hb. cbn [length] in Hlen, Hb.
      unfold iter_next_back. rewrite (proj2 (Z.eqb_neq _ _) H0), He. assert (a ≠ null) by set_solver.
      repeat lstep. cbn [fst snd]. rewrite last_snoc, removelast_last. eapply wp_mono.
      * eapply (IH pp xs a); [done|set_solver|simpl; lia| |lia]. intros Hne. cbn [l_start l_end].
        rewrite Hs, first_of_app. destruct xs; [done|]. done.
      * intros rest h' [-> ->]. by lstep.
    + destruct xs as [|a xs]; [done|]. destruct Hseg as [Hna Hseg]. cbn [first_of] in Hs.
      unfold iter_next. rewrite (proj2 (Z.eqb_neq _ _) H0), Hs. assert (a ≠ null) by set_solver. simpl in Hlen, Hb.
      repeat lstep. cbn [fst snd]. eapply wp_mono.
      * eapply (IH a xs nn); [done|set_solver|simpl; lia| |lia]. intros Hne2. cbn [l_start l_end].
        rewrite He. destruct xs; [done|]. by cbn [first_of last_of].
      * intros rest h' [-> ->]. by lstep.
Qed.

Lemma iter_both_ends h l xs calls :
  is_list h l xs → Z.of_nat (length xs) < U64 → collect_both calls (iter l) h = Ret (both_ends calls xs, h).
Proof.
  intros (Hlen & _ & Hnull & Hseg & Hends) Hb.
  destruct (collect_both_spec h calls null xs null (iter l)) as (r & h' & -> & -> & ->); done.
Qed.

(** ** The contract: operations on sequences *)

Inductive list_op :=
  | OpPush (a : Z) | OpPop | OpPushFront (a : Z) | OpPopFront
  | OpInsert (i : nat) (a : Z) | OpRemove (i : nat)
  | OpInsertBefore (a b : Z) | OpInsertAfter (a b : Z)
  | OpRemoveNode (a : Z) | OpUpdateNode (a b : Z) | OpGet (i : nat).

Definition exec (o : list_op) (l : LinkedList) : M heap (LinkedList * option Z) :=
  match o with
  | OpPush a => r ← push l a; mret (r.1, Some r.2)
  | OpPop => pop l
  | OpPushFront a => r ← push_front l a; mret (r.1, Some r.2)
  | OpPopFront => pop_front l
  | OpInsert i a => insert l (Z.of_nat i) a
  | OpRemove i => remove l (Z.of_nat i)
  | OpInsertBefore a b => r ← insert_before l b a; mret (r.1, Some r.2)
  | OpInsertAfter a b => r ← insert_after l b a; mret (r.1, Some r.2)
  | OpRemoveNode a => r ← remove_node l a; mret (r.1, Some r.2)
  | OpUpdateNode a b => r ← update_node l a b; mret (r, Some b)
  | OpGet i => r ← list_get l (Z.of_nat i); mret (l, r)
  end.

(** The node an operation adds, and the node it takes as a reference. *)
Definition op_new (o : list_op) : option Z :=
  match o with
  | OpPush a | OpPushFront a | OpInsert _ a => Some a
  | OpInsertBefore _ b | OpInsertAfter _ b | OpUpdateNode _ b => Some b
  | _ => None
  end.
Definition op_ref (o : list_op) : option Z :=
  match o with
  | OpInsertBefore a _ | OpInsertAfter a _ | OpRemoveNode a | OpUpdateNode a _ => Some a
  | _ => None
  end.

(** Replace the element [a] by a sequence. *)
Fixpoint splice (a : Z) (rep xs : list Z) : list Z :=
  match xs with
  | [] => []
  | x :: xs => if x =? a then rep ++ xs else x :: splice a rep xs
  end.

Definition spec (o : list_op) (xs : list Z) : list Z * option Z :=
  match o with
  | OpPush a => (xs ++ [a], Some a)
  | OpPop => match xs with [] => ([], None) | _ => (removelast xs, Some (last_of null xs)) end
  | OpPushFront a => (a :: xs, Some a)
  | OpPopFront => match xs with [] => ([], None) | a :: xs => (xs, Some a) end
  | OpInsert i a =>
      if (length xs <? i)%nat then (xs, None) else (take i xs ++ a :: drop i xs, Some a)
  | OpRemove i => (take i xs ++ drop (S i) xs, xs !! i)
  | OpInsertBefore a b => (splice a [b; a] xs, Some b)
  | OpInsertAfter a b => (splice a [a; b] xs, Some b)
  | OpRemoveNode a => (splice a [] xs, Some a)
  | OpUpdateNode a b => (splice a [b] xs, Some b)
  | OpGet i => (xs, xs !! i)
  end.

(** The safety conditions: a node to add is live, not null and not in the
    list; a reference is to a node of the list. *)
Definition op_ok h xs (o : list_op) : Prop :=
  (∀ b, op_new o = Some b → b ≠ null ∧ (b ∉ xs) ∧ is_Some (h !! b)) ∧
  (∀ a, op_ref o = Some a → a ∈ xs).

Lemma splice_mid a rep xs ys : a ∉ xs → splice a rep (xs ++ a :: ys) = xs ++ rep ++ ys.
Proof.
  induction xs as [|x xs IH]; intros Ha; simpl.
  - by rewrite Z.eqb_refl.
  - destruct (Z.eqb_spec x a); [set_solver|]. f_equal. apply IH. set_solver.
Qed.

Lemma elem_split (a : Z) xs : a ∈ xs → ∃ ys zs, xs = ys ++ a :: zs ∧ (a ∉ ys).
Proof.
  induction xs as [|x xs IH]; [by intros ?%elem_of_nil|]. intros Ha.
  destruct (decide (x = a)) as [->|Hne].
  - exists [], xs. split; [done|apply not_elem_of_nil].
  - apply elem_of_cons in Ha as [?|Ha]; [done|].
    destruct (IH Ha) as (ys & zs & -> & Hn). exists (x :: ys), zs. split; [done|set_solver].
Qed.

Lemma removelast_take (A : Type) (xs : list A) : removelast xs = take (length xs - 1) xs.
Proof.
  destruct xs as [|x xs _] using rev_ind; [done|].
  rewrite removelast_last, length_app, Nat.add_sub. symmetry.
  by rewrite take_app_length.
Qed.

Lemma insert_spec h l xs i a :
  is_list h l xs → a ≠ null → a ∉ xs → is_Some (h !! a) →
  2 * (Z.of_nat (length xs) + 1) < U64 →
  wp (insert l (Z.of_nat i) a) h (λ r h',
    is_list h' r.1 (spec (OpInsert i a) xs).1 ∧ r.2 = (spec (OpInsert i a) xs).2 ∧
    only_links h h' (xs ++ [a])).
Proof.
  intros Hl Ha Hax Hlive Hb. pose proof (is_list_len _ _ _ Hl) as Hlen.
  unfold insert; simpl. destruct (Nat.ltb_spec (length xs) i).
  { lstep. lstep. split_and!; (done || apply only_links_refl). }
  lstep. lstep.
  - assert (i = 0%nat) as -> by lia. lstep. rewrite take_0, drop_0. simpl.
    eapply wp_mono; [by apply push_front_spec; try done; lia|].
    intros r h' (H1 & H2 & H3). lstep. simpl. split_and!; [done|congruence|].
    eapply only_links_mono; [|done]. set_solver.
  - lstep.
    + assert (i = length xs) as -> by lia. lstep. rewrite firstn_all, drop_all. simpl.
      eapply wp_mono; [by apply push_spec; try done; lia|].
      intros r h' (H1 & H2 & H3). lstep. simpl. split_and!; [done|congruence|done].
    + destruct (lookup_lt_is_Some_2 xs i) as [c Hc]; [lia|]. lstep.
      eapply wp_mono; [eapply get_node_spec; [done|lia|done]|]. intros r h' [-> ->].
      pose proof (take_mid_drop _ _ _ Hc) as Hxs. lstep.
      eapply wp_mono.
      * eapply insert_before_spec; [by rewrite <- Hxs|done|by rewrite <- Hxs|done|].
        rewrite <- Hxs. lia.
      * intros r h' (H1 & H2 & H3). lstep. simpl. rewrite (drop_S xs c i) by done.
        split_and!; [done|congruence|].
        eapply only_links_mono; [|done]. rewrite Hxs at 3. set_solver.
Qed.

Lemma remove_spec h l xs i :
  is_list h l xs → 2 * (Z.of_nat (length xs) + 1) < U64 →
  wp (remove l (Z.of_nat i)) h (λ r h',
    is_list h' r.1 (spec (OpRemove i) xs).1 ∧ r.2 = (spec (OpRemove i) xs).2 ∧
    only_links h h' xs).
Proof.
  intros Hl Hb. pose proof (is_list_len _ _ _ Hl) as Hlen. unfold remove; simpl. lstep.
  { rewrite take_ge, drop_ge, app_nil_r by lia. rewrite lookup_ge_None_2 by lia.
    lstep. split_and!; (done || apply only_links_refl). }
  lstep.
  - assert (i = 0%nat) as -> by lia.
    eapply wp_mono; [by apply pop_front_spec; try done; lia|].
    intros r h' [H1 H2]. destruct xs; simpl in *; [lia|]. naive_solver.
  - lstep. lstep. lstep.
    + assert (i = (length xs - 1)%nat) as -> by lia.
      eapply wp_mono; [by apply pop_spec; try done; lia|].
      intros r h' [H1 H2]. destruct xs as [|x xs _] using rev_ind; simpl in *; [lia|].
      rewrite removelast_last, last_of_snoc in H1.
      assert (is_list h' r.1 xs ∧ r.2 = Some x) as [H1' H1''] by (destruct xs; exact H1).
      rewrite length_app in *. simpl in *. rewrite Nat.add_sub.
      rewrite take_app_length, drop_ge, app_nil_r by (rewrite length_app; simpl; lia).
      split_and!; [done| |done].
      by rewrite lookup_app_r, Nat.sub_diag.
    + destruct (lookup_lt_is_Some_2 xs i) as [c Hc]; [lia|]. lstep.
      eapply wp_mono; [eapply get_node_spec; [done|lia|done]|]. intros r h' [-> ->].
      pose proof (take_mid_drop _ _ _ Hc) as Hxs. lstep.
      eapply wp_mono.
      * eapply remove_node_spec; [by rewrite <- Hxs|]. rewrite <- Hxs. lia.
      * intros r h' (H1 & H2 & H3). lstep. simpl. split_and!; [done|congruence|].
        eapply only_links_mono; [|done]. rewrite Hxs at 3. set_solver.
Qed.

Lemma list_get_spec h l xs i :
  is_list h l xs → 2 * (Z.of_nat (length xs) + 1) < U64 →
  wp (list_get l (Z.of_nat i)) h (λ r h', r = xs !! i ∧ h' = h).
Proof.
  intros Hl Hb. pose proof (is_list_len _ _ _ Hl) as Hlen. unfold list_get. lstep.
  - rewrite lookup_ge_None_2 by lia. by lstep.
  - destruct (lookup_lt_is_Some_2 xs i) as [c Hc]; [lia|]. lstep.
    eapply wp_mono; [eapply get_node_spec; [done|lia|done]|]. intros r h' [-> ->].
    by lstep.
Qed.


(** iterating a list visits exactly its nodes, in order, and leaves the
    heap alone. *)
Theorem iter_visits_all h l xs :
  is_list h l xs → Z.of_nat (length xs) < U64 →
  collect (S (length xs)) (iter l) h = Ret (xs, h).
Proof. intros Hl Hb. by destruct (iter_spec h l xs Hl Hb) as (r & h' & -> & -> & ->). Qed.

Lemma append_spec h l1 l2 xs ys :
  is_list h l1 xs → is_list h l2 ys → xs ≠ [] → ys ≠ [] → NoDup (xs ++ ys) →
  wp (append l1 l2) h (λ r h',
    dseg h' null (xs ++ ys) null ∧
    r = (mkList (first_of null xs) (last_of null ys) (Z.of_nat (length xs)), new)).
Proof.
  intros H1 H2 Hx Hy Hnd.
  destruct l1 as [st1 en1 n1], l2 as [st2 en2 n2].
  pose proof H1 as (Hlen1 & _ & Hn1 & Hs1 & Hends1). destruct (Hends1 Hx) as [E1 E2].
  pose proof H2 as (Hlen2 & _ & Hn2 & Hs2 & Hends2). destruct (Hends2 Hy) as [E3 E4].
  simpl in *. subst st1 en1 st2 en2.
  pose proof (only_links_refl h (xs ++ ys)) as Hol.
  destruct (last_of_ne null xs Hx) as [ws Hws].
  set (d := last_of null xs) in *. clearbody d. subst xs.
  destruct ys as [|c ys]; [done|]. simpl first_of in *. simpl last_of in *.
  rewrite length_app in Hlen1. simpl in Hlen1, Hlen2.
  apply dseg_app in Hs1 as [Hsw [Hnad _]]. simpl in Hsw, Hnad. destruct Hs2 as [Hnac Hsy].
  assert (d ≠ null) by set_solver. assert (c ≠ null) by set_solver.
  assert (d ≠ c) by (intros ->; eapply (NoDup_app_disjoint _ _ c Hnd); set_solver).
  assert (d ∉ ys) by (intros Hin; eapply (NoDup_app_disjoint _ _ d Hnd); set_solver).
  assert (c ∉ ws) by (intros Hin; eapply (NoDup_app_disjoint _ _ c Hnd); set_solver).
  apply NoDup_app in Hnd as (Hndw & _ & Hndy).
  apply NoDup_snoc in Hndw as [Hdw _]. apply NoDup_cons in Hndy as [Hcy _].
  unfold append. cbn [l_len l_start l_end] in *. repeat lstep. split.
  - rewrite !dseg_app, last_of_snoc. simpl. done.
  - rewrite length_app. simpl. f_equal. rewrite Hlen1. done.
Qed.

(** [append] links the nodes of both lists but keeps the length of the
    first one, so iterating over the result visits the nodes of the first
    list only: the appended nodes are out of reach, and the second list is
    left empty. *)
Theorem append_drops_other h l1 l2 xs ys :
  is_list h l1 xs → is_list h l2 ys → xs ≠ [] → ys ≠ [] → NoDup (xs ++ ys) →
  Z.of_nat (length xs) < U64 →
  ∃ l1' l2' h', append l1 l2 h = Ret ((l1', l2'), h') ∧
    dseg h' null (xs ++ ys) null ∧ is_list h' l2' [] ∧
    collect (S (length xs)) (iter l1') h' = Ret (xs, h').
Proof.
  intros H1 H2 Hx Hy Hnd Hb.
  destruct (append_spec h l1 l2 xs ys H1 H2 Hx Hy Hnd) as (r & h' & Hrun & Hseg & ->).
  eexists _, _, h'. split; [exact Hrun|]. split; [done|]. split; [by apply is_list_nil|].
  apply dseg_app in Hseg as [Hseg _].
  destruct H1 as (_ & _ & Hnull & _).
  destruct (collect_spec h' null xs (first_of null ys)
    (iter (mkList (first_of null xs) (last_of null ys) (Z.of_nat (length xs)))) (S (length xs)))
    as (r & h'' & Hc & -> & ->); try done. lia.
Qed.
End specs.

(** ** The node of the allocators

    [struct Node { prev, next, size }] of [heap.rs] and [phys_alloc.rs], with the
    accessors that [impl_list_node!] generates. *)
Record Node := mkNode { n_prev : Z; n_next : Z; n_size : Z }.

#[export] Instance Node_ListNode : ListNode Node := {
  next_ptr := n_next;
  set_next p n := mkNode (n_prev n) p (n_size n);
  prev_ptr := n_prev;
  set_prev p n := mkNode p (n_next n) (n_size n);
}.

#[export] Instance Node_ListNodeLaws : ListNodeLaws Node Z.
Proof. by refine {| payload := n_size |}. Defined.

(** ** Witnesses *)

(** Three nodes, the first two in a list. *)
Definition demo_heap : gmap Z Node :=
  {[ 16 := mkNode 0 48 7; 48 := mkNode 16 0 8; 80 := mkNode 0 0 9 ]}.
Definition demo_list : LinkedList := mkList 16 48 2.

Lemma demo_is_list : is_list demo_heap demo_list [16; 48].
Proof.
  unfold is_list. split; [done|]. split; [by apply (bool_decide_unpack _)|].
  split; [by apply (bool_decide_unpack _)|]. split; [|done].
  repeat split; eexists; repeat split; reflexivity.
Qed.

Lemma demo_other : is_list demo_heap (mkList 80 80 1) [80].
Proof.
  unfold is_list. split; [done|]. split; [by apply (bool_decide_unpack _)|].
  split; [by apply (bool_decide_unpack _)|]. split; [|done].
  repeat split; eexists; repeat split; reflexivity.
Qed.


Lemma iter_visits_all_witness :
  @collect dev _ _ 3 (iter demo_list) demo_heap = Ret ([16; 48], demo_heap).
Proof.
  apply (iter_visits_all (B:=dev) demo_heap demo_list [16; 48]); [exact demo_is_list|done].
Defined.

Lemma append_drops_other_witness :
  ∃ l1' l2' h', append demo_list (mkList 80 80 1) demo_heap = Ret ((l1', l2'), h') ∧
    dseg h' 0 ([16; 48] ++ [80]) 0 ∧ is_list h' l2' [] ∧
    @collect dev _ _ 3 (iter l1') h' = Ret ([16; 48], h').
Proof.
  apply (append_drops_other (B:=dev) demo_heap demo_list (mkList 80 80 1) [16; 48] [80]);
    try done; [exact demo_is_list|exact demo_other|by apply (bool_decide_unpack _)].
Defined.
