(* ===== verification/AvlTreeBalance.v ===== *)
(** * The AVL tree: rotations, rebalancing and the walk to the root

    The commands of [AvlTree] that restore the balance keep the nodes and their
    order, produce a tree that is AVL, and touch no other node. *)

From S2P Require Import Prelude AvlTree.

(** [lassoc] compares lists up to associativity. *)
Ltac lassoc := simpl; repeat (rewrite <- app_assoc; simpl); done.

(** What [node_rebalance] does to heights and balance factors. *)
Definition rebalanced {K} (t t1 : tree K) (child : Z) : Prop :=
  (-1 <= bal t <= 1 ∧ bal t1 = bal t ∧ height t1 = height t) ∨
  (Z.abs (bal t) = 2 ∧ child = 0 ∧ Z.abs (bal t1) = 1 ∧ height t1 = height t) ∨
  (Z.abs (bal t) = 2 ∧ child ≠ 0 ∧ bal t1 = 0 ∧ height t1 = height t - 1).

(** [heights] computes heights and balance factors. *)
Ltac heights :=
  cbn [avl height bal rot_right_bal rot_left_bal fst snd] in *;
  repeat match goal with
    | t : tree _ |- _ =>
        assert_fails (assert (0 <= height t) by assumption); pose proof (height_nonneg t)
    end;
  unfold rebalanced; cbn [height bal]; destruct_and?; repeat split; try assumption; try lia.

Section rebalancing.
Context {B : Build} {K : Type} `{Ord K}.
Abbreviation heap := (gmap Z (tnode K)).
Implicit Types (h : heap) (t l r : tree K).

Lemma same_off_trans X h1 h2 h3 : same_off X h1 h2 → same_off X h2 h3 → same_off X h1 h3.
Proof. intros H1 H2 a Ha. by rewrite H2, H1. Qed.

Lemma same_off_sub X Y h1 h2 : same_off X h1 h2 → (∀ a, a ∈ X → a ∈ Y) → same_off Y h1 h2.
Proof. intros H1 Hs a Ha. apply H1. auto. Qed.

Lemma same_off_store X h a n : a ∈ X → same_off X h (<[a := n]> h).
Proof. intros Ha b Hb. rewrite lookup_insert_ne; [done|]. by intros ->. Qed.

Lemma elems_rot_right l c kc bc m a ka ba r b1 b2 :
  elems (Node (Node l c kc bc m) a ka ba r) = elems (Node l c kc b1 (Node m a ka b2 r)).
Proof. simpl. by rewrite <- app_assoc. Qed.

Lemma elems_addrs t t' : elems t = elems t' → addrs t = addrs t'.
Proof. unfold addrs. by intros ->. Qed.

Lemma node_nodup l a k b r :
  NoDup (addrs (Node l a k b r)) →
  NoDup (addrs l) ∧ NoDup (addrs r) ∧ (a ∉ addrs l) ∧ (a ∉ addrs r) ∧ ∀ x, x ∈ addrs l → x ∉ addrs r.
Proof.
  rewrite addrs_node. intros Hnd. nd. repeat split; try done; intros.
  - intros Hx. by apply (H1 a); mem.
  - intros Hx. by apply (H1 x); mem.
Qed.

Lemma node_not_null l a k b r :
  null ∉ addrs (Node l a k b r) → a ≠ null ∧ (null ∉ addrs l) ∧ null ∉ addrs r.
Proof. rewrite addrs_node, elem_of_app, elem_of_cons. intuition. Qed.

(** Replacing a subtree by another one on the same nodes. *)
Lemma rep_new_left h h1 p l a k b r l1 :
  rep h p (Node l a k b r) → NoDup (addrs (Node l a k b r)) →
  same_off (addrs l) h h1 → rep h1 a l1 → elems l1 = elems l →
  rep (<[a := mkT p (ptr l1) (ptr r) k b]> h1) p (Node l1 a k b r).
Proof.
  intros (Ha & Hl & Hr) Hnd Hs Hl1 He. destruct (node_nodup _ _ _ _ _ Hnd) as (_ & _ & Hal & Har & Hlr).
  split; [by rewrite lookup_insert_eq|]. split.
  - eapply rep_same; [|done]. rewrite (elems_addrs _ _ He). hsame.
  - eapply rep_same; [|done]. intros x Hx. rewrite lookup_insert_ne by ne. apply Hs. intros Hx'. by apply (Hlr x).
Qed.

Lemma rep_new_right h h1 p l a k b r r1 :
  rep h p (Node l a k b r) → NoDup (addrs (Node l a k b r)) →
  same_off (addrs r) h h1 → rep h1 a r1 → elems r1 = elems r →
  rep (<[a := mkT p (ptr l) (ptr r1) k b]> h1) p (Node l a k b r1).
Proof.
  intros (Ha & Hl & Hr) Hnd Hs Hr1 He. destruct (node_nodup _ _ _ _ _ Hnd) as (_ & _ & Hal & Har & Hlr).
  split; [by rewrite lookup_insert_eq|]. split.
  - eapply rep_same; [|done]. intros x Hx. rewrite lookup_insert_ne by ne. apply Hs. by apply Hlr.
  - eapply rep_same; [|done]. rewrite (elems_addrs _ _ He). hsame.
Qed.

(** Does the new heap hold a rebalanced tree of the same nodes? *)
Definition rebalance_post h p t child (q : Z) h' : Prop :=
  ∃ t1, q = ptr t1 ∧ rep h' p t1 ∧ same_off (addrs t) h h' ∧
    elems t1 = elems t ∧ avl t1 ∧ rebalanced t t1 child.

Lemma wp_rotate_right h p l c kc bc m a ka ba r child :
  let t := Node (Node l c kc bc m) a ka ba r in
  let t1 := Node l c kc (rot_right_bal ba bc).2 (Node m a ka (rot_right_bal ba bc).1 r) in
  rep h p t → NoDup (addrs t) → null ∉ addrs t → -3 <= ba <= 3 → -3 <= bc <= 3 →
  avl t1 → ∀ t0, elems t0 = elems t → rebalanced t0 t1 child →
  ∀ h0, same_off (addrs t) h0 h →
  wp (rotate_right a) h (rebalance_post h0 p t0 child).
Proof.
  intros t t1 Hrep Hnd Hnull Hba Hbc Ht1 t0 He Hr h0 Hs.
  eapply wp_mono; [by apply rotate_right_ok|]. intros q h' (-> & Hrep' & Hs').
  exists t1. rewrite (elems_addrs _ _ He). refine (conj eq_refl (conj Hrep' (conj _ (conj _ (conj Ht1 Hr))))).
  - by eapply same_off_trans.
  - rewrite He. symmetry. apply elems_rot_right.
Qed.

Lemma wp_rotate_left h p l a ka ba m c kc bc r child :
  let t := Node l a ka ba (Node m c kc bc r) in
  let t1 := Node (Node l a ka (rot_left_bal ba bc).1 m) c kc (rot_left_bal ba bc).2 r in
  rep h p t → NoDup (addrs t) → null ∉ addrs t → -3 <= ba <= 3 → -3 <= bc <= 3 →
  avl t1 → ∀ t0, elems t0 = elems t → rebalanced t0 t1 child →
  ∀ h0, same_off (addrs t) h0 h →
  wp (rotate_left a) h (rebalance_post h0 p t0 child).
Proof.
  intros t t1 Hrep Hnd Hnull Hba Hbc Ht1 t0 He Hr h0 Hs.
  eapply wp_mono; [by apply rotate_left_ok|]. intros q h' (-> & Hrep' & Hs').
  exists t1. rewrite (elems_addrs _ _ He). refine (conj eq_refl (conj Hrep' (conj _ (conj _ (conj Ht1 Hr))))).
  - by eapply same_off_trans.
  - rewrite He. apply elems_rot_right.
Qed.

Lemma node_rebalance_left h p l c kc bc m a ka ba r :
  let t := Node (Node l c kc bc m) a ka ba r in
  rep h p t → NoDup (addrs t) → null ∉ addrs t → avl (Node l c kc bc m) → avl r →
  ba = height r - height (Node l c kc bc m) → ba = -2 →
  wp (node_rebalance a) h (rebalance_post h p t bc).
Proof.
  intros t Hrep Hnd Hnull Hl Hr Hb Hb2. pose proof Hrep as (Ha & (Hc & Hrl & Hrm) & Hrr).
  cbn [ptr] in *. subst t.
  assert (c ≠ null) by (intros ->; apply Hnull; rewrite !addrs_node; mem).
  unfold node_rebalance. repeat hstep. destruct (Z.leb_spec (-1) ba); [lia|]. cbn [andb]. repeat hstep.
  - (* double rotation *)
    destruct m as [|m1 b kb bm m2]; [exfalso; heights|].
    destruct (node_nodup _ _ _ _ _ Hnd) as (Hndl & _ & Hal & Har & Hlr).
    destruct (node_not_null _ _ _ _ _ Hnull) as (_ & Hnl & _).
    eapply wp_mono; [apply rotate_left_ok; [done|done|done|heights..]|].
    intros q h1 (-> & Hrep1 & Hs1). cbn beta.
    assert (h1 !! a = Some (mkT p c (ptr r) ka ba)) as Ha1 by (rewrite Hs1; done).
    repeat hstep.
    assert (elems (Node (Node l c kc bc (Node m1 b kb bm m2)) a ka ba r) =
      elems (Node (Node (Node l c kc (rot_left_bal bc bm).1 m1) b kb (rot_left_bal bc bm).2 m2) a ka ba r)) as He.
    { lassoc. }
    pose proof (rep_new_left h h1 p _ _ _ _ _ _ Hrep Hnd Hs1 Hrep1 ltac:(lassoc)) as Hrep2.
    apply (wp_rotate_right _ p (Node l c kc _ m1) b kb _ m2 a ka ba r bc Hrep2); [| |heights..|by rewrite He|right; right; heights|].
    + by rewrite <- (elems_addrs _ _ He).
    + by rewrite <- (elems_addrs _ _ He).
    + rewrite <- (elems_addrs _ _ He).
      eapply same_off_trans; [eapply same_off_sub; [done|]|apply same_off_store];
        rewrite !addrs_node; [intros x Hx; rewrite elem_of_app, elem_of_cons; auto|mem].
  - apply (wp_rotate_right _ p l c kc bc m a ka ba r bc Hrep Hnd Hnull); [heights..|done| |done].
    right. destruct (Z.eq_dec bc 0); [left|right]; heights.
Qed.

Lemma node_rebalance_right h p l a ka ba m c kc bc r :
  let t := Node l a ka ba (Node m c kc bc r) in
  rep h p t → NoDup (addrs t) → null ∉ addrs t → avl l → avl (Node m c kc bc r) →
  ba = height (Node m c kc bc r) - height l → ba = 2 →
  wp (node_rebalance a) h (rebalance_post h p t bc).
Proof.
  intros t Hrep Hnd Hnull Hl Hr Hb Hb2. pose proof Hrep as (Ha & Hrl & (Hc & Hrm & Hrr)).
  cbn [ptr] in *. subst t.
  assert (c ≠ null) by (intros ->; apply Hnull; rewrite !addrs_node; mem).
  unfold node_rebalance. repeat hstep. destruct (Z.leb_spec ba 1); [lia|]. rewrite andb_false_r. repeat hstep.
  - (* double rotation *)
    destruct m as [|m1 b kb bm m2]; [exfalso; heights|].
    destruct (node_nodup _ _ _ _ _ Hnd) as (_ & Hndr & Hal & Har & Hlr).
    destruct (node_not_null _ _ _ _ _ Hnull) as (_ & _ & Hnr).
    eapply wp_mono; [apply rotate_right_ok; [done|done|done|heights..]|].
    intros q h1 (-> & Hrep1 & Hs1). cbn beta.
    assert (h1 !! a = Some (mkT p (ptr l) c ka ba)) as Ha1 by (rewrite Hs1; done).
    repeat hstep.
    assert (elems (Node l a ka ba (Node (Node m1 b kb bm m2) c kc bc r)) =
      elems (Node l a ka ba (Node m1 b kb (rot_right_bal bc bm).2 (Node m2 c kc (rot_right_bal bc bm).1 r)))) as He.
    { lassoc. }
    pose proof (rep_new_right h h1 p _ _ _ _ _ _ Hrep Hnd Hs1 Hrep1 ltac:(lassoc)) as Hrep2.
    apply (wp_rotate_left _ p l a ka ba m1 b kb _ (Node m2 c kc _ r) bc Hrep2); [| |heights..|by rewrite He|right; right; heights|].
    + by rewrite <- (elems_addrs _ _ He).
    + by rewrite <- (elems_addrs _ _ He).
    + rewrite <- (elems_addrs _ _ He).
      eapply same_off_trans; [eapply same_off_sub; [done|]|apply same_off_store];
        rewrite !addrs_node; [intros x Hx; rewrite elem_of_app, elem_of_cons; auto|mem].
  - apply (wp_rotate_left _ p l a ka ba m c kc bc r bc Hrep Hnd Hnull); [heights..|done| |done].
    right. destruct (Z.eq_dec bc 0); [left|right]; heights.
Qed.
End rebalancing.

(** ** A hole in a represented tree *)
Section focus.
Context {B : Build} {K : Type} `{Ord K}.
Abbreviation heap := (gmap Z (tnode K)).
Implicit Types (h : heap) (t l r : tree K) (f : AvlTree.frame K) (ctx : list (AvlTree.frame K)).

Definition good h t : Prop := rep h null t ∧ NoDup (addrs t) ∧ null ∉ addrs t.

Lemma addrs_plug ctx t : addrs (plug ctx t) = (before ctx).*2 ++ addrs t ++ (after ctx).*2.
Proof. unfold addrs. by rewrite elems_plug, !fmap_app. Qed.

Lemma addrs_plug_eq ctx t t1 : elems t1 = elems t → addrs (plug ctx t1) = addrs (plug ctx t).
Proof. intros He. by rewrite !addrs_plug, (elems_addrs _ _ He). Qed.

Lemma frame_addrs_in ctx x : x ∈ frame_addrs ctx ↔ x ∈ (before ctx).*2 ∨ x ∈ (after ctx).*2.
Proof. unfold frame_addrs. by rewrite fmap_app, elem_of_app. Qed.

Lemma addrs_plug_in ctx t x : x ∈ addrs (plug ctx t) ↔ x ∈ addrs t ∨ x ∈ frame_addrs ctx.
Proof. rewrite addrs_plug, frame_addrs_in, !elem_of_app. tauto. Qed.

Lemma plug_nodup ctx t :
  NoDup (addrs (plug ctx t)) → NoDup (addrs t) ∧ ∀ x, x ∈ addrs t → x ∉ frame_addrs ctx.
Proof.
  rewrite addrs_plug. intros Hnd. apply NoDup_app in Hnd as (_ & H1 & Hnd).
  apply NoDup_app in Hnd as (Ht & H2 & _). split; [done|].
  intros x Hx. rewrite frame_addrs_in. intros [Hb|Ha]; [|by apply (H2 x)].
  apply (H1 x); [done|]. rewrite elem_of_app. auto.
Qed.

Lemma good_ext h h1 t t1 : elems t1 = elems t → good h t → rep h1 null t1 → good h1 t1.
Proof. intros He (_ & Hnd & Hnull) Hr. unfold good. by rewrite (elems_addrs _ _ He). Qed.

(** What the parent of the hole holds. *)
Definition fnode (f : AvlTree.frame K) (ctx : list (AvlTree.frame K)) (hole : Z) : tnode K :=
  match f with
  | FL _ k b r => mkT (par null ctx) hole (ptr r) k b
  | FR l _ k b => mkT (par null ctx) (ptr l) hole k b
  end.

Lemma rep_fill h f ctx t :
  rep h (par null ctx) (fill f t) ↔
  h !! fptr f = Some (fnode f ctx (ptr t)) ∧ rep h (fptr f) t ∧
  match f with FL p _ _ r => rep h p r | FR l p _ _ => rep h p l end.
Proof. destruct f; simpl; tauto. Qed.

Lemma fill_nodup f t : NoDup (addrs (fill f t)) →
  (fptr f ∉ addrs t) ∧
  match f with
  | FL p _ _ r => (p ∉ addrs r) ∧ ∀ x, x ∈ addrs r → x ∉ addrs t
  | FR l p _ _ => (p ∉ addrs l) ∧ ∀ x, x ∈ addrs l → x ∉ addrs t
  end.
Proof.
  destruct f; intros Hnd; destruct (node_nodup _ _ _ _ _ Hnd) as (_ & _ & Hl & Hr & Hlr); simpl; repeat split; try done.
  intros x Hx Hx'. by apply (Hlr x).
Qed.

Lemma addrs_fill f t x : x ∈ addrs (fill f t) ↔ x = fptr f ∨ x ∈ addrs t ∨
  match f with FL _ _ _ r => x ∈ addrs r | FR l _ _ _ => x ∈ addrs l end.
Proof. destruct f; simpl; rewrite addrs_node, elem_of_app, elem_of_cons; tauto. Qed.

(** A tree that is rebuilt on its own nodes, seen from its parent. *)
Lemma good_refocus h h1 f ctx t t1 :
  good h (plug (f :: ctx) t) → same_off (addrs t) h h1 →
  rep h1 (fptr f) t1 → elems t1 = elems t →
  h1 !! fptr f = Some (fnode f ctx (ptr t)) ∧
  good (<[fptr f := fnode f ctx (ptr t1)]> h1) (plug (f :: ctx) t1).
Proof.
  intros (Hr & Hnd & Hnull) Hs Ht1 He.
  cbn [plug] in *. pose proof Hnd as Hnd'. apply plug_nodup in Hnd' as [Hndf Hfc].
  apply rep_plug in Hr as [Hf Hc]. apply rep_fill in Hf as (Hp & Ht & Hsib).
  apply fill_nodup in Hndf as [Hpt Hsibt].
  assert (h1 !! fptr f = Some (fnode f ctx (ptr t))) as Hp1 by (rewrite Hs; done).
  split; [done|]. split; [|by rewrite (addrs_plug_eq ctx (fill f t)); [|destruct f; simpl; rewrite He]].
  apply rep_plug. split.
  - apply rep_fill. split; [by rewrite lookup_insert_eq|]. split.
    + eapply rep_same; [|done]. rewrite (elems_addrs _ _ He). hsame.
    + destruct f; simpl in *; destruct Hsibt as [Hps Hst]; (eapply rep_same; [|done]); intros x Hx;
        (rewrite lookup_insert_ne by ne); apply Hs; by apply Hst.
  - destruct f; simpl in *; (eapply rep_ctx_same; [|done]); intros x Hx;
    (rewrite lookup_insert_ne by (intros <-; eapply Hfc; [|done]; rewrite addrs_node; mem)); apply Hs; intros Hx'; eapply Hfc;
      try done; rewrite addrs_node, elem_of_app, ?elem_of_cons; auto.
Qed.

(** The kind of child a node is. *)
Definition ptype (ctx : list (AvlTree.frame K)) : ParentType :=
  match ctx with [] => Root | FL p _ _ _ :: _ => LeftOf p | FR _ p _ _ :: _ => RightOf p end.

Lemma wp_parent_type h ctx l a k b r (Q : ParentType → heap → Prop) :
  good h (plug ctx (Node l a k b r)) → Q (ptype ctx) h → wp (parent_type a) h Q.
Proof.
  intros (Hr & Hnd & Hnull) HQ. apply rep_plug in Hr as [(Ha & _ & _) Hc]. unfold parent_type.
  destruct ctx as [|f ctx]; cbn [par] in *; [by repeat hstep|].
  cbn [plug] in *. apply plug_nodup in Hnd as [Hndf _].
  assert (fptr f ≠ null) as Hfn.
  { intros E. apply Hnull. rewrite addrs_plug_in, addrs_fill. auto. }
  assert (a ≠ null) as Han.
  { intros E. apply Hnull. rewrite addrs_plug_in, addrs_fill, addrs_node. left. right. left. subst. mem. }
  destruct f as [p kp bp rp|lp p kp bp]; cbn [fptr rep_ctx] in *; destruct Hc as (Hp & _);
    repeat hstep; [cbn [ptr]; by rewrite Z.eqb_refl|].
  replace (a =? ptr lp) with false; [done|]. symmetry. apply Z.eqb_neq. intros E.
  destruct (node_nodup _ _ _ _ _ Hndf) as (_ & _ & _ & _ & Hd).
  apply (Hd a); [rewrite E; apply ptr_in; congruence|]. rewrite addrs_node. mem.
Qed.

(** Another subtree in the hole below [f]. *)
Lemma good_link h h1 f ctx t t1 :
  good h (plug (f :: ctx) t) → NoDup (addrs (plug (f :: ctx) t1)) → null ∉ addrs (plug (f :: ctx) t1) →
  (∀ x, x ∉ addrs t → x ∉ addrs t1 → x ≠ fptr f → h1 !! x = h !! x) →
  h1 !! fptr f = Some (fnode f ctx (ptr t1)) → rep h1 (fptr f) t1 →
  good h1 (plug (f :: ctx) t1).
Proof.
  intros (Hr & Hnd & _) Hnd1 Hnull1 Hs Hp Ht1. split; [|done]. clear Hnull1. cbn [plug] in *.
  apply rep_plug in Hr as [Hf Hc]. apply rep_fill in Hf as (Hp0 & Ht & Hsib).
  apply plug_nodup in Hnd as [Hndf Hfc], Hnd1 as [Hndf1 Hfc1].
  apply fill_nodup in Hndf as [_ Hst], Hndf1 as [_ Hst1].
  apply rep_plug. split.
  - apply rep_fill. split; [done|]. split; [done|].
    destruct f; cbn [fptr] in *; destruct Hst, Hst1; (eapply rep_same; [|done]); intros x Hx; apply Hs; auto;
      intros ->; done.
  - assert (ptr (fill f t1) = ptr (fill f t)) as -> by by destruct f.
    eapply rep_ctx_same; [|done]. intros x Hx.
    apply Hs; intros Hx'; [apply (Hfc x)|apply (Hfc1 x)|apply (Hfc x)]; try done; apply addrs_fill; auto.
Qed.

Lemma good_parent h f ctx t : good h (plug (f :: ctx) t) →
  h !! fptr f = Some (fnode f ctx (ptr t)) ∧ fptr f ≠ null ∧ fptr f ∈ addrs (plug (f :: ctx) t).
Proof.
  intros (Hr & _ & Hnull). cbn [plug] in *. apply rep_plug in Hr as [Hf _]. apply rep_fill in Hf as (Hp & _).
  assert (fptr f ∈ addrs (plug ctx (fill f t))) as Hin by (rewrite addrs_plug_in, addrs_fill; auto).
  split; [done|]. split; [by intros E; rewrite E in Hin|done].
Qed.

(** The same for any path. *)
Lemma good_relink h h1 ctx t t1 :
  good h (plug ctx t) → NoDup (addrs (plug ctx t1)) → null ∉ addrs (plug ctx t1) →
  (∀ x, x ∉ addrs t → x ∉ addrs t1 → (∀ f ctx', ctx = f :: ctx' → x ≠ fptr f) → h1 !! x = h !! x) →
  (∀ f ctx', ctx = f :: ctx' → h1 !! fptr f = Some (fnode f ctx' (ptr t1))) →
  rep h1 (par null ctx) t1 → good h1 (plug ctx t1).
Proof.
  intros Hg Hnd Hnull Hs Hp Ht1. destruct ctx as [|f ctx]; [done|].
  eapply good_link; try done; [|by apply Hp]. intros x Hx1 Hx2 Hx3. apply Hs; [done|done|]. by intros f' ctx' [= <- <-].
Qed.
End focus.

(** ** The walk to the root *)
Section walk.
Context {B : Build} {K : Type} `{Ord K}.
Abbreviation heap := (gmap Z (tnode K)).
Implicit Types (h : heap) (t l r : tree K) (ctx : list (AvlTree.frame K)).

Lemma node_rebalance_ok h p l a k b r :
  let t := Node l a k b r in
  rep h p t → NoDup (addrs t) → null ∉ addrs t → avl l → avl r →
  b = height r - height l → -2 <= b <= 2 →
  wp (node_rebalance a) h (rebalance_post h p t (if b <? 0 then bal l else bal r)).
Proof.
  intros t Hrep Hnd Hnull Hl Hr Hb Hb2.
  assert (b = -2 ∨ b = 2 ∨ -1 <= b <= 1) as [-> | [-> | Hb1]] by lia.
  - destruct l as [|l c kc bc m]; [heights|]. by apply node_rebalance_left.
  - destruct r as [|m c kc bc r]; [heights|]. by apply node_rebalance_right.
  - destruct (Hrep) as (Ha & _). unfold node_rebalance. repeat hstep.
    destruct (Z.leb_spec (-1) b), (Z.leb_spec b 1); try lia. cbn [andb]. repeat hstep.
    exists t. refine (conj eq_refl (conj Hrep (conj _ (conj eq_refl (conj _ _))))).
    + by intros x _.
    + by repeat split.
    + left. by repeat split.
Qed.

(** The height of the subtree before the change of one side by one. *)
Definition old_height (mode : BalMode) (c hl hr : Z) : Z :=
  match mode with
  | Add => 1 + (if c =? 1 then Z.max hl (hr - 1) else Z.max (hl - 1) hr)
  | Del => 1 + (if c =? 1 then Z.max (hl + 1) hr else Z.max hl (hr + 1))
  end.

(** In an insertion the side that grew leans to one side or is the new node. *)
Definition grown (mode : BalMode) (c : Z) l r : Prop :=
  match mode with
  | Add => let s := if c =? 1 then r else l in bal s ≠ 0 ∨ height s = 1
  | Del => True
  end.

Lemma hchange_ok mode l a k b r c t1 :
  let t := Node l a k (b + c) r in
  b + c = height r - height l → -1 <= b <= 1 → c = 1 ∨ c = -1 → grown mode c l r →
  rebalanced t t1 (if b + c <? 0 then bal l else bal r) →
  let hc := hchange mode b (bal t1) in
  height t1 = old_height mode c (height l) (height r) + hc ∧
  ((hc = 1 ∧ mode = Add ∧ bal t1 ≠ 0) ∨ (hc = -1 ∧ mode = Del) ∨ hc = 0).
Proof.
  intros t Hb Hb1 Hc Hg Hr hc. subst t hc. unfold rebalanced in Hr. cbn [bal height] in Hr.
  pose proof (height_nonneg l). pose proof (height_nonneg r). pose proof (height_nonneg t1).
  assert (b = -1 ∨ b = 0 ∨ b = 1) as Hb' by lia.
  unfold hchange, old_height, grown in *.
  destruct mode; [rewrite bool_decide_true, bool_decide_false by done|rewrite bool_decide_false, bool_decide_true by done];
    cbn [andb]; revert Hr Hg; zb; intros; (split; [lia|]);
    first [left; split; [lia|]; split; [done|lia] | right; left; split; [lia|done] | right; right; lia].
Qed.

(** One turn of the loop, up to the links of the parent. *)
Lemma wp_turn h p l a k b r c (f : Z → Z → M heap AvlTree) Q :
  let t := Node l a k b r in
  rep h p t → NoDup (addrs t) → null ∉ addrs t → avl l → avl r →
  b + c = height r - height l → -1 <= b <= 1 → c = 1 ∨ c = -1 →
  (∀ t1 h1, rep h1 p t1 → same_off (addrs t) h h1 → elems t1 = elems t → avl t1 →
     rebalanced (Node l a k (b + c) r) t1 (if b + c <? 0 then bal l else bal r) →
     wp (f (ptr t1) (bal t1)) h1 Q) →
  wp (inc_balance a c;; ptr ← node_rebalance a; new_bf ← balance ptr; f ptr new_bf) h Q.
Proof.
  intros t Hrep Hnd Hnull Hl Hr Hb Hb1 Hc HQ. subst t. pose proof Hrep as (Ha & Hrl & Hrr).
  destruct (node_nodup _ _ _ _ _ Hnd) as (_ & _ & Hal & Har & _).
  repeat hstep.
  eapply wp_mono; [apply (node_rebalance_ok _ p l a k (b + c) r); try done; [|lia]|].
  { cbn [rep]. hpost. }
  intros q h1 (t1 & -> & Hrep1 & Hs1 & He1 & Havl1 & Hreb). cbn beta.
  destruct t1 as [|l1 a1 k1 b1 r1]; [exfalso; by eapply app_cons_not_nil|].
  pose proof Hrep1 as (Ha1 & _). cbn [ptr]. repeat hstep.
  apply (HQ (Node l1 a1 k1 b1 r1)); try done.
  eapply same_off_trans; [|exact Hs1]. apply same_off_store. rewrite addrs_node. mem.
Qed.

Lemma ptr_plug ctx : ∀ t t' : tree K, ptr t = ptr t' → ptr (plug ctx t) = ptr (plug ctx t').
Proof. induction ctx as [|[] ctx IH]; intros; simpl; auto. Qed.

Definition walked (h : heap) (self : AvlTree) t (self' : AvlTree) (h' : heap) : Prop :=
  ∃ t', self' = mkTree (ptr t') (len self) ∧ good h' t' ∧ same_off (addrs t) h h' ∧
    elems t' = elems t ∧ avl t'.

Lemma walked_trans h h1 self t t1 self' h' :
  same_off (addrs t) h h1 → elems t1 = elems t → walked h1 self t1 self' h' → walked h self t self' h'.
Proof.
  intros Hs He (t' & H1 & H2 & H3 & H4 & H5). exists t'.
  refine (conj H1 (conj H2 (conj _ (conj _ H5)))); [|congruence].
  rewrite (elems_addrs _ _ He) in H3. by eapply same_off_trans.
Qed.

(** [rebalance] from a node one of whose sides has grown or shrunk. *)
Lemma rebalance_ok ctx : ∀ fuel h self l a k b r c mode,
  let t := plug ctx (Node l a k b r) in
  (length ctx < fuel)%nat → good h t → root self = ptr t →
  avl l → avl r → b + c = height r - height l → -1 <= b <= 1 → c = 1 ∨ c = -1 → grown mode c l r →
  avl_ctx (old_height mode c (height l) (height r)) ctx →
  wp (rebalance fuel self a c mode) h (walked h self t).
Proof.
  induction ctx as [|f ctx IH]; intros fuel h self l a k b r c mode t Hf Hg Hroot Hl Hr Hb Hb1 Hc Hgr Hctx;
    (destruct fuel as [|fuel]; [simpl in Hf; lia|]); cbn [rebalance]; subst t; pose proof Hg as (Hrep & Hnd & Hnull).
  - cbn [plug] in *. pose proof Hrep as (Ha & _). repeat hstep.
    eapply (wp_parent_type _ []); [exact Hg|]. cbn [ptype].
    eapply wp_turn; [exact Hrep|done..|]. intros t1 h1 Hr1 Hs1 He1 Ht1 _.
    apply wp_ret. exists t1. refine (conj eq_refl (conj _ (conj Hs1 (conj He1 Ht1)))). by eapply good_ext.
  - apply rep_plug in Hrep as [HrepN Hrc]. pose proof HrepN as (Ha & _).
    destruct (plug_nodup _ _ Hnd) as [HndN HfN].
    assert (null ∉ addrs (Node l a k b r)) as HnullN by (rewrite addrs_plug_in in Hnull; tauto).
    repeat hstep. eapply (wp_parent_type _ (f :: ctx)); [exact Hg|].
    assert (∀ t1 h1, rep h1 (fptr f) t1 → same_off (addrs (Node l a k b r)) h h1 →
      elems t1 = elems (Node l a k b r) → avl t1 →
      rebalanced (Node l a k (b + c) r) t1 (if b + c <? 0 then bal l else bal r) →
      wp (let hc := hchange mode b (bal t1) in
          match f with
          | FL p _ _ _ => set_left p (ptr t1);;
              if hc =? 1 then rebalance fuel self p (-1) mode
              else if hc =? -1 then rebalance fuel self p 1 mode else mret self
          | FR _ p _ _ => set_right p (ptr t1);;
              if hc =? 1 then rebalance fuel self p 1 mode
              else if hc =? -1 then rebalance fuel self p (-1) mode else mret self
          end) h1 (walked h self (plug (f :: ctx) (Node l a k b r)))) as Hcont.
    { intros t1 h1 Hr1 Hs1 He1 Ht1 Hreb.
      destruct (hchange_ok _ _ _ _ _ _ _ _ Hb Hb1 Hc Hgr Hreb) as [Hh Hcase].
      destruct (good_refocus h h1 f ctx _ t1 Hg Hs1 Hr1 He1) as [Hp1 Hg2].
      assert (same_off (addrs (plug (f :: ctx) (Node l a k b r))) h (<[fptr f := fnode f ctx (ptr t1)]> h1)) as Hs2.
      { eapply same_off_trans; [eapply same_off_sub; [exact Hs1|]|apply same_off_store];
          cbn [plug]; intros; rewrite addrs_plug_in, addrs_fill; auto. }
      assert (ptr (plug (f :: ctx) t1) = root self) as Hroot1 by (rewrite Hroot; cbn [plug]; apply ptr_plug; by destruct f).
      assert (elems (plug (f :: ctx) t1) = elems (plug (f :: ctx) (Node l a k b r))) as He2.
      { by rewrite !elems_plug, He1. }
      set (H0 := old_height mode c (height l) (height r)) in *.
      assert (height t1 = H0 → walked h self (plug (f :: ctx) (Node l a k b r)) self
                (<[fptr f := fnode f ctx (ptr t1)]> h1)) as Hstop.
      { intros HH. exists (plug (f :: ctx) t1).
        refine (conj _ (conj Hg2 (conj Hs2 (conj He2 _)))); [rewrite Hroot1; by destruct self|].
        apply avl_plug. by rewrite HH. }
      destruct f as [p kp bp rp|lp p kp bp]; cbn [fptr fnode avl_ctx] in *;
        destruct Hctx as (Hbp & Hbp1 & Havlp & Hctx); cbv zeta; do 3 hstep;
        destruct Hcase as [(Hhc & -> & Hbt) | [(Hhc & ->) | Hhc]]; rewrite Hhc in *; cbn [Z.eqb Pos.eqb];
        try (apply wp_ret; apply Hstop; lia);
        (eapply wp_mono; [eapply (IH fuel _ self); try done; try (by simpl in Hf; lia); try lia|
          intros ??; apply walked_trans; done]).
      all: simpl in Hf; try lia.
      all: try (by left).
      all: cbn [old_height Z.eqb Pos.eqb]; match type of Hctx with avl_ctx ?x _ =>
        match goal with |- avl_ctx ?y _ => replace y with x by lia end end; done. }
    destruct f; eapply wp_turn; try done.
Qed.
End walk.

