(* ===== verification/AvlTreeSwap.v ===== *)
(** * The AVL tree: swapping a node with its predecessor

    [swap] exchanges the places of a node with two children and the rightmost
    node of its left subtree, also when that is its own child: the links the
    code passes through are not a tree, the links it leaves are. *)

From S2P Require Import Prelude AvlTree AvlTreeBalance.

Section swapping.
Context {B : Build} {K : Type} `{Ord K}.
Abbreviation heap := (gmap Z (tnode K)).
Implicit Types (h : heap) (t l r : tree K) (f : AvlTree.frame K) (ctx : list (AvlTree.frame K)).

Definition upd_parent (x p : Z) h : heap :=
  if x =? null then h else
  match h !! x with Some n => <[x := mkT p (left n) (right n) (key n) (bf n)]> h | None => h end.

Lemma upd_parent_ne x p h y : y ≠ x → upd_parent x p h !! y = h !! y.
Proof.
  intros Hne. unfold upd_parent. destruct (x =? null); [done|]. destruct (h !! x); [|done].
  by rewrite lookup_insert_ne.
Qed.

Lemma upd_parent_null p h : upd_parent null p h = h.
Proof. reflexivity. Qed.

Lemma upd_parent_eq x p h n :
  x ≠ null → h !! x = Some n → upd_parent x p h !! x = Some (mkT p (left n) (right n) (key n) (bf n)).
Proof.
  intros Hne Hx. unfold upd_parent. destruct (Z.eqb_spec x null); [done|]. by rewrite Hx, lookup_insert_eq.
Qed.

Lemma wp_set_leftp h a x n Q :
  h !! a = Some n → x ≠ a → (x = null ∨ is_Some (h !! x)) →
  Q () (upd_parent x a (<[a := mkT (parent n) x (right n) (key n) (bf n)]> h)) → wp (set_leftp a x) h Q.
Proof.
  intros Ha Hxa Hx HQ. unfold set_leftp, upd_parent in *. repeat hstep; [done|].
  destruct Hx as [|[m Hm]]; [done|]. hstep.
  by rewrite lookup_insert_ne, Hm in HQ by done.
Qed.

Lemma wp_set_rightp h a x n Q :
  h !! a = Some n → x ≠ a → (x = null ∨ is_Some (h !! x)) →
  Q () (upd_parent x a (<[a := mkT (parent n) (left n) x (key n) (bf n)]> h)) → wp (set_rightp a x) h Q.
Proof.
  intros Ha Hxa Hx HQ. unfold set_rightp, upd_parent in *. repeat hstep; [done|].
  destruct Hx as [|[m Hm]]; [done|]. hstep.
  by rewrite lookup_insert_ne, Hm in HQ by done.
Qed.

(** The node above a hole that holds [a] knows [a]. *)
Definition sib f : Z := match f with FL _ _ _ r => ptr r | FR l _ _ _ => ptr l end.

Definition linked h ctx (a : Z) : Prop :=
  match ctx with
  | [] => True
  | f :: ctx => fptr f ≠ null ∧ h !! fptr f = Some (fnode f ctx a) ∧ sib f ≠ a
  end.

Lemma wp_parent_type_at h ctx a n Q :
  h !! a = Some n → parent n = par null ctx → linked h ctx a → Q (ptype ctx) h → wp (parent_type a) h Q.
Proof.
  intros Ha Hn Hl HQ. unfold parent_type.
  destruct ctx as [|f ctx]; cbn [par linked] in *.
  - do 5 hstep. rewrite Hn. by repeat hstep.
  - destruct Hl as (Hf & Hp & Hs). do 5 hstep. rewrite Hn. repeat hstep.
    destruct f as [p k b r|l p k b]; cbn [fptr fnode sib left] in *; [by rewrite Z.eqb_refl|].
    replace (a =? ptr l) with false; [done|]. symmetry. by apply Z.eqb_neq.
Qed.

(** The link of the parent is moved from [a] to [c]. *)
Definition relink ctx (c : Z) h : heap :=
  match ctx with [] => h | f :: ctx => <[fptr f := fnode f ctx c]> h end.

Lemma relink_ne ctx c h y : (∀ f ctx', ctx = f :: ctx' → y ≠ fptr f) → relink ctx c h !! y = h !! y.
Proof. intros Hne. destruct ctx as [|f ctx]; [done|]. cbn [relink]. rewrite lookup_insert_ne; [done|]. by eapply not_eq_sym, Hne. Qed.

Lemma wp_relink h ctx a c Q :
  linked h ctx a → Q (match ctx with [] => Some c | _ => None end) (relink ctx c h) →
  wp (match ptype ctx with
      | LeftOf node => set_left node c;; mret None
      | RightOf node => set_right node c;; mret None
      | Root => mret (Some c)
      end) h Q.
Proof.
  intros Hl HQ. destruct ctx as [|[p k b r|l p k b] ctx]; cbn [ptype linked relink fptr fnode] in *; repeat hstep; [done|..];
    destruct Hl as (_ & Hp & _); repeat hstep; done.
Qed.

Lemma upd_parent_local x p h h1 y : h1 !! y = h !! y → upd_parent x p h1 !! y = upd_parent x p h !! y.
Proof.
  intros E. destruct (decide (y = x)) as [->|Hne]; [|by rewrite !upd_parent_ne].
  unfold upd_parent. destruct (x =? null); [done|]. rewrite E. destruct (h !! x) eqn:Hx; rewrite ?lookup_insert_eq; congruence.
Qed.

(** [lks] looks through the writes of [swap] with known inequalities. *)
Ltac lks :=
  repeat first
    [ rewrite lookup_insert_eq
    | rewrite lookup_insert_ne by (assumption || (apply not_eq_sym; assumption))
    | rewrite upd_parent_ne by (assumption || (apply not_eq_sym; assumption))
    | rewrite upd_parent_null
    | rewrite relink_ne by (intros; (eassumption || (apply not_eq_sym; eassumption) || eauto)) ];
  first [reflexivity | eassumption].

Ltac sstep :=
  match goal with
  | |- wp (_ ≫= _) _ _ => apply wp_bind
  | |- wp (mret _) _ _ => apply wp_ret
  | |- wp (deref _) _ _ => eapply wp_deref; [lks|cbn [parent left right key bf]]
  | |- wp (store _ _) _ _ => eapply wp_store; [lks|cbn [parent left right key bf]]
  | |- wp (t_parent _) _ _ => unfold t_parent
  | |- wp (t_left _) _ _ => unfold t_left
  | |- wp (t_right _) _ _ => unfold t_right
  | |- wp (balance _) _ _ => unfold balance
  | |- wp (set_parent _ _) _ _ => unfold set_parent
  | |- wp (set_left _ _) _ _ => unfold set_left
  | |- wp (set_right _ _) _ _ => unfold set_right
  | |- wp (set_balance _ _) _ _ => unfold set_balance
  end.

Section far.
Context (h : heap) (ctx : list (AvlTree.frame K)) (a c q la ra x qp lq : Z) (ka kc kq : K) (ba bc bq : Z).
Context (Ha : h !! a = Some (mkT (par null ctx) la ra ka ba)) (Hc : h !! c = Some (mkT q x null kc bc)).
Context (Hq : upd_parent la c h !! q = Some (mkT qp lq c kq bq)).
Context (Hla : is_Some (h !! la)) (Hra : is_Some (h !! ra)) (Hx : x = null ∨ is_Some (h !! x)).
Context (Hlink : linked h ctx a) (Hlq : lq ≠ c).
Context (Hn : a ≠ null ∧ c ≠ null ∧ q ≠ null ∧ la ≠ null ∧ ra ≠ null).
Context (Hd : a ≠ c ∧ a ≠ q ∧ a ≠ la ∧ a ≠ ra ∧ a ≠ x ∧ c ≠ q ∧ c ≠ la ∧ c ≠ ra ∧ c ≠ x ∧
              q ≠ ra ∧ q ≠ x ∧ la ≠ ra ∧ la ≠ x ∧ ra ≠ x).
Context (Hp : ∀ f ctx', ctx = f :: ctx' →
  fptr f ≠ a ∧ fptr f ≠ c ∧ fptr f ≠ q ∧ fptr f ≠ la ∧ fptr f ≠ ra ∧ fptr f ≠ x).

Lemma swap_far :
  wp (swap a c) h (λ o h',
    o = match ctx with [] => Some c | _ => None end ∧
    h' !! a = Some (mkT q x null ka bc) ∧
    h' !! c = Some (mkT (par null ctx) la ra kc ba) ∧
    h' !! q = Some (mkT qp lq a kq bq) ∧
    (∀ n, h !! ra = Some n → h' !! ra = Some (mkT c (left n) (right n) (key n) (bf n))) ∧
    (∀ n, x ≠ null → h !! x = Some n → h' !! x = Some (mkT a (left n) (right n) (key n) (bf n))) ∧
    (∀ f ctx', ctx = f :: ctx' → h' !! fptr f = Some (fnode f ctx' c)) ∧
    (∀ y, y ≠ a → y ≠ c → y ≠ q → y ≠ ra → (y ≠ x ∨ x = null) → (∀ f ctx', ctx = f :: ctx' → y ≠ fptr f) →
      h' !! y = upd_parent la c h !! y)).
Proof.
  destruct Hn as (? & ? & ? & ? & ?), Hd as (? & ? & ? & ? & ? & ? & ? & ? & ? & ? & ? & ? & ? & ?).
  assert (∀ f ctx', ctx = f :: ctx' → a ≠ fptr f ∧ c ≠ fptr f ∧ q ≠ fptr f ∧ la ≠ fptr f ∧ ra ≠ fptr f ∧ x ≠ fptr f) as Hp'.
  { intros f ctx' E. destruct (Hp f ctx' E) as (? & ? & ? & ? & ? & ?). repeat split; by apply not_eq_sym. }
  unfold swap. repeat sstep.
  eapply wp_set_leftp; [lks|by apply not_eq_sym|done|]. cbn [parent left right key bf]. repeat sstep.
  eapply wp_set_leftp; [lks|by apply not_eq_sym| |].
  { right. rewrite upd_parent_ne, lookup_insert_ne by done. done. }
  cbn [parent left right key bf].
  match goal with |- wp _ ?h0 _ => assert (h0 !! q = Some (mkT qp lq c kq bq)) as Hq1;
    [|assert (h0 !! a = Some (mkT (par null ctx) x ra ka ba)) as Ha1 by lks;
      assert (h0 !! c = Some (mkT q la null kc bc)) as Hc1 by lks;
      assert (h0 !! ra = h !! ra) as Hra1 by lks;
      assert (∀ n, x ≠ null → h !! x = Some n → h0 !! x = Some (mkT a (left n) (right n) (key n) (bf n))) as Hx1;
      [|assert (∀ f ctx', ctx = f :: ctx' → h0 !! fptr f = h !! fptr f) as Hp1;
        [|assert (∀ y, y ≠ a → y ≠ c → (y ≠ x ∨ x = null) → h0 !! y = upd_parent la c h !! y) as Hs1;
          [|set (h1 := h0) in *; clearbody h1]]]] end.
  { rewrite <- Hq. apply upd_parent_local. lks. }
  { intros n Hxn Hxh. rewrite upd_parent_ne, lookup_insert_ne by done. apply (upd_parent_eq x a _ n); [done|]. lks. }
  { intros f ctx' E. destruct (Hp' f ctx' E) as (? & ? & ? & ? & ? & ?). lks. }
  { intros y Hy1 Hy2 [Hy3|E]; apply upd_parent_local; [lks|]. rewrite E. lks. }
  repeat sstep.
  eapply wp_set_rightp; [lks|by apply not_eq_sym|by left|]. cbn [parent left right key bf].
  change (upd_parent null ?p ?h) with h. repeat sstep.
  eapply wp_set_rightp; [lks|by apply not_eq_sym| |].
  { right. rewrite lookup_insert_ne, Hra1 by done. done. }
  cbn [parent left right key bf]. repeat sstep.
  assert (∀ hh, (∀ f ctx', ctx = f :: ctx' → hh !! fptr f = h !! fptr f) → linked hh ctx a) as Hlk.
  { intros hh Hh. destruct ctx as [|f ctx']; [done|]. destruct Hlink as (? & ? & ?). cbn [linked]. by rewrite (Hh f ctx'). }
  eapply wp_parent_type_at; [lks|done|apply Hlk|].
  { intros f ctx' E. destruct (Hp' f ctx' E) as (? & ? & ? & ? & ? & ?). rewrite <- (Hp1 f ctx' E). lks. }
  repeat sstep. eapply wp_relink; [apply Hlk|].
  { intros f ctx' E. destruct (Hp' f ctx' E) as (? & ? & ? & ? & ? & ?). rewrite <- (Hp1 f ctx' E). lks. }
  assert (∀ f ctx', ctx = f :: ctx' → a ≠ fptr f) as Hpa by (intros; by eapply Hp').
  assert (∀ f ctx', ctx = f :: ctx' → c ≠ fptr f) as Hpc by (intros; by eapply Hp').
  assert (∀ f ctx', ctx = f :: ctx' → q ≠ fptr f) as Hpq by (intros; by eapply Hp').
  assert (∀ f ctx', ctx = f :: ctx' → ra ≠ fptr f) as Hpra by (intros; by eapply Hp').
  assert (∀ f ctx', ctx = f :: ctx' → x ≠ fptr f) as Hpx by (intros; by eapply Hp').
  unfold parent_type. repeat sstep.
  destruct (Z.eqb_spec q null) as [?|_]; [done|]. sstep. eapply wp_as_ref; [done|lks|]. repeat sstep.
  cbn [left]. replace (c =? lq) with false by (symmetry; apply Z.eqb_neq; by apply not_eq_sym).
  repeat sstep.
  split; [done|]. split; [lks|]. split; [lks|]. split; [lks|]. split; [|split; [|split]].
  - intros n Hra'. repeat rewrite lookup_insert_ne by (assumption || (apply not_eq_sym; assumption)).
    rewrite relink_ne by eauto. rewrite lookup_insert_ne by done. apply upd_parent_eq; [done|]. rewrite <- Hra', <- Hra1. lks.
  - intros n Hxn Hxh. rewrite <- (Hx1 n) by done. lks.
  - intros f ctx' E. destruct (Hp' f ctx' E) as (? & ? & ? & ? & ? & ?).
    repeat rewrite lookup_insert_ne by (assumption || (apply not_eq_sym; assumption)).
    subst ctx. cbn [relink]. by rewrite lookup_insert_eq.
  - intros y Hy1 Hy2 Hy3 Hy4 Hy5 Hy6. rewrite <- Hs1 by done. lks.
Qed.
End far.

(** The predecessor is the left child itself: [c] becomes its own parent on the
    way, which the second [parent_type] turns into the link to [a]. *)
Section near.
Context (h : heap) (ctx : list (AvlTree.frame K)) (a c ra x : Z) (ka kc : K) (ba bc : Z).
Context (Ha : h !! a = Some (mkT (par null ctx) c ra ka ba)) (Hc : h !! c = Some (mkT a x null kc bc)).
Context (Hra : is_Some (h !! ra)) (Hx : x = null ∨ is_Some (h !! x)).
Context (Hlink : linked h ctx a).
Context (Hn : a ≠ null ∧ c ≠ null ∧ ra ≠ null).
Context (Hd : a ≠ c ∧ a ≠ ra ∧ a ≠ x ∧ c ≠ ra ∧ c ≠ x ∧ ra ≠ x).
Context (Hp : ∀ f ctx', ctx = f :: ctx' → fptr f ≠ a ∧ fptr f ≠ c ∧ fptr f ≠ ra ∧ fptr f ≠ x).

Lemma swap_near :
  wp (swap a c) h (λ o h',
    o = match ctx with [] => Some c | _ => None end ∧
    h' !! a = Some (mkT c x null ka bc) ∧
    h' !! c = Some (mkT (par null ctx) a ra kc ba) ∧
    (∀ n, h !! ra = Some n → h' !! ra = Some (mkT c (left n) (right n) (key n) (bf n))) ∧
    (∀ n, x ≠ null → h !! x = Some n → h' !! x = Some (mkT a (left n) (right n) (key n) (bf n))) ∧
    (∀ f ctx', ctx = f :: ctx' → h' !! fptr f = Some (fnode f ctx' c)) ∧
    (∀ y, y ≠ a → y ≠ c → y ≠ ra → (y ≠ x ∨ x = null) → (∀ f ctx', ctx = f :: ctx' → y ≠ fptr f) → h' !! y = h !! y)).
Proof.
  destruct Hn as (? & ? & ?), Hd as (? & ? & ? & ? & ? & ?).
  assert (∀ f ctx', ctx = f :: ctx' → a ≠ fptr f) as Hpa by (intros; by eapply not_eq_sym, Hp).
  assert (∀ f ctx', ctx = f :: ctx' → c ≠ fptr f) as Hpc by (intros; by eapply not_eq_sym, Hp).
  assert (∀ f ctx', ctx = f :: ctx' → ra ≠ fptr f) as Hpra by (intros; by eapply not_eq_sym, Hp).
  assert (∀ f ctx', ctx = f :: ctx' → x ≠ fptr f) as Hpx by (intros; by eapply not_eq_sym, Hp).
  assert (∀ hh, (∀ f ctx', ctx = f :: ctx' → hh !! fptr f = h !! fptr f) → linked hh ctx a) as Hlk.
  { intros hh Hh. destruct ctx as [|f ctx']; [done|]. destruct Hlink as (? & ? & ?). cbn [linked]. by rewrite (Hh f ctx'). }
  unfold swap. repeat sstep.
  eapply wp_set_leftp; [lks|by apply not_eq_sym|done|]. cbn [parent left right key bf]. repeat sstep.
  unfold set_leftp. repeat sstep. destruct (Z.eqb_spec c null) as [?|_]; [done|]. repeat sstep.
  eapply wp_set_rightp; [lks|by apply not_eq_sym|by left|]. cbn [parent left right key bf].
  change (upd_parent null ?p ?h) with h. repeat sstep.
  eapply wp_set_rightp; [lks|by apply not_eq_sym| |].
  { right. repeat rewrite lookup_insert_ne by done. by rewrite upd_parent_ne, lookup_insert_ne by done. }
  cbn [parent left right key bf]. repeat sstep.
  eapply wp_parent_type_at; [lks|done|apply Hlk|].
  { intros f ctx' E. destruct (Hp f ctx' E) as (? & ? & ? & ?). lks. }
  repeat sstep. eapply wp_relink; [apply Hlk|].
  { intros f ctx' E. destruct (Hp f ctx' E) as (? & ? & ? & ?). lks. }
  unfold parent_type. repeat sstep.
  destruct (Z.eqb_spec c null) as [?|_]; [done|]. sstep. eapply wp_as_ref; [done|lks|]. repeat sstep.
  cbn [left]. rewrite Z.eqb_refl. repeat sstep.
  split; [done|]. split; [lks|]. split; [lks|]. split; [|split; [|split]].
  - intros n Hra'. repeat rewrite lookup_insert_ne by (assumption || (apply not_eq_sym; assumption)).
    rewrite relink_ne by eauto. rewrite lookup_insert_ne by done. apply upd_parent_eq; [done|]. lks.
  - intros n Hxn Hxh. repeat rewrite lookup_insert_ne by (assumption || (apply not_eq_sym; assumption)).
    rewrite relink_ne by eauto. repeat first [rewrite lookup_insert_ne by done | rewrite upd_parent_ne by done].
    apply upd_parent_eq; [done|]. lks.
  - intros f ctx' E. destruct (Hp f ctx' E) as (? & ? & ? & ?).
    repeat rewrite lookup_insert_ne by (assumption || (apply not_eq_sym; assumption)).
    subst ctx. cbn [relink]. by rewrite lookup_insert_eq.
  - intros y Hy1 Hy2 Hy3 [Hy4|E] Hy5; [lks|]. rewrite E. lks.
Qed.
End near.
End swapping.

(** ** Swapping in a tree *)
Section tree_swap.
Context {B : Build} {K : Type} `{Ord K}.
Abbreviation heap := (gmap Z (tnode K)).
Implicit Types (h : heap) (t l r : tree K) (f : AvlTree.frame K) (ctx : list (AvlTree.frame K)).

(** A path that only goes right. *)
Definition all_right ctx : Prop := Forall (λ f, match f with FR _ _ _ _ => True | FL _ _ _ _ => False end) ctx.

Lemma swap_addrs ctx ctx2 l a ka ba c kc bc r :
  addrs (plug ctx (Node (plug ctx2 (Node l a ka bc Leaf)) c kc ba r)) ≡ₚ
  addrs (plug ctx (Node (plug ctx2 (Node l c kc bc Leaf)) a ka ba r)).
Proof.
  rewrite !addrs_plug, !addrs_node, !addrs_plug, !addrs_node.
  repeat (rewrite <- !app_assoc; cbn [app]). rewrite <- !Permutation_middle.
  apply perm_swap.
Qed.

Lemma addrs_in l a k b r y : y ∈ addrs (Node l a k b r) ↔ y ∈ addrs l ∨ y = a ∨ y ∈ addrs r.
Proof. by rewrite addrs_node, elem_of_app, elem_of_cons. Qed.

Lemma addrs_in_leaf y : y ∈ addrs (Leaf : tree K) ↔ False.
Proof. apply elem_of_nil. Qed.

Lemma fptr_in f ctx : fptr f ∈ frame_addrs (f :: ctx).
Proof.
  rewrite frame_addrs_in. destruct f; cbn [before after fptr].
  - right. rewrite fmap_cons. by left.
  - left. rewrite !fmap_app, fmap_cons, !elem_of_app, elem_of_cons. auto.
Qed.

(** A subtree whose root was given another parent. *)
Lemma rep_moved h h1 p q t :
  rep h p t → NoDup (addrs t) → null ∉ addrs t →
  (∀ n, ptr t ≠ null → h !! ptr t = Some n → h1 !! ptr t = Some (mkT q (left n) (right n) (key n) (bf n))) →
  (∀ y, y ∈ addrs t → y ≠ ptr t → h1 !! y = h !! y) →
  rep h1 q t.
Proof.
  intros Hrep Hnd Hnull Hp Hs. eapply (rep_reparent h); [done..|]. intros l a k b r ->.
  destruct (node_not_null _ _ _ _ _ Hnull) as (Ha & _). pose proof Hrep as (Hl & _).
  by apply (Hp _ Ha Hl).
Qed.

Lemma rep_root h p t : rep h p t → ptr t = null ∨ is_Some (h !! ptr t).
Proof. destruct t; [by left|]. intros (Ha & _). right. cbn [ptr]. eauto. Qed.

Lemma ptr_ne t a : a ≠ null → a ∉ addrs t → a ≠ ptr t.
Proof. intros Ha Hn ->. by apply Hn, ptr_in. Qed.

Lemma ptr_not_null t : t ≠ Leaf → null ∉ addrs t → ptr t ≠ null ∧ ptr t ∈ addrs t.
Proof.
  destruct t as [|l a k b r]; [done|]. intros _ Hn. destruct (node_not_null _ _ _ _ _ Hn) as (Ha & _).
  split; [done|]. rewrite addrs_node. mem.
Qed.

(** What is known of a focused node in a good heap. *)
Lemma good_focus h ctx l a k b r :
  let t := Node l a k b r in
  good h (plug ctx t) →
  rep h (par null ctx) t ∧ NoDup (addrs t) ∧ (null ∉ addrs t) ∧ linked h ctx a ∧
  (∀ f ctx', ctx = f :: ctx' → fptr f ≠ null ∧ fptr f ∉ addrs t).
Proof.
  intros t Hg. pose proof Hg as (Hrep & Hnd & Hnull). apply rep_plug in Hrep as [Hrep _].
  assert (null ∉ addrs t) as Hnt by (rewrite addrs_plug_in in Hnull; tauto).
  pose proof (proj1 (plug_nodup _ _ Hnd)) as Hndt.
  refine (conj Hrep (conj Hndt (conj Hnt _))).
  destruct ctx as [|f ctx]; [by split|]. destruct (good_parent _ _ _ _ Hg) as (Hp & Hpn & _).
  pose proof Hnd as Hnd'. cbn [plug] in Hnd'. apply plug_nodup in Hnd' as [Hndf _]. apply fill_nodup in Hndf as [Hft Hsib].
  split; [|by intros f' ctx' [= <- <-]]. cbn [linked]. split; [done|]. split; [done|].
  destruct (node_not_null _ _ _ _ _ Hnt) as (Ha & _). assert (a ∈ addrs t) as Hat by (unfold t; rewrite addrs_node; mem).
  apply not_eq_sym. destruct f; cbn [sib] in *; destruct Hsib as [_ Hsib]; apply ptr_ne; try done; intros Hx; by apply (Hsib a).
Qed.

Definition swapped h t (ctx : list (AvlTree.frame K)) (t1 : tree K) (o : option Z) h1 : Prop :=
  o = match ctx with [] => Some (ptr t1) | _ => None end ∧ good h1 (plug ctx t1) ∧
  same_off (addrs (plug ctx t)) h h1.

Lemma swap_near_ok h ctx l c kc bc a ka ba r :
  let t := Node (Node l c kc bc Leaf) a ka ba r in
  good h (plug ctx t) → r ≠ Leaf →
  wp (swap a c) h (swapped h t ctx (Node (Node l a ka bc Leaf) c kc ba r)).
Proof.
  intros t Hg Hr. subst t. destruct (good_focus _ _ _ _ _ _ _ Hg) as (Hrep & Hnd & Hnull & Hlink & Hfp).
  pose proof Hrep as (Ha & (Hc & Hl & _) & Hrr). cbn [ptr] in *.
  destruct (node_nodup _ _ _ _ _ Hnd) as (HndL & Hndr & HaL & Har & HLr).
  destruct (node_nodup _ _ _ _ _ HndL) as (Hndl & _ & Hcl & _ & _).
  destruct (node_not_null _ _ _ _ _ Hnull) as (Han & HnullL & Hnr).
  destruct (node_not_null _ _ _ _ _ HnullL) as (Hcn & Hnl & _).
  destruct (ptr_not_null r Hr Hnr) as [Hran Hrain].
  assert ((a ∉ addrs l) ∧ a ≠ c ∧ (c ∉ addrs r) ∧ ∀ y, y ∈ addrs l → y ∉ addrs r) as (Hal & Hac & Hcr & Hlr).
  { rewrite addrs_in in HaL. split; [tauto|]. split; [intros ->; tauto|].
    split; [|intros y Hy]; apply HLr; rewrite addrs_in; auto. }
  assert (∀ f ctx', ctx = f :: ctx' →
    fptr f ≠ a ∧ fptr f ≠ c ∧ (fptr f ∉ addrs r) ∧ fptr f ∉ addrs l) as Hfd.
  { intros f ctx' E. destruct (Hfp f ctx' E) as [_ Hf]. rewrite !addrs_in in Hf. split_and!; intros Hx; apply Hf; tauto. }
  assert (ptr r ∉ addrs l) as Hral by (intros Hx; by apply (Hlr _ Hx)).
  pose proof (swap_addrs ctx [] l a ka ba c kc bc r) as Hperm. cbn [plug] in Hperm.
  eapply wp_mono; [eapply (swap_near h ctx a c (ptr r) (ptr l)); try done|].
  - destruct (rep_root _ _ _ Hrr); [done|done].
  - by apply (rep_root h c).
  - repeat split; try done; try (by apply ptr_ne); by intros ->.
  - intros f ctx' E. destruct (Hfd f ctx' E) as (? & ? & ? & ?). destruct (Hfp f ctx' E) as [? _].
    repeat split; try done; by apply ptr_ne.
  - intros o h1 (Ho & Ha1 & Hc1 & Hr1 & Hl1 & Hf1 & Hs1).
    assert (∀ y, y ∉ addrs (Node (Node l c kc bc Leaf) a ka ba r) → (∀ f ctx', ctx = f :: ctx' → y ≠ fptr f) →
      h1 !! y = h !! y) as Hs.
    { intros y Hy Hyf. rewrite !addrs_in in Hy. apply Hs1; try (intros ->; tauto); [|done].
      destruct (decide (ptr l = null)) as [E|Hne]; [by right|left]. intros ->. apply ptr_in in Hne. tauto. }
    split; [by destruct ctx|]. split.
    + apply (good_relink h h1 ctx (Node (Node l c kc bc Leaf) a ka ba r)); [exact Hg| | | |done|].
      * rewrite Hperm. apply Hg.
      * rewrite Hperm. apply Hg.
      * intros y Hy _. by apply Hs.
      * cbn [rep ptr]. split; [done|]. split; [split; [done|split; [|done]]|].
        -- eapply (rep_moved h _ c a); try done. intros y Hy Hyl. apply Hs1; try done; try (by intros ->).
           ++ by left.
           ++ intros f ctx' E. destruct (Hfd f ctx' E) as (? & ? & ? & ?). by intros ->.
        -- eapply (rep_moved h _ a c); try done; [by intros n _; apply Hr1|]. intros y Hy Hyl. apply Hs1; try done; try (by intros ->).
           ++ left. intros ->. destruct (decide (ptr l = null)) as [E|Hne]; [by rewrite E in Hy|]. apply ptr_in in Hne. by apply (Hlr _ Hne).
           ++ intros f ctx' E. destruct (Hfd f ctx' E) as (? & ? & ? & ?). by intros ->.
    + intros y. rewrite addrs_plug_in. intros Hy. apply Hs; [tauto|]. intros f ctx' -> ->. apply Hy. right. by apply fptr_in.
Qed.

Lemma frame_addrs_FR l a k b ctx y :
  y ∈ frame_addrs (FR l a k b :: ctx) ↔ y ∈ addrs l ∨ y = a ∨ y ∈ frame_addrs ctx.
Proof.
  rewrite !frame_addrs_in. cbn [before after]. rewrite !fmap_app, !elem_of_app. cbn [fmap list_fmap snd].
  rewrite elem_of_cons. pose proof (not_elem_of_nil y). unfold addrs. tauto.
Qed.

Lemma frame_addrs_cons f ctx y : y ∈ frame_addrs ctx → y ∈ frame_addrs (f :: ctx).
Proof.
  rewrite !frame_addrs_in. destruct f; cbn [before after].
  - rewrite fmap_cons, fmap_app, elem_of_cons, elem_of_app. tauto.
  - rewrite fmap_app, elem_of_app. tauto.
Qed.

Lemma ptr_plug_in ctx : ∀ f t, ptr (plug (f :: ctx) t) ∈ frame_addrs (f :: ctx).
Proof.
  induction ctx as [|g ctx IH]; intros f t.
  - assert (ptr (plug [f] t) = fptr f) as -> by by destruct f. apply fptr_in.
  - apply frame_addrs_cons. apply (IH g (fill f t)).
Qed.

Lemma swap_far_ok h ctx lq q kq bq rest l c kc bc a ka ba r :
  let t := Node (plug (FR lq q kq bq :: rest) (Node l c kc bc Leaf)) a ka ba r in
  good h (plug ctx t) → r ≠ Leaf →
  wp (swap a c) h (swapped h t ctx (Node (plug (FR lq q kq bq :: rest) (Node l a ka bc Leaf)) c kc ba r)).
Proof.
  set (g := FR lq q kq bq). intros t Hg Hr. subst t. destruct (good_focus _ _ _ _ _ _ _ Hg) as (Hrep & Hnd & Hnull & Hlink & Hfp).
  pose proof Hrep as (Ha & HL & Hrr).
  destruct (node_nodup _ _ _ _ _ Hnd) as (HndL & Hndr & HaL & Har & HLr).
  destruct (node_not_null _ _ _ _ _ Hnull) as (Han & HnullL & Hnr).
  pose proof (ptr_plug_in rest g (Node l c kc bc Leaf)) as Hlain.
  assert (ptr (plug (g :: rest) (Node l a ka bc Leaf)) = ptr (plug (g :: rest) (Node l c kc bc Leaf))) as Hptr by by apply (ptr_plug rest).
  set (L := plug (g :: rest) (Node l c kc bc Leaf)) in *. set (la := ptr L) in *.
  assert (la ∈ addrs L) as HlaL by (unfold L; rewrite addrs_plug_in; auto).
  assert (la ≠ null) as Hlan by (intros E; by rewrite E in HlaL).
  pose proof (rep_moved h (upd_parent la c h) a c L HL HndL HnullL
    (λ n, upd_parent_eq la c h n) (λ y _, upd_parent_ne la c h y)) as HL1.
  apply rep_plug in HL as [(Hc & Hl & _) _], HL1 as [_ (Hq & Hlq & Hrest)].
  destruct (plug_nodup _ _ HndL) as [HndM HdM].
  pose proof (plug_nodup rest (Node lq q kq bq (Node l c kc bc Leaf)) HndL) as [HndQ HdQ].
  destruct (node_nodup _ _ _ _ _ HndM) as (Hndl & _ & Hcl & _ & _).
  destruct (node_nodup _ _ _ _ _ HndQ) as (_ & _ & Hqlq & Hqm & Hlqm).
  destruct (ptr_not_null r Hr Hnr) as [Hran Hrain].
  assert (∀ y, y ∈ addrs L ↔ y ∈ addrs l ∨ y = c ∨ y ∈ addrs lq ∨ y = q ∨ y ∈ frame_addrs rest) as HinL.
  { intros y. unfold L, g. rewrite addrs_plug_in, frame_addrs_FR, addrs_in, addrs_in_leaf. tauto. }
  assert (∀ y, y ∈ addrs l → y ≠ c ∧ y ≠ q ∧ (y ∉ addrs lq) ∧ y ∉ frame_addrs rest) as Hsepl.
  { intros y Hy. specialize (HdM y). unfold g in HdM. rewrite addrs_in, frame_addrs_FR in HdM. repeat split; try tauto.
    by intros ->. }
  assert (∀ y, y ∈ frame_addrs (g :: rest) → y ≠ c) as Hsepc.
  { intros y Hy ->. eapply HdM; [|exact Hy]. rewrite addrs_in. auto. }
  assert (∀ y, y ∈ addrs lq → y ≠ c ∧ y ≠ q ∧ y ∉ frame_addrs rest) as Hseplq.
  { intros y Hy. specialize (Hlqm y Hy). specialize (HdQ y). rewrite addrs_in in Hlqm, HdQ. repeat split; try tauto.
    by intros ->. }
  assert (q ∉ frame_addrs rest) as Hsepq by (apply HdQ; rewrite addrs_in; auto).
  assert (∀ f ctx', ctx = f :: ctx' → fptr f ≠ a ∧ (fptr f ∉ addrs L) ∧ fptr f ∉ addrs r) as Hfd.
  { intros f ctx' E. destruct (Hfp f ctx' E) as [_ Hf]. rewrite addrs_in in Hf. repeat split; tauto. }
  assert (c ∈ addrs L ∧ q ∈ addrs L) as [HcL HqL] by (split; apply HinL; tauto).
  assert (q ≠ c ∧ c ≠ null ∧ q ≠ null ∧ a ≠ c ∧ a ≠ q) as (Hqc & Hcn & Hqn & Hac & Haq).
  { split; [apply Hsepc; apply (fptr_in g)|].
    repeat split; intros E; [by rewrite E in HcL|by rewrite E in HqL|by rewrite <- E in HcL|by rewrite <- E in HqL]. }
  pose proof (swap_addrs ctx (g :: rest) l a ka ba c kc bc r) as Hperm.
  assert (c ≠ la ∧ (la ∉ addrs l) ∧ (la ∉ addrs r)) as (Hcla & Hlal & Hlar).
  { split; [by apply not_eq_sym, Hsepc|]. split; [|by apply HLr]. intros Hx. eapply HdM; [|exact Hlain]. rewrite addrs_in. auto. }
  assert (ptr r ∉ addrs l) as Hral by (intros Hx; apply (HLr (ptr r)); [rewrite HinL; auto|done]).
  assert (a ∉ addrs l) as Hal by (intros Hx; apply HaL; rewrite HinL; auto).
  assert (null ∉ addrs l) as Hnl by (intros Hx; apply HnullL; rewrite HinL; auto).
  assert (q ∉ addrs l) as Hql by (intros Hx; by destruct (Hsepl q Hx) as (_ & ? & _)).
  eapply wp_mono; [apply (swap_far h ctx a c q la (ptr r) (ptr l) (par c rest) (ptr lq) ka kc kq ba bc bq Ha Hc Hq)|].
  - destruct (rep_root h a L); [apply Hrep|done|done].
  - by destruct (rep_root _ _ _ Hrr).
  - by apply (rep_root h c).
  - done.
  - apply not_eq_sym, ptr_ne; [done|]. intros Hx. by destruct (Hseplq c Hx).
  - done.
  - assert (a ≠ la) as Hala by (intros E; by rewrite E in HaL).
    assert ((c ∉ addrs r) ∧ q ∉ addrs r) as [Hcr Hqr] by (split; by apply HLr).
    repeat split; try done; try (by apply ptr_ne); by apply not_eq_sym.
  - intros f ctx' E. destruct (Hfd f ctx' E) as (H1 & H2 & H3). destruct (Hfp f ctx' E) as [H4 _].
    repeat split; try done; try (intros E'; by rewrite E' in *); try (by apply ptr_ne).
    apply ptr_ne; [done|]. intros Hx. apply H2, HinL. auto.
  - intros o h1 (Ho & Ha1 & Hc1 & Hq1 & Hr1 & Hl1 & Hf1 & Hs1).
    set (t1 := Node (plug (g :: rest) (Node l a ka bc Leaf)) c kc ba r) in *.
    assert (∀ y, y ≠ a → y ≠ c → y ≠ q → y ∉ addrs r ∨ (y ∈ addrs r ∧ y ≠ ptr r) → y ∉ addrs l ∨ (y ∈ addrs l ∧ y ≠ ptr l) →
      (∀ f ctx', ctx = f :: ctx' → y ≠ fptr f) → h1 !! y = upd_parent la c h !! y) as Hs2.
    { intros y Hy1 Hy2 Hy3 Hy4 Hy5 Hy6. apply Hs1; try done; [|].
      - intros ->. destruct Hy4 as [Hy4|[_ Hy4]]; done.
      - destruct (decide (ptr l = null)) as [|Hne]; [by right|left]. intros ->. apply ptr_in in Hne. tauto. }
    assert (∀ y, y ∉ addrs (Node L a ka ba r) → (∀ f ctx', ctx = f :: ctx' → y ≠ fptr f) → h1 !! y = h !! y) as Hs.
    { intros y Hy Hyf. rewrite addrs_in, HinL in Hy. rewrite Hs2; try tauto; try (intros ->; tauto).
      apply upd_parent_ne. intros ->. apply Hy. left. by apply HinL. }
    assert (ptr t1 = c) as Hpt1 by done.
    split; [by destruct ctx|]. split; [|].
    + apply (good_relink h h1 ctx (Node L a ka ba r)); [exact Hg| | | |done|].
      * rewrite Hperm. apply Hg.
      * rewrite Hperm. apply Hg.
      * intros y Hy _. by apply Hs.
      * unfold t1. cbn [rep]. rewrite Hptr. split; [done|]. split.
        -- apply (rep_plug h1 c (g :: rest)). unfold g. cbn [par fptr rep rep_ctx ptr].
           split; [split; [exact Ha1|split; [|done]]|split; [exact Hq1|split]].
           ++ eapply (rep_moved h _ c a); try done. intros y Hy Hyl. destruct (Hsepl y Hy) as (? & ? & ? & ?).
              rewrite Hs2; try done; try (by intros ->).
              ** apply upd_parent_ne. by intros ->.
              ** left. apply HLr, HinL. auto.
              ** by right.
              ** intros f ctx' E. destruct (Hfd f ctx' E) as (_ & Hf & _). intros ->. apply Hf, HinL. auto.
           ++ eapply rep_same; [|exact Hlq]. intros y Hy. destruct (Hseplq y Hy) as (? & ? & ?).
              apply Hs2; try done.
              ** intros ->. apply HaL, HinL. auto.
              ** left. apply HLr, HinL. auto.
              ** left. intros Hy'. by destruct (Hsepl y Hy') as (_ & _ & ? & _).
              ** intros f ctx' E. destruct (Hfd f ctx' E) as (_ & Hf & _). intros ->. apply Hf, HinL. auto.
           ++ eapply rep_ctx_same; [|exact Hrest]. intros y Hy.
              assert (y ∈ addrs L) as HyL by (apply HinL; tauto).
              apply Hs2.
              ** by intros ->.
              ** apply Hsepc. by apply frame_addrs_cons.
              ** by intros ->.
              ** left. by apply HLr.
              ** left. intros Hy'. by destruct (Hsepl y Hy') as (_ & _ & _ & ?).
              ** intros f ctx' E. destruct (Hfd f ctx' E) as (_ & Hf & _). by intros ->.
        -- eapply (rep_moved h _ a c); try done; [by intros n _; apply Hr1|]. intros y Hy Hyr.
           assert (y ∉ addrs L) as HyL by (intros Hy'; by apply (HLr y)).
           rewrite Hs2; try (by intros ->).
           ** apply upd_parent_ne. by intros ->.
           ** by right.
           ** left. intros Hy'. apply HyL, HinL. auto.
           ** intros f ctx' E. destruct (Hfd f ctx' E) as (_ & _ & Hf). by intros ->.
    + intros y. rewrite addrs_plug_in. intros Hy. apply Hs; [tauto|]. intros f ctx' -> ->. apply Hy. right. by apply fptr_in.
Qed.
End tree_swap.
