(* ===== verification/AvlTreeSpec.v ===== *)
(** * The AVL tree is a sorted map

    [search], [insert], [remove] and [pop] of [AvlTree] against operations on a
    sorted list of keys and nodes. *)

From Stdlib Require Import Sorted.
From S2P Require Import Prelude AvlTree AvlTreeBalance AvlTreeSwap.

(** ** Sorted lists of keys: the specification *)
Section sorted.
Context {K : Type} `{OrdLaws K}.
Implicit Types (xs ys : list (K * Z)).

Definition lt_elem (x y : K * Z) : Prop := ltb x.1 y.1 = true.
Definition sorted xs : Prop := StronglySorted lt_elem xs.
Definition all_lt (k : K) xs : Prop := Forall (λ x, ltb x.1 k = true) xs.
Definition all_gt (k : K) xs : Prop := Forall (λ x, ltb k x.1 = true) xs.

Fixpoint slookup (k : K) xs : option Z :=
  match xs with
  | [] => None
  | (k', a) :: xs => if ltb k' k then slookup k xs else if ltb k k' then None else Some a
  end.

Fixpoint sinsert (k : K) (v : Z) xs : list (K * Z) :=
  match xs with
  | [] => [(k, v)]
  | (k', a) :: xs => if ltb k' k then (k', a) :: sinsert k v xs else (k, v) :: (k', a) :: xs
  end.

Fixpoint sremove (k : K) xs : list (K * Z) :=
  match xs with
  | [] => []
  | (k', a) :: xs => if ltb k' k then (k', a) :: sremove k xs else if ltb k k' then (k', a) :: xs else xs
  end.

Lemma ltb_asym k1 k2 : ltb k1 k2 = true → ltb k2 k1 = false.
Proof.
  intros H1. destruct (ltb k2 k1) eqn:H2; [|done].
  pose proof (ltb_trans _ _ _ H1 H2). by rewrite ltb_irrefl in *.
Qed.

Lemma sorted_app xs ys :
  sorted (xs ++ ys) ↔ sorted xs ∧ sorted ys ∧ ∀ x y, x ∈ xs → y ∈ ys → lt_elem x y.
Proof.
  unfold sorted. induction xs as [|x xs IH]; simpl.
  - split; [|tauto]. intros Hs. split; [constructor|]. split; [done|]. by intros ?? ?%not_elem_of_nil.
  - split.
    + intros Hs. inversion Hs as [|?? Hs' Hf]; subst. apply IH in Hs' as (H1 & H2 & H3).
      apply Forall_app in Hf as [Hf1 Hf2]. split; [by constructor|]. split; [done|].
      intros y z [-> | Hy]%elem_of_cons Hz; [|by apply H3]. rewrite Forall_forall in Hf2. by apply Hf2.
    + intros (H1 & H2 & H3). inversion H1 as [|?? Hs' Hf]; subst. constructor.
      * apply IH. split; [done|]. split; [done|]. intros. apply H3; [by right|done].
      * apply Forall_app. split; [done|]. apply Forall_forall. intros. apply H3; [by left|done].
Qed.

Lemma sorted_mid xs k a ys : sorted (xs ++ (k, a) :: ys) → all_lt k xs ∧ all_gt k ys ∧ sorted (xs ++ ys).
Proof.
  rewrite (sorted_app xs (_ :: _)). intros (H1 & H2 & H3). inversion H2 as [|?? Hs Hf]; subst.
  split; [|split].
  - apply Forall_forall. intros x Hx. apply (H3 x (k, a)); [done|by left].
  - by eapply Forall_impl.
  - apply sorted_app. split; [done|]. split; [done|]. intros. apply H3; [done|by right].
Qed.

Lemma sorted_insert xs k a ys :
  sorted (xs ++ ys) → all_lt k xs → all_gt k ys → sorted (xs ++ (k, a) :: ys).
Proof.
  rewrite (sorted_app xs ys), (sorted_app xs (_ :: _)). intros (H1 & H2 & H3) Hx Hy.
  split; [done|]. split; [constructor; [done|by eapply Forall_impl]|].
  intros x y Hin [-> | Hin']%elem_of_cons; [|by apply H3].
  unfold all_lt in Hx. rewrite Forall_forall in Hx. by apply Hx.
Qed.

Lemma all_lt_trans k k' xs : all_lt k xs → ltb k k' = true → all_lt k' xs.
Proof. intros Ha Hk. eapply Forall_impl; [exact Ha|]. intros x Hx. cbn beta in *. by eapply ltb_trans. Qed.

Lemma all_gt_trans k k' xs : all_gt k xs → ltb k' k = true → all_gt k' xs.
Proof. intros Ha Hk. eapply Forall_impl; [exact Ha|]. intros x Hx. cbn beta in *. by eapply ltb_trans. Qed.

Lemma slookup_mid k xs a ys : all_lt k xs → slookup k (xs ++ (k, a) :: ys) = Some a.
Proof. induction 1 as [|[k' a'] xs Hx _ IH]; simpl in *; [by rewrite ltb_irrefl|]. by rewrite Hx. Qed.

Lemma slookup_none k xs ys : all_lt k xs → all_gt k ys → slookup k (xs ++ ys) = None.
Proof.
  intros Hx Hy. induction Hx as [|[k' a'] xs Hx _ IH]; simpl in *; [|by rewrite Hx].
  destruct Hy as [|[k' a'] ys Hy]; simpl in *; [done|]. by rewrite (ltb_asym _ _ Hy), Hy.
Qed.

Lemma sinsert_mid k v xs ys : all_lt k xs → all_gt k ys → sinsert k v (xs ++ ys) = xs ++ (k, v) :: ys.
Proof.
  intros Hx Hy. induction Hx as [|[k' a'] xs Hx _ IH]; simpl in *; [|by rewrite Hx, IH].
  destruct Hy as [|[k' a'] ys Hy]; simpl in *; [done|]. by rewrite (ltb_asym _ _ Hy).
Qed.

Lemma sremove_mid k xs a ys : all_lt k xs → sremove k (xs ++ (k, a) :: ys) = xs ++ ys.
Proof. induction 1 as [|[k' a'] xs Hx _ IH]; simpl in *; [by rewrite ltb_irrefl|]. by rewrite Hx, IH. Qed.

Lemma sremove_none k xs ys : all_lt k xs → all_gt k ys → sremove k (xs ++ ys) = xs ++ ys.
Proof.
  intros Hx Hy. induction Hx as [|[k' a'] xs Hx _ IH]; simpl in *; [|by rewrite Hx, IH].
  destruct Hy as [|[k' a'] ys Hy]; simpl in *; [done|]. by rewrite (ltb_asym _ _ Hy), Hy.
Qed.
End sorted.

(** ** Searching *)
Section searching.
Context {B : Build} {K : Type} `{OrdLaws K}.
Abbreviation heap := (gmap Z (tnode K)).
Implicit Types (h : heap) (t l r : tree K) (ctx : list (AvlTree.frame K)).

(** What a search result says about the tree: the node with the key, or the
    leaf where it belongs. *)
Definition found (k : K) t (res : SearchResult) : Prop :=
  match res with
  | Present p => ∃ ctx l b r, t = plug ctx (Node l p k b r)
  | SLeftOf p => ∃ ctx k' b r, t = plug (FL p k' b r :: ctx) Leaf ∧
      all_lt k (before ctx) ∧ all_gt k (after (FL p k' b r :: ctx))
  | SRightOf p => ∃ ctx l k' b, t = plug (FR l p k' b :: ctx) Leaf ∧
      all_lt k (before (FR l p k' b :: ctx)) ∧ all_gt k (after ctx)
  | SRoot => t = Leaf
  end.

Lemma elems_plug_mid ctx l a k b r :
  elems (plug ctx (Node l a k b r)) = (before ctx ++ elems l) ++ (k, a) :: (elems r ++ after ctx).
Proof. rewrite elems_plug. lassoc. Qed.

Lemma search_loop_ok t : ∀ ctx fuel h k,
  t ≠ Leaf → rep h (par null ctx) t → null ∉ addrs t → height t <= Z.of_nat fuel →
  sorted (elems (plug ctx t)) → all_lt k (before ctx) → all_gt k (after ctx) →
  wp (search_loop fuel k (ptr t)) h (λ res h', h' = h ∧ found k (plug ctx t) res).
Proof.
  induction t as [|l IHl a ka b r IHr]; intros ctx fuel h k Hne Hrep Hnull Hf Hs Hlt Hgt; [done|].
  destruct Hrep as (Ha & Hl & Hr). destruct (node_not_null _ _ _ _ _ Hnull) as (_ & Hnl & Hnr).
  pose proof (height_nonneg l). pose proof (height_nonneg r).
  destruct fuel as [|fuel]; [cbn [height] in Hf; lia|]. cbn [height] in Hf.
  pose proof Hs as Hs0. rewrite elems_plug_mid in Hs. pose proof (sorted_mid _ _ _ _ Hs) as (Hla & Hga & _).
  apply Forall_app in Hla as [Hla1 Hla2]. apply Forall_app in Hga as [Hga1 Hga2].
  cbn [search_loop ptr]. do 5 hstep.
  destruct (ltb k ka) eqn:E1; [|destruct (ltb ka k) eqn:E2].
  - do 5 hstep. destruct l as [|l1 al kl bl l2]; cbn [ptr] in *.
    + cbn [Z.eqb]. hstep. split; [done|]. exists ctx, ka, b, r. repeat split; try done.
      cbn [after]. constructor; [done|]. apply Forall_app. split; [|done]. by eapply all_gt_trans.
    + destruct (node_not_null _ _ _ _ _ Hnl) as (Hal & _). hstep.
      apply (IHl (FL a ka b r :: ctx)); try done; [lia|].
      constructor; [done|]. apply Forall_app. split; [|done]. by eapply all_gt_trans.
  - do 5 hstep. destruct r as [|r1 ar kr br r2]; cbn [ptr] in *.
    + cbn [Z.eqb]. hstep. split; [done|]. exists ctx, l, ka, b. repeat split; try done.
      cbn [before]. rewrite app_assoc. apply Forall_app. split; [|by constructor].
      apply Forall_app. split; [done|]. by eapply all_lt_trans.
    + destruct (node_not_null _ _ _ _ _ Hnr) as (Hal & _). hstep.
      apply (IHr (FR l a ka b :: ctx)); try done; [lia|].
      cbn [before]. rewrite app_assoc. apply Forall_app. split; [|by constructor].
      apply Forall_app. split; [done|]. by eapply all_lt_trans.
  - hstep. split; [done|]. rewrite (ltb_total _ _ E1 E2). by exists ctx, l, b, r.
Qed.
End searching.

(** ** Insertion *)
Section insertion.
Context {B : Build} {K : Type} `{OrdLaws K}.
Abbreviation heap := (gmap Z (tnode K)).
Implicit Types (h : heap) (t l r : tree K) (f : AvlTree.frame K) (ctx : list (AvlTree.frame K)).

(** The record [self] in the heap [h] is the AVL tree [t]. *)
Record avl_tree h (self : AvlTree) t : Prop := {
  at_good : good h t;
  at_root : root self = ptr t;
  at_len : len self = Z.of_nat (size t);
  at_avl : avl t;
  at_sorted : sorted (elems t);
}.

Lemma search_ok h self t fuel k :
  avl_tree h self t → height t <= Z.of_nat fuel →
  wp (search fuel self k) h (λ res h', h' = h ∧ found k t res).
Proof.
  intros [(Hrep & Hnd & Hnull) Hroot _ _ Hs] Hf. unfold search. rewrite Hroot.
  destruct t as [|l a ka b r]; cbn [ptr]; [by repeat hstep|].
  destruct (node_not_null _ _ _ _ _ Hnull) as (Ha & _). hstep.
  apply (search_loop_ok (Node l a ka b r) []); try done; by constructor.
Qed.

Lemma good_same h h1 t : good h t → (∀ x, x ∈ addrs t → h1 !! x = h !! x) → good h1 t.
Proof. intros (Hr & Hnd & Hnull) Hs. split; [by eapply rep_same|done]. Qed.

Lemma addrs_leaf f ctx a k b :
  NoDup (addrs (plug (f :: ctx) Leaf)) → null ∉ addrs (plug (f :: ctx) Leaf) →
  a ∉ addrs (plug (f :: ctx) Leaf) → a ≠ null →
  NoDup (addrs (plug (f :: ctx) (Node Leaf a k b Leaf))) ∧ null ∉ addrs (plug (f :: ctx) (Node Leaf a k b Leaf)).
Proof.
  rewrite !addrs_plug. change (addrs (Leaf : tree K)) with (@nil Z).
  change (addrs (Node Leaf a k b Leaf : tree K)) with [a]. cbn [app].
  intros Hnd Hnull Ha Hna. rewrite NoDup_mid. rewrite elem_of_app in Ha. split; [tauto|].
  rewrite elem_of_app in Hnull |- *. rewrite elem_of_cons. intuition.
Qed.

(** A new leaf below [f], whose balance is not adjusted yet. *)
Lemma good_new_leaf h f ctx v k n :
  good h (plug (f :: ctx) Leaf) → v ∉ addrs (plug (f :: ctx) Leaf) → v ≠ null → h !! v = Some n →
  good (<[v := mkT (fptr f) null null k 0]> (<[fptr f := fnode f ctx v]> h))
    (plug (f :: ctx) (Node Leaf v k 0 Leaf)).
Proof.
  intros Hg Hv Hnull Hn. pose proof Hg as (Hr & Hnd & Hnu).
  destruct (addrs_leaf f ctx v k 0 Hnd Hnu Hv Hnull) as [Hnd1 Hnu1].
  assert (v ≠ fptr f) as Hvf.
  { intros ->. apply Hv. cbn [plug]. rewrite addrs_plug_in, addrs_fill. auto. }
  apply (good_link h _ f ctx Leaf); try done.
  - intros x _ Hx Hxf. rewrite !lookup_insert_ne; try done. intros ->. apply Hx. rewrite addrs_node. mem.
  - by rewrite lookup_insert_ne, lookup_insert_eq by done.
  - cbn [rep ptr]. by rewrite lookup_insert_eq.
Qed.

Lemma length_ctx ctx : ∀ t, Z.of_nat (length ctx) + height t <= height (plug ctx t).
Proof.
  induction ctx as [|f ctx IH]; intros t; cbn [length plug]; [lia|].
  specialize (IH (fill f t)). destruct f; cbn [fill height] in *; lia.
Qed.

Lemma size_plug ctx t : size (plug ctx t) = (length (before ctx) + size t + length (after ctx))%nat.
Proof. rewrite !size_elems, elems_plug, !length_app. lia. Qed.

(** Linking the new leaf and walking up. *)
Lemma insert_below {A} h self f ctx v k n fuel (c : Z) (g : AvlTree → M heap A) Q :
  let t := plug (f :: ctx) Leaf in
  avl_tree h self t → height t <= Z.of_nat fuel → v ∉ addrs t → v ≠ null →
  h !! v = Some n → left n = null → right n = null → bf n = 0 →
  c = match f with FL _ _ _ _ => -1 | FR _ _ _ _ => 1 end →
  (∀ self' h', walked h self (plug (f :: ctx) (Node Leaf v k 0 Leaf)) self' h' → wp (g self') h' Q) →
  wp (match f with FL p _ _ _ => set_leftp p v | FR _ p _ _ => set_rightp p v end;;
      set_key v k;;
      self ← rebalance fuel self (fptr f) c Add;
      g self) h Q.
Proof.
  intros t [Hg Hroot _ Havl _] Hf Hv Hnull Hn Hl Hr Hb Hc HQ. subst t.
  destruct (good_parent _ _ _ _ Hg) as (Hp & Hpn & Hpin).
  assert (v ≠ fptr f) as Hvp by congruence.
  pose proof (good_new_leaf h f ctx v k n Hg Hv Hnull Hn) as Hg2.
  assert (same_off (addrs (plug (f :: ctx) (Node Leaf v k 0 Leaf))) h
    (<[v := mkT (fptr f) null null k 0]> (<[fptr f := fnode f ctx v]> h))) as Hs.
  { eapply same_off_trans; apply same_off_store; cbn [plug]; rewrite addrs_plug_in, addrs_fill; [auto|].
    left. right. left. rewrite addrs_node. mem. }
  pose proof (length_ctx ctx (fill f Leaf)) as Hlen. cbn [plug] in Hf.
  apply avl_plug in Havl as [_ Hctx].
  destruct f as [p k' b r|l p k' b]; cbn [fptr fnode avl_ctx fill plug height ptr] in *; destruct Hctx as (Hbk & Hb1 & Ha & Hctx);
    first [pose proof (height_nonneg r) | pose proof (height_nonneg l)];
    repeat hstep; unfold set_key; repeat hstep; rewrite Hl, Hr, Hb, insert_insert_eq;
    (eapply wp_mono; [|intros ? ? ?; apply HQ; eapply walked_trans; [exact Hs|done|eassumption]]).
  - apply (rebalance_ok ctx _ _ _ (Node Leaf v k 0 Leaf) p k' b r); try done; try lia.
    + rewrite Hroot. by apply ptr_plug.
    + cbn [height]. lia.
    + subst c. by right.
    + subst c. cbn [height old_height Z.eqb]. by replace (Z.max (1 + Z.max 0 0 - 1) (height r)) with (Z.max 0 (height r)) by lia.
  - apply (rebalance_ok ctx _ _ _ l p k' b (Node Leaf v k 0 Leaf)); try done; try lia.
    + rewrite Hroot. by apply ptr_plug.
    + cbn [height]. lia.
    + subst c. by right.
    + subst c. cbn [height old_height Z.eqb Pos.eqb].
      by replace (Z.max (height l) (1 + Z.max 0 0 - 1)) with (Z.max (height l) 0) by lia.
Qed.

(** The leaf's elements are those of a sorted list with the key inserted. *)
Lemma insert_elems k v f ctx :
  all_lt k (before (f :: ctx)) → all_gt k (after (f :: ctx)) →
  elems (plug (f :: ctx) (Node Leaf v k 0 Leaf)) = sinsert k v (elems (plug (f :: ctx) Leaf)) ∧
  slookup k (elems (plug (f :: ctx) Leaf)) = None.
Proof.
  intros Hlt Hgt. rewrite !elems_plug. cbn [elems]. split.
  - symmetry. by apply sinsert_mid.
  - by apply slookup_none.
Qed.

Definition inserted h self t k v (h' : heap) (res : AvlTree * (Z + Z)) : Prop :=
  same_off (v :: addrs t) h h' ∧
  match slookup k (elems t) with
  | Some _ => res = (self, inl v) ∧ avl_tree h' self t
  | None => ∃ self' t', res = (self', inr v) ∧ avl_tree h' self' t' ∧ elems t' = sinsert k v (elems t)
  end.

Lemma insert_done h h1 self h' self1 f ctx k v :
  let t := plug (f :: ctx) Leaf in
  avl_tree h self t → all_lt k (before (f :: ctx)) → all_gt k (after (f :: ctx)) →
  len self + 1 < U64 → same_off (v :: addrs t) h h1 →
  walked h1 self (plug (f :: ctx) (Node Leaf v k 0 Leaf)) self1 h' →
  wp (n ← lift (uadd (len self1) 1); mret (mkTree (root self1) n, inr v)) h'
    (λ res h', inserted h self t k v h' res).
Proof.
  intros t Ht Hlt Hgt Hlen Hs (t' & -> & Hg' & Hs' & He' & Havl').
  assert (same_off (v :: addrs t) h h') as Hs2.
  { eapply same_off_trans; [exact Hs|]. eapply same_off_sub; [exact Hs'|]. intros x. subst t. cbn [plug].
    rewrite elem_of_cons, !addrs_plug_in, !addrs_fill, addrs_node, elem_of_app, elem_of_cons.
    change (addrs (Leaf : tree K)) with (@nil Z). rewrite !elem_of_nil. tauto. }
  destruct (insert_elems k v f ctx Hlt Hgt) as [He Hl]. destruct Ht as [_ _ Hsz _ Hsort].
  hstep. eapply wp_lift; [cbn [len]; apply uadd_ok; lia|]. hstep.
  split; [done|]. subst t. rewrite Hl. exists (mkTree (ptr t') (len self + 1)), t'.
  split; [done|]. split; [|congruence]. split; try done; cbn [root len].
  - rewrite Hsz, !size_elems, He', He, !elems_plug. cbn [elems app].
    rewrite sinsert_mid by done. rewrite !length_app. cbn [length]. lia.
  - rewrite He', He, elems_plug. cbn [elems app]. rewrite sinsert_mid by done.
    apply sorted_insert; try done. by rewrite elems_plug in Hsort.
Qed.

Lemma insert_ok h self t k v n fuel :
  avl_tree h self t → height t <= Z.of_nat fuel → len self + 1 < U64 →
  v ∉ addrs t → v ≠ null → h !! v = Some n →
  wp (insert fuel self k v) h (λ res h', inserted h self t k v h' res).
Proof.
  intros Ht Hf Hlen Hv Hnull Hn. unfold insert. do 9 hstep.
  set (n1 := mkT _ null null _ 0). rewrite !insert_insert_eq.
  assert (same_off [v] h (<[v := n1]> h)) as Hs1 by (apply same_off_store; mem).
  assert (avl_tree (<[v := n1]> h) self t) as Ht1.
  { destruct Ht. split; try done. eapply good_same; [done|]. intros x Hx. rewrite lookup_insert_ne; [done|]. by intros ->. }
  hstep. eapply wp_mono; [by apply search_ok|]. intros res h' (-> & Hfound). cbn beta.
  assert (same_off (v :: addrs t) h (<[v := n1]> h)) as Hs.
  { eapply same_off_sub; [exact Hs1|]. intros x Hx. set_solver +Hx. }
  destruct res as [p|p|p|]; cbn [found] in Hfound.
  - hstep. split; [done|]. destruct Hfound as (ctx & l & b & r & ->).
    pose proof (at_sorted _ _ _ Ht) as Hsort. rewrite elems_plug_mid in *.
    destruct (sorted_mid _ _ _ _ Hsort) as (Hlt & _). by rewrite slookup_mid.
  - destruct Hfound as (ctx & k' & b & r & -> & Hlt & Hgt).
    eapply (insert_below _ self (FL p k' b r) ctx v k n1 fuel (-1)); try done; [by rewrite lookup_insert_eq|].
    intros self1 h1 Hw. by eapply insert_done.
  - destruct Hfound as (ctx & l & k' & b & -> & Hlt & Hgt).
    eapply (insert_below _ self (FR l p k' b) ctx v k n1 fuel 1); try done; [by rewrite lookup_insert_eq|].
    intros self1 h1 Hw. by eapply insert_done.
  - subst t. unfold set_key. repeat hstep. eapply wp_lift; [cbn [len]; apply uadd_ok; destruct Ht as [_ _ -> _ _]; simpl; lia|].
    hstep. rewrite !insert_insert_eq. split; [|cbn [slookup elems]].
    { apply same_off_store. mem. }
    exists (mkTree v (len self + 1)), (Node Leaf v k 0 Leaf). split; [done|]. split; [|done].
    split; try done.
    + split; [cbn [rep ptr]; by rewrite lookup_insert_eq|].
      change (addrs (Node Leaf v k 0 Leaf : tree K)) with [v]. split; [apply NoDup_singleton|]. set_solver +Hnull.
    + cbn [len]. destruct Ht as [_ _ -> _ _]. done.
    + by repeat constructor.
Qed.
End insertion.

(** ** Removal *)
Section removal.
Context {B : Build} {K : Type} `{OrdLaws K}.
Abbreviation heap := (gmap Z (tnode K)).
Implicit Types (h : heap) (t l r : tree K) (f : AvlTree.frame K) (ctx : list (AvlTree.frame K)).

(** A node with at most one child [x]. *)
Definition edge l r x : Prop := (r = Leaf ∧ x = l) ∨ (l = Leaf ∧ x = r).

Lemma edge_facts l a k b r x ctx :
  edge l r x → NoDup (addrs (plug ctx (Node l a k b r))) → null ∉ addrs (plug ctx (Node l a k b r)) →
  NoDup (addrs (plug ctx x)) ∧ (null ∉ addrs (plug ctx x)) ∧ (a ∉ addrs (plug ctx x)) ∧
  ∀ y, y ∈ addrs x → y ∈ addrs (Node l a k b r).
Proof.
  intros He. rewrite !addrs_plug, addrs_node.
  assert (∃ xs ys, addrs l = xs ∧ addrs r = ys ∧ addrs x = xs ++ ys) as (xs & ys & -> & -> & ->).
  { exists (addrs l), (addrs r). repeat split; try done. destruct He as [[-> ->]|[-> ->]]; [by rewrite app_nil_r|done]. }
  replace ((before ctx).*2 ++ (xs ++ a :: ys) ++ (after ctx).*2)
    with (((before ctx).*2 ++ xs) ++ a :: (ys ++ (after ctx).*2)) by lassoc.
  replace ((before ctx).*2 ++ (xs ++ ys) ++ (after ctx).*2)
    with (((before ctx).*2 ++ xs) ++ ys ++ (after ctx).*2) by lassoc.
  rewrite NoDup_mid. intros (H1 & H2 & Hnd) Hn. split; [done|].
  split; [intros Hx; apply Hn; revert Hx; rewrite elem_of_app, (elem_of_app _ (_ :: _)), elem_of_cons; tauto|].
  split; [rewrite elem_of_app; tauto|]. intros y. rewrite !elem_of_app, elem_of_cons. tauto.
Qed.

Lemma rep_sub h p l a k b r x : edge l r x → rep h p (Node l a k b r) → rep h a x.
Proof. intros He (_ & Hl & Hr). by destruct He as [[_ ->]|[_ ->]]. Qed.

Lemma edge_avl l a k b r x : edge l r x → avl (Node l a k b r) → avl x ∧ height (Node l a k b r) = 1 + height x.
Proof.
  intros He (Hb & Hb1 & Hl & Hr). pose proof (height_nonneg l). pose proof (height_nonneg r).
  destruct He as [[-> ->]|[-> ->]]; cbn [height] in *; split; done || lia.
Qed.

(** The heap after [a]'s only child took its place below [f]. *)
Lemma good_unlink h f ctx l a k b r x h1 :
  good h (plug (f :: ctx) (Node l a k b r)) → edge l r x →
  h1 !! fptr f = Some (fnode f ctx (ptr x)) →
  (∀ y, y ≠ fptr f → (x = Leaf ∨ y ≠ ptr x) → h1 !! y = h !! y) →
  (∀ xl xa xk xb xr, x = Node xl xa xk xb xr → h1 !! xa = Some (mkT (fptr f) (ptr xl) (ptr xr) xk xb)) →
  good h1 (plug (f :: ctx) x) ∧ same_off (addrs (plug (f :: ctx) (Node l a k b r))) h h1.
Proof.
  intros Hg He Hp Hs Hx. pose proof Hg as (Hrep & Hnd & Hnull).
  destruct (edge_facts _ _ _ _ _ _ _ He Hnd Hnull) as (Hnd1 & Hnull1 & Hna & Hsub).
  pose proof Hrep as Hrep'. cbn [plug] in Hrep'. apply rep_plug in Hrep' as [Hf _]. apply rep_fill in Hf as (_ & HN & _).
  assert (∀ y, y ∉ addrs x → x = Leaf ∨ y ≠ ptr x) as Hxp.
  { intros y Hy. destruct x; [by left|right]. intros ->. apply Hy. apply ptr_in. cbn [ptr].
    intros E. apply Hnull1. cbn [plug]. rewrite addrs_plug_in, addrs_fill, addrs_node. subst. left. right. left. mem. }
  split.
  - apply (good_link h h1 f ctx (Node l a k b r)); try done.
    + intros y Hy1 Hy2 Hy3. apply Hs; [done|]. by apply Hxp.
    + eapply (rep_reparent h); [by eapply rep_sub| | |done].
      * cbn [plug] in Hnd1. apply plug_nodup in Hnd1 as [Hnf _]. destruct f; by apply node_nodup in Hnf as (? & ? & _).
      * intros y Hy Hyp. apply Hs; [|by right]. intros ->. cbn [plug] in Hnd1. apply plug_nodup in Hnd1 as [Hnf _].
        by apply fill_nodup in Hnf as [? _].
  - intros y. cbn [plug]. rewrite addrs_plug_in, addrs_fill. intros Hy. apply Hs; [tauto|].
    apply Hxp. intros Hy'. apply Hsub in Hy'. tauto.
Qed.

(** Linking the child of [a] below [f]. *)
Lemma wp_link_child h f ctx l a k b r x Q :
  good h (plug (f :: ctx) (Node l a k b r)) → edge l r x →
  (∀ h1, good h1 (plug (f :: ctx) x) → same_off (addrs (plug (f :: ctx) (Node l a k b r))) h h1 → Q () h1) →
  wp (match f with FL p _ _ _ => set_leftp p (ptr x) | FR _ p _ _ => set_rightp p (ptr x) end) h Q.
Proof.
  intros Hg He HQ. destruct (good_parent _ _ _ _ Hg) as (Hp & Hpn & _). pose proof Hg as (Hrep & Hnd & Hnull).
  destruct (edge_facts _ _ _ _ _ _ _ He Hnd Hnull) as (Hnd1 & Hnull1 & _).
  pose proof Hrep as Hrep'. cbn [plug] in Hrep'. apply rep_plug in Hrep' as [Hf _]. apply rep_fill in Hf as (_ & HN & _).
  assert (wp (match f with FL p _ _ _ => set_leftp p (ptr x) | FR _ p _ _ => set_rightp p (ptr x) end) h (λ _ h1,
    h1 !! fptr f = Some (fnode f ctx (ptr x)) ∧
    (∀ y, y ≠ fptr f → (x = Leaf ∨ y ≠ ptr x) → h1 !! y = h !! y) ∧
    (∀ xl xa xk xb xr, x = Node xl xa xk xb xr → h1 !! xa = Some (mkT (fptr f) (ptr xl) (ptr xr) xk xb)))) as Hw.
  { apply rep_sub with (x := x) in HN; [|done].
    destruct x as [|xl xa xk xb xr]; cbn [ptr].
    - destruct f; cbn [fptr fnode] in *; repeat hstep; repeat split; try done; try lk; intros; by rewrite lookup_insert_ne.
    - destruct HN as (Hx & _).
      assert (xa ≠ null ∧ xa ≠ fptr f) as [Hxn Hxf].
      { cbn [plug] in *. split.
        - intros E. apply Hnull1. rewrite addrs_plug_in, addrs_fill, addrs_node, E. left. right. left. mem.
        - intros E. apply plug_nodup in Hnd1 as [Hnf _]. apply fill_nodup in Hnf as [Hn _]. apply Hn.
          rewrite addrs_node, <- E. mem. }
      destruct f; cbn [fptr fnode] in *; repeat hstep; (split; [lk|]; split;
        [intros y Hy1 [?|Hy2]; [done|]; by rewrite !lookup_insert_ne by congruence| intros ????? [= <- <- <- <- <-]; lk]). }
  eapply wp_mono; [exact Hw|]. intros [] h1 (H1 & H2 & H3). cbn beta.
  edestruct (good_unlink h f ctx l a k b r x h1); try done. by apply HQ.
Qed.

Definition unlinked h self t ctx x a (res : AvlTree * option Z) (h' : heap) : Prop :=
  res.2 = Some a ∧ ∃ t', res.1 = mkTree (ptr t') (len self) ∧ good h' t' ∧ same_off (addrs t) h h' ∧
    elems t' = elems (plug ctx x) ∧ avl t'.

Lemma remove_edge_ok h self ctx l a k b r x fuel :
  let t := plug ctx (Node l a k b r) in
  good h t → root self = ptr t → avl t → height t <= Z.of_nat fuel → edge l r x →
  wp (remove_edge_node fuel self a) h (unlinked h self t ctx x a).
Proof.
  intros t Hg Hroot Havl Hf He. subst t. pose proof Hg as (Hrep & Hnd & Hnull).
  pose proof Hrep as Hrep'. apply rep_plug in Hrep' as [HN _]. pose proof HN as (Ha & _).
  pose proof Havl as Havl'. apply avl_plug in Havl' as [HavlN Hctx].
  destruct (edge_avl _ _ _ _ _ _ He HavlN) as [Hax Hhx]. rewrite Hhx in Hctx.
  pose proof (edge_facts _ _ _ _ _ _ _ He Hnd Hnull) as (_ & Hnx & _ & Hsub).
  unfold remove_edge_node. do 10 hstep.
  assert ((if ptr r =? null then Some (ptr l) else if ptr l =? null then Some (ptr r) else None) = Some (ptr x)) as ->.
  { destruct He as [[-> ->]|[-> ->]]; cbn [ptr]; zb; congruence. }
  hstep. eapply (wp_parent_type _ ctx); [exact Hg|].
  pose proof (length_ctx ctx (Node l a k b r)) as Hlc. cbn [height] in Hlc.
  destruct ctx as [|f ctx]; cbn [ptype].
  - cbn [plug par before after] in *. apply (rep_sub _ _ _ _ _ _ _ _ He) in HN.
    destruct (edge_facts _ _ _ _ _ _ [] He Hnd Hnull) as (Hnd1 & _). cbn [plug] in Hnd1.
    destruct x as [|xl xa xk xb xr]; cbn [ptr].
    + repeat hstep. split; [done|]. exists Leaf. repeat split; try done; constructor.
    + pose proof HN as (Hx & _). destruct (node_not_null _ _ _ _ _ Hnx) as (Hxa & _).
      repeat hstep. split; [done|]. exists (Node xl xa xk xb xr). split; [done|]. split; [split; [|done]|].
      * eapply (rep_reparent h); [done|done| |].
        -- intros y _ Hy. by rewrite lookup_insert_ne by (by intros ->).
        -- intros ????? [= <- <- <- <- <-]. lk.
      * split; [|done]. apply same_off_store, Hsub. rewrite addrs_node. mem.
  - assert (∀ c, c = match f with FL _ _ _ _ => 1 | FR _ _ _ _ => -1 end → ∀ h1,
      good h1 (plug (f :: ctx) x) → same_off (addrs (plug (f :: ctx) (Node l a k b r))) h h1 →
      wp (self0 ← rebalance fuel self (fptr f) c Del; mret (self0, Some a)) h1
        (unlinked h self (plug (f :: ctx) (Node l a k b r)) (f :: ctx) x a)) as Hwalk.
    { clear Hnd Hnull Hrep HN Ha Hnx Hsub. pose proof (height_nonneg x). pose proof (height_nonneg l).
      intros c Hc h1 Hg1 Hs1. cbn [length] in Hlc. hstep.
      eapply (wp_mono _ _ (walked h1 self (plug (f :: ctx) x))).
      - destruct f as [p k' b' r'|l' p k' b']; cbn [fptr avl_ctx plug fill] in *; destruct Hctx as (Hb & Hb1 & Ha & Hctx); subst c;
          [apply (rebalance_ok ctx fuel h1 self x p k' b' r' 1 Del)|apply (rebalance_ok ctx fuel h1 self l' p k' b' x (-1) Del)];
          try done; try lia; try (rewrite Hroot; by apply ptr_plug);
          cbn [old_height Z.eqb Pos.eqb]; by rewrite (Z.add_comm (height x)).
      - intros self1 h2 (t' & -> & Hg2 & Hs2 & He2 & Ha2). hstep. split; [done|]. exists t'.
        split; [done|]. split; [done|]. split; [|done]. eapply same_off_trans; [exact Hs1|].
        eapply same_off_sub; [exact Hs2|]. intros y. rewrite !addrs_plug_in.
        destruct He as [[-> ->]|[-> ->]]; rewrite addrs_node, elem_of_app, elem_of_cons; tauto. }
    destruct f; cbn [fptr] in *; hstep.
    + eapply (wp_link_child h (FL _ _ _ _) ctx); [done..|]. intros. by apply Hwalk.
    + eapply (wp_link_child h (FR _ _ _ _) ctx); [done..|]. intros. by apply Hwalk.
Qed.

Lemma rightmost_ok t : ∀ fuel h p,
  t ≠ Leaf → rep h p t → null ∉ addrs t → height t <= Z.of_nat fuel →
  wp (rightmost fuel (ptr t)) h (λ c h', h' = h ∧
    ∃ ctx l kc bc, all_right ctx ∧ t = plug ctx (Node l c kc bc Leaf)).
Proof.
  induction t as [|l _ a k b r IHr]; intros fuel h p Hne Hrep Hnull Hf; [done|].
  destruct Hrep as (Ha & _ & Hr). destruct (node_not_null _ _ _ _ _ Hnull) as (_ & _ & Hnr).
  pose proof (height_nonneg l). pose proof (height_nonneg r). cbn [height] in Hf.
  destruct fuel as [|fuel]; [lia|]. cbn [rightmost ptr]. do 5 hstep.
  destruct r as [|r1 c kc bc r2]; cbn [ptr] in *.
  - cbn [Z.eqb]. hstep. split; [done|]. exists [], l, k, b. by split; [constructor|].
  - destruct (node_not_null _ _ _ _ _ Hnr) as (Hc & _). hstep.
    eapply wp_mono; [apply (IHr fuel h a); try done; lia|].
    intros c' h' (-> & ctx & l' & kc' & bc' & Har & E). split; [done|].
    exists (ctx ++ [FR l a k b]), l', kc', bc'. split.
    + apply Forall_app. split; [done|]. by constructor.
    + rewrite plug_app, <- E. done.
Qed.

Lemma after_all_right ctx : all_right ctx → after ctx = [].
Proof. induction 1 as [|[] ctx Hf _ IH]; [done|done|exact IH]. Qed.

Lemma swap_ok h ctx ctx2 l c kc bc a ka ba r :
  let t := Node (plug ctx2 (Node l c kc bc Leaf)) a ka ba r in
  all_right ctx2 → good h (plug ctx t) → r ≠ Leaf →
  wp (swap a c) h (swapped h t ctx (Node (plug ctx2 (Node l a ka bc Leaf)) c kc ba r)).
Proof.
  intros t Hr Hg Hne. destruct Hr as [|[] ctx2 Hf]; [by apply swap_near_ok|done|by apply swap_far_ok].
Qed.

(** The two places have the same shape. *)
Lemma swap_shape ctx ctx2 l c kc bc a ka ba r :
  let t := plug ctx (Node (plug ctx2 (Node l c kc bc Leaf)) a ka ba r) in
  let t1 := plug ctx (Node (plug ctx2 (Node l a ka bc Leaf)) c kc ba r) in
  height t1 = height t ∧ (avl t → avl t1).
Proof.
  assert (∀ ctx (x y : tree K), height x = height y → height (plug ctx x) = height (plug ctx y)) as Hh.
  { induction ctx0 as [|[] ctx0 IH]; intros x y E; [done|..]; apply IH; cbn [fill height]; by rewrite E. }
  assert (height (plug ctx2 (Node l a ka bc Leaf)) = height (plug ctx2 (Node l c kc bc Leaf))) as E by by apply Hh.
  split; [apply Hh; cbn [height]; by rewrite E|].
  rewrite !avl_plug. cbn [avl height]. rewrite E, !avl_plug. cbn [avl height]. tauto.
Qed.

Lemma swap_elems ctx ctx2 l c kc bc a ka ba r : all_right ctx2 →
  let xs := before ctx ++ before ctx2 ++ elems l in
  let ys := elems r ++ after ctx in
  elems (plug ctx (Node (plug ctx2 (Node l c kc bc Leaf)) a ka ba r)) = (xs ++ [(kc, c)]) ++ (ka, a) :: ys ∧
  elems (plug (ctx2 ++ FL c kc ba r :: ctx) l) = (xs ++ [(kc, c)]) ++ ys.
Proof.
  intros Hr xs ys. rewrite plug_app. cbn [plug fill]. rewrite !elems_plug. cbn [elems].
  rewrite !elems_plug, (after_all_right _ Hr). cbn [elems]. rewrite !app_nil_r. subst xs ys. split; lassoc.
Qed.

Definition removed h self t k (h' : heap) (res : AvlTree * option Z) : Prop :=
  same_off (addrs t) h h' ∧
  match slookup k (elems t) with
  | Some a => ∃ self' t', res = (self', Some a) ∧ avl_tree h' self' t' ∧ elems t' = sremove k (elems t)
  | None => res = (self, None) ∧ h' = h
  end.

(** From what [remove_edge_node] did to the specification. *)
Lemma unlinked_removed h h1 self p t t1 ctx x a k xs ys res h' :
  avl_tree h self t → elems t = xs ++ (k, a) :: ys → elems (plug ctx x) = xs ++ ys →
  same_off (addrs t) h h1 → (∀ y, y ∈ addrs t1 → y ∈ addrs t) →
  unlinked h1 (mkTree p (len self - 1)) t1 ctx x a res h' → removed h self t k h' res.
Proof.
  intros [_ _ Hlen _ Hs] He He1 Hs1 Hsub (Hres & t' & Hself & Hg & Hs2 & He2 & Ha).
  rewrite He in Hs. destruct (sorted_mid _ _ _ _ Hs) as (Hlt & _ & Hs').
  split; [eapply same_off_trans; [exact Hs1|]; by eapply same_off_sub|].
  rewrite He, slookup_mid, sremove_mid by done. destruct res as [self' o]; simpl in Hres, Hself; subst.
  eexists _, t'. split; [done|]. split; [|by rewrite He2].
  split; cbn [root len]; try done; rewrite ?He2, ?He1; [|done].
  rewrite Hlen, !size_elems, He2, He1, He, !length_app. cbn [length]. lia.
Qed.

Lemma found_none k t res : sorted (elems t) → found k t res →
  (∀ p, res ≠ Present p) → slookup k (elems t) = None.
Proof.
  intros Hs Hf Hne. destruct res as [p|p|p|]; [by destruct (Hne p)|..].
  - destruct Hf as (ctx & k' & b & r & -> & Hlt & Hgt). rewrite elems_plug. by apply slookup_none.
  - destruct Hf as (ctx & l & k' & b & -> & Hlt & Hgt). rewrite elems_plug. by apply slookup_none.
  - by rewrite Hf.
Qed.

(** A node with one child at most is unlinked at once. *)
Lemma remove_present h self ctx k a l b r x fuel :
  let t := plug ctx (Node l a k b r) in
  avl_tree h self t → height t <= Z.of_nat fuel → edge l r x →
  wp (remove_edge_node fuel (mkTree (root self) (len self - 1)) a) h (λ res h', removed h self t k h' res).
Proof.
  intros t Ht Hf He. pose proof Ht as [Hg Hroot _ Havl _].
  eapply wp_mono; [by apply (remove_edge_ok _ (mkTree _ _) ctx l a k b r x)|].
  intros res h' Hu. cbn beta in *. subst t.
  eapply (unlinked_removed _ h _ _ _ _ _ x a k (before ctx ++ elems l) (elems r ++ after ctx)); try done.
  - apply elems_plug_mid.
  - rewrite elems_plug. destruct He as [[-> ->]|[-> ->]]; cbn [elems]; by rewrite ?app_nil_r, <- ?app_assoc.
Qed.

(** A node with two children changes places with its predecessor first. *)
Lemma remove_inner h self ctx k a l b r fuel :
  let t := plug ctx (Node l a k b r) in
  avl_tree h self t → height t <= Z.of_nat fuel → l ≠ Leaf → r ≠ Leaf →
  wp (child ← left_ref a;
      child ← rightmost fuel child;
      o ← swap a child;
      remove_edge_node fuel (match o with Some p => mkTree p (len self - 1) | None => mkTree (root self) (len self - 1) end) a)
    h (λ res h', removed h self t k h' res).
Proof.
  intros t Ht Hf Hl Hr. pose proof Ht as [Hg Hroot _ Havl _]. subst t.
  destruct (good_focus _ _ _ _ _ _ _ Hg) as ((Ha & Hrl & Hrr) & Hnd & Hnull & _).
  destruct (node_not_null _ _ _ _ _ Hnull) as (_ & Hnl & _).
  destruct (ptr_not_null l Hl Hnl) as [Hpl _]. destruct (rep_root _ _ _ Hrl) as [|[nl Hpn]]; [done|].
  pose proof (length_ctx ctx (Node l a k b r)) as Hlc. cbn [height] in Hlc.
  unfold left_ref. do 8 hstep.
  eapply wp_mono; [apply (rightmost_ok l fuel h a); try done; lia|].
  intros c h1 (-> & ctx2 & l2 & kc & bc & Har & ->). cbn beta. hstep.
  eapply wp_mono; [by apply (swap_ok h ctx ctx2 l2 c kc bc a k b r)|].
  intros o h2 (-> & Hg2 & Hs2). cbn beta.
  set (t := plug ctx (Node (plug ctx2 (Node l2 c kc bc Leaf)) a k b r)) in *.
  set (t2 := Node (plug ctx2 (Node l2 a k bc Leaf)) c kc b r) in *.
  destruct (swap_shape ctx ctx2 l2 c kc bc a k b r) as [Hh Hav]. fold t t2 in Hh, Hav.
  destruct (swap_elems ctx ctx2 l2 c kc bc a k b r Har) as [He1 He2]. fold t in He1.
  assert ((match match ctx with [] => Some (ptr t2) | _ => None end with
           | Some p => mkTree p (len self - 1) | None => mkTree (root self) (len self - 1) end) =
          mkTree (ptr (plug ctx t2)) (len self - 1)) as ->.
  { destruct ctx as [|f ctx]; [done|]. rewrite Hroot. f_equal. unfold t. cbn [plug]. apply (ptr_plug ctx). by destruct f. }
  assert (plug ctx t2 = plug (ctx2 ++ FL c kc b r :: ctx) (Node l2 a k bc Leaf)) as E by by rewrite plug_app.
  rewrite E in *.
  eapply wp_mono; [apply (remove_edge_ok h2 (mkTree _ _) (ctx2 ++ FL c kc b r :: ctx) l2 a k bc Leaf l2); try done|].
  - by apply Hav.
  - by rewrite Hh.
  - by left.
  - intros res h' Hu. cbn beta.
    eapply (unlinked_removed _ h2 _ _ t _ _ l2 a k); [done|exact He1|exact He2|done| |exact Hu].
    intros y. rewrite <- E. unfold t, t2. by rewrite swap_addrs.
Qed.

Lemma tree_remove_ok h self t k fuel :
  avl_tree h self t → height t <= Z.of_nat fuel → len self < U64 →
  wp (remove fuel self k) h (λ res h', removed h self t k h' res).
Proof.
  intros Ht Hf Hlen. pose proof Ht as [Hg Hroot Hsz _ Hs]. unfold remove. hstep.
  eapply wp_mono; [by apply search_ok|]. intros res h' (-> & Hfound). cbn beta.
  assert ((∀ p, res ≠ Present p) → removed h self t k h (self, None)) as Hnone.
  { intros Hne. split; [done|]. by rewrite (found_none _ _ _ Hs Hfound Hne). }
  destruct res as [a|a|a|]; try (hstep; by apply Hnone).
  destruct Hfound as (ctx & l & b & r & ->).
  destruct (good_focus _ _ _ _ _ _ _ Hg) as ((Ha & Hrl & Hrr) & Hnd & Hnull & _).
  destruct (node_not_null _ _ _ _ _ Hnull) as (_ & Hnl & Hnr).
  hstep. eapply wp_lift; [apply usub_ok; rewrite Hsz, size_plug in *; cbn [size] in *; lia|].
  do 10 hstep. cbn [len root].
  destruct (Z.eqb_spec (ptr l) null) as [El|El]; [|destruct (Z.eqb_spec (ptr r) null) as [Er|Er]]; cbn [orb].
  - eapply remove_present; [done|done|]. destruct l; [by right|]. by destruct (ptr_not_null (Node l1 a0 k0 b0 l2)).
  - eapply remove_present; [done|done|]. destruct r; [by left|]. by destruct (ptr_not_null (Node r1 a0 k0 b0 r2)).
  - apply remove_inner; try done; by intros ->.
Qed.

Lemma tree_get_ok h self t k fuel :
  avl_tree h self t → height t <= Z.of_nat fuel →
  wp (tree_get fuel self k) h (λ res h', res = slookup k (elems t) ∧ h' = h).
Proof.
  intros Ht Hf. pose proof Ht as [_ _ _ _ Hs]. unfold tree_get. hstep.
  eapply wp_mono; [by apply search_ok|]. intros res h' (-> & Hfound). cbn beta. hstep. split; [|done].
  destruct res as [a|a|a|]; try (by rewrite (found_none _ _ _ Hs Hfound)).
  destruct Hfound as (ctx & l & b & r & ->). rewrite elems_plug_mid in *.
  destruct (sorted_mid _ _ _ _ Hs) as (Hlt & _). by rewrite slookup_mid.
Qed.
End removal.

(** ** Popping *)
Section popping.
Context {B : Build} {K : Type} `{OrdLaws K}.
Abbreviation heap := (gmap Z (tnode K)).
Implicit Types (h : heap) (t l r : tree K) (f : AvlTree.frame K) (ctx : list (AvlTree.frame K)).

Lemma pop_loop_ok t : ∀ ctx fuel h p,
  t ≠ Leaf → rep h p t → null ∉ addrs t → height t <= Z.of_nat fuel →
  wp (pop_loop fuel (ptr t)) h (λ a h', h' = h ∧
    ∃ ctx' k b, plug ctx t = plug ctx' (Node Leaf a k b Leaf)).
Proof.
  induction t as [|l IHl a k b r IHr]; intros ctx fuel h p Hne Hrep Hnull Hf; [done|].
  destruct Hrep as (Ha & Hl & Hr). destruct (node_not_null _ _ _ _ _ Hnull) as (_ & Hnl & Hnr).
  pose proof (height_nonneg l). pose proof (height_nonneg r). cbn [height] in Hf.
  destruct fuel as [|fuel]; [lia|]. cbn [pop_loop ptr]. do 5 hstep.
  destruct l as [|l1 c kc bc l2]; cbn [ptr] in *; [cbn [Z.eqb negb]; do 5 hstep;
    destruct r as [|r1 c kc bc r2]; cbn [ptr] in *|].
  - cbn [Z.eqb negb]. hstep. split; [done|]. by exists ctx, k, b.
  - destruct (node_not_null _ _ _ _ _ Hnr) as (Hc & _). destruct (Z.eqb_spec c null) as [|_]; [done|]. cbn [negb].
    apply (IHr (FR Leaf a k b :: ctx) fuel h a); try done; lia.
  - destruct (node_not_null _ _ _ _ _ Hnl) as (Hc & _). destruct (Z.eqb_spec c null) as [|_]; [done|]. cbn [negb].
    apply (IHl (FL a k b r :: ctx) fuel h a); try done; lia.
Qed.

(** [pop] takes some leaf of the tree out; the balance above it is not
    restored, so the new tree [t'] need not be AVL. *)
Definition popped h self t (h' : heap) (res : AvlTree * option Z) : Prop :=
  ∃ t' xs k a ys, res = (mkTree (ptr t') (len self - 1), Some a) ∧ good h' t' ∧
    same_off (addrs t) h h' ∧ elems t = xs ++ (k, a) :: ys ∧ elems t' = xs ++ ys.

Lemma good_unleaf h f f' ctx a k b :
  good h (plug (f :: ctx) (Node Leaf a k b Leaf)) → fptr f' = fptr f →
  match f, f' with
  | FL _ k _ r, FL _ k' _ r' => k' = k ∧ r' = r
  | FR l _ k _, FR l' _ k' _ => k' = k ∧ l' = l
  | _, _ => False
  end →
  good (<[fptr f := fnode f' ctx null]> h) (plug (f' :: ctx) Leaf).
Proof.
  intros Hg Hff Hsame. pose proof Hg as (Hrep & Hnd & Hnull).
  destruct (edge_facts _ _ _ _ _ _ (f :: ctx) (or_introl (conj eq_refl eq_refl)) Hnd Hnull) as (Hnd1 & Hnull1 & _).
  assert (elems (plug (f' :: ctx) Leaf) = elems (plug (f :: ctx) Leaf)) as He.
  { destruct f, f'; cbn [fptr] in *; try done; destruct Hsame as [-> ->]; rewrite Hff, !elems_plug; done. }
  rewrite <- (elems_addrs _ _ He) in Hnd1, Hnull1.
  cbn [plug] in Hrep. apply rep_plug in Hrep as [Hf _]. apply rep_fill in Hf as (Hp & _ & Hsib).
  pose proof Hnd as Hnd'. cbn [plug] in Hnd'. apply plug_nodup in Hnd' as [Hndf _]. pose proof (fill_nodup _ _ Hndf) as [_ Hfs].
  apply (good_relink h _ ctx (fill f (Node Leaf a k b Leaf)) (fill f' Leaf)); try done.
  - intros x Hx _ _. rewrite lookup_insert_ne; [done|]. intros <-. apply Hx. apply addrs_fill. auto.
  - intros g ctx' ->. destruct (good_parent h g ctx' (fill f (Node Leaf a k b Leaf)) Hg) as (Hpg & _ & _).
    assert (ptr (fill f' Leaf) = ptr (fill f (Node Leaf a k b Leaf))) as -> by (destruct f, f'; done).
    rewrite lookup_insert_ne; [done|]. intros E.
    pose proof Hnd as Hnd'. cbn [plug] in Hnd'. apply plug_nodup in Hnd' as [Hndg _]. apply fill_nodup in Hndg as [Hn _].
    apply Hn. rewrite <- E. apply addrs_fill. auto.
  - apply rep_fill. rewrite Hff, lookup_insert_eq. split; [done|]. split; [done|].
    destruct f, f'; cbn [fptr] in *; try done; subst; destruct Hsame as [-> ->], Hfs as [Hfs _];
      (eapply rep_same; [|exact Hsib]); intros y Hy; rewrite lookup_insert_ne; [done| |done|]; by intros <-.
Qed.

Lemma popped_at h self f f' ctx a k b :
  let t := plug (f :: ctx) (Node Leaf a k b Leaf) in
  good h t → root self = ptr t → fptr f' = fptr f →
  match f, f' with
  | FL _ k _ r, FL _ k' _ r' => k' = k ∧ r' = r
  | FR l _ k _, FR l' _ k' _ => k' = k ∧ l' = l
  | _, _ => False
  end →
  popped h self t (<[fptr f := fnode f' ctx null]> h) (mkTree (root self) (len self - 1), Some a).
Proof.
  intros t Hg Hroot Hff Hsame. pose proof (good_parent _ _ _ _ Hg) as (_ & _ & Hpin).
  exists (plug (f' :: ctx) Leaf), (before (f :: ctx)), k, a, (after (f :: ctx)).
  split; [|split; [by apply (good_unleaf h f f' ctx a k b)|split; [by apply same_off_store|]]].
  - rewrite Hroot. do 2 f_equal. apply (ptr_plug ctx). by destruct f, f'.
  - subst t. rewrite !elems_plug. split; [done|].
    destruct f, f'; cbn [fptr] in *; try done; destruct Hsame as [-> ->]; by rewrite Hff.
Qed.

Lemma pop_ok h self t fuel :
  avl_tree h self t → t ≠ Leaf → height t <= Z.of_nat fuel → len self < U64 →
  wp (pop fuel self) h (λ res h', popped h self t h' res).
Proof.
  intros [Hg Hroot Hlen Havl _] Hne Hf Hlt. pose proof Hg as (Hrep & Hnd & Hnull).
  destruct (ptr_not_null t Hne Hnull) as [Hpn _]. destruct (rep_root _ _ _ Hrep) as [|[n Hn]]; [done|].
  unfold pop. rewrite Hroot. do 3 hstep. hstep.
  eapply wp_mono; [by apply (pop_loop_ok t [] fuel h null)|]. intros a h' (-> & ctx & k & b & E). cbn beta.
  cbn [plug] in E. subst t. hstep. eapply wp_lift; [apply usub_ok; rewrite Hlen, size_plug in *; cbn [size] in *; lia|].
  hstep. eapply (wp_parent_type _ ctx); [exact Hg|].
  destruct ctx as [|f ctx]; cbn [ptype].
  - hstep. exists Leaf, [], k, a, []. split; [done|]. split; [|done]. split; [done|]. split; [constructor|]. set_solver.
  - destruct (good_parent _ _ _ _ Hg) as (Hp & Hpnn & Hpin).
    apply avl_plug in Havl as [_ Hctx].
    destruct f as [p k' b' r|l p k' b']; cbn [fptr fnode avl_ctx ptr] in *; destruct Hctx as (_ & Hb & _).
    + do 2 hstep. repeat hstep. rewrite insert_insert_eq.
      rewrite <- Hroot. by apply (popped_at h self (FL p k' b' r) (FL p k' (b' + 1) r)).
    + do 2 hstep. repeat hstep. rewrite insert_insert_eq.
      rewrite <- Hroot. by apply (popped_at h self (FR l p k' b') (FR l p k' (b' + -1))).
Qed.
End popping.

(** ** The contract of the tree *)
Section contract.
Context {B : Build} {K : Type} `{OrdLaws K}.
Abbreviation heap := (gmap Z (tnode K)).
Implicit Types (h : heap) (t l r : tree K).

(** AVL trees are low: at most twice the logarithm of their size. *)
Lemma avl_size t : avl t → 2 ^ height t <= (Z.of_nat (size t) + 1) * (Z.of_nat (size t) + 1).
Proof.
  induction t as [|l IHl a k b r IHr]; cbn [avl height size]; [done|].
  intros (Hb & Hb1 & Hl & Hr). specialize (IHl Hl). specialize (IHr Hr).
  pose proof (height_nonneg l) as H1. pose proof (height_nonneg r) as H2.
  replace (Z.of_nat (S (size l + size r)) + 1) with ((Z.of_nat (size l) + 1) + (Z.of_nat (size r) + 1)) by lia.
  set (x := Z.of_nat (size l) + 1) in *. set (y := Z.of_nat (size r) + 1) in *.
  assert (0 < x ∧ 0 < y) as [Hx Hy] by lia. clearbody x y.
  assert (∀ m, 0 <= m → 2 ^ (1 + m) = 2 * 2 ^ m) as Hpow by (intros; rewrite Z.pow_add_r by lia; lia).
  assert (height r = height l ∨ height r = 1 + height l ∨ height l = 1 + height r) as [E | [E | E]] by lia.
  - rewrite E, Z.max_id, Hpow by lia. rewrite E in IHr. nia.
  - rewrite E, Z.max_r, !Hpow by lia. rewrite E, Hpow in IHr by lia.
    assert (2 ^ height l <= x * y) by (set (p := 2 ^ height l) in *; assert (p * p <= (x * y) * (x * y)) by nia; nia). nia.
  - rewrite E, Z.max_l, !Hpow by lia. rewrite E, Hpow in IHl by lia.
    assert (2 ^ height r <= x * y) by (set (p := 2 ^ height r) in *; assert (p * p <= (x * y) * (x * y)) by nia; nia). nia.
Qed.

Lemma avl_height t : avl t → height t <= 2 * Z.log2 (Z.of_nat (size t) + 1) + 1.
Proof.
  intros Ha. pose proof (avl_size t Ha) as Hs. set (n := Z.of_nat (size t) + 1) in *.
  apply Z.log2_le_mono in Hs. rewrite Z.log2_pow2 in Hs by apply height_nonneg.
  pose proof (Z.log2_mul_above n n ltac:(lia) ltac:(lia)). lia.
Qed.

(** [self] is the sorted map [xs], held in an AVL tree. *)
Definition is_map h (self : AvlTree) (xs : list (K * Z)) : Prop := ∃ t, avl_tree h self t ∧ elems t = xs.

(** The loops run at most twice the logarithm of the length often. *)
Definition enough (fuel : nat) (self : AvlTree) : Prop := 2 * Z.log2 (len self + 1) + 1 <= Z.of_nat fuel.

Lemma enough_height h self t fuel : avl_tree h self t → enough fuel self → height t <= Z.of_nat fuel.
Proof. intros [_ _ Hl Ha _] Hf. unfold enough in Hf. rewrite Hl in Hf. pose proof (avl_height t Ha). lia. Qed.

Lemma is_map_new h : is_map h tree_new [].
Proof.
  exists Leaf. split; [|done]. split; try done; [|constructor]. split; [done|]. split; [constructor|]. set_solver.
Qed.

(** C8: The tree is a map with a sorted list of keys: whatever the shape of the AVL tree
    in the heap, looking a key up gives what the sorted list gives; inserting a new key
    with a fresh node gives a tree for the list with the key in its place, and refuses a
    key that is there; removing gives the node and a tree for the list without it.  Every
    call returns within twice the logarithm of the number of keys turns of its loops,
    keeps the tree AVL and changes no node outside the tree. *)
Theorem avl_map h self xs fuel k :
  is_map h self xs → enough fuel self →
  tree_get fuel self k h = Ret (slookup k xs, h) ∧
  (∀ v n, v ∉ xs.*2 → v ≠ null → h !! v = Some n → len self + 1 < U64 →
    ∃ self' res h', insert fuel self k v h = Ret ((self', res), h') ∧ same_off (v :: xs.*2) h h' ∧
      match slookup k xs with
      | Some _ => res = inl v ∧ self' = self ∧ is_map h' self xs
      | None => res = inr v ∧ is_map h' self' (sinsert k v xs)
      end) ∧
  (len self < U64 →
    ∃ self' h', remove fuel self k h = Ret ((self', slookup k xs), h') ∧ same_off (xs.*2) h h' ∧
      is_map h' self' (match slookup k xs with Some _ => sremove k xs | None => xs end)).
Proof.
  intros (t & Ht & <-) Hf. pose proof (enough_height _ _ _ _ Ht Hf) as Hh. split; [|split].
  - by destruct (tree_get_ok h self t k fuel Ht Hh) as (r & h' & -> & -> & ->).
  - intros v n Hv Hnull Hn Hlen.
    destruct (insert_ok h self t k v n fuel Ht Hh Hlen Hv Hnull Hn) as ([self' r] & h' & Hr & Hs & Hi).
    exists self', r, h'. split; [done|]. split; [done|]. destruct (slookup k (elems t)).
    + destruct Hi as [[= -> ->] Ht']. split; [done|]. split; [done|]. by exists t.
    + destruct Hi as (self'' & t' & [= -> ->] & Ht' & He). split; [done|]. by exists t'.
  - intros Hlen. destruct (tree_remove_ok h self t k fuel Ht Hh Hlen) as ([self' r] & h' & Hr & Hs & Hi).
    destruct (slookup k (elems t)).
    + destruct Hi as (self'' & t' & [= -> ->] & Ht' & He). exists self'', h'. split; [done|]. split; [done|]. by exists t'.
    + destruct Hi as [[= -> ->] ->]. exists self, h. split; [done|]. split; [done|]. by exists t.
Qed.
End contract.

(** ** Keys of the scheduler's trees *)
#[global] Instance Z_ord : Ord Z := Z.ltb.
#[global] Instance Z_ord_laws : OrdLaws Z.
Proof.
  split; unfold ltb, Z_ord; intros *; rewrite ?Z.ltb_lt, ?Z.ltb_ge; lia.
Qed.

(** [#[derive(PartialOrd, Ord)]] on a pair of numbers. *)
#[global] Instance pair_ord : Ord (Z * Z) := λ x y, (x.1 <? y.1) || ((x.1 =? y.1) && (x.2 <? y.2)).
#[global] Instance pair_ord_laws : OrdLaws (Z * Z).
Proof.
  split; unfold ltb, pair_ord.
  - intros [a b]. simpl. rewrite !Z.ltb_irrefl. by rewrite andb_false_r.
  - intros [a b] [c d] [e f]. simpl. rewrite !orb_true_iff, !andb_true_iff, !Z.ltb_lt, !Z.eqb_eq. lia.
  - intros [a b] [c d]. simpl. rewrite !orb_false_iff, !andb_false_iff, !Z.ltb_ge, !Z.eqb_neq. intros. f_equal; lia.
Qed.

Section example.
#[local] Existing Instance dev.

Lemma avl_map_witness :
  ∃ self' h', insert 4 tree_new (7 : Z) 16 {[16 := mkT 0 0 0 0 0]} = Ret ((self', inr 16), h') ∧
    is_map h' self' [(7, 16)].
Proof.
  destruct (avl_map (K := Z) {[16 := mkT 0 0 0 0 0]} tree_new [] 4 7 (is_map_new _)) as (_ & Hi & _).
  { vm_compute. discriminate. }
  destruct (Hi 16 (mkT 0 0 0 0 0)) as (self' & r & h' & Hr & _ & -> & Hm); [apply not_elem_of_nil|discriminate|reflexivity|reflexivity|].
  exists self', h'. split; [exact Hr|exact Hm].
Defined.

(** Four keys put in the order 2, 1, 3, 4. *)
Definition four : M (gmap Z (tnode Z)) AvlTree :=
  '(s, _) ← insert 8 tree_new 2 32; '(s, _) ← insert 8 s 1 16;
  '(s, _) ← insert 8 s 3 48; '(s, _) ← insert 8 s 4 64; mret s.

Definition nodes : gmap Z (tnode Z) :=
  list_to_map ((λ a, (a, mkT 0 0 0 0 0)) <$> [16; 32; 48; 64]).

Definition four_heap : gmap Z (tnode Z) :=
  list_to_map [(16, mkT 32 0 0 1 0); (32, mkT 0 16 48 2 1); (48, mkT 32 0 64 3 1); (64, mkT 48 0 0 4 0)].

Definition four_tree : tree Z :=
  Node (Node Leaf 16 1 0 Leaf) 32 2 1 (Node Leaf 48 3 1 (Node Leaf 64 4 0 Leaf)).

Lemma four_run : four nodes = Ret (mkTree 32 4, four_heap).
Proof. vm_compute. reflexivity. Qed.

Lemma four_is_map : is_map four_heap (mkTree 32 4) (elems four_tree).
Proof.
  exists four_tree. split; [|done].
  split; [|reflexivity|reflexivity|by vm_compute|by repeat constructor].
  split; [by vm_compute|]. split; by apply (bool_decide_unpack _); vm_compute.
Qed.

(** [pop] does not restore the balance: from an AVL tree of four keys it makes a tree
    that is not one, although [insert] and [remove] rely on it. *)
Theorem pop_unbalances :
  ∃ nodes h self h' self' a, four nodes = Ret (self, h) ∧ is_map h self (elems four_tree) ∧
    pop 8 self h = Ret ((self', Some a), h') ∧ ∀ xs, ¬ is_map h' self' xs.
Proof.
  exists nodes, four_heap, (mkTree 32 4), (<[32 := mkT 0 0 48 2 2]> four_heap), (mkTree 32 3), 16.
  split; [apply four_run|]. split; [apply four_is_map|]. split; [vm_compute; reflexivity|].
  intros xs (t & [(Hr & _) Hroot _ Ha _] & _). destruct t as [|l a k b r]; [done|].
  cbn in Hroot. subst a. destruct Hr as (Hn & _). rewrite lookup_insert_eq in Hn.
  assert (b = 2) by congruence. destruct Ha as (_ & Hb & _). lia.
Qed.
End example.
