(* ===== verification/HeapAlloc.v ===== *)
(** * The heap: [libutil/src/mem/heap.rs], its users [libutil/src/mem/mod.rs]
      and [kernel/src/mem/heap.rs]

    A [HeapZone] is a run of pages that starts with the zone's own header; its
    free memory is a list of nodes ordered by address.  The list is kept at the
    level of the contract proved in [LinkedList]: a sequence of nodes, here with
    their sizes.  [alloc] cuts from the end of the first node that fits,
    [dealloc] puts the block back and merges it with its neighbours.

    The pages come from [UtilCalls::alloc], the interface the kernel and user
    space implement: the class [UtilCalls]. *)

From S2P Require Import Prelude Misc.

(** ** [Allocation] and [Layout] *)

Record Allocation := mkAllocation { a_ptr : Z; a_len : Z; a_zindex : Z }.
Record Layout := mkLayout { ly_size : Z; ly_align : Z }.

Class UtilCalls (W : Type) := {
  util_alloc : Z → W → option Allocation * W;
  util_dealloc : Allocation → W → W;
}.

Section constants.
Context {B : Build}.

(** Three words each way: [size_of::<Node>()], [size_of::<HeapZone>()]. *)
Definition size_of_Node : Z := 24.
Definition size_of_HeapZone : Z := 72.

Definition INITIAL_HEAP_SIZE : Z := PAGE_SIZE * 8.
Definition HEAP_INC_SIZE : Z := PAGE_SIZE * 4.

(** The constants as the code computes them, and their values. *)
Definition CHUNK_SIZE_def : res Z := l ← log2_up_const 65 size_of_Node; ushl 1 l.
Definition CHUNK_SIZE : Z := 32.
Definition INITIAL_CHUNK_SIZE_def : res Z := align_up size_of_HeapZone CHUNK_SIZE.
Definition INITIAL_CHUNK_SIZE : Z := 96.

Lemma CHUNK_SIZE_ok : CHUNK_SIZE_def = Ret CHUNK_SIZE.
Proof. by destruct B. Qed.
Lemma INITIAL_CHUNK_SIZE_ok : INITIAL_CHUNK_SIZE_def = Ret INITIAL_CHUNK_SIZE.
Proof. by destruct B. Qed.
End constants.

(** ** Free nodes *)

Record fnode := mkF { f_addr : Z; f_size : Z }.

#[export] Instance fnode_eq_dec : EqDecision fnode.
Proof. solve_decision. Defined.

Inductive ResizeResult :=
  | Shrink (addr : Z)
  | Remove (addr : Z)
  | NoCapacity.

Section node.
Context {B : Build}.

(** [Node::resize]: the node after the call, and the result. *)
Definition resize (n : fnode) (size align : Z) : res (fnode * ResizeResult) :=
  let self_size := f_size n in
  if self_size <? size then Ret (n, NoCapacity) else
  d ← usub self_size size;
  e ← uadd (f_addr n) d;
  naddr ← align_down e (Z.max align CHUNK_SIZE);
  if naddr <? f_addr n then Ret (n, NoCapacity) else
  nsize ← usub naddr (f_addr n);
  if CHUNK_SIZE <=? nsize then Ret (mkF (f_addr n) nsize, Shrink naddr)
  else Ret (n, Remove naddr).

(** [Node::merge]: [Some] of the grown node, or [None] if not adjacent. *)
Definition merge (n m : fnode) : res (option fnode) :=
  e ← uadd (f_addr n) (f_size n);
  if e =? f_addr m then s ← uadd (f_size n) (f_size m); Ret (Some (mkF (f_addr n) s))
  else Ret None.
End node.

(** ** List operations on nodes, by address *)

Fixpoint fl_insert_after (a : Z) (n : fnode) (l : list fnode) : list fnode :=
  match l with
  | [] => []
  | m :: l => if f_addr m =? a then m :: n :: l else m :: fl_insert_after a n l
  end.

Fixpoint fl_remove (a : Z) (l : list fnode) : list fnode :=
  match l with
  | [] => []
  | m :: l => if f_addr m =? a then l else m :: fl_remove a l
  end.

Fixpoint fl_update (n : fnode) (l : list fnode) : list fnode :=
  match l with
  | [] => []
  | m :: l => if f_addr m =? f_addr n then n :: l else m :: fl_update n l
  end.

Record HeapZone := mkZone {
  z_mem : Allocation;
  z_free_space : Z;
  z_list : list fnode;
}.

(** A zone's header sits at the start of its memory. *)
Definition z_addr (z : HeapZone) : Z := a_ptr (z_mem z).

Section zone.
Context {B : Build} {W : Type} {UC : UtilCalls W}.

Definition zone_new (size : Z) : M W (option HeapZone) :=
  size ← lift (align_up size PAGE_SIZE);
  mem ← (λ w, Ret (util_alloc size w));
  match mem with
  | None => mret None
  | Some mem =>
      let size := a_len mem in
      fs ← lift (usub size INITIAL_CHUNK_SIZE);
      a ← lift (uadd (a_ptr mem) INITIAL_CHUNK_SIZE);
      s ← lift (usub size INITIAL_CHUNK_SIZE);
      mret (Some (mkZone mem fs [mkF a s]))
  end.

Definition zone_free_space (z : HeapZone) : Z := z_free_space z.
Definition zone_empty (z : HeapZone) : bool := zone_free_space z =? 0.

Definition zone_contains (z : HeapZone) (addr size : Z) : res bool :=
  lo ← uadd (z_addr z) CHUNK_SIZE;
  if addr <? lo then Ret false else
  e ← uadd addr size;
  hi ← uadd (z_addr z) CHUNK_SIZE;
  hi ← uadd hi (a_len (z_mem z));
  Ret (e <=? hi).

Definition zone_delete (z : HeapZone) (w : W) : W := util_dealloc (z_mem z) w.

(** The loop of [HeapZone::alloc]: the address found, the list and the free
    space after it. *)
Fixpoint zone_scan (size align fs : Z) (l : list fnode)
    : res (option (Z * list fnode * Z)) :=
  match l with
  | [] => Ret None
  | n :: l =>
      let skip :=
        r ← zone_scan size align fs l;
        match r with
        | Some (addr, l', fs') => Ret (Some (addr, n :: l', fs'))
        | None => Ret None
        end in
      let old_size := f_size n in
      if size <=? old_size then
        r ← resize n size align;
        match r with
        | (n', Shrink addr) =>
            f ← usub fs old_size;
            f ← uadd f (f_size n');
            Ret (Some (addr, n' :: l, f))
        | (_, Remove addr) =>
            f ← usub fs old_size;
            Ret (Some (addr, l, f))
        | (_, NoCapacity) => skip
        end
      else skip
  end.

(** Returns the pointer (null is 0) and the zone. *)
Definition zone_alloc (z : HeapZone) (ly : Layout) : res (Z * HeapZone) :=
  if z_free_space z <? ly_size ly then Ret (0, z) else
  r ← zone_scan (ly_size ly) (ly_align ly) (z_free_space z) (z_list z);
  match r with
  | Some (addr, l, fs) => Ret (addr, mkZone (z_mem z) fs l)
  | None => Ret (0, z)
  end.

(** The loop of [get_prev_next_node]. *)
Fixpoint prev_next_loop (addr : Z) (pnode : option fnode) (l : list fnode)
    : option fnode * option fnode :=
  match l with
  | [] => (pnode, None)
  | region :: l =>
      if addr <? f_addr region then (pnode, Some region)
      else prev_next_loop addr (Some region) l
  end.

Definition get_prev_next_node (z : HeapZone) (addr : Z) : option fnode * option fnode :=
  prev_next_loop addr None (z_list z).

(** The first half of [dealloc]: merge with the node before, or link in. *)
Definition dealloc_prev (l : list fnode) (pnode : option fnode) (cnode : fnode)
    : res (list fnode * fnode) :=
  match pnode with
  | Some pnode =>
      r ← merge pnode cnode;
      match r with
      | Some p' => Ret (fl_update p' l, p')
      | None => Ret (fl_insert_after (f_addr pnode) cnode l, cnode)
      end
  | None => Ret (cnode :: l, cnode)
  end.

(** The second half: merge with the node after. *)
Definition dealloc_next (l : list fnode) (nnode : option fnode) (cnode : fnode)
    : res (list fnode) :=
  match nnode with
  | Some nnode =>
      r ← merge cnode nnode;
      match r with
      | Some c' => Ret (fl_remove (f_addr nnode) (fl_update c' l))
      | None => Ret l
      end
  | None => Ret l
  end.

Definition zone_dealloc (z : HeapZone) (ptr : Z) (ly : Layout) : res HeapZone :=
  let addr := ptr in
  size ← align_up (ly_size ly) (Z.max CHUNK_SIZE (ly_align ly));
  let cnode := mkF addr size in
  let '(pnode, nnode) := get_prev_next_node z addr in
  '(l, cnode) ← dealloc_prev (z_list z) pnode cnode;
  l ← dealloc_next l nnode cnode;
  fs ← uadd (z_free_space z) size;
  Ret (mkZone (z_mem z) fs l).

(** ** [LinkedListAllocator]: the list of zones *)

Definition LinkedListAllocator := list HeapZone.

Definition allocator_new : M W LinkedListAllocator :=
  z ← zone_new INITIAL_HEAP_SIZE;
  z ← lift (unwrap z);
  mret [z].

(** The loop over the zones: [Some] of the pointer and the zones. *)
Fixpoint zones_alloc (zs : list HeapZone) (ly : Layout)
    : res (option (Z * list HeapZone)) :=
  match zs with
  | [] => Ret None
  | z :: zs =>
      let skip z :=
        r ← zones_alloc zs ly;
        match r with
        | Some (p, zs') => Ret (Some (p, z :: zs'))
        | None => Ret None
        end in
      if ly_size ly <=? zone_free_space z then
        '(p, z') ← zone_alloc z ly;
        if p =? 0 then skip z' else Ret (Some (p, z' :: zs))
      else skip z
  end.

Definition allocator_alloc (zs : LinkedListAllocator) (ly : Layout)
    : M W (Z * LinkedListAllocator) :=
  r ← lift (zones_alloc zs ly);
  match r with
  | Some r => mret r
  | None =>
      let size := ly_size ly in
      let align := ly_align ly in
      s ← lift (uadd size (Z.max align CHUNK_SIZE));
      s ← lift (uadd s INITIAL_CHUNK_SIZE);
      let size_inc := Z.max HEAP_INC_SIZE s in
      zone ← zone_new size_inc;
      match zone with
      | None => mret (0, zs)
      | Some zone =>
          '(p, zone) ← lift (zone_alloc zone ly);
          mret (p, zs ++ [zone])
      end
  end.

Fixpoint zones_dealloc (zs : list HeapZone) (ptr : Z) (ly : Layout) : res (list HeapZone) :=
  match zs with
  | [] => Panic
  | z :: zs =>
      c ← zone_contains z ptr (ly_size ly);
      match c with
      | true => z' ← zone_dealloc z ptr ly; Ret (z' :: zs)
      | false => zs' ← zones_dealloc zs ptr ly; Ret (z :: zs')
      end
  end.

Definition allocator_dealloc (zs : LinkedListAllocator) (ptr : Z) (ly : Layout)
    : res LinkedListAllocator :=
  assert_ (CHUNK_SIZE <=? align_of ptr);;
  zones_dealloc zs ptr ly.

(** ** [GlobalAllocator]: [None] until [init] runs; the lock makes each call one
    step. *)
Definition GlobalAllocator := option LinkedListAllocator.

Definition global_init (_ : GlobalAllocator) : M W GlobalAllocator :=
  a ← allocator_new; mret (Some a).

Definition global_alloc (g : GlobalAllocator) (ly : Layout) : M W (Z * GlobalAllocator) :=
  zs ← lift (unwrap g); '(p, zs) ← allocator_alloc zs ly; mret (p, Some zs).

Definition global_dealloc (g : GlobalAllocator) (ptr : Z) (ly : Layout) : res GlobalAllocator :=
  zs ← unwrap g; zs ← allocator_dealloc zs ptr ly; Ret (Some zs).
End zone.

(** ** The invariant of a zone *)

(** The nodes lie in [lo, hi), ordered by address with a gap between any two,
    and addresses and sizes are multiples of the chunk size. *)
Fixpoint coalesced (lo hi : Z) (l : list fnode) : Prop :=
  match l with
  | [] => True
  | n :: l =>
      lo <= f_addr n ∧ 0 < f_size n ∧ (CHUNK_SIZE | f_addr n) ∧ (CHUNK_SIZE | f_size n) ∧
      f_addr n + f_size n <= hi ∧ coalesced (f_addr n + f_size n + 1) hi l
  end.

Fixpoint total (l : list fnode) : Z :=
  match l with [] => 0 | n :: l => f_size n + total l end.

(** Byte [x] is free. *)
Definition in_free (l : list fnode) (x : Z) : Prop :=
  ∃ n, n ∈ l ∧ f_addr n <= x < f_addr n + f_size n.

Definition zone_lo (z : HeapZone) : Z := z_addr z + INITIAL_CHUNK_SIZE.
Definition zone_hi (z : HeapZone) : Z := z_addr z + a_len (z_mem z).

Record zone_wf (z : HeapZone) : Prop := {
  wf_addr : 0 < z_addr z;
  wf_align : (CHUNK_SIZE | z_addr z) ∧ (CHUNK_SIZE | a_len (z_mem z));
  wf_len : INITIAL_CHUNK_SIZE <= a_len (z_mem z);
  wf_hi : zone_hi z + PAGE_SIZE <= U64;
  wf_list : coalesced (zone_lo z) (zone_hi z) (z_list z);
  wf_free : z_free_space z = total (z_list z);
}.

(** A layout: a power of two for alignment, and nothing near the word size. *)
Definition layout_ok (ly : Layout) : Prop :=
  0 < ly_size ly < 2 ^ 62 ∧ pow2 (ly_align ly) ∧ ly_align ly <= 2 ^ 62.

Lemma pow2_CHUNK : pow2 CHUNK_SIZE.
Proof. exists 5. split; [lia|reflexivity]. Qed.

(** *** Facts about ordered lists of nodes *)

Fixpoint end_of (lo : Z) (l : list fnode) : Z :=
  match l with [] => lo | n :: l => end_of (f_addr n + f_size n + 1) l end.

Lemma coalesced_app lo hi l1 l2 :
  coalesced lo hi (l1 ++ l2) ↔ coalesced lo hi l1 ∧ coalesced (end_of lo l1) hi l2.
Proof.
  revert lo. induction l1 as [|n l1 IH]; intros lo; simpl; [tauto|]. rewrite IH. tauto.
Qed.

Lemma end_of_ge lo hi l : coalesced lo hi l → lo <= end_of lo l.
Proof.
  revert lo. induction l as [|n l IH]; intros lo; simpl; [lia|].
  intros (? & ? & _ & _ & _ & H). apply IH in H. lia.
Qed.

Lemma end_of_snoc lo l n : end_of lo (l ++ [n]) = f_addr n + f_size n + 1.
Proof. revert lo. induction l; intros lo; simpl; auto. Qed.

Lemma coalesced_weaken lo lo' hi l : lo' <= lo → coalesced lo hi l → coalesced lo' hi l.
Proof. destruct l; simpl; [done|]. intuition lia. Qed.

Lemma coalesced_lower lo hi l n : coalesced lo hi l → n ∈ l → lo <= f_addr n.
Proof.
  revert lo. induction l as [|m l IH]; intros lo; simpl; [by intros _ ?%elem_of_nil|].
  intros (? & ? & _ & _ & _ & H) [->|Hn]%elem_of_cons; [done|]. pose proof (IH _ H Hn). lia.
Qed.

Lemma coalesced_upper lo hi l n :
  coalesced lo hi l → n ∈ l → f_addr n + f_size n < end_of lo l.
Proof.
  revert lo. induction l as [|m l IH]; intros lo; simpl; [by intros _ ?%elem_of_nil|].
  intros (? & ? & _ & _ & _ & H) [->|Hn]%elem_of_cons; [|by eapply IH].
  pose proof (end_of_ge _ _ _ H). lia.
Qed.

Lemma coalesced_elem lo hi l n :
  coalesced lo hi l → n ∈ l →
  lo <= f_addr n ∧ 0 < f_size n ∧ (CHUNK_SIZE | f_addr n) ∧ (CHUNK_SIZE | f_size n) ∧
  f_addr n + f_size n <= hi.
Proof.
  revert lo. induction l as [|m l IH]; intros lo; simpl; [by intros _ ?%elem_of_nil|].
  intros (? & ? & ? & ? & ? & H) [->|Hn]%elem_of_cons; [done|].
  destruct (IH _ H Hn) as (? & ?). split; [lia|done].
Qed.

Lemma coalesced_ne lo hi l1 n l2 :
  coalesced lo hi (l1 ++ n :: l2) → Forall (λ m, f_addr m ≠ f_addr n) l1.
Proof.
  intros [H1 H2]%coalesced_app. apply Forall_forall. intros m Hm.
  destruct (coalesced_elem _ _ _ _ H1 Hm) as (_ & ? & _).
  pose proof (coalesced_upper _ _ _ _ H1 Hm). simpl in H2. lia.
Qed.

Lemma fl_insert_after_mid a n l1 m l2 :
  Forall (λ m, f_addr m ≠ a) l1 → f_addr m = a →
  fl_insert_after a n (l1 ++ m :: l2) = l1 ++ m :: n :: l2.
Proof.
  intros Hne <-. induction Hne as [|x l1 Hx _ IH]; simpl; [by rewrite Z.eqb_refl|].
  destruct (Z.eqb_spec (f_addr x) (f_addr m)); [done|by rewrite IH].
Qed.

Lemma fl_remove_mid a l1 m l2 :
  Forall (λ m, f_addr m ≠ a) l1 → f_addr m = a → fl_remove a (l1 ++ m :: l2) = l1 ++ l2.
Proof.
  intros Hne <-. induction Hne as [|x l1 Hx _ IH]; simpl; [by rewrite Z.eqb_refl|].
  destruct (Z.eqb_spec (f_addr x) (f_addr m)); [done|by rewrite IH].
Qed.

Lemma fl_update_mid n l1 m l2 :
  Forall (λ m, f_addr m ≠ f_addr n) l1 → f_addr m = f_addr n →
  fl_update n (l1 ++ m :: l2) = l1 ++ n :: l2.
Proof.
  intros Hne Heq. induction Hne as [|x l1 Hx _ IH]; simpl.
  - by rewrite Heq, Z.eqb_refl.
  - destruct (Z.eqb_spec (f_addr x) (f_addr n)); [done|by rewrite IH].
Qed.

Lemma total_app l1 l2 : total (l1 ++ l2) = total l1 + total l2.
Proof. induction l1; simpl; lia. Qed.

Lemma total_bound lo hi l : coalesced lo hi l → 0 <= total l ∧ (lo <= hi → total l <= hi - lo).
Proof.
  revert lo. induction l as [|n l IH]; intros lo; simpl; [lia|].
  intros (? & ? & _ & _ & ? & H). destruct (IH _ H) as [? H'].
  split; [lia|]. intros. destruct l as [|m l].
  - simpl in *. lia.
  - simpl in H. destruct H as (? & ? & _ & _ & ? & _). lia.
Qed.

Lemma in_free_app l1 l2 x : in_free (l1 ++ l2) x ↔ in_free l1 x ∨ in_free l2 x.
Proof. unfold in_free. setoid_rewrite elem_of_app. naive_solver. Qed.
Lemma in_free_cons n l x :
  in_free (n :: l) x ↔ f_addr n <= x < f_addr n + f_size n ∨ in_free l x.
Proof. unfold in_free. setoid_rewrite elem_of_cons. naive_solver. Qed.
Lemma in_free_nil x : in_free [] x ↔ False.
Proof. unfold in_free. split; [|done]. by intros (n & ?%elem_of_nil & _). Qed.

Lemma in_free_bounds lo hi l x : coalesced lo hi l → in_free l x → lo <= x < end_of lo l - 1.
Proof.
  intros Hc (n & Hn & Hx). pose proof (coalesced_lower _ _ _ _ Hc Hn).
  pose proof (coalesced_upper _ _ _ _ Hc Hn). lia.
Qed.

Lemma in_free_ge lo hi l x : coalesced lo hi l → in_free l x → lo <= x.
Proof. intros Hc H. pose proof (in_free_bounds _ _ _ _ Hc H). lia. Qed.

(** An ordered list with gaps is determined by its free bytes. *)
Lemma coalesced_ext lo lo' hi hi' l l' :
  coalesced lo hi l → coalesced lo' hi' l' → (∀ x, in_free l x ↔ in_free l' x) → l = l'.
Proof.
  revert lo lo' l'. induction l as [|n l IH]; intros lo lo' [|n' l'] H H' Hx; simpl in *.
  - done.
  - exfalso. apply (in_free_nil (f_addr n')), Hx, in_free_cons. left. lia.
  - exfalso. apply (in_free_nil (f_addr n)), Hx, in_free_cons. left. lia.
  - destruct H as (_ & Hp & _ & _ & _ & H), H' as (_ & Hp' & _ & _ & _ & H').
    assert (Hge : ∀ x, in_free l x → f_addr n + f_size n + 1 <= x)
      by (intros; by eapply in_free_ge).
    assert (Hge' : ∀ x, in_free l' x → f_addr n' + f_size n' + 1 <= x)
      by (intros; by eapply in_free_ge).
    assert (Hin : ∀ x, (f_addr n <= x < f_addr n + f_size n ∨ in_free l x) ↔
      (f_addr n' <= x < f_addr n' + f_size n' ∨ in_free l' x))
      by (intros x; by rewrite <- !in_free_cons). clear Hx.
    assert (f_addr n = f_addr n') as Ea.
    { destruct (proj1 (Hin (f_addr n)) ltac:(lia)) as [?|?%Hge'];
      destruct (proj2 (Hin (f_addr n')) ltac:(lia)) as [?|?%Hge]; lia. }
    assert (f_size n = f_size n') as Es.
    { destruct (Z.lt_trichotomy (f_size n) (f_size n')) as [Hl|[?|Hl]]; [|done|].
      - destruct (proj2 (Hin (f_addr n + f_size n)) ltac:(lia)) as [?|?%Hge]; lia.
      - destruct (proj1 (Hin (f_addr n + f_size n')) ltac:(lia)) as [?|?%Hge']; lia. }
    assert (n = n') as -> by (destruct n, n'; simpl in *; congruence).
    f_equal. eapply IH; [done|done|]. intros x. split; intros Hf.
    + destruct (proj1 (Hin x) (or_intror Hf)); [|done]. apply Hge in Hf. lia.
    + destruct (proj2 (Hin x) (or_intror Hf)); [|done]. apply Hge' in Hf. lia.
Qed.

(** *** Allocation in a zone *)

(** Where [size] bytes at the end of node [n] start. *)
Definition place (n : fnode) (size align : Z) : Z :=
  let e := f_addr n + f_size n - size in e - e mod Z.max align CHUNK_SIZE.

(** What is left of [n] when the bytes from [p] on are taken. *)
Definition cut (n : fnode) (p : Z) : list fnode :=
  if f_addr n <? p then [mkF (f_addr n) (p - f_addr n)] else [].

Definition fits (n : fnode) (size align : Z) : bool :=
  (size <=? f_size n) && (f_addr n <=? place n size align).

Lemma layout_align_pow2 align : pow2 align → pow2 (Z.max align CHUNK_SIZE).
Proof. intros. apply pow2_max; [done|apply pow2_CHUNK]. Qed.

Lemma place_bounds n size align : pow2 align →
  let C := Z.max align CHUNK_SIZE in
  (C | place n size align) ∧ (CHUNK_SIZE | place n size align) ∧
  f_addr n + f_size n - size - C < place n size align <= f_addr n + f_size n - size.
Proof.
  intros Hp C. pose proof (pow2_pos _ (layout_align_pow2 _ Hp)) as HC. fold C in HC.
  assert (C | place n size align) as Hd.
  { unfold place. fold C. set (e := f_addr n + f_size n - size).
    exists (e / C). pose proof (Z.div_mod e C ltac:(lia)). lia. }
  split; [done|split].
  - etransitivity; [|exact Hd].
    apply pow2_le_divide; [apply pow2_CHUNK|by apply layout_align_pow2|lia].
  - unfold place. fold C. set (e := f_addr n + f_size n - size).
    pose proof (Z.mod_pos_bound e C HC). lia.
Qed.

Lemma place_nonneg n size align : pow2 align → size <= f_size n → 0 <= f_addr n →
  0 <= place n size align.
Proof.
  intros Hp Hs Ha. unfold place. pose proof (pow2_pos _ (layout_align_pow2 _ Hp)).
  set (e := f_addr n + f_size n - size). set (C := Z.max align CHUNK_SIZE) in *.
  pose proof (Z.mod_le e C ltac:(subst e; lia) ltac:(lia)). lia.
Qed.

Section scan.
Context {B : Build}.

Lemma resize_spec n size align :
  0 < f_addr n → 0 < f_size n → (CHUNK_SIZE | f_addr n) → f_addr n + f_size n < U64 →
  0 < size <= f_size n → pow2 align → align <= 2 ^ 62 →
  let p := place n size align in
  resize n size align = Ret
    (if p <? f_addr n then (n, NoCapacity)
     else if f_addr n <? p then (mkF (f_addr n) (p - f_addr n), Shrink p) else (n, Remove p)).
Proof.
  intros Ha Hs Hd Hu Hsz Hp Hal p.
  destruct (place_bounds n size align Hp) as (_ & Hdp & Hb). fold p in Hdp, Hb.
  pose proof (place_nonneg n size align Hp ltac:(lia) ltac:(lia)) as Hp0. fold p in Hp0.
  unfold resize. destruct (Z.ltb_spec (f_size n) size); [lia|]. u.
  replace (f_addr n + (f_size n - size)) with (f_addr n + f_size n - size) by lia.
  rewrite align_down_eq; [|unfold is_usize; lia|by apply layout_align_pow2|unfold CHUNK_SIZE; lia].
  cbn [mbind res_bind]. fold (place n size align). fold p.
  destruct (Z.ltb_spec p (f_addr n)) as [|Hge]; [done|]. u.
  destruct (Z.ltb_spec (f_addr n) p) as [Hlt|Hle].
  - pose proof (divide_gap CHUNK_SIZE _ _ eq_refl Hd Hdp Hlt).
    by rewrite (proj2 (Z.leb_le _ _)) by lia.
  - rewrite (proj2 (Z.leb_gt _ _)); [done|]. unfold CHUNK_SIZE. lia.
Qed.

(** One step of the loop, on a node that fits and on one that does not. *)
Lemma zone_scan_fits size align fs n l :
  0 < f_addr n → 0 < f_size n → (CHUNK_SIZE | f_addr n) → f_addr n + f_size n < U64 →
  f_size n <= fs < U64 → 0 < size → pow2 align → align <= 2 ^ 62 → fits n size align = true →
  let p := place n size align in
  zone_scan size align fs (n :: l) =
    Ret (Some (p, cut n p ++ l, fs - (f_addr n + f_size n - p))).
Proof.
  intros Ha Hs Hd Hu Hfs Hsz Hp Hal Hf p.
  apply andb_prop in Hf as [Hn1 Hn2%Z.leb_le]. simpl. rewrite Hn1. apply Z.leb_le in Hn1.
  rewrite resize_spec by lia || done. fold p. fold p in Hn2.
  pose proof (place_bounds n size align Hp) as (_ & _ & Hb). fold p in Hb. unfold cut.
  rewrite (proj2 (Z.ltb_ge _ _) Hn2). cbn [mbind res_bind].
  destruct (Z.ltb_spec (f_addr n) p); u; cbn [f_size]; u; simpl; repeat f_equal; lia.
Qed.

Lemma zone_scan_skip size align fs n l :
  0 < f_addr n → 0 < f_size n → (CHUNK_SIZE | f_addr n) → f_addr n + f_size n < U64 →
  0 < size → pow2 align → align <= 2 ^ 62 → fits n size align = false →
  zone_scan size align fs (n :: l) =
    (r ← zone_scan size align fs l;
     match r with
     | Some (addr, l', fs') => Ret (Some (addr, n :: l', fs'))
     | None => Ret None
     end).
Proof.
  intros Ha Hs Hd Hu Hsz Hp Hal Hf. unfold fits in Hf. cbn [zone_scan].
  destruct (Z.leb_spec size (f_size n)); simpl in Hf; [|done].
  rewrite resize_spec by lia || done. cbn [mbind res_bind].
  apply Z.leb_gt in Hf. by rewrite (proj2 (Z.ltb_lt _ _) Hf).
Qed.

Lemma zone_scan_ok size align fs lo hi l :
  0 < lo → hi < U64 → coalesced lo hi l → total l <= fs < U64 →
  0 < size → pow2 align → align <= 2 ^ 62 →
  (Forall (λ n, fits n size align = false) l ∧ zone_scan size align fs l = Ret None) ∨
  (∃ pre n post, l = pre ++ n :: post ∧ fits n size align = true ∧
     let p := place n size align in
     zone_scan size align fs l =
       Ret (Some (p, pre ++ cut n p ++ post, fs - (f_addr n + f_size n - p)))).
Proof.
  intros Hlo Hhi Hc Hfs Hsz Hp Hal. revert lo Hlo Hc Hfs.
  induction l as [|n l IH]; intros lo Hlo Hc Hfs; [by left|].
  destruct Hc as (H1 & H2 & H3 & H4 & H5 & Hc). cbn [total] in Hfs.
  pose proof (total_bound _ _ _ Hc) as [Ht _].
  destruct (fits n size align) eqn:Hn.
  - right. exists [], n, l. split; [done|split; [done|]]. apply zone_scan_fits; lia || done.
  - rewrite zone_scan_skip by lia || done.
    destruct (IH (f_addr n + f_size n + 1)) as [[Hno ->]|(pre & m & post & -> & Hf & IH')];
      [lia|done|lia| |].
    + left. split; [by constructor|done].
    + right. exists (n :: pre), m, post. split; [done|split; [done|]]. by rewrite IH'.
Qed.
End scan.

Section cut.
Context (lo hi : Z) (pre : list fnode) (n : fnode) (post : list fnode) (p : Z).
Hypothesis Hc : coalesced lo hi (pre ++ n :: post).
Hypothesis Hp : f_addr n <= p < f_addr n + f_size n.
Hypothesis Hd : (CHUNK_SIZE | p).
Let e := f_addr n + f_size n.

Lemma coalesced_cut : coalesced lo hi (pre ++ cut n p ++ post).
Proof using All.
  apply coalesced_app in Hc as [H1 H2]. apply coalesced_app. split; [done|].
  simpl in H2. destruct H2 as (? & ? & ? & ? & ? & H2).
  unfold cut. destruct (Z.ltb_spec (f_addr n) p); simpl.
  - split_and!; try done; try lia; [by apply Z.divide_sub_r|].
    eapply coalesced_weaken; [|done]. lia.
  - eapply coalesced_weaken; [|done]. lia.
Qed.

Lemma total_cut : total (pre ++ cut n p ++ post) = total (pre ++ n :: post) - (e - p).
Proof using Hp.
  clear Hc Hd. rewrite !total_app. simpl. unfold cut. destruct (Z.ltb_spec (f_addr n) p); simpl; lia.
Qed.

Lemma in_free_cut x :
  in_free (pre ++ n :: post) x ↔ in_free (pre ++ cut n p ++ post) x ∨ p <= x < e.
Proof using Hp.
  clear Hc Hd. rewrite !in_free_app, in_free_cons. unfold cut.
  destruct (Z.ltb_spec (f_addr n) p); rewrite ?in_free_cons, ?in_free_nil; simpl; subst e.
  - assert (f_addr n <= x < f_addr n + f_size n ↔
      f_addr n <= x < f_addr n + (p - f_addr n) ∨ p <= x < f_addr n + f_size n) by lia. tauto.
  - assert (f_addr n = p) by lia. subst p. tauto.
Qed.

Lemma in_free_cut_not x : p <= x < e → ¬ in_free (pre ++ cut n p ++ post) x.
Proof using All.
  intros Hx. apply coalesced_app in Hc as [H1 H2].
  rewrite !in_free_app. intros [H|[H|H]].
  - pose proof (in_free_bounds _ _ _ _ H1 H). simpl in H2. lia.
  - revert H. unfold cut. destruct (Z.ltb_spec (f_addr n) p).
    + rewrite in_free_cons, in_free_nil. simpl. lia.
    + by rewrite in_free_nil.
  - simpl in H2. destruct H2 as (_ & _ & _ & _ & _ & H2).
    pose proof (in_free_ge _ _ _ _ H2 H). lia.
Qed.
End cut.

Definition block_size (ly : Layout) : Z := ly_size ly + CHUNK_SIZE - 1 - (ly_size ly + CHUNK_SIZE - 1) mod CHUNK_SIZE.

Lemma block_size_bounds ly : 0 < ly_size ly →
  ly_size ly <= block_size ly < ly_size ly + CHUNK_SIZE ∧ (CHUNK_SIZE | block_size ly).
Proof.
  intros. unfold block_size, CHUNK_SIZE. set (s := ly_size ly + 32 - 1).
  pose proof (Z.mod_pos_bound s 32 eq_refl). split; [lia|].
  exists (s / 32). pose proof (Z.div_mod s 32 ltac:(lia)). lia.
Qed.

(** What [alloc] hands out: [p, e) of the zone, [size] bytes at least, cut from
    the free bytes. *)
Record handed_out (z z' : HeapZone) (ly : Layout) (p e : Z) : Prop := {
  ho_align : (ly_align ly | p);
  ho_chunk : (CHUNK_SIZE | p) ∧ (CHUNK_SIZE | e);
  ho_size : p + ly_size ly <= e;
  ho_block : ly_align ly <= CHUNK_SIZE → e = p + block_size ly;
  ho_range : zone_lo z <= p ∧ e <= zone_hi z;
  ho_free : ∀ x, in_free (z_list z) x ↔ in_free (z_list z') x ∨ p <= x < e;
  ho_taken : ∀ x, p <= x < e → ¬ in_free (z_list z') x;
  ho_count : z_free_space z' = z_free_space z - (e - p);
}.

Lemma max_align_le align : pow2 align → (align | Z.max align CHUNK_SIZE).
Proof. intros. apply pow2_le_divide; [done|by apply layout_align_pow2|lia]. Qed.

Lemma zone_alloc_ok {B : Build} z ly :
  zone_wf z → layout_ok ly →
  (zone_alloc z ly = Ret (0, z) ∧
     (z_free_space z < ly_size ly ∨
      Forall (λ n, fits n (ly_size ly) (ly_align ly) = false) (z_list z))) ∨
  (∃ p e z', zone_alloc z ly = Ret (p, z') ∧ 0 < p ∧ zone_wf z' ∧ z_mem z' = z_mem z ∧
     handed_out z z' ly p e).
Proof.
  intros [Ha Hal Hlen Hhi Hl Hfs] (Hsz & Hp & Hpa). unfold zone_alloc.
  destruct (Z.ltb_spec (z_free_space z) (ly_size ly)) as [|Hge]; [by left; auto|].
  pose proof (total_bound _ _ _ Hl) as [_ Ht].
  unfold zone_lo, zone_hi, PAGE_SIZE, INITIAL_CHUNK_SIZE in *.
  assert (z_addr z + a_len (z_mem z) < U64) as Hu by lia.
  destruct (zone_scan_ok (ly_size ly) (ly_align ly) (z_free_space z) _ _ _
    (Z.add_pos_nonneg _ 96 Ha ltac:(lia)) Hu Hl ltac:(lia) ltac:(lia) Hp Hpa)
    as [[Hno ->]|(pre & n & post & El & Hf & ->)]; [by left; auto|right].
  set (p := place n _ _). cbn [mbind res_bind].
  apply andb_prop in Hf as [Hf1%Z.leb_le Hf2%Z.leb_le]. fold p in Hf2.
  pose proof (place_bounds n (ly_size ly) (ly_align ly) Hp) as (Hd1 & Hd2 & Hb).
  fold p in Hd1, Hd2, Hb. rewrite El in *.
  pose proof (coalesced_elem _ _ _ n Hl ltac:(set_solver)) as (? & ? & ? & ? & ?).
  assert (f_addr n <= p < f_addr n + f_size n) as Hpn by lia.
  assert (CHUNK_SIZE | f_addr n + f_size n) as Hde by by apply Z.divide_add_r.
  exists p, (f_addr n + f_size n). eexists. split; [done|split; [lia|split]].
  { constructor; unfold zone_lo, zone_hi, z_addr, INITIAL_CHUNK_SIZE, PAGE_SIZE in *; simpl;
      try done; try lia.
    - by eapply coalesced_cut.
    - rewrite total_cut by done. lia. }
  split; [done|]. constructor; simpl; try done; try lia.
  - etransitivity; [by apply max_align_le|exact Hd1].
  - intros Hle. rewrite Z.max_r in Hb by lia.
    pose proof (block_size_bounds ly ltac:(lia)) as [Hbs Hbd].
    assert (CHUNK_SIZE | p + block_size ly) as Hd3 by by apply Z.divide_add_r.
    pose proof (divide_gap CHUNK_SIZE (f_addr n + f_size n) (p + block_size ly) eq_refl Hde Hd3).
    pose proof (divide_gap CHUNK_SIZE (p + block_size ly) (f_addr n + f_size n) eq_refl Hd3 Hde).
    lia.
  - unfold zone_lo, zone_hi, INITIAL_CHUNK_SIZE. lia.
  - intros x. rewrite El. by apply in_free_cut.
  - intros x. by eapply in_free_cut_not.
Qed.

(** *** Deallocation in a zone *)

Lemma prev_next_loop_ok addr pn pre post :
  Forall (λ m, f_addr m <= addr) pre →
  (∀ n, head post = Some n → addr < f_addr n) →
  prev_next_loop addr pn (pre ++ post) =
    (match last pre with Some m => Some m | None => pn end, head post).
Proof.
  intros Hpre Hpost. revert pn. induction Hpre as [|m pre Hm _ IH]; intros pn; simpl.
  - destruct post as [|n post]; simpl; [done|].
    by rewrite (proj2 (Z.ltb_lt _ _)) by auto.
  - rewrite (proj2 (Z.ltb_ge _ _)) by lia. rewrite IH, last_cons. by destruct (last pre).
Qed.

(** A block none of whose bytes is free splits the list. *)
Lemma coalesced_split lo hi l p s :
  coalesced lo hi l → 0 < s → lo <= p → (∀ x, p <= x < p + s → ¬ in_free l x) →
  ∃ pre post, l = pre ++ post ∧ end_of lo pre <= p + 1 ∧ coalesced (p + s) hi post.
Proof.
  revert lo. induction l as [|n l IH]; intros lo Hc Hs Hlo Hx.
  { exists [], []. simpl. split; [done|]. split; [lia|done]. }
  pose proof Hc as (H1 & H2 & H3 & H4 & H5 & Hl).
  destruct (Z.lt_ge_cases p (f_addr n)) as [Hlt|Hge].
  - exists [], (n :: l). split; [done|]. simpl. split_and!; try done; try lia.
    destruct (Z.lt_ge_cases (f_addr n) (p + s)); [|lia].
    destruct (Hx (f_addr n)); [lia|]. apply in_free_cons. lia.
  - destruct (Z.lt_ge_cases p (f_addr n + f_size n)) as [Hlt'|Hge'].
    { destruct (Hx p); [lia|]. apply in_free_cons. lia. }
    destruct (Z.eq_dec p (f_addr n + f_size n)) as [->|Hne].
    + exists [n], l. split; [done|]. simpl. split; [lia|].
      destruct l as [|m l]; [done|]. simpl in *. destruct Hl as (? & ? & ? & ? & ? & ?).
      split_and!; try done.
      destruct (Z.lt_ge_cases (f_addr m) (f_addr n + f_size n + s)); [|lia].
      destruct (Hx (f_addr m)); [lia|]. rewrite !in_free_cons. lia.
    + destruct (IH _ Hl Hs ltac:(lia)) as (pre & post & -> & He & Hp).
      { intros x Hb Hf. apply (Hx x Hb), in_free_cons. by right. }
      exists (n :: pre), post. by split.
Qed.

Section free.
Context {B : Build} (lo hi : Z) (pre post : list fnode) (c : fnode).
Let p := f_addr c.
Let s := f_size c.
Hypothesis Hlo : 0 < lo.
Hypothesis Hhi : hi < U64.
Hypothesis Hpre : coalesced lo hi pre.
Hypothesis Hend : end_of lo pre <= p + 1.
Hypothesis Hpost : coalesced (p + s) hi post.
Hypothesis Hs : 0 < s.
Hypothesis Hpd : (CHUNK_SIZE | p) ∧ (CHUNK_SIZE | s).
Hypothesis Hlp : lo <= p.
Hypothesis Hph : p + s <= hi.

Lemma get_prev_next_ok : prev_next_loop p None (pre ++ post) = (last pre, head post).
Proof using Hpre Hend Hpost Hs.
  clear Hhi. rewrite prev_next_loop_ok; [by destruct (last pre)| |].
  - apply Forall_forall. intros m Hm. pose proof (coalesced_upper _ _ _ _ Hpre Hm).
    pose proof (coalesced_elem _ _ _ _ Hpre Hm). lia.
  - intros n Hn. destruct post; simplify_eq/=. lia.
Qed.

Lemma dealloc_prev_ok :
  ∃ pre' c', dealloc_prev (pre ++ post) (last pre) c = Ret (pre' ++ c' :: post, c') ∧
    coalesced lo hi (pre' ++ [c']) ∧ f_addr c' + f_size c' = p + s ∧
    total (pre' ++ [c']) = total pre + s ∧
    ∀ x, in_free (pre' ++ [c']) x ↔ in_free pre x ∨ p <= x < p + s.
Proof using All.
  destruct pre as [|m pre0 _] using rev_ind; simpl.
  { exists [], c. simpl. split_and!; try done; try apply Hpd; try (subst p s; lia).
    intros x. rewrite in_free_cons, in_free_nil. tauto. }
  rewrite last_snoc. pose proof Hpre as [Hp0 Hm]%coalesced_app.
  simpl in Hm. destruct Hm as (H1 & H2 & H3 & H4 & H5 & _).
  pose proof (coalesced_ne _ _ pre0 m [] Hpre) as Hne. pose proof (end_of_ge _ _ _ Hp0).
  rewrite end_of_snoc in Hend. rewrite <- app_assoc. unfold dealloc_prev, merge. u.
  destruct (Z.eqb_spec (f_addr m + f_size m) (f_addr c)) as [He|Hn].
  - fold p s in He |- *. exists pre0, (mkF (f_addr m) (f_size m + s)). u. simpl.
    rewrite fl_update_mid by done. split; [done|].
    rewrite coalesced_app, !total_app. simpl. split_and!; try done; try lia.
    + apply Z.divide_add_r; [done|apply Hpd].
    + intros x. rewrite !in_free_app, !in_free_cons, in_free_nil. simpl.
      assert (f_addr m <= x < f_addr m + (f_size m + s) ↔
        f_addr m <= x < f_addr m + f_size m ∨ p <= x < p + s) by lia. tauto.
  - exists (pre0 ++ [m]), c. simpl. rewrite fl_insert_after_mid by done.
    fold p s in Hn |- *. split; [by rewrite <- app_assoc|].
    rewrite (coalesced_app _ _ (pre0 ++ [m])), end_of_snoc, (total_app (pre0 ++ [m])). simpl.
    fold p s. split_and!; try done; try lia; try apply Hpd.
    intros x. rewrite !in_free_app, !in_free_cons, in_free_nil. fold p s. tauto.
Qed.
End free.

Lemma dealloc_next_ok {B : Build} lo hi pre c post :
  0 < lo → hi < U64 → coalesced lo hi (pre ++ [c]) → coalesced (f_addr c + f_size c) hi post →
  ∃ l', dealloc_next (pre ++ c :: post) (head post) c = Ret l' ∧ coalesced lo hi l' ∧
    total l' = total (pre ++ [c]) + total post ∧
    ∀ x, in_free l' x ↔ in_free (pre ++ [c]) x ∨ in_free post x.
Proof.
  intros Hlo Hhi Hc Hpost. pose proof Hc as [Hpre Hc']%coalesced_app. simpl in Hc'.
  pose proof (coalesced_ne _ _ pre c [] Hc) as Hne.
  destruct Hc' as (H1 & H2 & H3 & H4 & H5 & _). pose proof (end_of_ge _ _ _ Hpre).
  assert (pre ++ c :: post = (pre ++ [c]) ++ post) as E by by rewrite <- app_assoc.
  assert (∀ lo', lo' = f_addr c + f_size c + 1 → coalesced lo' hi post →
    coalesced lo hi (pre ++ c :: post)) as Hno.
  { intros lo' -> Hp. rewrite E, coalesced_app, end_of_snoc. done. }
  destruct post as [|n post]; simpl.
  { exists (pre ++ [c]). split_and!; try done; [simpl; lia|].
    intros x. rewrite in_free_nil. tauto. }
  unfold merge. simpl in Hpost. destruct Hpost as (G1 & G2 & G3 & G4 & G5 & Hpost). u.
  destruct (Z.eqb_spec (f_addr c + f_size c) (f_addr n)) as [He|Hn]; u.
  - rewrite (fl_update_mid (mkF (f_addr c) (f_size c + f_size n))) by done.
    replace (pre ++ mkF (f_addr c) (f_size c + f_size n) :: n :: post)
      with ((pre ++ [mkF (f_addr c) (f_size c + f_size n)]) ++ n :: post)
      by by rewrite <- app_assoc.
    rewrite fl_remove_mid; [|apply Forall_app; split; [|by repeat constructor; simpl; lia]|done].
    2: { apply Forall_forall. intros m Hm.
         pose proof (coalesced_upper _ _ _ _ Hpre Hm).
         pose proof (coalesced_elem _ _ _ _ Hpre Hm). lia. }
    eexists. split; [done|]. rewrite !coalesced_app, end_of_snoc, !total_app. simpl.
    split_and!; try done; try lia; [by apply Z.divide_add_r| |].
    + eapply coalesced_weaken; [|done]. lia.
    + intros x. rewrite !in_free_app, !in_free_cons, !in_free_nil. simpl.
      assert (f_addr c <= x < f_addr c + (f_size c + f_size n) ↔
        f_addr c <= x < f_addr c + f_size c ∨ f_addr n <= x < f_addr n + f_size n) by lia. tauto.
  - eexists. split; [done|]. split; [eapply Hno; [done|]; simpl; split_and!; try done; lia|].
    rewrite E, (total_app (pre ++ [c])). split; [done|]. intros x. by rewrite in_free_app.
Qed.

Lemma zone_dealloc_ok {B : Build} z p ly s :
  zone_wf z → align_up (ly_size ly) (Z.max CHUNK_SIZE (ly_align ly)) = Ret s →
  0 < s → (CHUNK_SIZE | p) → (CHUNK_SIZE | s) → zone_lo z <= p → p + s <= zone_hi z →
  (∀ x, p <= x < p + s → ¬ in_free (z_list z) x) →
  ∃ z', zone_dealloc z p ly = Ret z' ∧ zone_wf z' ∧ z_mem z' = z_mem z ∧
    z_free_space z' = z_free_space z + s ∧
    ∀ x, in_free (z_list z') x ↔ in_free (z_list z) x ∨ p <= x < p + s.
Proof.
  intros [Ha Hal Hlen Hhi Hl Hfs] Hs Hs0 Hpd Hsd Hlo Hph Hx.
  unfold zone_dealloc, get_prev_next_node. rewrite Hs. cbn [mbind res_bind].
  destruct (coalesced_split _ _ _ p s Hl Hs0 Hlo Hx) as (pre & post & El & Hend & Hpost).
  rewrite El in *. apply coalesced_app in Hl as [Hpre _].
  unfold zone_lo, PAGE_SIZE, INITIAL_CHUNK_SIZE in *.
  assert (0 < z_addr z + 96) as Hlo0 by lia. assert (zone_hi z < U64) as Hu by lia.
  pose proof (get_prev_next_ok _ _ pre post (mkF p s) Hpre Hend Hpost Hs0) as Hg.
  cbn [f_addr] in Hg. rewrite Hg.
  destruct (dealloc_prev_ok _ _ pre post (mkF p s) Hlo0 Hu Hpre Hend Hpost Hs0
    (conj Hpd Hsd) Hlo Hph) as (pre' & c' & -> & Hc' & Hec & Ht & Hin).
  cbn [mbind res_bind f_addr f_size] in *.
  destruct (dealloc_next_ok _ _ pre' c' post Hlo0 Hu Hc') as (l' & -> & Hl' & Ht' & Hin').
  { by rewrite Hec. }
  pose proof (total_bound _ _ _ Hl') as [? Hb]. unfold zone_hi in *.
  rewrite total_app in Hfs. cbn [mbind res_bind]. u. eexists. split; [done|]. simpl.
  split_and!; try done; [|intros x; rewrite Hin', Hin, in_free_app; tauto].
  constructor; simpl; try done. rewrite Ht', Ht. lia.
Qed.

(** Where the free bytes of a zone are. *)
Lemma wf_free_range z x : zone_wf z → in_free (z_list z) x → zone_lo z <= x < zone_hi z.
Proof.
  intros Hz (n & Hn & Hx). pose proof (coalesced_elem _ _ _ _ (wf_list _ Hz) Hn). lia.
Qed.

Lemma align_up_block {B : Build} ly :
  layout_ok ly → ly_align ly <= CHUNK_SIZE →
  align_up (ly_size ly) (Z.max CHUNK_SIZE (ly_align ly)) = Ret (block_size ly).
Proof.
  intros ([? ?] & Hp & ?) Hle. rewrite Z.max_l by done.
  rewrite align_up_eq; [done|lia|apply pow2_CHUNK|unfold CHUNK_SIZE; lia].
Qed.

(** Freeing a block that [alloc] could have handed out. *)
Lemma zone_dealloc_block {B : Build} z p ly :
  zone_wf z → layout_ok ly → ly_align ly <= CHUNK_SIZE → (CHUNK_SIZE | p) →
  zone_lo z <= p → p + block_size ly <= zone_hi z →
  (∀ x, p <= x < p + block_size ly → ¬ in_free (z_list z) x) →
  ∃ z', zone_dealloc z p ly = Ret z' ∧ zone_wf z' ∧ z_mem z' = z_mem z ∧
    z_free_space z' = z_free_space z + block_size ly ∧
    ∀ x, in_free (z_list z') x ↔ in_free (z_list z) x ∨ p <= x < p + block_size ly.
Proof.
  intros Hz Hly Hle Hd H1 H2 Hx. destruct (block_size_bounds ly) as [Hb Hbd]; [apply Hly|].
  destruct Hly as (? & ? & ?).
  apply (zone_dealloc_ok z p ly (block_size ly)); try done; [by apply align_up_block|lia].
Qed.

(** Freeing what was just allocated restores the zone exactly: the nodes that
    [alloc] cut and the ones [dealloc] merges cancel out. *)
Theorem dealloc_alloc {B : Build} z ly p z' :
  zone_wf z → layout_ok ly → ly_align ly <= CHUNK_SIZE →
  zone_alloc z ly = Ret (p, z') → p ≠ 0 → zone_dealloc z' p ly = Ret z.
Proof.
  intros Hz Hly Hle Ha Hp.
  destruct (zone_alloc_ok z ly Hz Hly) as [[E _]|(p' & e & z1 & E & _ & Hz1 & Hm & Ho)];
    rewrite Ha in E; simplify_eq.
  rename z1 into z', p' into p.
  destruct Ho as [_ [Hd _] Hs He [Hr1 Hr2] Hf Ht Hc]. specialize (He Hle). subst e.
  destruct (zone_dealloc_block z' p ly) as (z2 & -> & Hz2 & Hm2 & Hc2 & Hf2); try done.
  { unfold zone_lo, z_addr in *. by rewrite Hm. }
  { unfold zone_hi, z_addr in *. by rewrite Hm. }
  f_equal. pose proof (coalesced_ext _ _ _ _ _ _ (wf_list _ Hz2) (wf_list _ Hz)) as El.
  assert (z_list z2 = z_list z) by (apply El; intros x; rewrite Hf2, Hf; tauto).
  destruct z, z2; simpl in *. f_equal; [congruence|lia|done].
Qed.

(** ** The whole allocator *)

(** What the heap relies on from the pages it is given: each allocation is made of
    whole pages, large enough, and shares nothing with the ones still in use. *)
Definition alloc_apart (a b : Allocation) : Prop :=
  a_ptr a + a_len a <= a_ptr b ∨ a_ptr b + a_len b <= a_ptr a.

Class PageSource (W : Type) `{UC : UtilCalls W} := {
  pages : W → list Allocation;
  util_alloc_some size w a w' : util_alloc size w = (Some a, w') →
    size <= a_len a ∧ 0 < a_ptr a ∧ (PAGE_SIZE | a_ptr a) ∧ (PAGE_SIZE | a_len a) ∧
    a_ptr a + a_len a + PAGE_SIZE <= U64 ∧ Forall (alloc_apart a) (pages w) ∧
    pages w' = a :: pages w;
  util_alloc_none size w w' : util_alloc size w = (None, w') → pages w' = pages w;
}.

(** The blocks in use, each with the layout it was asked for. *)
Definition block := (Z * Layout)%type.
Definition block_apart (b b' : block) : Prop :=
  b.1 + block_size b.2 <= b'.1 ∨ b'.1 + block_size b'.2 <= b.1.
Definition block_in (z : HeapZone) (b : block) : Prop :=
  zone_lo z <= b.1 ∧ b.1 + block_size b.2 <= zone_hi z.
Definition block_taken (z : HeapZone) (b : block) : Prop :=
  ∀ x, b.1 <= x < b.1 + block_size b.2 → ¬ in_free (z_list z) x.
Definition small_layout (ly : Layout) : Prop := layout_ok ly ∧ ly_align ly <= CHUNK_SIZE.

Record heap_inv (ms : list Allocation) (zs : list HeapZone) (live : list block) : Prop := {
  hi_wf : Forall zone_wf zs;
  hi_pages : Forall (λ m, m ∈ ms) (z_mem <$> zs);
  hi_apart : ForallOrdPairs alloc_apart (z_mem <$> zs);
  hi_blocks : ForallOrdPairs block_apart live;
  hi_layout : Forall (λ b, small_layout b.2 ∧ (CHUNK_SIZE | b.1) ∧ (ly_align b.2 | b.1)) live;
  hi_in : Forall (λ b, Exists (λ z, block_in z b) zs) live;
  hi_taken : Forall (λ b, Forall (λ z, block_taken z b) zs) live;
}.

Lemma ForallOrdPairs_app {A} (R : A → A → Prop) l1 l2 :
  ForallOrdPairs R (l1 ++ l2) ↔
  ForallOrdPairs R l1 ∧ ForallOrdPairs R l2 ∧ Forall (λ a, Forall (R a) l2) l1.
Proof.
  induction l1 as [|a l1 IH]; simpl.
  - split; [intros; split_and!; auto; constructor|tauto].
  - split.
    + inversion 1 as [|? ? H1 H2]; subst. apply IH in H2 as (? & ? & ?).
      apply Forall_app in H1 as [? ?]. split_and!; [by constructor|done|by constructor].
    + intros (H1 & H2 & H3). inversion H1; inversion H3; subst.
      constructor; [by apply Forall_app|]. by apply IH.
Qed.

Section allocator.
Context {B : Build} {W : Type} {UC : UtilCalls W} {PS : PageSource W}.

Lemma zones_alloc_ok zs ly :
  Forall zone_wf zs → layout_ok ly →
  zones_alloc zs ly = Ret None ∨
  ∃ pre z post p e z', zs = pre ++ z :: post ∧
    zones_alloc zs ly = Ret (Some (p, pre ++ z' :: post)) ∧
    0 < p ∧ zone_wf z' ∧ z_mem z' = z_mem z ∧ handed_out z z' ly p e.
Proof.
  intros Hzs Hly. induction Hzs as [|z zs Hz _ IH]; [by left|]. simpl.
  assert (zone_alloc z ly = Ret (0, z) ∨ ∃ p e z', zone_alloc z ly = Ret (p, z') ∧ 0 < p ∧
    zone_wf z' ∧ z_mem z' = z_mem z ∧ handed_out z z' ly p e) as Hza
    by (destruct (zone_alloc_ok z ly Hz Hly) as [[? _]|]; auto).
  destruct (Z.leb_spec (ly_size ly) (zone_free_space z));
    [destruct Hza as [->|(p & e & z' & -> & Hp & ?)]; cbn [mbind res_bind]|].
  2: { right. rewrite (proj2 (Z.eqb_neq p 0)) by lia. by exists [], z, zs, p, e, z'. }
  all: destruct IH as [->|(pre & y & post & p & e & y' & -> & -> & ?)]; simpl; [by left|].
  all: right; by exists (z :: pre), y, post, p, e, y'.
Qed.

Lemma zone_new_ok size w :
  0 < size < 2 ^ 63 + 2 ^ 62 → INITIAL_CHUNK_SIZE <= size →
  (∃ s w', zone_new size w = Ret (None, w') ∧ util_alloc s w = (None, w')) ∨
  (∃ a s w', util_alloc s w = (Some a, w') ∧ size <= a_len a ∧
     let z := mkZone a (a_len a - INITIAL_CHUNK_SIZE)
       [mkF (a_ptr a + INITIAL_CHUNK_SIZE) (a_len a - INITIAL_CHUNK_SIZE)] in
     zone_new size w = Ret (Some z, w') ∧ (INITIAL_CHUNK_SIZE < size → zone_wf z)).
Proof.
  intros Hs H96. unfold zone_new, INITIAL_CHUNK_SIZE in *.
  assert (align_up size PAGE_SIZE = Ret (size + PAGE_SIZE - 1 - (size + PAGE_SIZE - 1) mod PAGE_SIZE))
    as ->; [apply align_up_eq; [lia|by exists 12|unfold PAGE_SIZE; lia]|].
  set (s := size + PAGE_SIZE - 1 - _).
  assert (size <= s) as Hle.
  { subst s. pose proof (Z.mod_pos_bound (size + PAGE_SIZE - 1) PAGE_SIZE eq_refl). lia. }
  destruct (util_alloc s w) as [[a|] w'] eqn:E.
  2: { left. exists s, w'. by rewrite (M_bind_Ret _ _ _ s w), (M_bind_Ret _ _ _ None w') by (by rewrite ?E). }
  right. exists a, s, w'. split; [done|].
  destruct (util_alloc_some _ _ _ _ E) as (H1 & H2 & H3 & H4 & H5 & _).
  unfold PAGE_SIZE in *. split; [lia|]. split.
  - rewrite (M_bind_Ret _ _ _ s w), (M_bind_Ret _ _ _ (Some a) w') by (by rewrite ?E). cbn beta iota.
    unfold mbind, M_bind, lift. u. done.
  - intros Hlt. constructor; unfold zone_lo, zone_hi, z_addr, INITIAL_CHUNK_SIZE, PAGE_SIZE; simpl.
    + done.
    + split; (etransitivity; [|eassumption]); by exists 128.
    + lia.
    + lia.
    + split_and!; try lia.
      * apply Z.divide_add_r; [etransitivity; [|eassumption]|]; [by exists 128|by exists 3].
      * apply Z.divide_sub_r; [etransitivity; [|eassumption]|]; [by exists 128|by exists 3].
    + lia.
Qed.
End allocator.

(** *** The invariant, one event at a time *)

Lemma apart_sym a b : alloc_apart a b → alloc_apart b a.
Proof. unfold alloc_apart. tauto. Qed.
Lemma block_apart_sym b b' : block_apart b b' → block_apart b' b.
Proof. unfold block_apart. tauto. Qed.

Lemma mem_replace pre z z' post :
  z_mem z' = z_mem z → z_mem <$> (pre ++ z' :: post) = z_mem <$> (pre ++ z :: post).
Proof. intros E. by rewrite !fmap_app, !fmap_cons, E. Qed.

Lemma block_in_mem z z' b : z_mem z' = z_mem z → block_in z b → block_in z' b.
Proof. unfold block_in, zone_lo, zone_hi, z_addr. by intros ->. Qed.

(** The bytes of a block of one zone are not free in a zone apart from it. *)
Lemma block_taken_apart z y (b : block) :
  zone_wf y → alloc_apart (z_mem z) (z_mem y) → block_in z b → 0 < block_size b.2 →
  block_taken y b.
Proof.
  intros Hy Ha [H1 H2] Hb x Hx Hf. pose proof (wf_free_range _ _ Hy Hf).
  unfold zone_lo, zone_hi, z_addr, INITIAL_CHUNK_SIZE in *. destruct Ha; lia.
Qed.

Lemma block_pos (b : block) : small_layout b.2 → 0 < block_size b.2.
Proof. intros [(? & _) _]. pose proof (block_size_bounds b.2 ltac:(lia)). lia. Qed.

Lemma heap_inv_extend ms zs live a z :
  heap_inv ms zs live → Forall (alloc_apart a) ms → zone_wf z → z_mem z = a →
  heap_inv (a :: ms) (zs ++ [z]) live.
Proof.
  intros [Hwf Hpg Hap Hbl Hly Hin Htk] Ha Hz <-. constructor.
  - apply Forall_app. split; [done|]. by constructor.
  - rewrite fmap_app. apply Forall_app. split; [|apply Forall_singleton; by left].
    eapply Forall_impl; [exact Hpg|]. intros m. by right.
  - rewrite fmap_app. apply ForallOrdPairs_app. split_and!; [done|repeat constructor|].
    eapply Forall_impl; [exact Hpg|]. intros m Hm. apply Forall_singleton, apart_sym.
    rewrite Forall_forall in Ha. by apply Ha.
  - done.
  - done.
  - eapply Forall_impl; [exact Hin|]. intros b Hb. apply Exists_app. by left.
  - rewrite Forall_forall in Htk, Hin, Hly. rewrite Forall_forall in Ha, Hpg. apply Forall_forall. intros b Hb.
    apply Forall_app. split; [by apply Htk|]. apply Forall_singleton.
    destruct (proj1 (Exists_exists _ _) (Hin b Hb)) as (y & Hy & Hyb).
    apply (block_taken_apart y); [done| |done|apply block_pos, Hly, Hb].
    apply apart_sym, Ha, Hpg. by apply list_elem_of_fmap_2.
Qed.

(** Zones other than the one in the middle are apart from it. *)
Lemma apart_others {zs} {pre : list HeapZone} {z post} :
  zs = pre ++ z :: post → ForallOrdPairs alloc_apart (z_mem <$> zs) →
  Forall (λ y, alloc_apart (z_mem z) (z_mem y)) (pre ++ post).
Proof.
  intros ->. rewrite fmap_app, fmap_cons. intros (_ & H2 & H3)%ForallOrdPairs_app.
  inversion H2 as [|? ? H4 _]; subst. apply Forall_app. split.
  - apply Forall_fmap in H3. eapply Forall_impl; [exact H3|]. intros y Hy.
    apply apart_sym. by apply Forall_cons in Hy as [? _].
  - by rewrite Forall_fmap in H4.
Qed.

Lemma heap_inv_alloc ms pre z z' post live ly p e :
  heap_inv ms (pre ++ z :: post) live → zone_wf z' → z_mem z' = z_mem z → 0 < p →
  small_layout ly → handed_out z z' ly p e →
  heap_inv ms (pre ++ z' :: post) ((p, ly) :: live).
Proof.
  intros [Hwf Hpg Hap Hbl Hly Hin Htk] Hz' Hm Hp Hl [Hoa [Hoc _] Hos Hob [Hr1 Hr2] Hof Hot _].
  specialize (Hob (proj2 Hl)). subst e.
  pose proof (apart_others eq_refl Hap) as Hoth.
  assert (block_in z' (p, ly)) as Hbi.
  { apply (block_in_mem z); [done|]. by split. }
  pose proof (block_pos (p, ly) Hl) as Hbp.
  apply Forall_app in Hwf as [Hw1 Hw2]. inversion Hw2 as [|? ? Hz Hw3]; subst.
  constructor.
  - apply Forall_app. split; [done|]. by constructor.
  - by rewrite (mem_replace _ z).
  - by rewrite (mem_replace _ z).
  - constructor; [|done]. rewrite Forall_forall in Htk, Hly. apply Forall_forall. intros b Hb.
    pose proof (Htk b Hb) as [_ Hzb]%Forall_app. inversion Hzb as [|? ? Hzb' _]; subst.
    destruct (Hly b Hb) as (Hsb & _). pose proof (block_pos b Hsb). simpl in *.
    unfold block_apart. simpl.
    destruct (Z.le_gt_cases (p + block_size ly) b.1); [by left|].
    destruct (Z.le_gt_cases (b.1 + block_size b.2) p); [by right|].
    destruct (Hzb' (Z.max p b.1)); [lia|]. apply Hof. right. lia.
  - constructor; [done|done].
  - constructor; [apply Exists_app; right; by left|].
    eapply Forall_impl; [exact Hin|]. intros b [Hb|Hb]%Exists_app; apply Exists_app; [by left|right].
    inversion Hb; subst; [left|by right]. by apply (block_in_mem z).
  - constructor.
    + pose proof Hoth as [Ho1 Ho2]%Forall_app.
      assert (∀ ys, Forall zone_wf ys → Forall (λ y, alloc_apart (z_mem z) (z_mem y)) ys →
        Forall (λ y, block_taken y (p, ly)) ys) as Hys.
      { intros ys Hy1 Hy2. apply Forall_forall. intros y Hy.
        rewrite Forall_forall in Hy1, Hy2. apply (block_taken_apart z'); auto.
        rewrite Hm. auto. }
      apply Forall_app. split; [by apply Hys|]. constructor; [|by apply Hys].
      intros x Hx. by apply Hot.
    + eapply Forall_impl; [exact Htk|]. intros b [Hb1 Hb2]%Forall_app.
      inversion Hb2 as [|? ? Hbz Hb3]; subst. apply Forall_app. split; [done|].
      constructor; [|done]. intros x Hx Hf. apply (Hbz x Hx), Hof. by left.
Qed.

Lemma heap_inv_free ms pre z z' post l1 b l2 :
  heap_inv ms (pre ++ z :: post) (l1 ++ b :: l2) → block_in z b →
  zone_wf z' → z_mem z' = z_mem z →
  (∀ x, in_free (z_list z') x ↔ in_free (z_list z) x ∨ b.1 <= x < b.1 + block_size b.2) →
  heap_inv ms (pre ++ z' :: post) (l1 ++ l2).
Proof.
  intros [Hwf Hpg Hap Hbl Hly Hin Htk] Hb Hz' Hm Hf.
  assert (∀ P : block → Prop, Forall P (l1 ++ b :: l2) → Forall P (l1 ++ l2)) as Hsub.
  { intros P [? [? ?]%Forall_cons]%Forall_app. by apply Forall_app. }
  constructor.
  - apply Forall_app in Hwf as [? [? ?]%Forall_cons]. apply Forall_app. split; [done|]. by constructor.
  - by rewrite (mem_replace _ z).
  - by rewrite (mem_replace _ z).
  - apply ForallOrdPairs_app in Hbl as (H1 & H2 & H3). apply ForallOrdPairs_app.
    inversion H2; subst. split_and!; [done|done|].
    eapply Forall_impl; [exact H3|]. intros b' Hb'. by inversion Hb'.
  - by apply Hsub.
  - eapply Forall_impl; [apply Hsub, Hin|].
    intros b' [H|H]%Exists_app; apply Exists_app; [by left|right].
    inversion H; subst; [left|by right]. by apply (block_in_mem z).
  - apply ForallOrdPairs_app in Hbl as (_ & H2 & H3). inversion H2 as [|? ? H4 _]; subst.
    assert (Forall (block_apart b) (l1 ++ l2)) as Hapt.
    { apply Forall_app. split; [|done]. eapply Forall_impl; [exact H3|]. intros b' Hb'.
      apply block_apart_sym. by apply Forall_cons in Hb' as [? _]. }
    pose proof (Hsub _ Htk) as Htk'. rewrite Forall_forall in Hapt.
    rewrite Forall_forall in Htk'. apply Forall_forall. intros b' Hb'.
    pose proof (Htk' b' Hb') as [? [Hz ?]%Forall_cons]%Forall_app.
    apply Forall_app. split; [done|]. constructor; [|done].
    intros x Hx [Hfx|Hfx]%Hf; [by apply (Hz x)|]. destruct (Hapt b' Hb'); lia.
Qed.

(** [contains] finds the zone of a block: the test is generous by one chunk at
    the end, which the header of the next zone makes harmless. *)
Lemma zone_contains_in {B : Build} z (b : block) :
  zone_wf z → 0 < ly_size b.2 → block_in z b → zone_contains z b.1 (ly_size b.2) = Ret true.
Proof.
  intros [Hza _ Hlen Hhi _ _] Hs [Hb1 Hb2].
  pose proof (block_size_bounds b.2 ltac:(lia)) as [Hbs _].
  unfold zone_contains, zone_lo, zone_hi, z_addr, INITIAL_CHUNK_SIZE, CHUNK_SIZE, PAGE_SIZE in *.
  u. rewrite (proj2 (Z.ltb_ge _ _)) by lia. u. by rewrite (proj2 (Z.leb_le _ _)) by lia.
Qed.

Lemma zone_contains_apart {B : Build} z y (b : block) :
  zone_wf z → zone_wf y → 0 < ly_size b.2 → block_in z b → alloc_apart (z_mem z) (z_mem y) →
  zone_contains y b.1 (ly_size b.2) = Ret false.
Proof.
  intros [Hza _ Hlen Hhi _ _] [Hya _ Hyl Hyh _ _] Hs [Hb1 Hb2] Ha.
  pose proof (block_size_bounds b.2 ltac:(lia)) as [Hbs _].
  unfold zone_contains, zone_lo, zone_hi, z_addr, INITIAL_CHUNK_SIZE, CHUNK_SIZE, PAGE_SIZE in *.
  unfold alloc_apart in Ha. u. destruct (Z.ltb_spec b.1 (a_ptr (z_mem y) + 32)); [done|]. u.
  by rewrite (proj2 (Z.leb_gt _ _)) by lia.
Qed.

Section client.
Context {B : Build} {W : Type} {UC : UtilCalls W} {PS : PageSource W}.

Lemma zones_dealloc_ok ms pre z post l1 b l2 :
  heap_inv ms (pre ++ z :: post) (l1 ++ b :: l2) → block_in z b →
  ∃ z', zones_dealloc (pre ++ z :: post) b.1 b.2 = Ret (pre ++ z' :: post) ∧
    heap_inv ms (pre ++ z' :: post) (l1 ++ l2).
Proof.
  intros Hinv Hb. pose proof Hinv as [Hwf _ Hap _ Hly _ Htk].
  pose proof (apart_others eq_refl Hap) as [Hpre _]%Forall_app.
  apply Forall_app in Hly as [_ [(Hl & Hd & _) _]%Forall_cons].
  apply Forall_app in Htk as [_ [Htk _]%Forall_cons].
  apply Forall_app in Htk as [_ [Htk _]%Forall_cons].
  apply Forall_app in Hwf as [Hwp [Hz _]%Forall_cons].
  destruct (zone_dealloc_block z b.1 b.2) as (z' & E & Hz' & Hm & _ & Hf);
    try done; [apply Hl|apply Hl|apply Hb|apply Hb|].
  exists z'. split; [|by eapply heap_inv_free]. clear Hinv Hap.
  assert (0 < ly_size b.2) as Hs by (destruct Hl as [(? & _) _]; lia).
  induction Hpre as [|y pre Hy _ IH]; simpl.
  - rewrite zone_contains_in by done. cbn [mbind res_bind]. by rewrite E.
  - apply Forall_cons in Hwp as [Hyw Hwp].
    rewrite (zone_contains_apart z y) by done. cbn [mbind res_bind]. by rewrite IH.
Qed.

Lemma allocator_dealloc_ok ms zs l1 b l2 :
  heap_inv ms zs (l1 ++ b :: l2) →
  ∃ zs', allocator_dealloc zs b.1 b.2 = Ret zs' ∧ heap_inv ms zs' (l1 ++ l2).
Proof.
  intros Hinv. pose proof Hinv as [Hwf _ _ _ Hly Hin _].
  apply Forall_app in Hin as [_ [Hb _]%Forall_cons]. apply Exists_exists in Hb as (z & Hz & Hb).
  apply Forall_app in Hly as [_ [(Hl & Hd & _) _]%Forall_cons].
  pose proof (proj1 (Forall_forall _ _) Hwf z Hz) as Hzw.
  apply list_elem_of_split in Hz as (pre & post & ->).
  destruct (zones_dealloc_ok ms pre z post l1 b l2 Hinv Hb) as (z' & E & Hinv').
  exists (pre ++ z' :: post). split; [|done]. unfold allocator_dealloc.
  rewrite (proj2 (Z.leb_le CHUNK_SIZE (align_of b.1))); [done|].
  assert (is_usize b.1 ∧ 0 < b.1) as [? ?].
  { destruct Hb as [? ?], Hzw as [? _ _ ? _ _], Hl as [(? & _) _].
    pose proof (block_size_bounds b.2 ltac:(lia)).
    unfold is_usize, zone_lo, INITIAL_CHUNK_SIZE, PAGE_SIZE in *. lia. }
  apply align_of_greatest; [done|apply pow2_CHUNK|done|done].
Qed.

(** A layout the allocator can serve without overflow, and what [alloc] does: null
    exactly when a new zone was needed and its pages were refused. *)
Lemma allocator_alloc_ok ms zs live ly w :
  heap_inv ms zs live → ms = pages w → small_layout ly →
  (∃ s w', util_alloc s w = (None, w') ∧ allocator_alloc zs ly w = Ret (0, zs, w') ∧
     zones_alloc zs ly = Ret None) ∨
  (∃ p zs' w', allocator_alloc zs ly w = Ret (p, zs', w') ∧ 0 < p ∧
     heap_inv (pages w') zs' ((p, ly) :: live)).
Proof.
  intros Hinv -> Hly. unfold allocator_alloc.
  destruct (zones_alloc_ok zs ly (hi_wf _ _ _ Hinv) (proj1 Hly))
    as [->|(pre & z & post & p & e & z' & -> & -> & Hp & Hz' & Hm & Ho)].
  2: { right. exists p, (pre ++ z' :: post), w. split; [done|split; [done|]].
       by eapply heap_inv_alloc. }
  rewrite (M_bind_Ret _ _ _ None w) by done.
  pose proof Hly as ((Hs & Hp2 & Ha) & Hle). unfold CHUNK_SIZE in *.
  pose proof (pow2_pos _ Hp2). rewrite Z.max_r by lia.
  rewrite (M_bind_Ret _ _ _ (ly_size ly + 32) w) by (unfold lift; u; done).
  rewrite (M_bind_Ret _ _ _ (ly_size ly + 32 + 96) w)
    by (unfold lift, INITIAL_CHUNK_SIZE; u; done).
  set (inc := Z.max HEAP_INC_SIZE (ly_size ly + 32 + 96)).
  assert (INITIAL_CHUNK_SIZE < inc ∧ 0 < inc < 2 ^ 63 + 2 ^ 62) as [Hi1 Hi2]
    by (subst inc; unfold HEAP_INC_SIZE, PAGE_SIZE, INITIAL_CHUNK_SIZE; lia).
  destruct (zone_new_ok inc w Hi2 ltac:(lia)) as [(s & w' & Hz & E)|(a & s & w' & E & Hal & Hz & Hw)].
  { left. exists s, w'. by rewrite (M_bind_Ret _ _ _ None w'). }
  right. set (z := mkZone a _ _) in *. rewrite (M_bind_Ret _ _ _ (Some z) w') by done.
  specialize (Hw Hi1). cbn beta iota.
  destruct (zone_alloc_ok z ly Hw (proj1 Hly)) as [[_ Hno]|(p & e & z' & Ez & Hp & Hz' & Hm & Ho)].
  { exfalso. subst z. simpl in Hno. unfold INITIAL_CHUNK_SIZE in *.
    assert (ly_size ly + 32 + 96 <= inc) by (subst inc; lia).
    destruct Hno as [|Hno]; [lia|]. rewrite Forall_singleton in Hno.
    set (n := mkF _ _) in Hno.
    pose proof (place_bounds n (ly_size ly) (ly_align ly) Hp2) as (_ & _ & Hb).
    unfold CHUNK_SIZE in Hb. rewrite Z.max_r in Hb by lia. unfold fits in Hno.
    subst n. cbn [f_addr f_size] in *. apply andb_false_iff in Hno as [?%Z.leb_gt|?%Z.leb_gt]; lia. }
  rewrite (M_bind_Ret _ _ _ (p, z') w') by (unfold lift; by rewrite Ez).
  exists p, (zs ++ [z']), w'. split; [done|split; [done|]].
  destruct (util_alloc_some _ _ _ _ E) as (_ & _ & _ & _ & _ & Hfr & ->).
  eapply (heap_inv_alloc _ zs z z' []); try done. by apply heap_inv_extend.
Qed.

(** A program using the heap: it allocates, and frees blocks it holds. *)
Inductive heap_op :=
  | HAlloc (ly : Layout)
  | HFree (i : nat).

Definition heap_exec (op : heap_op) (st : LinkedListAllocator * list block)
    : M W (LinkedListAllocator * list block) :=
  let '(zs, live) := st in
  match op with
  | HAlloc ly =>
      '(p, zs) ← allocator_alloc zs ly;
      mret (zs, if p =? 0 then live else (p, ly) :: live)
  | HFree i =>
      match live !! i with
      | None => mret (zs, live)
      | Some b =>
          zs ← lift (allocator_dealloc zs b.1 b.2);
          mret (zs, take i live ++ drop (S i) live)
      end
  end.

Fixpoint heap_run (ops : list heap_op) (st : LinkedListAllocator * list block)
    : M W (LinkedListAllocator * list block) :=
  match ops with
  | [] => mret st
  | op :: ops => st ← heap_exec op st; heap_run ops st
  end.

Definition heap_op_ok (op : heap_op) : Prop :=
  match op with HAlloc ly => small_layout ly | HFree _ => True end.

Lemma heap_exec_ok op zs live w :
  heap_inv (pages w) zs live → heap_op_ok op →
  wp (heap_exec op (zs, live)) w (λ st w', heap_inv (pages w') st.1 st.2).
Proof.
  intros Hinv Hop. destruct op as [ly|i]; simpl.
  - apply wp_bind.
    destruct (allocator_alloc_ok _ _ _ ly w Hinv eq_refl Hop)
      as [(s & w' & E & E1 & _)|(p & zs' & w' & E1 & Hp & H)]; (eexists _, _; split; [exact E1|]);
      apply wp_ret; simpl.
    + by rewrite (util_alloc_none _ _ _ E).
    + by rewrite (proj2 (Z.eqb_neq _ _)) by lia.
  - destruct (live !! i) as [b|] eqn:Hb; [|by apply wp_ret].
    rewrite (take_mid_drop _ _ _ Hb) in Hinv.
    destruct (allocator_dealloc_ok _ _ _ _ _ Hinv) as (zs' & E & H).
    apply wp_bind. eapply wp_lift; [exact E|]. by apply wp_ret.
Qed.


(** The first zone [LinkedListAllocator::new] makes satisfies the invariant of
    the heap, or the pages were refused and the code panics as it says. *)
Theorem allocator_new_inv w :
  (∃ s w', util_alloc s w = (None, w') ∧ allocator_new w = Panic) ∨
  (∃ zs w', allocator_new w = Ret (zs, w') ∧ heap_inv (pages w') zs []).
Proof.
  unfold allocator_new.
  destruct (zone_new_ok INITIAL_HEAP_SIZE w) as [(s & w' & Hz & E)|(a & s & w' & E & Hal & Hz & Hw)];
    [done|done| |].
  { left. exists s, w'. split; [done|]. by rewrite (M_bind_Ret _ _ _ None w'). }
  right. rewrite (M_bind_Ret _ _ _ _ w' Hz). eexists _, w'. split; [done|].
  destruct (util_alloc_some _ _ _ _ E) as (_ & _ & _ & _ & _ & Hfr & ->).
  constructor; try constructor; try constructor; by apply Hw.
Qed.

(** [alloc] returns null only when the free lists cannot serve the layout and
    the pages for a new zone are refused: in the zone it has just made, "shouldn't
    fail now" holds. *)
Theorem alloc_null zs live ly w zs' w' :
  heap_inv (pages w) zs live → small_layout ly →
  allocator_alloc zs ly w = Ret (0, zs', w') →
  zs' = zs ∧ zones_alloc zs ly = Ret None ∧ ∃ s, util_alloc s w = (None, w').
Proof.
  intros Hinv Hly E.
  destruct (allocator_alloc_ok _ _ _ ly w Hinv eq_refl Hly)
    as [(s & w1 & Eu & E1 & Hz)|(p & zs1 & w1 & E1 & Hp & _)]; rewrite E in E1; simplify_eq; [|lia].
  split; [done|split; [done|by exists s]].
Qed.
End client.

(** A zone of one page, and blocks of 32 bytes. *)
Definition demo_zone : HeapZone := mkZone (mkAllocation 4096 4096 0) 4000 [mkF 4192 4000].

Lemma demo_zone_wf : zone_wf demo_zone.
Proof.
  constructor; unfold zone_lo, zone_hi, z_addr, demo_zone, INITIAL_CHUNK_SIZE, PAGE_SIZE; simpl;
    split_and?; try lia; by (eapply Z.mod_divide; done).
Qed.

(** A layout whose size is not a multiple of an alignment above the chunk size
    breaks the heap: [dealloc] rounds the size up to the alignment, [alloc] does
    not.  Here a 32-byte block aligned to 64 sits just below a 32-byte block in
    use; freeing the first puts the second on the free list too, and the same
    address [p] is handed out twice. *)
Theorem overaligned_dealloc {B : Build} :
  let small := mkLayout 32 8 in
  let big := mkLayout 32 64 in
  zone_wf demo_zone ∧ small_layout small ∧ layout_ok big ∧
  ∃ z1 z2 z3 z4 p q,
    zone_alloc demo_zone small = Ret (p, z1) ∧ zone_alloc z1 big = Ret (q, z2) ∧
    zone_dealloc z2 q big = Ret z3 ∧ zone_alloc z3 small = Ret (p, z4) ∧ p ≠ 0.
Proof.
  intros small big. split; [apply demo_zone_wf|].
  split; [repeat split; simpl; try lia; [by exists 3|done]|].
  split; [repeat split; simpl; try lia; by exists 6|].
  eexists _, _, _, _, 8160, 8128.
  split; [by destruct B|]. split; [by destruct B|]. split; [by destruct B|].
  split; [by destruct B|done].
Qed.

(** ** Witnesses: a source that hands out pages upwards from 4096 *)

Definition bump_next (l : list Allocation) : Z :=
  foldr (λ a n, Z.max (a_ptr a + a_len a) n) 4096 l.

Definition whole_pages (n : Z) : Z := (n + 4095) / 4096 * 4096.

#[export] Instance Bump : UtilCalls (list Allocation) := {
  util_alloc size l :=
    let p := whole_pages (bump_next l) in
    let n := whole_pages (Z.max 1 size) in
    if p + n + 4096 <=? U64 then (Some (mkAllocation p n 0), mkAllocation p n 0 :: l)
    else (None, l);
  util_dealloc _ l := l;
}.

Lemma whole_pages_spec n : n <= whole_pages n ∧ (PAGE_SIZE | whole_pages n).
Proof.
  unfold whole_pages, PAGE_SIZE. pose proof (Z.div_mod (n + 4095) 4096 ltac:(lia)).
  pose proof (Z.mod_pos_bound (n + 4095) 4096 ltac:(lia)).
  split; [lia|]. by exists ((n + 4095) / 4096).
Qed.

Lemma bump_next_ge l : 4096 <= bump_next l ∧ Forall (λ a, a_ptr a + a_len a <= bump_next l) l.
Proof.
  induction l as [|a l [H1 H2]]; simpl; [split; [lia|constructor]|].
  split; [lia|]. constructor; [lia|]. eapply Forall_impl; [exact H2|]. simpl. lia.
Qed.

#[export] Program Instance BumpPages : PageSource (list Allocation) := {| pages l := l |}.
Next Obligation.
  intros size l a w' H. simpl in H. destruct (Z.leb_spec (whole_pages (bump_next l) + whole_pages (Z.max 1 size) + 4096) U64) as [Hle|]; simplify_eq/=.
  destruct (whole_pages_spec (bump_next l)) as [H1 H2], (whole_pages_spec (Z.max 1 size)) as [H3 H4].
  destruct (bump_next_ge l) as [H5 H6]. unfold PAGE_SIZE. split_and!; try done; try lia.
  eapply Forall_impl; [exact H6|]. unfold alloc_apart. simpl. lia.
Qed.
Next Obligation. intros size l w' H. simpl in H. by case_match; simplify_eq. Qed.

(** What [allocator_new] makes from this source. *)
Definition demo_zones : list HeapZone :=
  [mkZone (mkAllocation 4096 32768 0) 32672 [mkF 4192 32672]].
Definition demo_pages : list Allocation := [mkAllocation 4096 32768 0].

Lemma demo_new : allocator_new (B:=dev) [] = Ret (demo_zones, demo_pages).
Proof. by vm_compute. Qed.

Lemma demo_inv : heap_inv (pages demo_pages) demo_zones [].
Proof.
  constructor; try by repeat constructor. apply Forall_singleton.
  constructor; unfold zone_lo, zone_hi, z_addr, INITIAL_CHUNK_SIZE, PAGE_SIZE; simpl;
    split_and?; try lia; by (eapply Z.mod_divide; done).
Qed.

Lemma small_demo : small_layout (mkLayout 40 8).
Proof. repeat split; simpl; try lia; [by exists 3|done]. Qed.


Lemma alloc_null_witness :
  let ly := mkLayout (2 ^ 62 - 1) 8 in
  let w := mkAllocation 4096 (U64 - 8192) 0 :: demo_pages in
  demo_zones = demo_zones ∧ zones_alloc (B:=dev) demo_zones ly = Ret None ∧
  ∃ s, util_alloc (W:=list Allocation) s w = (None, w).
Proof.
  refine (alloc_null (B:=dev) (W:=list Allocation) demo_zones [] (mkLayout (2 ^ 62 - 1) 8)
    (mkAllocation 4096 (U64 - 8192) 0 :: demo_pages) demo_zones _ _ _ _).
  - destruct demo_inv as [H1 H2 H3 H4 H5 H6 H7]. constructor; try done.
    eapply Forall_impl; [exact H2|]. intros m Hm. by right.
  - repeat split; simpl; try lia; [by exists 3|done].
  - by vm_compute.
Defined.

Lemma dealloc_alloc_witness :
  zone_dealloc (B:=dev) (mkZone (mkAllocation 4096 4096 0) 3936 [mkF 4192 3936]) 8128 (mkLayout 40 8)
  = Ret demo_zone.
Proof.
  apply (dealloc_alloc (B:=dev) demo_zone (mkLayout 40 8) 8128); [exact demo_zone_wf|apply small_demo|done|by vm_compute|done].
Defined.
