(* ===== verification/Sys.v ===== *)
(** * System-wide types: error codes, option words, privilege levels and ids

    [sys_consts/src/lib.rs], [sys_consts/src/options.rs],
    [kernel/src/mem/error.rs], [kernel/src/util/error.rs],
    [kernel/src/upriv.rs], [kernel/src/id.rs]. *)

From Stdlib Require Import String.
From S2P Require Import Prelude.

(** ** [SysErr] *)

Inductive SysErr :=
  | Ok | OkUnreach | OkTimeout | OutOfMem | InvlId | InvlPerm | InvlWeak | InvlArgs
  | InvlOp | InvlMemZone | InvlVirtAddr | InvlAlign | InvlPtr | Obscured | Unknown.

#[export] Instance SysErr_eq_dec : EqDecision SysErr.
Proof. solve_decision. Defined.

Definition num (e : SysErr) : Z :=
  match e with
  | Ok => 0 | OkUnreach => 1 | OkTimeout => 2 | OutOfMem => 3 | InvlId => 4
  | InvlPerm => 5 | InvlWeak => 6 | InvlArgs => 7 | InvlOp => 8 | InvlMemZone => 9
  | InvlVirtAddr => 10 | InvlAlign => 11 | InvlPtr => 12 | Obscured => 13 | Unknown => 14
  end.

Definition all_errs : list SysErr :=
  [Ok; OkUnreach; OkTimeout; OutOfMem; InvlId; InvlPerm; InvlWeak; InvlArgs; InvlOp;
   InvlMemZone; InvlVirtAddr; InvlAlign; InvlPtr; Obscured; Unknown].

(** [transmute] of a word to the enumeration: the variant with that
    discriminant, undefined when there is none. *)
Definition transmute_err (n : Z) : res SysErr :=
  match List.find (λ e, num e =? n) all_errs with Some e => Ret e | None => UB end.

Definition SysErr_new (n : Z) : res (option SysErr) :=
  if num Unknown <? n then Ret None else e ← transmute_err n; Ret (Some e).

Local Open Scope string_scope.
Definition err_as_str (e : SysErr) : string :=
  match e with
  | Ok => "no error"
  | OkUnreach => "no waiting thread to act upon"
  | OkTimeout => "operation timed out"
  | OutOfMem => "out of memory"
  | InvlId => "invalid identifier"
  | InvlPerm => "invalid capability permissions"
  | InvlWeak => "weak capability referenced dead object"
  | InvlArgs => "invalid arguments"
  | InvlOp => "invalid operation"
  | InvlMemZone => "invalid memory zone or memory zone collision"
  | InvlVirtAddr => "non canonical address"
  | InvlAlign => "invalid alignment"
  | InvlPtr => "invalid pointer"
  | Obscured => "operation does not return information about error state"
  | Unknown => "unknown error"
  end.
Local Close Scope string_scope.

(** ** Errors of the memory subsystem *)

Inductive MemErr :=
  | MemOutOfMem (msg : string)
  | MemInvlVirtMem (msg : string)
  | MemInvlPtr (msg : string)
  | MemInvlArgs (msg : string)
  | MemInvlMemType (msg : string).

Definition memerr_as_str (e : MemErr) : string :=
  match e with
  | MemOutOfMem msg | MemInvlVirtMem msg | MemInvlPtr msg | MemInvlArgs msg
  | MemInvlMemType msg => msg
  end.

Definition SysErr_from_MemErr (e : MemErr) : SysErr :=
  match e with
  | MemOutOfMem _ => OutOfMem
  | MemInvlVirtMem _ => InvlMemZone
  | MemInvlPtr _ => InvlPtr
  | MemInvlArgs _ => InvlArgs
  | MemInvlMemType _ => InvlArgs
  end.

(** The static-string error, and the [Error] trait of the three. *)
Record Err := mkErr { msg : string }.
Class Error (E : Type) := get_error : E → string.
#[export] Instance Err_Error : Error Err := msg.
#[export] Instance SysErr_Error : Error SysErr := err_as_str.
#[export] Instance MemErr_Error : Error MemErr := memerr_as_str.
Definition Err_from_MemErr (e : MemErr) : Err := mkErr (memerr_as_str e).

(** ** Option words: sets of bits; [from_bits_truncate] drops the unknown ones *)

Definition flags_all (fs : list Z) : Z := foldr Z.lor 0 fs.
Definition from_bits_truncate (fs : list Z) (bits : Z) : Z := Z.land bits (flags_all fs).
Definition flag_contains (bits flag : Z) : bool := Z.land bits flag =? flag.
Definition flag_intersects (bits flag : Z) : bool := negb (Z.land bits flag =? 0).

Definition FutexOptions : list Z := [1; 2].
Definition ReallocOptions : list Z := [1; 2; 4; 16].
Definition SallocOptions : list Z := [1; 2; 4].
Definition RegOptions : list Z := [1; 2; 4; 8; 16; 32].
Definition ConnectOptions : list Z := [1].
Definition MsgOptions : list Z :=
  [1; 2; 4; Z.shiftl 1 8; Z.shiftl 1 9; Z.shiftl 1 10; Z.shiftl 1 11; Z.shiftl 1 12;
   Z.shiftl 1 13; Z.shiftl 1 14; Z.shiftl 1 15].

(** ** Privilege levels *)

Inductive CPUPrivLevel := Ring0 | Ring3.

Definition cpl_n (c : CPUPrivLevel) : Z := match c with Ring0 => 0 | Ring3 => 3 end.
Definition get_cs (c : CPUPrivLevel) : Z := match c with Ring0 => 0x8 | Ring3 => 0x23 end.
Definition get_ds (c : CPUPrivLevel) : Z := match c with Ring0 => 0x10 | Ring3 => 0x1b end.
Definition is_ring0 (c : CPUPrivLevel) : bool := match c with Ring0 => true | Ring3 => false end.
Definition is_ring3 (c : CPUPrivLevel) : bool := match c with Ring0 => false | Ring3 => true end.

Inductive PrivLevel := PKernel | PSuperUser | PIOPriv | PUser (uid : Z).

Definition KERNEL_UID : Z := 0.
Definition SUPERUSER_UID : Z := 1.
Definition IOPRIV_UID : Z := 2.

Definition PrivLevel_new (uid : Z) : PrivLevel :=
  if uid =? KERNEL_UID then PKernel
  else if uid =? SUPERUSER_UID then PSuperUser
  else if uid =? IOPRIV_UID then PIOPriv
  else PUser uid.

Definition PrivLevel_uid (p : PrivLevel) : Z :=
  match p with
  | PKernel => KERNEL_UID
  | PSuperUser => SUPERUSER_UID
  | PIOPriv => IOPRIV_UID
  | PUser uid => uid
  end.

Definition as_cpu_priv (p : PrivLevel) : CPUPrivLevel :=
  match p with PKernel => Ring0 | _ => Ring3 end.

(** ** Facts *)

Lemma num_range e : 0 <= num e <= num Unknown.
Proof. destruct e; simpl; lia. Qed.

Lemma SysErr_new_num e : SysErr_new (num e) = Ret (Some e).
Proof. by destruct e. Qed.

(** The check in [SysErr::new] makes its [transmute] safe: on every word the
    call returns, with [Some e] exactly for the number of [e], so no error code
    is confused with another and no other word is accepted. *)
Theorem SysErr_new_spec n :
  is_usize n →
  ∃ o, SysErr_new n = Ret o ∧ ∀ e, o = Some e ↔ n = num e.
Proof.
  intros [H0 _]. destruct (Z.le_gt_cases n (num Unknown)) as [Hle|Hgt].
  - assert (∃ e, n = num e) as [e ->].
    { simpl in Hle. exists (nth (Z.to_nat n) all_errs Ok).
      assert (n = Z.of_nat (Z.to_nat n)) as E by lia. revert E.
      generalize (Z.to_nat n). intros k ->.
      do 15 (destruct k as [|k]; [done|]). lia. }
    exists (Some e). split; [apply SysErr_new_num|]. intros e'. split; [by intros [= ->]|].
    intros E. assert (SysErr_new (num e) = SysErr_new (num e')) as E' by by rewrite E.
    rewrite !SysErr_new_num in E'. congruence.
  - exists None. unfold SysErr_new. rewrite (proj2 (Z.ltb_lt _ _)) by lia. split; [done|].
    intros e. split; [done|]. intros ->. pose proof (num_range e). lia.
Qed.

Lemma SysErr_new_spec_witness : ∃ o, SysErr_new 12 = Ret o ∧ ∀ e, o = Some e ↔ 12 = num e.
Proof. apply (SysErr_new_spec 12). split; lia. Defined.

(** A uid names one level, and only the kernel's own uid runs in ring 0. *)
Lemma PrivLevel_uid_new uid : PrivLevel_uid (PrivLevel_new uid) = uid.
Proof.
  unfold PrivLevel_new, KERNEL_UID, SUPERUSER_UID, IOPRIV_UID.
  destruct (Z.eqb_spec uid 0) as [->|]; [done|].
  destruct (Z.eqb_spec uid 1) as [->|]; [done|].
  by destruct (Z.eqb_spec uid 2) as [->|].
Qed.

Lemma ring0_kernel uid : as_cpu_priv (PrivLevel_new uid) = Ring0 ↔ uid = KERNEL_UID.
Proof.
  unfold PrivLevel_new. destruct (Z.eqb_spec uid KERNEL_UID) as [->|Hn]; [done|].
  split; [|done]. destruct (uid =? SUPERUSER_UID); [done|]. by destruct (uid =? IOPRIV_UID).
Qed.
