(* ===== verification/Ranges.v ===== *)
(** * Addresses, frames and ranges: [kernel/src/mem/mod.rs]

    The macro [impl_addr_range!] makes the same code for physical and virtual
    addresses; the file follows it once, over the operations of an address type.
    The address types come from the [x86_64] crate: the class [AddrOps] holds the
    operations used and [AddrLaws] what its documentation says of them: an
    operation whose result is a valid ("canonical") address returns it.

    [verify_umem] and [UserPageArray] are from [kernel/src/syscall/udata.rs]. *)

From S2P Require Import Prelude Misc Sys.

(** ** The address types *)

Class AddrOps := {
  a_new : Z → res Z;
  a_try_new : Z → option Z;
  a_down : Z → Z → res Z;
  a_up : Z → Z → res Z;
  a_add : Z → Z → res Z;
  a_sub : Z → Z → res Z;
  a_sub_n : Z → Z → res Z;
}.

Class AddrLaws {A : AddrOps} := {
  canon : Z → Prop;
  canon_usize a : canon a → is_usize a;
  canon_low a : 0 <= a < 2 ^ 47 → canon a;
  a_new_ok a : canon a → a_new a = Ret a;
  a_try_new_ok a : canon a → a_try_new a = Some a;
  a_try_new_canon a b : a_try_new a = Some b → canon b;
  a_down_ok a m : canon a → pow2 m → m <= 2 ^ 30 → a_down a m = Ret (a - a mod m);
  a_up_ok a m : canon a → pow2 m → m <= 2 ^ 30 → canon (a + (- a) mod m) →
    a_up a m = Ret (a + (- a) mod m);
  a_add_ok a n : canon a → 0 <= n → canon (a + n) → a_add a n = Ret (a + n);
  a_sub_ok a b : canon a → canon b → b <= a → a_sub a b = Ret (a - b);
  a_sub_n_ok a n : canon a → 0 <= n → canon (a - n) → a_sub_n a n = Ret (a - n);
}.

(** ** Page sizes *)

Inductive PageSize := K4 | M2 | G1.

#[export] Instance PageSize_eq_dec : EqDecision PageSize.
Proof. solve_decision. Defined.

Definition psize (s : PageSize) : Z :=
  match s with K4 => 0x1000 | M2 => 0x200000 | G1 => 0x40000000 end.

(** The derived order of the variants. *)
Definition ps_ltb (s t : PageSize) : bool := psize s <? psize t.
Definition ps_min (s t : PageSize) : PageSize := if ps_ltb t s then t else s.

Definition align_down_to_page_size (n : Z) : Z :=
  if psize G1 <=? n then psize G1
  else if psize M2 <=? n then psize M2
  else if psize K4 <=? n then psize K4
  else 0.

Definition try_from_usize (n : Z) : option PageSize :=
  if n =? 0x1000 then Some K4
  else if n =? 0x200000 then Some M2
  else if n =? 0x40000000 then Some G1
  else None.

Definition from_usize (n : Z) : res PageSize := unwrap (try_from_usize n).
Definition from_u64 (n : Z) : res PageSize := from_usize n.

(** ** Frames *)

Inductive frame := FK4 (a : Z) | FM2 (a : Z) | FG1 (a : Z).

Section ranges.
Context {B : Build} {A : AddrOps}.

Definition frame_new (a : Z) (size : PageSize) : res frame :=
  match size with
  | K4 => a ← a_down a (psize size); Ret (FK4 a)
  | M2 => a ← a_down a (psize size); Ret (FM2 a)
  | G1 => a ← a_down a (psize size); Ret (FG1 a)
  end.

Definition start_addr (f : frame) : Z :=
  match f with FK4 a => a | FM2 a => a | FG1 a => a end.

Definition frame_end_addr (f : frame) : res Z :=
  match f with
  | FK4 a => a_add a (psize K4)
  | FM2 a => a_add a (psize M2)
  | FG1 a => a_add a (psize G1)
  end.

Definition get_size (f : frame) : PageSize :=
  match f with FK4 _ => K4 | FM2 _ => M2 | FG1 _ => G1 end.

(** ** Ranges *)

Record range := mkRange { r_addr : Z; r_size : Z }.

#[export] Instance range_eq_dec : EqDecision range.
Proof. solve_decision. Defined.

(** The derived order: the address first. *)
Definition range_ltb (r s : range) : bool :=
  (r_addr r <? r_addr s) || ((r_addr r =? r_addr s) && (r_size r <? r_size s)).

Definition range_new (a size : Z) : res range :=
  a ← a_down a (psize K4); size ← align_up size (psize K4); Ret (mkRange a size).

Definition verify_uaddr (KERNEL_VMA addr : Z) : bool := addr <? KERNEL_VMA.

Definition verify_umem (KERNEL_VMA addr size : Z) : res bool :=
  e ← uadd addr size; e ← usub e 1; Ret (verify_uaddr KERNEL_VMA e).

Definition range_verify_umem (KERNEL_VMA : Z) (r : range) : res bool :=
  verify_umem KERNEL_VMA (r_addr r) (r_size r).

Definition try_new_usize (addr size : Z) : SysErr + range :=
  match a_try_new addr with
  | None => inl InvlVirtAddr
  | Some vaddr =>
      if (align_of addr <? PAGE_SIZE) || (align_of size <? PAGE_SIZE) then inl InvlPtr
      else inr (mkRange vaddr size)
  end.

Definition try_new_user (KERNEL_VMA addr size : Z) : res (SysErr + range) :=
  match try_new_usize addr size with
  | inl e => Ret (inl e)
  | inr out =>
      ok ← range_verify_umem KERNEL_VMA out;
      Ret (if negb ok then inl InvlPtr else inr out)
  end.

Definition new_aligned (a size : Z) : res range :=
  e ← a_add a size;
  addr2 ← a_up e (psize K4);
  base ← a_down a (psize K4);
  d ← a_sub addr2 a;
  s ← align_up d (psize K4);
  Ret (mkRange base s).

Definition new_unaligned (a size : Z) : range := mkRange a size.
Definition null : res range := a ← a_new 0; Ret (mkRange a 0).
Definition aligned (r : range) : res range := new_aligned (r_addr r) (r_size r).

Definition end_addr (r : range) : res Z := a_add (r_addr r) (r_size r).
Definition as_usize (r : range) : Z := r_addr r.
Definition end_usize (r : range) : res Z := uadd (as_usize r) (r_size r).

Definition is_aligned (r : range) : res bool :=
  if PAGE_SIZE <=? align_of (as_usize r)
  then e ← end_usize r; Ret (PAGE_SIZE <=? align_of e)
  else Ret false.

Definition contains (r : range) (a : Z) : res bool :=
  if r_addr r <=? a then e ← a_add (r_addr r) (r_size r); Ret (a <? e) else Ret false.

Definition contains_range (r s : range) : res bool :=
  b ← contains r (r_addr s);
  match b with
  | true => Ret true
  | false => e ← a_add (r_addr s) (r_size s); contains r e
  end.

Definition full_contains_range (r s : range) : res bool :=
  b ← contains r (r_addr s);
  match b with
  | false => Ret false
  | true => e ← a_add (r_addr s) (r_size s); contains r e
  end.

Definition range_merge (r s : range) : res (option range) :=
  re ← end_addr r;
  if re =? r_addr s then
    n ← uadd (r_size r) (r_size s); Ret (Some (new_unaligned (r_addr r) n))
  else
    se ← end_addr s;
    if se =? r_addr r then
      n ← uadd (r_size r) (r_size s); Ret (Some (new_unaligned (r_addr s) n))
    else Ret None.

Definition split_at (r s : range) : res (option range * option range) :=
  let sbegin := r_addr r in
  send ← a_add (r_addr r) (r_size r);
  let begin := r_addr s in
  end_ ← a_add begin (r_size s);
  meet ← contains_range r s;
  let left := d ← a_sub begin sbegin; Ret (Some (new_unaligned sbegin d)) in
  let right := d ← a_sub send end_; Ret (Some (new_unaligned end_ d)) in
  if negb meet then Ret (Some r, None)
  else if (begin <=? sbegin) && (send <=? end_) then Ret (None, None)
  else
    b1 ← a_sub_n begin 1;
    cl ← contains r b1;
    e1 ← a_add end_ 1;
    cr ← contains r e1;
    match cl, cr with
    | true, false => l ← left; Ret (l, None)
    | false, true => h ← right; Ret (h, None)
    | _, _ => l ← left; h ← right; Ret (l, h)
    end.

Definition get_take_size (r : range) : option PageSize :=
  try_from_usize
    (Z.min (align_down_to_page_size (r_size r)) (align_down_to_page_size (align_of (r_addr r)))).

(** Returns the frame taken and the range left. *)
Definition take_frame (r : range) (size : PageSize) : res (option frame * range) :=
  match get_take_size r with
  | None => Ret (None, r)
  | Some take_size =>
      if ps_ltb take_size size then Ret (None, r)
      else
        let n := psize size in
        let a := r_addr r in
        a' ← a_add a n;
        s' ← usub (r_size r) n;
        ps ← from_usize n;
        f ← frame_new a ps;
        Ret (Some f, mkRange a' s')
  end.

(** The iterator over a range's frames. *)
Record range_iter := mkRangeIter { ri_start : Z; ri_end : Z }.

Definition range_iterate (r : range) : res range_iter :=
  e ← a_add (r_addr r) (r_size r); Ret (mkRangeIter (r_addr r) e).

Definition range_iter_next (it : range_iter) : res (option frame * range_iter) :=
  if ri_end it <=? ri_start it then Ret (None, it)
  else
    d ← a_sub (ri_end it) (ri_start it);
    s ← ushl 1 (log2 d);
    let size := align_down_to_page_size (Z.min (align_of (ri_start it)) s) in
    start ← a_add (ri_start it) size;
    ps ← from_u64 size;
    f ← frame_new start ps;
    Ret (Some f, mkRangeIter start (ri_end it)).

(** ** Arrays of pages passed by user code *)

Record UserPageArray := mkUPA { upa_addr : Z; upa_len : Z }.
Definition upa_byte_len (u : UserPageArray) : res Z := umul (upa_len u) PAGE_SIZE.
Definition upa_verify (KERNEL_VMA : Z) (u : UserPageArray) : res bool :=
  if PAGE_SIZE <=? align_of (upa_addr u)
  then n ← umul (upa_len u) PAGE_SIZE; verify_umem KERNEL_VMA (upa_addr u) n
  else Ret false.
Definition upa_as_virt_zone (KERNEL_VMA : Z) (u : UserPageArray) : res (SysErr + range) :=
  n ← umul (upa_len u) PAGE_SIZE; try_new_user KERNEL_VMA (upa_addr u) n.
End ranges.

(** ** Properties *)

Definition in_range (r : range) (x : Z) : Prop := r_addr r <= x < r_addr r + r_size r.
Definition in_opt (o : option range) (x : Z) : Prop :=
  match o with Some r => in_range r x | None => False end.

(** Page aligned, not empty, and away from the top of the low half. *)
Definition page_range (r : range) : Prop :=
  (PAGE_SIZE | r_addr r) ∧ (PAGE_SIZE | r_size r) ∧ 0 <= r_addr r ∧ 0 < r_size r ∧
  r_addr r + r_size r + PAGE_SIZE <= 2 ^ 47.

Lemma pow2_psize s : pow2 (psize s).
Proof. destruct s; [by exists 12|by exists 21|by exists 30]. Qed.

Lemma psize_bounds s : PAGE_SIZE <= psize s <= 2 ^ 30.
Proof. destruct s; unfold PAGE_SIZE; simpl; lia. Qed.

Lemma try_from_psize s : try_from_usize (psize s) = Some s.
Proof. by destruct s. Qed.

Lemma align_down_page n : PAGE_SIZE <= n →
  ∃ s, align_down_to_page_size n = psize s ∧ psize s <= n.
Proof.
  unfold align_down_to_page_size, PAGE_SIZE. intros H.
  destruct (Z.leb_spec (psize G1) n); [by exists G1|].
  destruct (Z.leb_spec (psize M2) n); [by exists M2|].
  destruct (Z.leb_spec (psize K4) n); [by exists K4|]. simpl in *. lia.
Qed.

Lemma get_take_size_spec r : page_range r →
  ∃ s, get_take_size r = Some s ∧ psize s <= r_size r ∧ (psize s | r_addr r).
Proof.
  intros (Ha & Hs & H0 & H1 & H2). unfold get_take_size, PAGE_SIZE in *.
  assert (is_usize (r_addr r)) as Hu by (unfold is_usize; lia).
  destruct (align_down_page (r_size r)) as (s & -> & Hs').
  { unfold PAGE_SIZE. pose proof (divide_gap 4096 0 (r_size r) eq_refl). destruct Hs. lia. }
  destruct (align_down_page (align_of (r_addr r))) as (t & -> & Ht).
  { apply align_of_greatest; [done|by exists 12|unfold PAGE_SIZE; lia|done]. }
  pose proof (align_of_lower (r_addr r) (psize t) Hu (pow2_psize t) Ht) as Hd.
  destruct (Z.min_spec (psize s) (psize t)) as [[Hlt ->]|[Hle ->]];
    rewrite try_from_psize; [exists s|exists t]; (split; [done|split; [lia|]]); [|done].
  etransitivity; [|exact Hd]. apply pow2_le_divide; auto using pow2_psize. lia.
Qed.

Lemma get_take_size_empty a : get_take_size (mkRange a 0) = None.
Proof.
  unfold get_take_size. cbn [r_size r_addr].
  assert (∀ y, 0 <= y → Z.min (align_down_to_page_size 0) y = 0) as Hmin
    by (intros; unfold align_down_to_page_size; simpl; lia).
  rewrite Hmin; [done|]. unfold align_down_to_page_size. simpl. zb.
Qed.

(** What is left of a range after a frame, if anything is. *)
Lemma page_range_rest r s :
  page_range r → psize s <= r_size r →
  r_size r = psize s ∨ page_range (mkRange (r_addr r + psize s) (r_size r - psize s)).
Proof.
  intros (Ha & Hs & H0 & H1 & H2) Hle. destruct (Z.eq_dec (r_size r) (psize s)); [by left|right].
  assert (PAGE_SIZE | psize s) by (destruct s; by (eapply Z.mod_divide; done)).
  pose proof (psize_bounds s). unfold page_range, PAGE_SIZE in *. split_and!; simpl; try lia.
  - by apply Z.divide_add_r.
  - by apply Z.divide_sub_r.
Qed.

Section facts.
Context {B : Build} {A : AddrOps} {AL : AddrLaws}.

Lemma a_down_aligned a m : canon a → pow2 m → m <= 2 ^ 30 → (m | a) → a_down a m = Ret a.
Proof.
  intros Hc Hp Hm Hd. rewrite a_down_ok by done. f_equal.
  pose proof (pow2_pos _ Hp). apply divide_mod0 in Hd; lia.
Qed.

(** [a_low] proves the canonicity of an address in the low half. *)
Ltac a_low := apply canon_low; lia.

Lemma frame_new_ok a s :
  canon a → (psize s | a) →
  ∃ f, frame_new a s = Ret f ∧ start_addr f = a ∧ get_size f = s.
Proof.
  intros Hc Hd. unfold frame_new.
  destruct s; rewrite (a_down_aligned a) by first [done | apply pow2_psize | done | lia];
    by eexists.
Qed.

Lemma range_new_page a n :
  0 <= a < 2 ^ 47 → 0 <= n < 2 ^ 62 → (PAGE_SIZE | a) → (PAGE_SIZE | n) →
  range_new a n = Ret (mkRange a n).
Proof.
  intros H0 H2 H3 H4. unfold range_new, PAGE_SIZE in *.
  assert (canon a) as Hc by (apply canon_low; lia).
  rewrite (a_down_aligned a) by (done || (by exists 12) || (simpl; lia)).
  cbn [mbind res_bind]. rewrite align_up_eq by (simpl; lia || (by exists 12)). cbn [mbind res_bind].
  do 2 f_equal. simpl. apply divide_mod0 in H4; [|lia].
  replace (n + 4096 - 1) with (4095 + n) by lia.
  rewrite Z.add_mod, H4, Z.add_0_r by lia. change (4095 mod 4096 mod 4096) with 4095. lia.
Qed.

Lemma take_frame_le r t s :
  page_range r → get_take_size r = Some t → (psize t | r_addr r) → psize t <= r_size r →
  psize s <= psize t →
  ∃ f, take_frame r s = Ret (Some f, mkRange (r_addr r + psize s) (r_size r - psize s)) ∧
    start_addr f = r_addr r ∧ get_size f = s.
Proof.
  intros (Ha & Hs & H0 & H1 & H2) Hg Hd Ht Hle. unfold take_frame. rewrite Hg.
  unfold ps_ltb. rewrite (proj2 (Z.ltb_ge _ _)) by done. pose proof (psize_bounds s).
  unfold PAGE_SIZE in *.
  rewrite a_add_ok by (a_low || lia). u. unfold from_usize. rewrite try_from_psize. cbn [unwrap mbind res_bind].
  assert (psize s | r_addr r) as Hd'.
  { etransitivity; [|exact Hd]. apply pow2_le_divide; auto using pow2_psize. }
  destruct (frame_new_ok (r_addr r) s) as (f & -> & Hf1 & Hf2); [a_low|done|].
  by exists f.
Qed.

Lemma take_frame_ok r s :
  page_range r → get_take_size r = Some s → psize s <= r_size r → (psize s | r_addr r) →
  ∃ f, take_frame r s = Ret (Some f, mkRange (r_addr r + psize s) (r_size r - psize s)) ∧
    start_addr f = r_addr r ∧ get_size f = s.
Proof. intros. by apply (take_frame_le r s s). Qed.

(** Mapping code takes frames off a range until none is left. *)
Fixpoint take_all (fuel : nat) (r : range) : res (list frame) :=
  match fuel with
  | O => NoFuel
  | S fuel =>
      match get_take_size r with
      | None => Ret []
      | Some s =>
          t ← take_frame r s;
          match t with
          | (Some f, r) => fs ← take_all fuel r; Ret (f :: fs)
          | (None, _) => Panic
          end
      end
  end.

(** The frames [fs] follow one another from [a] to [e], each aligned to its size. *)
Fixpoint tiles (a : Z) (fs : list frame) (e : Z) : Prop :=
  match fs with
  | [] => a = e
  | f :: fs =>
      start_addr f = a ∧ (psize (get_size f) | a) ∧ tiles (a + psize (get_size f)) fs e
  end.

(** Taking frames off a page-aligned range, each as large as [get_take_size]
    allows, ends, never panics, and tiles the range exactly: the frames follow one
    another from the first byte to the last, each aligned to its own size. *)
Theorem take_all_tiles fuel r :
  page_range r → (Z.to_nat (r_size r / PAGE_SIZE) < fuel)%nat →
  ∃ fs, take_all fuel r = Ret fs ∧ tiles (r_addr r) fs (r_addr r + r_size r).
Proof.
  revert r. induction fuel as [|fuel IH]; intros r Hr Hf; [lia|]. cbn [take_all].
  destruct (get_take_size_spec r Hr) as (s & Hg & Hle & Hd). rewrite Hg.
  destruct (take_frame_ok r s Hr Hg Hle Hd) as (f & -> & Hf1 & Hf2). cbn [mbind res_bind].
  pose proof (psize_bounds s) as Hb. pose proof Hr as (Ha & Hs & H0 & H1 & H2).
  assert (PAGE_SIZE | psize s) as Hps by (destruct s; by (eapply Z.mod_divide; done)).
  destruct (Z.eq_dec (r_size r) (psize s)) as [E|Hne].
  - rewrite E, Z.sub_diag. unfold PAGE_SIZE in *. destruct fuel as [|fuel].
    { exfalso. pose proof (Z.div_le_mono 4096 (r_size r) 4096 ltac:(lia) ltac:(lia)).
      change (4096 / 4096) with 1 in *. lia. }
    cbn [take_all]. rewrite get_take_size_empty.
    cbn. exists [f]. split; [done|]. simpl. rewrite Hf1, Hf2. split_and!; done.
  - destruct (IH (mkRange (r_addr r + psize s) (r_size r - psize s))) as (fs & -> & Ht).
    + by destruct (page_range_rest r s Hr Hle).
    + simpl. unfold PAGE_SIZE in *.
      assert ((r_size r - psize s) / 4096 < r_size r / 4096).
      { apply Z.div_lt_upper_bound; [lia|]. pose proof (Z.div_mod (r_size r) 4096 ltac:(lia)).
        apply divide_mod0 in Hs; lia. }
      pose proof (Z.div_pos (r_size r - psize s) 4096 ltac:(lia) ltac:(lia)). lia.
    + exists (f :: fs). split; [done|]. simpl in *. rewrite Hf1, Hf2. split; [done|split; [done|]].
      by replace (r_addr r + r_size r)
        with (r_addr r + psize s + (r_size r - psize s)) by lia.
Qed.

(** *** Containment *)

Lemma contains_ok r x :
  0 <= r_addr r → 0 <= r_size r → r_addr r + r_size r < 2 ^ 47 →
  contains r x = Ret ((r_addr r <=? x) && (x <? r_addr r + r_size r)).
Proof.
  intros H0 H1 H2. unfold contains. destruct (Z.leb_spec (r_addr r) x); [|done].
  by rewrite a_add_ok by (a_low || lia).
Qed.

(** [full_contains_range] asks the address one past the end of the argument to
    be inside as well: it answers true for ranges that start inside and end
    strictly before the end, so no range fully contains itself. *)
Theorem full_contains_range_spec r s :
  page_range r → page_range s →
  ∃ b, full_contains_range r s = Ret b ∧
    (b = true ↔ r_addr r <= r_addr s ∧ r_addr s + r_size s < r_addr r + r_size r).
Proof.
  intros (_ & _ & H0 & H1 & H2) (_ & _ & G0 & G1 & G2). unfold full_contains_range, PAGE_SIZE in *.
  rewrite contains_ok by lia. cbn [mbind res_bind].
  destruct (Z.leb_spec (r_addr r) (r_addr s)); simpl; [|exists false; split; [done|lia]].
  destruct (Z.ltb_spec (r_addr s) (r_addr r + r_size r)); [|exists false; split; [done|lia]].
  rewrite a_add_ok by (a_low || lia). cbn [mbind res_bind]. rewrite contains_ok by lia.
  eexists. split; [done|]. rewrite andb_true_iff, Z.leb_le, Z.ltb_lt. lia.
Qed.

(** *** [split_at] *)

Lemma contains_range_ok r s :
  page_range r → page_range s →
  contains_range r s =
    Ret (((r_addr r <=? r_addr s) && (r_addr s <? r_addr r + r_size r)) ||
         ((r_addr r <=? r_addr s + r_size s) && (r_addr s + r_size s <? r_addr r + r_size r))).
Proof.
  intros (_ & _ & H0 & H1 & H2) (_ & _ & G0 & G1 & G2). unfold contains_range, PAGE_SIZE in *.
  rewrite contains_ok by lia. cbn [mbind res_bind].
  destruct ((r_addr r <=? r_addr s) && (r_addr s <? r_addr r + r_size r)); [done|].
  rewrite a_add_ok by (a_low || lia). cbn [mbind res_bind]. rewrite contains_ok by lia. done.
Qed.

(** [split_at] with the checks evaluated. *)
Lemma split_at_eq r s :
  page_range r → page_range s → 0 < r_addr s →
  let re := r_addr r + r_size r in
  let se := r_addr s + r_size s in
  split_at r s =
    Ret (if negb (((r_addr r <=? r_addr s) && (r_addr s <? re)) || ((r_addr r <=? se) && (se <? re)))
         then (Some r, None)
         else if (r_addr s <=? r_addr r) && (re <=? se) then (None, None)
         else
           let left := Some (mkRange (r_addr r) (r_addr s - r_addr r)) in
           let right := Some (mkRange se (re - se)) in
           match (r_addr r <? r_addr s), (se + 1 <? re) with
           | true, false => (left, None)
           | false, true => (right, None)
           | _, _ => (left, right)
           end).
Proof.
  intros Hr Hs Hpos re se. unfold split_at. rewrite contains_range_ok by done. fold re se.
  pose proof Hr as (R1 & R2 & H0 & H1 & H2). pose proof Hs as (S1 & S2 & G0 & G1 & G2).
  unfold PAGE_SIZE in *. subst re se.
  rewrite !a_add_ok by (a_low || lia). cbn [mbind res_bind].
  destruct (negb _) eqn:Hm; [done|].
  destruct ((r_addr s <=? r_addr r) && _) eqn:Hc; [done|].
  rewrite a_sub_n_ok by (a_low || lia). cbn [mbind res_bind]. rewrite contains_ok by lia.
  rewrite a_add_ok by (a_low || lia). cbn [mbind res_bind]. rewrite contains_ok by lia.
  cbn [mbind res_bind].
  assert (∃ a, r_addr r = 4096 * a ∧ ∃ b, r_size r = 4096 * b ∧ ∃ c, r_addr s = 4096 * c ∧
    ∃ d, r_size s = 4096 * d) as (a & Ea & b & Eb & c & Ec & d & Ed).
  { destruct R1 as [a ->], R2 as [b ->], S1 as [c ->], S2 as [d ->].
    exists a; split; [lia|]. exists b; split; [lia|]. exists c; split; [lia|]. exists d. lia. }
  revert Hm Hc.
  destruct (Z.leb_spec (r_addr r) (r_addr s)), (Z.ltb_spec (r_addr s) (r_addr r + r_size r)),
    (Z.leb_spec (r_addr r) (r_addr s + r_size s)),
    (Z.ltb_spec (r_addr s + r_size s) (r_addr r + r_size r)),
    (Z.leb_spec (r_addr s) (r_addr r)), (Z.leb_spec (r_addr r + r_size r) (r_addr s + r_size s)),
    (Z.ltb_spec (r_addr r) (r_addr s)), (Z.leb_spec (r_addr r) (r_addr s - 1)),
    (Z.ltb_spec (r_addr s - 1) (r_addr r + r_size r)),
    (Z.leb_spec (r_addr r) (r_addr s + r_size s + 1)),
    (Z.ltb_spec (r_addr s + r_size s + 1) (r_addr r + r_size r));
    simpl; intros; try discriminate; try lia;
    rewrite ?a_sub_ok by (a_low || lia); reflexivity.
Qed.

(** The pieces [split_at] leaves are page ranges again, and start where [r] does or
    where [s] ends. *)
Definition piece_of (r s : range) (o : option range) : Prop :=
  match o with
  | Some p => page_range p ∧ (r_addr p = r_addr r ∨ r_addr p = r_addr s + r_size s)
  | None => True
  end.

Lemma split_at_pages r s lo hi :
  page_range r → page_range s → 0 < r_addr s → split_at r s = Ret (lo, hi) → piece_of r s lo ∧ piece_of r s hi.
Proof.
  intros Hr Hs Hpos. rewrite split_at_eq by done.
  pose proof Hr as (R1 & R2 & H0 & H1 & H2). pose proof Hs as (S1 & S2 & G0 & G1 & G2).
  assert ((PAGE_SIZE | r_addr r + r_size r)) as R3 by by apply Z.divide_add_r.
  assert ((PAGE_SIZE | r_addr s + r_size s)) as S3 by by apply Z.divide_add_r.
  assert (r_addr r < r_addr s → r_addr s < r_addr r + r_size r →
    page_range (mkRange (r_addr r) (r_addr s - r_addr r))) as Hl.
  { intros. unfold page_range. simpl. split_and!; try done; try lia. by apply Z.divide_sub_r. }
  assert (r_addr r <= r_addr s + r_size s → r_addr s + r_size s + 1 < r_addr r + r_size r →
    page_range (mkRange (r_addr s + r_size s) (r_addr r + r_size r - (r_addr s + r_size s)))) as Hh.
  { intros. unfold page_range. simpl. split_and!; try done; try lia. by apply Z.divide_sub_r. }
  pose proof (divide_gap PAGE_SIZE (r_addr s + r_size s) (r_addr r + r_size r) eq_refl S3 R3) as Hgap.
  unfold PAGE_SIZE in Hgap.
  destruct (Z.leb_spec (r_addr r) (r_addr s)), (Z.ltb_spec (r_addr s) (r_addr r + r_size r)),
    (Z.leb_spec (r_addr r) (r_addr s + r_size s)),
    (Z.ltb_spec (r_addr s + r_size s) (r_addr r + r_size r)); simpl;
    try (intros [= <- <-]; split; [split; [done|by left]|done]); try (intros [= <- <-]; done); try lia;
  destruct (Z.leb_spec (r_addr s) (r_addr r)), (Z.leb_spec (r_addr r + r_size r) (r_addr s + r_size s));
    simpl; try (intros [= <- <-]; split; [split; [done|by left]|done]); try (intros [= <- <-]; done); try lia;
  destruct (Z.ltb_spec (r_addr r) (r_addr s)),
    (Z.ltb_spec (r_addr s + r_size s + 1) (r_addr r + r_size r)); simpl; intros [= <- <-];
    split; first [done | split; [first [done|apply Hl; lia|apply Hh; lia]|simpl; auto] | exfalso; lia].
Qed.

Lemma split_at_bytes r s :
  page_range r → page_range s → 0 < r_addr s →
  ¬ (r_addr s < r_addr r ∧ r_addr r + r_size r <= r_addr s + r_size s) →
  ∃ lo hi, split_at r s = Ret (lo, hi) ∧
    ∀ x, in_opt lo x ∨ in_opt hi x ↔ in_range r x ∧ ¬ in_range s x.
Proof.
  intros Hr Hs Hpos Hn. rewrite split_at_eq by done.
  pose proof Hr as (R1 & R2 & H0 & H1 & H2). pose proof Hs as (S1 & S2 & G0 & G1 & G2).
  assert ((PAGE_SIZE | r_addr r + r_size r)) as R3 by by apply Z.divide_add_r.
  assert ((PAGE_SIZE | r_addr s + r_size s)) as S3 by by apply Z.divide_add_r.
  pose proof (divide_gap PAGE_SIZE (r_addr s + r_size s) (r_addr r + r_size r) eq_refl S3 R3).
  unfold in_range, PAGE_SIZE in *. eexists _, _. split; [apply f_equal, surjective_pairing|].
  intros x.
  destruct (Z.leb_spec (r_addr r) (r_addr s)), (Z.ltb_spec (r_addr s) (r_addr r + r_size r)),
    (Z.leb_spec (r_addr r) (r_addr s + r_size s)),
    (Z.ltb_spec (r_addr s + r_size s) (r_addr r + r_size r)); simpl; unfold in_range; try lia;
  destruct (Z.leb_spec (r_addr s) (r_addr r)), (Z.leb_spec (r_addr r + r_size r) (r_addr s + r_size s));
    simpl; try lia;
  destruct (Z.ltb_spec (r_addr r) (r_addr s)),
    (Z.ltb_spec (r_addr s + r_size s + 1) (r_addr r + r_size r)); simpl; unfold in_range; simpl; lia.
Qed.


(** A region that [s] covers from below is returned whole, although no byte of
    it is outside [s]: [contains_range] looks at the two ends of [s] only. *)
Theorem split_at_covered r s :
  page_range r → page_range s → 0 < r_addr s →
  r_addr s < r_addr r → r_addr r + r_size r <= r_addr s + r_size s →
  split_at r s = Ret (Some r, None) ∧ ∀ x, in_range r x → in_range s x.
Proof.
  intros Hr Hs Hpos Hlt Hle. rewrite split_at_eq by done. split; [|unfold in_range; lia].
  rewrite (proj2 (Z.leb_gt _ _)) by lia.
  rewrite (proj2 (Z.ltb_ge (r_addr s + r_size s) _)) by lia.
  by rewrite (proj2 (Z.leb_le _ (r_addr s + r_size s))) by (destruct Hr as (_ & _ & ?); lia).
Qed.

(** *** Merging *)

Lemma range_merge_spec r s :
  page_range r → page_range s →
  range_merge r s = Ret
    (if r_addr r + r_size r =? r_addr s then Some (mkRange (r_addr r) (r_size r + r_size s))
     else if r_addr s + r_size s =? r_addr r then Some (mkRange (r_addr s) (r_size r + r_size s))
     else None).
Proof.
  intros (_ & _ & H0 & H1 & H2) (_ & _ & G0 & G1 & G2). unfold range_merge, end_addr, PAGE_SIZE in *.
  rewrite !a_add_ok by (a_low || lia). cbn [mbind res_bind].
  destruct (_ =? r_addr s); u; [done|]. by destruct (_ =? r_addr r).
Qed.
End facts.

(** *** User ranges *)

(** The guard on user pointers.  A range that does not wrap is accepted exactly
    when it ends below the kernel.  One that wraps panics in the development build,
    but the release build tests the wrapped end: a range that starts in the kernel
    is accepted when its length is large enough to come round. *)
Theorem verify_umem_spec {B : Build} vma addr size :
  is_usize addr → is_usize size → 0 < vma < U64 →
  (1 <= addr + size < U64 → verify_umem vma addr size = Ret (addr + size <=? vma)) ∧
  (U64 <= addr + size →
     verify_umem vma addr size =
       if overflow_checks then Panic else Ret ((addr + size - 1) mod U64 <? vma)).
Proof.
  unfold is_usize. intros Ha Hs Hv. unfold verify_umem, verify_uaddr. split; intros H.
  - u. f_equal. destruct (Z.ltb_spec (addr + size - 1) vma), (Z.leb_spec (addr + size) vma); lia.
  - assert (uadd addr size = if overflow_checks then Panic else Ret ((addr + size) mod U64)) as ->.
    { unfold uadd, checked. rewrite (proj2 (Z.ltb_ge (addr + size) U64)) by lia.
      by rewrite andb_false_r. }
    destruct overflow_checks eqn:HB; [done|]. cbn [mbind res_bind].
    unfold usub, checked. rewrite HB.
    pose proof (Z.mod_pos_bound (addr + size) U64 ltac:(lia)) as Hm.
    assert (((addr + size) mod U64 - 1) mod U64 = (addr + size - 1) mod U64) as E
      by by rewrite Zminus_mod_idemp_l.
    rewrite <- E. destruct (Z.leb_spec 0 ((addr + size) mod U64 - 1)); simpl; [|done].
    rewrite (proj2 (Z.ltb_lt _ _)) by lia. cbn [mbind res_bind]. by rewrite (Z.mod_small (_ - 1)) by lia.
Qed.

(** ** Witnesses *)

(** Virtual addresses: bits 48 to 63 repeat bit 47. *)
Definition demo_canon (a : Z) : bool :=
  ((0 <=? a) && (a <? 2 ^ 47)) || ((U64 - 2 ^ 47 <=? a) && (a <? U64)).
Definition demo_make (a : Z) : res Z := if demo_canon a then Ret a else Panic.

#[export] Instance DemoAddr : AddrOps := {
  a_new := demo_make;
  a_try_new a := if demo_canon a then Some a else None;
  a_down a m := demo_make (a - a mod m);
  a_up a m := demo_make (a + (- a) mod m);
  a_add a n := demo_make (a + n);
  a_sub a b := if b <=? a then Ret (a - b) else Panic;
  a_sub_n a n := demo_make (a - n);
}.

Lemma demo_canon_down a m :
  demo_canon a = true → pow2 m → m <= 2 ^ 30 → demo_canon (a - a mod m) = true.
Proof.
  intros Hc Hp Hm. pose proof (pow2_pos _ Hp) as H0.
  pose proof (Z.mod_pos_bound a m H0). unfold demo_canon in *.
  apply orb_true_iff in Hc as [[H1%Z.leb_le H2%Z.ltb_lt]%andb_prop|[H1%Z.leb_le H2%Z.ltb_lt]%andb_prop].
  - pose proof (Z.mod_le a m H1 H0). apply orb_true_iff. left.
    rewrite (proj2 (Z.leb_le _ _)), (proj2 (Z.ltb_lt _ _)) by lia. done.
  - apply orb_true_iff. right.
    assert (m | 2 ^ 30) as Hd by (apply pow2_le_divide; [done|by exists 30|done]).
    assert (U64 - 2 ^ 47 <= a - a mod m).
    { destruct Hd as [q Hq]. pose proof (Z.div_mod a m ltac:(lia)) as Ea.
      assert (U64 - 2 ^ 47 = m * (q * (2 ^ 34 - 2 ^ 17))) as E by (change U64 with (2 ^ 30 * 2 ^ 34); nia).
      assert (q * (2 ^ 34 - 2 ^ 17) <= a / m) by (apply Z.div_le_lower_bound; lia). nia. }
    rewrite (proj2 (Z.leb_le _ _)), (proj2 (Z.ltb_lt _ _)) by lia. done.
Qed.

#[export] Program Instance DemoAddrLaws : AddrLaws := {| canon a := demo_canon a = true |}.
Next Obligation.
  intros a. unfold demo_canon, is_usize. rewrite orb_true_iff, !andb_true_iff, !Z.leb_le, !Z.ltb_lt. lia.
Qed.
Next Obligation. intros a H. unfold demo_canon. by rewrite (proj2 (Z.leb_le _ _)), (proj2 (Z.ltb_lt _ _)) by lia. Qed.
Next Obligation. intros a H. simpl. unfold demo_make. by rewrite H. Qed.
Next Obligation. intros a H. simpl. by rewrite H. Qed.
Next Obligation. intros a b H. simpl in H. by destruct (demo_canon a) eqn:E; simplify_eq. Qed.
Next Obligation. intros a m H Hp Hm. simpl. unfold demo_make. by rewrite demo_canon_down. Qed.
Next Obligation. intros a m H Hp Hm Hu. simpl. unfold demo_make. by rewrite Hu. Qed.
Next Obligation. intros a n H H0 Hu. simpl. unfold demo_make. by rewrite Hu. Qed.
Next Obligation. intros a b _ _ H. simpl. by rewrite (proj2 (Z.leb_le _ _)). Qed.
Next Obligation. intros a n H H0 Hu. simpl. unfold demo_make. by rewrite Hu. Qed.

(** [pr] proves that a concrete range is a page range. *)
Ltac pr := unfold page_range, PAGE_SIZE; simpl; split_and!; try lia; by (eapply Z.mod_divide; done).

Definition demo_range : range := mkRange 0x1ff000 0x202000.

Lemma take_all_tiles_witness :
  ∃ fs, take_all (B:=dev) 600 demo_range = Ret fs ∧
    tiles (r_addr demo_range) fs (r_addr demo_range + r_size demo_range).
Proof.
  refine (take_all_tiles (B:=dev) 600 demo_range _ _); [unfold demo_range; pr|].
  apply Nat.ltb_lt. by vm_compute.
Defined.

Lemma full_contains_range_spec_witness :
  let r := mkRange 0x2000 0x3000 in
  ∃ b, full_contains_range r r = Ret b ∧ (b = true ↔ 0x2000 <= 0x2000 ∧ 0x2000 + 0x3000 < 0x2000 + 0x3000).
Proof. apply (full_contains_range_spec (mkRange 0x2000 0x3000) (mkRange 0x2000 0x3000)); pr. Defined.


Lemma split_at_covered_witness :
  split_at (mkRange 0x2000 0x1000) (mkRange 0x1000 0x3000) = Ret (Some (mkRange 0x2000 0x1000), None) ∧
  ∀ x, in_range (mkRange 0x2000 0x1000) x → in_range (mkRange 0x1000 0x3000) x.
Proof. apply split_at_covered; [pr|pr|simpl; lia|simpl; lia|simpl; lia]. Defined.

(** A kernel address with a length that wraps to page zero passes in release. *)
Lemma verify_umem_spec_witness :
  verify_umem (B:=release) 0xffff800000000000 0xffff800000000000 (2 ^ 47 + 1) = Ret true.
Proof.
  destruct (verify_umem_spec (B:=release) 0xffff800000000000 0xffff800000000000 (2 ^ 47 + 1))
    as [_ H]; [unfold is_usize; lia..|].
  rewrite H; [by vm_compute|lia].
Defined.
