(* ===== verification/Buddy.v ===== *)
(** * The buddy allocator of a zone: [kernel/src/mem/phys_alloc.rs]

    A zone is the memory from [start] to [meta_start], in blocks of
    [2^(order + min_order_bits)] bytes; the bytes from [meta_start] on are a bitmap
    with one bit per block of the smallest size, set when an allocation starts
    there.  Free blocks are nodes on one list per order, kept here at the level of
    the contract proved in [LinkedList]: sequences of (address, size).  A node the
    code reaches through an address it computed must be on the list it says; where
    it is not, reading it is undefined behaviour.

    Memory contents are not modelled, so the copy made by [realloc] is not. *)

From S2P Require Import Prelude Misc Ranges.

Definition MAX_ORDER : Z := 32.

(** ** State *)

Record bnode := mkB { b_addr : Z; b_size : Z }.

#[export] Instance bnode_eq_dec : EqDecision bnode.
Proof. solve_decision. Defined.

Record BuddyAllocator := mkBuddy {
  start : Z;
  meta_start : Z;
  meta : list Z;
  olist : list (list bnode);
  max_order : Z;
  min_order_size : Z;
  min_order_bits : Z;
  free_space : Z;
}.

(** An allocation: address, length, zone. *)
Record Allocation := mkAlloc { m_addr : Z; m_len : Z; zindex : Z }.

Definition set_meta (m : list Z) (b : BuddyAllocator) : BuddyAllocator :=
  mkBuddy (start b) (meta_start b) m (olist b) (max_order b) (min_order_size b)
    (min_order_bits b) (free_space b).
Definition set_olist (o : list (list bnode)) (b : BuddyAllocator) : BuddyAllocator :=
  mkBuddy (start b) (meta_start b) (meta b) o (max_order b) (min_order_size b)
    (min_order_bits b) (free_space b).
Definition set_max_order (m : Z) (b : BuddyAllocator) : BuddyAllocator :=
  mkBuddy (start b) (meta_start b) (meta b) (olist b) m (min_order_size b)
    (min_order_bits b) (free_space b).
Definition set_free_space (f : Z) (b : BuddyAllocator) : BuddyAllocator :=
  mkBuddy (start b) (meta_start b) (meta b) (olist b) (max_order b) (min_order_size b)
    (min_order_bits b) f.

Definition BM := M BuddyAllocator.

(** Reading the state, and a field of it. *)
Definition gets {T} (f : BuddyAllocator → T) : BM T := λ b, Ret (f b, b).
Definition modify (f : BuddyAllocator → BuddyAllocator) : BM () := λ b, Ret ((), f b).

(** [self.olist[order]], which panics out of range, with a list operation. *)
Definition with_list {T} (order : Z) (f : list bnode → res (T * list bnode)) : BM T := λ b,
  match olist b !! Z.to_nat order with
  | None => Panic
  | Some l => '(x, l') ← f l; Ret (x, set_olist (<[Z.to_nat order := l']> (olist b)) b)
  end.

Definition l_len (l : list bnode) : res (Z * list bnode) := Ret (Z.of_nat (length l), l).
Definition l_push (n : bnode) (l : list bnode) : res (() * list bnode) := Ret ((), l ++ [n]).
Definition l_push_front (n : bnode) (l : list bnode) : res (() * list bnode) := Ret ((), n :: l).
Definition l_pop_front (l : list bnode) : res (option bnode * list bnode) :=
  match l with [] => Ret (None, []) | n :: l => Ret (Some n, l) end.

(** [remove_node] of the node at an address: it has to be on this list. *)
Fixpoint l_remove_node (a : Z) (l : list bnode) : res (bnode * list bnode) :=
  match l with
  | [] => UB
  | n :: l =>
      if b_addr n =? a then Ret (n, l)
      else '(m, l') ← l_remove_node a l; Ret (m, n :: l')
  end.

(** The node in memory at an address: one on some list. *)
Definition node_at (a : Z) : BM bnode := λ b,
  match List.find (λ n, b_addr n =? a) (concat (olist b)) with
  | Some n => Ret (n, b)
  | None => UB
  end.

Section buddy.
Context {B : Build} {A : AddrOps}.

(** ** Orders and the bitmap *)

Definition get_order (b : BuddyAllocator) (size : Z) : res Z :=
  bits ← log2_up size;
  if bits <=? min_order_bits b then Ret 0 else usub bits (min_order_bits b).

Definition get_order_size (b : BuddyAllocator) (order : Z) : res Z :=
  k ← uadd order (min_order_bits b); ushl 1 k.

Definition outside (b : BuddyAllocator) (addr : Z) : bool :=
  (addr <? start b) || (meta_start b <=? addr).

(** The byte of the bitmap at an index; outside of it, other memory. *)
Definition meta_byte (b : BuddyAllocator) (i : Z) : res Z :=
  match meta b !! Z.to_nat i with Some x => Ret x | None => UB end.

Definition is_alloced (b : BuddyAllocator) (addr : Z) : res bool :=
  if outside b addr then Ret false else
  d ← usub addr (start b);
  let i := d / min_order_size b in
  x ← meta_byte b (i / 8);
  Ret (0 <? Z.land x (Z.shiftl 1 (i mod 8))).

Definition set_is_alloced (addr : Z) (alloced : bool) : BM () := λ b,
  if outside b addr then Ret ((), b) else
  d ← usub addr (start b);
  let i := d / min_order_size b in
  x ← meta_byte b (i / 8);
  let bit := Z.shiftl 1 (i mod 8) in
  let x' := if alloced then Z.lor x bit else Z.land x (255 - bit) in
  Ret ((), set_meta (<[Z.to_nat (i / 8) := x']> (meta b)) b).

Definition contains_addr (b : BuddyAllocator) (addr : Z) : bool :=
  (start b <=? addr) && (addr <? meta_start b).

Definition ucontains (b : BuddyAllocator) (addr size : Z) : res bool :=
  if start b <=? addr then
    e ← uadd addr size;
    Ret ((e <=? meta_start b) && (min_order_size b <=? align_of addr))
  else Ret false.

Definition buddy_contains (b : BuddyAllocator) (m : Allocation) : res bool :=
  ucontains b (m_addr m) (m_len m).

(** ** Construction *)

(** The loop of [init_orders], from address [a]. *)
Fixpoint init_loop (fuel : nat) (a : Z) : BM () :=
  match fuel with
  | O => λ _, NoFuel
  | S fuel =>
      ms ← gets meta_start;
      if a <? ms then
        d ← lift (usub ms a);
        s ← lift (ushl 1 (log2 d));
        let len := Z.min (align_of a) s in
        b ← get;
        order ← lift (get_order b len);
        lift (assert_ (order <=? MAX_ORDER));;
        with_list order (l_push (mkB a len));;
        mo ← gets max_order;
        (if mo <? order then modify (set_max_order order) else mret ());;
        a' ← lift (uadd a len);
        init_loop fuel a'
      else mret ()
  end.

(** Enough turns for one block of the smallest size each. *)
Definition init_fuel (b : BuddyAllocator) : nat :=
  S (Z.to_nat ((meta_start b - start b) / min_order_size b)).

Definition init_orders : BM () := b ← get; init_loop (init_fuel b) (start b).

(** [memset] leaves [meta_size] zero bytes. *)
Definition buddy_new (start_ end_ mos : Z) : res BuddyAllocator :=
  m ← align_up mos PAGE_SIZE;
  let mos := Z.max m PAGE_SIZE in
  s ← a_up start_ mos;
  let e := end_ in
  (if e <=? s then Panic else Ret ());;
  d ← usub e s;
  k ← umul 8 mos;
  meta_size ← uadd (d / k) 1;
  t ← usub e meta_size;
  ms ← align_down t mos;
  fs ← usub ms s;
  let out := mkBuddy s ms (repeat 0 (Z.to_nat meta_size)) (repeat [] (Z.to_nat MAX_ORDER)) 0 mos
    (log2 mos) fs in
  '(_, out) ← init_orders out;
  Ret out.

(** ** Splitting and merging *)

Fixpoint split_order (fuel : nat) (order : Z) : BM bool :=
  match fuel with
  | O => λ _, NoFuel
  | S fuel =>
      mo ← gets max_order;
      if (mo <? order) || (order =? 0) then mret false
      else
        n ← with_list order l_len;
        o ← lift (uadd order 1);
        ok ← (if negb (n =? 0) then mret true else split_order fuel o : BM bool);
        match ok with
        | true =>
            node ← with_list order l_pop_front;
            node ← lift (unwrap node);
            let half := Z.shiftr (b_size node) 1 in
            let addr := Z.lxor (b_addr node) half in
            with_list (order - 1) (l_push_front (mkB addr half));;
            with_list (order - 1) (l_push_front (mkB (b_addr node) half));;
            mret true
        | false => mret false
        end
  end.

Fixpoint split_order_at (fuel : nat) (addr order : Z) : BM () :=
  match fuel with
  | O => λ _, NoFuel
  | S fuel =>
      mo ← gets max_order;
      if mo <=? order then mret ()
      else
        b ← get;
        size ← lift (get_order_size b order);
        let addr2 := Z.lxor addr size in
        c ← lift (ucontains b addr2 size);
        al ← lift (match c with true => is_alloced b addr2 | false => Ret true end);
        match al with
        | true => mret ()
        | false =>
            let min_addr := Z.min addr addr2 in
            let max_addr := Z.max addr addr2 in
            split_order_at fuel min_addr (order + 1);;
            node ← with_list (order + 1) (l_remove_node min_addr);
            with_list order (l_push (mkB (b_addr node) size));;
            with_list order (l_push (mkB max_addr size))
        end
  end.

Fixpoint insert_node (fuel : nat) (node : bnode) (order : Z) : BM () :=
  match fuel with
  | O => λ _, NoFuel
  | S fuel =>
      b ← get;
      let addr2 := Z.lxor (b_addr node) (b_size node) in
      stop ← lift (
        if (addr2 <? b_addr node) || (start b <? addr2) then Ret true
        else
          e ← uadd addr2 (b_size node);
          if meta_start b <? e then Ret true else is_alloced b addr2);
      match stop with
      | true => with_list order (l_push_front node)
      | false =>
          node2 ← node_at addr2;
          if negb (b_size node =? b_size node2) then with_list order (l_push_front node)
          else
            node2 ← with_list order (l_remove_node addr2);
            let node := if addr2 <? b_addr node then node2 else node in
            size ← lift (ushl (b_size node) 1);
            let node := mkB (b_addr node) size in
            mo ← gets max_order;
            if order + 1 =? mo then with_list (order + 1) (l_push_front node)
            else insert_node fuel node (order + 1)
      end
  end.

Fixpoint order_expand_cap (fuel : nat) (b : BuddyAllocator) (addr size out : Z) : res Z :=
  match fuel with
  | O => NoFuel
  | S fuel =>
      let addr2 := Z.lxor addr size in
      stop ←
        (if addr2 <? addr then Ret true
         else
           e ← uadd addr2 size;
           if meta_start b <? e then Ret true else is_alloced b addr2);
      match stop with
      | true => Ret out
      | false => s ← ushl size 1; order_expand_cap fuel b addr s (out + 1)
      end
  end.

(** Enough for every loop over orders: sizes double, and words have 64 bits. *)
Definition order_fuel : nat := 66.

(** ** Allocation *)

Definition oalloc (order : Z) : BM (option Allocation) :=
  mo ← gets max_order;
  if mo <? order then mret None
  else
    n ← with_list order l_len;
    o ← lift (uadd order 1);
    ok ← (if n =? 0 then split_order order_fuel o else mret true : BM bool);
    match ok with
    | false => mret None
    | true =>
        node ← with_list order l_pop_front;
        node ← lift (unwrap node);
        let out := mkAlloc (b_addr node) (b_size node) 0 in
        set_is_alloced (b_addr node) true;;
        fs ← gets free_space;
        fs ← lift (usub fs (b_size node));
        modify (set_free_space fs);;
        mret (Some out)
    end.

Definition alloc (size : Z) : BM (option Allocation) :=
  if size =? 0 then mret None
  else b ← get; order ← lift (get_order b size); oalloc order.

Definition oalloc_at (at_addr order : Z) : BM (option Allocation) :=
  mo ← gets max_order;
  if mo <? order then mret None
  else
    b ← get;
    size ← lift (get_order_size b order);
    c ← lift (ucontains b at_addr size);
    match c with
    | false => mret None
    | true =>
        no ← lift (
          al ← is_alloced b at_addr;
          match al with
          | true => Ret true
          | false =>
              cap ← order_expand_cap order_fuel b at_addr (min_order_size b) 0;
              Ret (cap <? order)
          end);
        match no with
        | true => mret None
        | false =>
            split_order_at order_fuel at_addr order;;
            with_list order (l_remove_node at_addr);;
            set_is_alloced at_addr true;;
            fs ← gets free_space;
            fs ← lift (usub fs size);
            modify (set_free_space fs);;
            mret (Some (mkAlloc at_addr size 0))
        end
    end.

Definition alloc_at (addr size : Z) : BM (option Allocation) :=
  if size =? 0 then mret None
  else b ← get; order ← lift (get_order b size); oalloc_at addr order.

Definition dealloc (mem : Allocation) : BM () :=
  let addr := m_addr mem in
  b ← get;
  out ← lift (
    if addr <? start b then Ret true
    else e ← uadd addr (m_len mem); Ret (meta_start b <? e));
  match out with
  | true => mret ()
  | false =>
      al ← lift (is_alloced b addr);
      match al with
      | false => λ _, Panic
      | true =>
          set_is_alloced addr false;;
          let node := mkB addr (m_len mem) in
          fs ← gets free_space;
          fs ← lift (uadd fs (b_size node));
          modify (set_free_space fs);;
          b ← get;
          order ← lift (get_order b (b_size node));
          insert_node order_fuel node order
      end
  end.

(** The shrinking loop of [orealloc]: returns the size reached. *)
Fixpoint shrink_loop (fuel : nat) (addr size old order : Z) : BM Z :=
  match fuel with
  | O => λ _, NoFuel
  | S fuel =>
      if order <? old then
        let size := Z.shiftr size 1 in
        let old := old - 1 in
        with_list old (l_push_front (mkB (Z.lxor addr size) size));;
        shrink_loop fuel addr size old order
      else mret size
  end.

(** The growing loop of [orealloc]. *)
Fixpoint grow_loop (fuel : nat) (addr old order : Z) : BM () :=
  match fuel with
  | O => λ _, NoFuel
  | S fuel =>
      if old <? order then
        b ← get;
        size2 ← lift (get_order_size b old);
        with_list old (l_remove_node (Z.lxor addr size2));;
        grow_loop fuel addr (old + 1) order
      else mret ()
  end.

(** [self.free_space += self.get_order_size(odiff)], in every branch. *)
Definition add_free_order (odiff : Z) : BM () :=
  b ← get;
  s ← lift (get_order_size b odiff);
  fs ← lift (uadd (free_space b) s);
  modify (set_free_space fs).

Definition orealloc (mem : Allocation) (order : Z) : BM (option Allocation) :=
  mo ← gets max_order;
  if mo <? order then mret None
  else
    let addr := m_addr mem in
    let len := m_len mem in
    b ← get;
    out ← lift (
      if addr <? start b then Ret true
      else e ← uadd addr len; Ret (meta_start b <? e));
    match out with
    | true => mret None
    | false =>
        al ← lift (is_alloced b addr);
        match al with
        | false => λ _, Panic
        | true =>
            old ← lift (get_order b len);
            if order =? old then mret (Some mem)
            else if order <? old then
              size ← lift (get_order_size b old);
              size ← shrink_loop order_fuel addr size old order;
              add_free_order (old - order);;
              mret (Some (mkAlloc addr size 0))
            else
              let odiff := order - old in
              cap ← lift (order_expand_cap order_fuel b addr len 0);
              if odiff <=? cap then
                grow_loop order_fuel addr old order;;
                add_free_order odiff;;
                s ← lift (get_order_size b order);
                mret (Some (mkAlloc addr s 0))
              else
                out ← oalloc order;
                match out with
                | None => mret None
                | Some out =>
                    dealloc mem;;
                    add_free_order odiff;;
                    mret (Some out)
                end
        end
    end.

Definition realloc (mem : Allocation) (size : Z) : BM (option Allocation) :=
  if size =? 0 then mret None
  else b ← get; order ← lift (get_order b size); orealloc mem order.
End buddy.

(** ** The invariant *)

Definition block_sz (b : BuddyAllocator) (i : Z) : Z := 2 ^ (i + min_order_bits b).

(** What [new] fixes: the zone's bounds and the sizes. *)
Record geom (b : BuddyAllocator) : Prop := {
  g_bits : 12 <= min_order_bits b ∧ min_order_size b = 2 ^ min_order_bits b;
  g_start : 0 < start b ∧ start b <= meta_start b < U64;
  g_align : (min_order_size b | start b) ∧ (min_order_size b | meta_start b);
  g_max : 0 <= max_order b < MAX_ORDER ∧ max_order b + min_order_bits b <= 62;
  g_lists : length (olist b) = Z.to_nat MAX_ORDER;
  g_meta : (meta_start b - start b) / min_order_size b < 8 * Z.of_nat (length (meta b));
  g_bytes : Forall (λ x, 0 <= x < 256) (meta b);
}.

(** The lists hold blocks of their own order, none above [max_order]. *)
Definition sizes_ok (b : BuddyAllocator) : Prop :=
  ∀ i l, olist b !! i = Some l →
    Forall (λ n, b_size n = block_sz b (Z.of_nat i) ∧ Z.of_nat i <= max_order b) l.

Definition b_end (n : bnode) : Z := b_addr n + b_size n.
Definition napart (n m : bnode) : Prop := b_end n <= b_addr m ∨ b_end m <= b_addr n.

(** A block: inside the zone, aligned to its size. *)
Definition in_zone (b : BuddyAllocator) (n : bnode) : Prop :=
  (b_size n | b_addr n) ∧ start b <= b_addr n ∧ b_end n <= meta_start b.

Definition btotal (l : list bnode) : Z := foldr (λ n t, b_size n + t) 0 l.

(** The index of a block in the bitmap, and its bit. *)
Definition idx (b : BuddyAllocator) (a : Z) : Z := (a - start b) / min_order_size b.
Definition bit_at (b : BuddyAllocator) (a : Z) : bool :=
  Z.testbit (nth (Z.to_nat (idx b a / 8)) (meta b) 0) (idx b a mod 8).

Definition live_ok (b : BuddyAllocator) (n : bnode) : Prop :=
  (∃ i, 0 <= i <= max_order b ∧ b_size n = block_sz b i) ∧ bit_at b (b_addr n) = true.

Definition free_nodes (b : BuddyAllocator) : list bnode := concat (olist b).

(** Blocks that tile the zone. *)
Record tiling (b : BuddyAllocator) (l : list bnode) : Prop := {
  t_apart : ForallOrdPairs napart l;
  t_zone : Forall (in_zone b) l;
  t_total : btotal l = meta_start b - start b;
}.

(** Free blocks and blocks in use tile the zone. *)
Record binv (b : BuddyAllocator) (live : list bnode) : Prop := {
  b_geom : geom b;
  b_sizes : sizes_ok b;
  b_tiling : tiling b (free_nodes b ++ live);
  b_free : free_space b = btotal (free_nodes b);
  b_live : Forall (live_ok b) live;
}.

(** *** Lists of lists, up to order *)

Lemma ForallOrdPairs_perm {T} (R : T → T → Prop) l1 l2 :
  (∀ a b, R a b → R b a) → l1 ≡ₚ l2 → ForallOrdPairs R l1 → ForallOrdPairs R l2.
Proof.
  intros Hs. induction 1 as [|a l1 l2 Hp IH|a b l|l1 l2 l3 _ IH1 _ IH2]; intros H.
  - done.
  - inversion H; subst. constructor; [by rewrite <- Hp|by apply IH].
  - inversion H as [|? ? H1 H2]; subst. inversion H2 as [|? ? H3 H4]; subst.
    apply Forall_cons in H1 as [? ?]. constructor; [constructor; auto|by constructor].
  - by apply IH2, IH1.
Qed.

Lemma napart_sym n m : napart n m → napart m n.
Proof. unfold napart. tauto. Qed.

Lemma btotal_app l1 l2 : btotal (l1 ++ l2) = btotal l1 + btotal l2.
Proof. induction l1; simpl; lia. Qed.

#[export] Instance btotal_perm : Proper (Permutation ==> eq) btotal.
Proof. intros l1 l2. induction 1; simpl; lia. Qed.

(** A list of the array, and the others. *)
Lemma concat_lookup {T} (o : list (list T)) i l :
  o !! i = Some l →
  ∃ rest, concat o ≡ₚ l ++ rest ∧ ∀ l', concat (<[i:=l']> o) ≡ₚ l' ++ rest.
Proof.
  intros H. exists (concat (take i o) ++ concat (drop (S i) o)).
  assert (i < length o)%nat as Hi by (by eapply lookup_lt_Some).
  split.
  - rewrite <- (take_drop_middle o i l H) at 1. rewrite concat_app. simpl. solve_Permutation.
  - intros l'. rewrite insert_take_drop by done. rewrite concat_app. simpl. solve_Permutation.
Qed.

Lemma concat_two {T} (o : list (list T)) i j l m :
  i ≠ j → o !! i = Some l → o !! j = Some m →
  ∃ rest, concat o ≡ₚ l ++ m ++ rest ∧
    ∀ l' m', concat (<[j:=m']> (<[i:=l']> o)) ≡ₚ l' ++ m' ++ rest.
Proof.
  intros Hij Hl Hm. revert i j Hij Hl Hm. induction o as [|x o IH]; intros i j Hij Hl Hm; [done|].
  destruct i as [|i], j as [|j]; simplify_eq/=.
  - destruct (concat_lookup o j m Hm) as (rest & H1 & H2). exists rest. split; [by rewrite H1|].
    intros l' m'. simpl. by rewrite H2.
  - destruct (concat_lookup o i l Hl) as (rest & H1 & H2). exists rest. split.
    + rewrite H1. solve_Permutation.
    + intros l' m'. simpl. rewrite H2. solve_Permutation.
  - destruct (IH i j ltac:(lia) Hl Hm) as (rest & H1 & H2). exists (x ++ rest). split.
    + rewrite H1. solve_Permutation.
    + intros l' m'. simpl. rewrite H2. solve_Permutation.
Qed.

(** *** Bits of addresses *)

Lemma lxor_half a k : 0 <= k → (2 ^ (k + 1) | a) → Z.lxor a (2 ^ k) = a + 2 ^ k.
Proof.
  intros Hk [q ->]. symmetry. apply Z.add_nocarry_lxor.
  apply Z.bits_inj'. intros j Hj. rewrite Z.land_spec, Z.bits_0.
  destruct (Z.eq_dec j k) as [->|Hne].
  - rewrite Z.mul_pow2_bits_low by lia. done.
  - rewrite (Z.pow2_bits_false k j) by lia. apply andb_false_r.
Qed.

Lemma lxor_ne a s : s ≠ 0 → Z.lxor a s ≠ a.
Proof.
  intros Hs E. apply Hs. transitivity (Z.lxor (Z.lxor a a) s).
  - by rewrite Z.lxor_nilpotent, Z.lxor_0_l.
  - rewrite Z.lxor_assoc, E. apply Z.lxor_nilpotent.
Qed.

(** *** Orders *)

Section proofs.
Context {B : Build}.

Lemma get_order_ok b size :
  geom b → 1 <= size <= 2 ^ 62 →
  get_order b size = Ret (Z.max 0 (Z.log2_up size - min_order_bits b)).
Proof.
  intros [[Hb _] _ _ _ _ _ _] Hs. unfold get_order.
  destruct (Z.eq_dec size 1) as [->|Hne].
  - change (log2_up 1) with (Ret 1 : res Z). cbn [mbind res_bind].
    rewrite (proj2 (Z.leb_le _ _)) by lia. f_equal. change (Z.log2_up 1) with 0. lia.
  - rewrite log2_up_spec by lia. cbn [mbind res_bind]. pose proof (Z.log2_up_nonneg size).
    assert (Z.log2_up size <= 62).
    { rewrite <- (Z.log2_up_pow2 62) by lia. apply Z.log2_up_le_mono. lia. }
    destruct (Z.leb_spec (Z.log2_up size) (min_order_bits b)); u; f_equal; lia.
Qed.

Lemma get_order_block b i :
  geom b → 0 <= i <= max_order b → get_order b (block_sz b i) = Ret i.
Proof.
  intros Hg Hi. pose proof Hg as [[Hb _] _ _ Hm _ _ _]. unfold block_sz.
  rewrite get_order_ok; [|done|].
  - rewrite Z.log2_up_pow2 by lia. f_equal. lia.
  - pose proof (Z.pow_pos_nonneg 2 (i + min_order_bits b)).
    assert (2 ^ (i + min_order_bits b) <= 2 ^ 62) by (apply Z.pow_le_mono_r; lia). lia.
Qed.

Lemma block_sz_pos b i : geom b → 0 <= i → 0 < block_sz b i.
Proof. intros [[Hb _] _ _ _ _ _ _] Hi. apply Z.pow_pos_nonneg; lia. Qed.

Lemma block_sz_mos b i : geom b → 0 <= i → (min_order_size b | block_sz b i).
Proof.
  intros [[Hb ->] _ _ _ _ _ _] Hi. unfold block_sz. exists (2 ^ i). by rewrite Z.pow_add_r by lia.
Qed.

(** *** The bitmap *)

Definition in_bounds (b : BuddyAllocator) (a : Z) : Prop :=
  start b <= a < meta_start b ∧ (min_order_size b | a).

Lemma in_bounds_outside b a : in_bounds b a → outside b a = false.
Proof.
  intros [[? ?] _]. unfold outside. rewrite (proj2 (Z.ltb_ge _ _)), (proj2 (Z.leb_gt _ _)) by lia.
  done.
Qed.

Lemma mos_pos b : geom b → 0 < min_order_size b.
Proof. intros [[? ->] _ _ _ _ _ _]. apply Z.pow_pos_nonneg; lia. Qed.

Lemma idx_bounds b a : geom b → in_bounds b a →
  0 <= idx b a ∧ (Z.to_nat (idx b a / 8) < length (meta b))%nat.
Proof.
  intros Hg [[H1 H2] _]. pose proof (mos_pos b Hg). destruct Hg as [_ _ _ _ _ Hm _]. unfold idx.
  pose proof (Z.div_pos (a - start b) (min_order_size b) ltac:(lia) ltac:(lia)).
  pose proof (Z.div_le_mono (a - start b) (meta_start b - start b) (min_order_size b)
    ltac:(lia) ltac:(lia)).
  split; [done|]. pose proof (Z.div_lt_upper_bound ((a - start b) / min_order_size b) 8
    (Z.of_nat (length (meta b))) ltac:(lia) ltac:(lia)).
  pose proof (Z.div_pos ((a - start b) / min_order_size b) 8). lia.
Qed.

Lemma idx_inj b a a' : geom b → in_bounds b a → in_bounds b a' → idx b a = idx b a' → a = a'.
Proof.
  intros Hg [Ha Hd] [Ha' Hd'] E. pose proof (mos_pos b Hg).
  destruct Hg as [_ _ [Hs _] _ _ _ _]. unfold idx in E.
  assert (min_order_size b | a - start b) as [q Hq] by by apply Z.divide_sub_r.
  assert (min_order_size b | a' - start b) as [q' Hq'] by by apply Z.divide_sub_r.
  rewrite Hq, Hq', !Z.div_mul in E by lia. subst q'. lia.
Qed.

Lemma land_bit x k : 0 <= x → 0 <= k → (0 <? Z.land x (Z.shiftl 1 k)) = Z.testbit x k.
Proof.
  intros Hx Hk. rewrite Z.shiftl_1_l.
  assert (Z.land x (2 ^ k) = if Z.testbit x k then 2 ^ k else 0) as ->.
  { apply Z.bits_inj'. intros j Hj. rewrite Z.land_spec.
    destruct (Z.eq_dec j k) as [->|Hne].
    - rewrite Z.pow2_bits_true by done. destruct (Z.testbit x k); [by rewrite Z.pow2_bits_true|].
      by rewrite Z.bits_0.
    - rewrite Z.pow2_bits_false by done. rewrite andb_false_r.
      destruct (Z.testbit x k); [by rewrite Z.pow2_bits_false|by rewrite Z.bits_0]. }
  pose proof (Z.pow_pos_nonneg 2 k). destruct (Z.testbit x k); [|done].
  apply Z.ltb_lt. lia.
Qed.

(** Setting or clearing bit [k] of a byte. *)
Definition put_bit (x k : Z) (v : bool) : Z :=
  if v then Z.lor x (Z.shiftl 1 k) else Z.land x (255 - Z.shiftl 1 k).

Lemma put_bit_spec x k v : 0 <= x < 256 → 0 <= k < 8 →
  0 <= put_bit x k v < 256 ∧
  ∀ j, 0 <= j < 8 → Z.testbit (put_bit x k v) j = if j =? k then v else Z.testbit x j.
Proof.
  intros Hx Hk. unfold put_bit. rewrite Z.shiftl_1_l.
  assert (255 - 2 ^ k = Z.ldiff 255 (2 ^ k)) as ->.
  { apply Z.sub_nocarry_ldiff. assert (k = 0 ∨ k = 1 ∨ k = 2 ∨ k = 3 ∨ k = 4 ∨ k = 5 ∨ k = 6 ∨ k = 7)
      as [->|[->|[->|[->|[->|[->|[->| ->]]]]]]] by lia; reflexivity. }
  assert (∀ y, 0 <= y → (∀ j, 8 <= j → Z.testbit y j = false) → 0 <= y < 256) as Hb.
  { intros y H0 H. split; [done|]. destruct (Z.eq_dec y 0) as [->|Hy]; [lia|].
    apply (Z.log2_lt_pow2 y 8); [lia|]. destruct (Z.lt_ge_cases (Z.log2 y) 8); [done|].
    pose proof (Z.bit_log2 y ltac:(lia)). rewrite H in H2 by done. done. }
  assert (∀ j, 8 <= j → Z.testbit x j = false) as Hxj.
  { intros j Hj. destruct (Z.eq_dec x 0) as [->|]; [apply Z.bits_0|].
    apply Z.bits_above_log2; [lia|]. apply Z.lt_le_trans with 8; [|done].
    apply Z.log2_lt_pow2; lia. }
  pose proof (Z.pow_pos_nonneg 2 k). destruct v; split.
  - apply Hb; [apply Z.lor_nonneg; lia|]. intros j Hj.
    by rewrite Z.lor_spec, Hxj, Z.pow2_bits_false by lia.
  - intros j Hj. rewrite Z.lor_spec. destruct (Z.eqb_spec j k) as [->|Hne].
    + rewrite Z.pow2_bits_true by lia. apply orb_true_r.
    + rewrite Z.pow2_bits_false by lia. apply orb_false_r.
  - apply Hb; [apply Z.land_nonneg; lia|]. intros j Hj. by rewrite Z.land_spec, Hxj.
  - intros j Hj. rewrite Z.land_spec, Z.ldiff_spec.
    assert (Z.testbit 255 j = true) as ->.
    { change 255 with (Z.ones 8). apply Z.ones_spec_low. lia. }
    destruct (Z.eqb_spec j k) as [->|Hne].
    + rewrite Z.pow2_bits_true by lia. apply andb_false_r.
    + rewrite Z.pow2_bits_false by lia. simpl. apply andb_true_r.
Qed.

Lemma meta_byte_ok b a : geom b → in_bounds b a →
  meta_byte b (idx b a / 8) = Ret (nth (Z.to_nat (idx b a / 8)) (meta b) 0) ∧
  0 <= nth (Z.to_nat (idx b a / 8)) (meta b) 0 < 256.
Proof.
  intros Hg Ha. destruct (idx_bounds b a Hg Ha) as [_ Hi].
  destruct (lookup_lt_is_Some_2 _ _ Hi) as [x Hx]. unfold meta_byte.
  rewrite (nth_lookup_Some _ _ 0 x Hx), Hx. split; [done|].
  pose proof (g_bytes b Hg) as Hb. by eapply Forall_lookup_1 in Hb.
Qed.

Lemma is_alloced_ok b a : geom b → in_bounds b a → is_alloced b a = Ret (bit_at b a).
Proof.
  intros Hg Ha. unfold is_alloced. rewrite in_bounds_outside by done.
  pose proof Ha as [[? ?] _]. destruct (idx_bounds b a Hg Ha) as [Hi0 _].
  pose proof (g_start b Hg). u. fold (idx b a).
  destruct (meta_byte_ok b a Hg Ha) as [-> Hx]. cbn [mbind res_bind].
  pose proof (Z.mod_pos_bound (idx b a) 8). by rewrite land_bit by lia.
Qed.

(** What changing the bitmap, the lists and the count leaves alone. *)
Definition same_zone (b b' : BuddyAllocator) : Prop :=
  start b' = start b ∧ meta_start b' = meta_start b ∧ max_order b' = max_order b ∧
  min_order_size b' = min_order_size b ∧ min_order_bits b' = min_order_bits b.

Lemma set_is_alloced_ok b a v :
  geom b → in_bounds b a →
  ∃ m, set_is_alloced a v b = Ret ((), set_meta m b) ∧ geom (set_meta m b) ∧
    bit_at (set_meta m b) a = v ∧
    ∀ a', in_bounds b a' → a' ≠ a → bit_at (set_meta m b) a' = bit_at b a'.
Proof.
  intros Hg Ha. pose proof Ha as [[? ?] _]. pose proof (g_start b Hg).
  destruct (idx_bounds b a Hg Ha) as [Hi0 Hi]. destruct (meta_byte_ok b a Hg Ha) as [Hmb Hx].
  unfold set_is_alloced. rewrite in_bounds_outside by done. u. fold (idx b a).
  rewrite Hmb. cbn [mbind res_bind]. fold (put_bit (nth (Z.to_nat (idx b a / 8)) (meta b) 0)
    (idx b a mod 8) v).
  set (x := nth _ _ _) in *. set (i := Z.to_nat (idx b a / 8)) in *.
  pose proof (Z.mod_pos_bound (idx b a) 8 eq_refl) as Hk.
  destruct (put_bit_spec x (idx b a mod 8) v Hx Hk) as [Hr Hbits].
  eexists. split; [reflexivity|]. split; [|split].
  - destruct Hg. constructor; simpl; try done.
    + by rewrite length_insert.
    + by apply Forall_insert.
  - unfold bit_at, idx. simpl. fold (idx b a) i.
    rewrite (nth_lookup_Some _ _ 0 (put_bit x (idx b a mod 8) v)) by by apply list_lookup_insert_eq.
    by rewrite Hbits, Z.eqb_refl.
  - intros a' Ha' Hne. unfold bit_at. change (idx (set_meta _ b)) with (idx b). simpl.
    destruct (idx_bounds b a' Hg Ha') as [Hj0 Hj].
    destruct (Nat.eq_dec (Z.to_nat (idx b a' / 8)) i) as [E|E].
    + rewrite E. rewrite (nth_lookup_Some _ _ 0 (put_bit x (idx b a mod 8) v)) by by apply list_lookup_insert_eq.
      rewrite Hbits by by apply Z.mod_pos_bound.
      destruct (Z.eqb_spec (idx b a' mod 8) (idx b a mod 8)) as [Em|]; [|done].
      exfalso. apply Hne, (idx_inj b); try done.
      pose proof (Z.div_pos (idx b a) 8). pose proof (Z.div_pos (idx b a') 8).
      rewrite (Z.div_mod (idx b a') 8), (Z.div_mod (idx b a) 8) by lia. subst i. lia.
    + f_equal. rewrite !nth_lookup. by rewrite list_lookup_insert_ne by done.
Qed.

(** *** Tilings *)

Lemma tiling_perm b b' l l' :
  start b' = start b → meta_start b' = meta_start b → l ≡ₚ l' → tiling b l → tiling b' l'.
Proof.
  intros E1 E2 Hp [H1 H2 H3]. constructor.
  - by apply (ForallOrdPairs_perm napart l l' napart_sym).
  - rewrite <- Hp. eapply Forall_impl; [exact H2|]. intros n. unfold in_zone. by rewrite E1, E2.
  - by rewrite <- Hp, E1, E2.
Qed.

(** Cutting a block in two. *)
Lemma tiling_split b n l h :
  0 < h → b_size n = 2 * h → tiling b (n :: l) →
  tiling b (mkB (b_addr n) h :: mkB (b_addr n + h) h :: l).
Proof.
  intros Hh Hs [H1 H2 H3]. inversion H1 as [|? ? Ha Hl]; subst.
  apply Forall_cons in H2 as [(Hd & Hb1 & Hb2) H2]. unfold b_end in *. rewrite Hs in *.
  assert (h | b_addr n) as Hdh by (etransitivity; [|exact Hd]; by exists 2).
  constructor.
  - constructor; [constructor|constructor].
    + left. unfold b_end. simpl. lia.
    + eapply Forall_impl; [exact Ha|]. unfold napart, b_end. simpl. lia.
    + eapply Forall_impl; [exact Ha|]. unfold napart, b_end. simpl. lia.
    + done.
  - constructor; [|constructor; [|done]]; unfold in_zone, b_end; simpl.
    + split_and!; [done|lia|lia].
    + split_and!; [apply Z.divide_add_r; [done|apply Z.divide_refl]|lia|lia].
  - simpl in *. lia.
Qed.

Lemma tiling_apart b l1 n l2 m : tiling b (l1 ++ n :: l2) → m ∈ l1 ++ l2 → napart n m.
Proof.
  intros [H _ _] Hm. apply (ForallOrdPairs_perm napart _ (n :: l1 ++ l2)) in H;
    [|apply napart_sym|solve_Permutation].
  inversion H as [|? ? Ha _]; subst. rewrite Forall_forall in Ha. by apply Ha.
Qed.

(** *** Lists of blocks *)

Lemma wp_with_list {T} order (f : list bnode → res (T * list bnode)) b l x l' Q :
  olist b !! Z.to_nat order = Some l → f l = Ret (x, l') →
  Q x (set_olist (<[Z.to_nat order := l']> (olist b)) b) → wp (with_list order f) b Q.
Proof. intros Hl Hf HQ. eexists _, _. unfold with_list. by rewrite Hl, Hf. Qed.

Lemma wp_gets {T} (f : BuddyAllocator → T) b Q : Q (f b) b → wp (gets f) b Q.
Proof. intros H. by exists (f b), b. Qed.

Lemma wp_modify f b Q : Q () (f b) → wp (modify f) b Q.
Proof. intros H. by exists (), (f b). Qed.

Lemma olist_lookup b i : geom b → (i < 32)%nat → ∃ l, olist b !! i = Some l.
Proof. intros Hg Hi. apply lookup_lt_is_Some_2. rewrite (g_lists b Hg). unfold MAX_ORDER. lia. Qed.

Lemma set_olist_geom b o : geom b → length o = length (olist b) → geom (set_olist o b).
Proof. intros [] E. constructor; simpl; try done. by rewrite E. Qed.

Lemma set_olist_id b i l : olist b !! i = Some l → set_olist (<[i:=l]> (olist b)) b = b.
Proof. intros H. unfold set_olist. rewrite list_insert_id by done. by destruct b. Qed.

(** The sizes of the lists after one of them changes. *)
Lemma sizes_insert b i l' :
  sizes_ok b → Forall (λ n, b_size n = block_sz b (Z.of_nat i) ∧ Z.of_nat i <= max_order b) l' →
  sizes_ok (set_olist (<[i:=l']> (olist b)) b).
Proof.
  intros Hs Hl j l H. simpl in H. change (block_sz (set_olist _ b)) with (block_sz b). simpl.
  apply list_lookup_insert_Some in H as [(<- & <- & _)|[_ H]]; [done|by apply Hs].
Qed.

(** Splitting the first block of list [S j] into two on list [j]. *)
Definition split_result (b : BuddyAllocator) (j : nat) (n : bnode) (l m : list bnode) (h : Z) :=
  set_olist (<[j := mkB (b_addr n) h :: mkB (b_addr n + h) h :: m]> (<[S j := l]> (olist b))) b.

Lemma split_step b live j n l m :
  binv b live → olist b !! S j = Some (n :: l) → olist b !! j = Some m →
  binv (split_result b j n l m (block_sz b (Z.of_nat j))) live.
Proof.
  intros [Hg Hs Ht Hf Hl] Hn Hm. set (h := block_sz b (Z.of_nat j)).
  assert (0 < h) as Hh by (apply block_sz_pos; [done|lia]).
  pose proof (Hs _ _ Hn) as [[Hsz Hle] Hsl]%Forall_cons. pose proof (Hs _ _ Hm) as Hsm.
  assert (b_size n = 2 * h) as E2.
  { rewrite Hsz. subst h. unfold block_sz. destruct Hg as [[? _] _ _ _ _ _ _].
    rewrite <- Z.pow_succ_r by lia. f_equal. lia. }
  destruct (concat_two (olist b) (S j) j _ _ ltac:(lia) Hn Hm) as (rest & P1 & P2).
  specialize (P2 l (mkB (b_addr n) h :: mkB (b_addr n + h) h :: m)).
  unfold split_result. constructor.
  - apply set_olist_geom; [done|]. by rewrite !length_insert.
  - intros i k Hk. simpl in Hk. change (block_sz (set_olist _ b)) with (block_sz b). simpl.
    apply list_lookup_insert_Some in Hk as [(<- & <- & _)|[_ Hk]].
    { constructor; [simpl; split; [done|lia]|]. constructor; [simpl; split; [done|lia]|done]. }
    apply list_lookup_insert_Some in Hk as [(<- & <- & _)|[_ Hk]]; [done|by apply Hs].
  - apply (tiling_perm b _ (mkB (b_addr n) h :: mkB (b_addr n + h) h :: l ++ m ++ rest ++ live)); try done.
    { unfold free_nodes. simpl. rewrite P2. solve_Permutation. }
    apply tiling_split; [done|done|]. eapply (tiling_perm b b); [done|done| |exact Ht].
    unfold free_nodes. rewrite P1. solve_Permutation.
  - simpl. rewrite Hf. unfold free_nodes. simpl. rewrite P1, P2, !btotal_app. simpl.
    lia.
  - exact Hl.
Qed.

(** [split_order] brings a block down to the list below [order] when some list
    from [order] up has one, and else changes nothing. *)
Lemma split_order_ok fuel b live order :
  binv b live → 0 < order → (1 <= fuel)%nat → max_order b - order + 2 <= Z.of_nat fuel →
  wp (split_order fuel order) b (λ ok b',
    binv b' live ∧ same_zone b b' ∧ meta b' = meta b ∧
    (if ok then ∃ n l, olist b' !! Z.to_nat (order - 1) = Some (n :: l)
     else b' = b ∧ ∀ i l, order <= i → olist b !! Z.to_nat i = Some l → l = [])).
Proof.
  revert b order. induction fuel as [|fuel IH]; intros b order Hb Ho H1 Hf; [lia|].
  cbn [split_order]. pose proof (b_geom _ _ Hb) as Hg.
  pose proof (g_max b Hg) as [Hm _]. unfold MAX_ORDER in Hm.
  apply wp_bind. eexists _, _. split; [reflexivity|].
  assert (∀ i l, max_order b < i → olist b !! Z.to_nat i = Some l → l = []) as Habove.
  { intros i l Hi Hl. pose proof (b_sizes _ _ Hb _ _ Hl) as Hs.
    destruct l as [|n l]; [done|]. apply Forall_cons in Hs as [[_ Hs] _]. lia. }
  destruct (Z.ltb_spec (max_order b) order) as [Hlt|Hle].
  { simpl. apply wp_ret. split_and!; try done. intros i l Hi. apply Habove. lia. }
  rewrite (proj2 (Z.eqb_neq order 0)) by lia. simpl orb.
  destruct (olist_lookup b (Z.to_nat order) Hg ltac:(lia)) as [lo Hlo].
  destruct (olist_lookup b (Z.to_nat (order - 1)) Hg ltac:(lia)) as [lm Hlm].
  apply wp_bind. eapply wp_with_list; [exact Hlo|reflexivity|]. rewrite set_olist_id by done.
  apply wp_bind. eapply wp_lift; [apply uadd_ok; lia|].
  apply wp_bind.
  assert (wp (if negb (Z.of_nat (length lo) =? 0) then mret true else split_order fuel (order + 1)) b
    (λ ok b', binv b' live ∧ same_zone b b' ∧ meta b' = meta b ∧
      (if ok then ∃ n l, olist b' !! Z.to_nat order = Some (n :: l)
       else b' = b ∧ ∀ i l, order <= i → olist b !! Z.to_nat i = Some l → l = []))) as Hrec.
  { destruct lo as [|n lo].
    - simpl negb. eapply wp_mono; [apply IH; try done; lia|].
      intros ok b' (Hb' & Hz & Hme & Hok). split_and!; try done.
      destruct ok; [by replace (order + 1 - 1) with order in Hok by lia|].
      destruct Hok as [-> Hok]. split; [done|]. intros i l Hi Hl.
      destruct (Z.eq_dec i order) as [->|]; [congruence|]. eapply Hok; [|done]. lia.
    - rewrite (proj2 (Z.eqb_neq _ _)) by (simpl; lia). apply wp_ret. split_and!; try done.
      by exists n, lo. }
  eapply wp_mono; [exact Hrec|]. clear Hrec. intros ok b' (Hb' & Hz & Hme & Hok).
  destruct ok; [|by apply wp_ret].
  destruct Hok as (n & l & Hn). pose proof (b_geom _ _ Hb') as Hg'.
  destruct (olist_lookup b' (Z.to_nat (order - 1)) Hg' ltac:(lia)) as [m Hmm].
  assert (Z.to_nat order = S (Z.to_nat (order - 1))) as Ei by lia. rewrite Ei in Hn.
  set (j := Z.to_nat (order - 1)) in *.
  pose proof (split_step b' live j n l m Hb' Hn Hmm) as Hsp.
  pose proof (b_sizes _ _ Hb' _ _ Hn) as [[Hsz _] _]%Forall_cons.
  pose proof (t_zone _ _ (b_tiling _ _ Hb')) as Hzn.
  assert (Z.shiftr (b_size n) 1 = block_sz b' (Z.of_nat j)) as Eh.
  { rewrite Hsz. unfold block_sz. destruct Hg' as [[? _] _ _ _ _ _ _].
    rewrite Z.shiftr_div_pow2 by lia.
    replace (Z.of_nat (S j) + min_order_bits b') with (Z.of_nat j + min_order_bits b' + 1) by lia.
    rewrite Z.pow_add_r by lia. apply Z.div_mul. lia. }
  assert (Z.lxor (b_addr n) (Z.shiftr (b_size n) 1) = b_addr n + block_sz b' (Z.of_nat j)) as Ex.
  { rewrite Eh. unfold block_sz. destruct Hg' as [[? _] _ _ _ _ _ _]. apply lxor_half; [lia|].
    rewrite Forall_forall in Hzn. destruct (Hzn n) as [Hd _].
    { apply elem_of_app. left. apply list_elem_of_In, in_concat. exists (n :: l).
      split; [eapply list_elem_of_In, list_elem_of_lookup_2; exact Hn|by left]. }
    rewrite Hsz in Hd. unfold block_sz in Hd.
    by replace (Z.of_nat j + min_order_bits b' + 1) with (Z.of_nat (S j) + min_order_bits b') by lia. }
  apply wp_bind. eapply wp_with_list; [rewrite Ei; exact Hn|reflexivity|].
  apply wp_bind. eapply wp_lift; [reflexivity|].
  apply wp_bind. eapply wp_with_list.
  { simpl. rewrite Ei, list_lookup_insert_ne by lia. exact Hmm. }
  { reflexivity. }
  apply wp_bind. eapply wp_with_list.
  { simpl. apply list_lookup_insert_eq. rewrite length_insert. by eapply lookup_lt_Some. }
  { reflexivity. }
  apply wp_ret. rewrite Ex, Eh. simpl. rewrite list_insert_insert_eq. fold j. rewrite Ei.
  split; [exact Hsp|]. split; [exact Hz|]. split; [exact Hme|].
  eexists _, _. simpl. apply list_lookup_insert_eq. rewrite length_insert. by eapply lookup_lt_Some.
Qed.

(** *** Allocation and freeing *)

Lemma free_pos b : geom b → sizes_ok b → Forall (λ n, 0 < b_size n) (free_nodes b).
Proof.
  intros Hg Hs. apply Forall_concat, Forall_lookup. intros i l Hl.
  eapply Forall_impl; [exact (Hs i l Hl)|]. intros n [-> _]. apply block_sz_pos; [done|lia].
Qed.

Lemma btotal_nonneg l : Forall (λ n, 0 < b_size n) l → 0 <= btotal l.
Proof. induction 1; simpl; lia. Qed.

Lemma live_pos b live : geom b → Forall (live_ok b) live → Forall (λ n, 0 < b_size n) live.
Proof.
  intros Hg Hl. eapply Forall_impl; [exact Hl|]. intros n [(i & Hi & ->) _].
  apply block_sz_pos; [done|lia].
Qed.

(** A block of a tiling sits at an address the bitmap covers. *)
Lemma block_in_bounds b n i :
  geom b → in_zone b n → 0 <= i → b_size n = block_sz b i → in_bounds b (b_addr n).
Proof.
  intros Hg (Hd & H1 & H2) Hi Hs. pose proof (block_sz_pos b i Hg Hi).
  unfold b_end in *. split; [lia|]. etransitivity; [|exact Hd]. rewrite Hs. by apply block_sz_mos.
Qed.

Lemma live_in_bounds b live :
  binv b live → ∀ n, n ∈ live → in_bounds b (b_addr n).
Proof.
  intros [Hg _ [_ Hz _] _ Hl] n Hn. rewrite Forall_forall in Hl.
  destruct (Hl n Hn) as [(i & Hi & Hs) _]. apply (block_in_bounds b n i); try done; [|lia].
  rewrite Forall_forall in Hz. apply Hz, elem_of_app. by right.
Qed.

(** Block [n] leaves the free lists, is marked, and is handed out. *)
Lemma take_block b live i n l :
  binv b live → olist b !! i = Some (n :: l) →
  let b1 := set_olist (<[i:=l]> (olist b)) b in
  ∃ m, set_is_alloced (b_addr n) true b1 = Ret ((), set_meta m b1) ∧
    0 <= free_space b - b_size n < U64 ∧
    binv (set_free_space (free_space b - b_size n) (set_meta m b1)) (n :: live).
Proof.
  intros [Hg Hs Ht Hf Hl] Hn b1.
  pose proof (Hs _ _ Hn) as [[Hsz Hle] Hsl]%Forall_cons.
  destruct (concat_lookup (olist b) i _ Hn) as (rest & P1 & P2). specialize (P2 l).
  assert (geom b1) as Hg1 by (apply set_olist_geom; [done|by rewrite length_insert]).
  assert (sizes_ok b1) as Hs1 by by apply sizes_insert.
  pose proof Ht as [_ Hz Htot].
  assert (free_nodes b ≡ₚ n :: l ++ rest) as Pf by by rewrite (P1 : free_nodes b ≡ₚ _).
  assert (in_zone b n) as Hzn.
  { rewrite Forall_forall in Hz. apply Hz, elem_of_app. left. rewrite Pf. by left. }
  assert (in_bounds b (b_addr n)) as Hib by (eapply block_in_bounds; [done|done| |done]; lia).
  destruct (set_is_alloced_ok b1 (b_addr n) true Hg1 Hib) as (m & E & Hg2 & Hbit & Hoth).
  exists m. split; [done|].
  pose proof (btotal_nonneg _ (free_pos b Hg Hs)) as Hp.
  pose proof (btotal_nonneg _ (free_pos b1 Hg1 Hs1)) as Hp1.
  pose proof (btotal_nonneg _ (live_pos b live Hg Hl)) as Hpl.
  assert (btotal (free_nodes b) = b_size n + btotal (free_nodes b1)) as Et.
  { rewrite Pf. unfold b1, free_nodes. simpl. by rewrite P2. }
  rewrite btotal_app in Htot. pose proof (g_start b Hg).
  pose proof (block_sz_pos b (Z.of_nat i) Hg ltac:(lia)). split; [lia|].
  constructor.
  - destruct Hg2. by constructor.
  - exact Hs1.
  - eapply (tiling_perm b); [done|done| |exact Ht]. unfold free_nodes at 2. simpl. rewrite P2.
    rewrite Pf. solve_Permutation.
  - change (free_space b - b_size n = btotal (free_nodes b1)). lia.
  - constructor.
    { split; [|exact Hbit]. exists (Z.of_nat i). simpl. split; [lia|done]. }
    apply Forall_forall. intros k Hk. pose proof (proj1 (Forall_forall _ _) Hl k Hk) as [Hki Hkb].
    split; [exact Hki|].
    assert (in_bounds b (b_addr k)) as Hkin by by apply (live_in_bounds b live).
    assert (b_addr k ≠ b_addr n) as Hne.
    { intros E'. destruct (tiling_apart b [] n (l ++ rest ++ live) k).
      - eapply (tiling_perm b b); [done|done| |exact Ht]. rewrite Pf. solve_Permutation.
      - set_solver.
      - pose proof (block_sz_pos b (Z.of_nat i) Hg ltac:(lia)). unfold b_end in *. lia.
      - destruct Hki as (j & Hj & Hkj). pose proof (block_sz_pos b j Hg ltac:(lia)).
        unfold b_end in *. lia. }
    rewrite <- Hkb. apply (Hoth (b_addr k)); [exact Hkin|exact Hne].
Qed.

(** Block [n] is freed. *)
Lemma give_block b l1 n l2 i l :
  binv b (l1 ++ n :: l2) → olist b !! i = Some l → b_size n = block_sz b (Z.of_nat i) →
  Z.of_nat i <= max_order b →
  ∃ m, set_is_alloced (b_addr n) false b = Ret ((), set_meta m b) ∧
    0 <= free_space b + b_size n < U64 ∧
    geom (set_free_space (free_space b + b_size n) (set_meta m b)) ∧
    binv (set_olist (<[i:=n :: l]> (olist b))
      (set_free_space (free_space b + b_size n) (set_meta m b))) (l1 ++ l2).
Proof.
  intros Hb Hi Hsz Hle. pose proof Hb as [Hg Hs Ht Hf Hl].
  pose proof (live_in_bounds b _ Hb n ltac:(set_solver)) as Hib.
  destruct (set_is_alloced_ok b (b_addr n) false Hg Hib) as (m & E & Hg2 & Hbit & Hoth).
  exists m. split; [done|].
  destruct (concat_lookup (olist b) i _ Hi) as (rest & P1 & P2). specialize (P2 (n :: l)).
  pose proof (t_total _ _ Ht) as Htot.
  pose proof (btotal_nonneg _ (free_pos b Hg Hs)) as Hp.
  pose proof (live_pos b _ Hg Hl) as Hpl.
  apply Forall_app in Hpl as [Hpl1 [Hpn Hpl2]%Forall_cons].
  apply btotal_nonneg in Hpl1, Hpl2. rewrite !btotal_app in Htot. simpl in Htot.
  pose proof (g_start b Hg). split; [lia|].
  assert (geom (set_free_space (free_space b + b_size n) (set_meta m b))) as Hg3
    by (destruct Hg2; by constructor).
  split; [exact Hg3|]. constructor.
  - apply set_olist_geom; [done|]. simpl. by rewrite length_insert.
  - intros j k Hk. simpl in Hk. apply list_lookup_insert_Some in Hk as [(<- & <- & _)|[_ Hk]].
    + constructor; [by split|]. by apply Hs.
    + by apply (Hs j).
  - eapply (tiling_perm b); [done|done| |exact Ht]. unfold free_nodes at 2. simpl. rewrite P2.
    unfold free_nodes. rewrite P1. solve_Permutation.
  - simpl. rewrite Hf. unfold free_nodes. simpl. rewrite P1, P2. simpl. lia.
  - apply Forall_forall. intros k Hk.
    assert (k ∈ l1 ++ n :: l2) as Hk' by set_solver.
    pose proof (proj1 (Forall_forall _ _) Hl k Hk') as [Hki Hkb]. split; [exact Hki|].
    assert (b_addr k ≠ b_addr n) as Hne.
    { intros E'. destruct (tiling_apart b (free_nodes b ++ l1) n l2 k).
      - by rewrite <- app_assoc.
      - set_solver.
      - unfold b_end in *. lia.
      - destruct Hki as (j & Hj & Hkj). pose proof (block_sz_pos b j Hg ltac:(lia)).
        unfold b_end in *. lia. }
    rewrite <- Hkb. apply (Hoth (b_addr k)); [|done]. by apply (live_in_bounds b _ Hb).
Qed.

Definition handed (m : Allocation) : bnode := mkB (m_addr m) (m_len m).

Lemma oalloc_ok b live order :
  binv b live → 0 <= order →
  wp (oalloc order) b (λ o b', same_zone b b' ∧
    match o with
    | Some m => zindex m = 0 ∧ m_len m = block_sz b order ∧ order <= max_order b ∧
        binv b' (handed m :: live)
    | None => b' = b ∧ ∀ i l, order <= i → olist b !! Z.to_nat i = Some l → l = []
    end).
Proof.
  intros Hb Ho. unfold oalloc. pose proof (b_geom _ _ Hb) as Hg.
  pose proof (g_max b Hg) as [Hm _]. unfold MAX_ORDER in Hm.
  apply wp_bind. eexists _, _. split; [reflexivity|].
  destruct (Z.ltb_spec (max_order b) order) as [Hlt|Hle].
  { apply wp_ret. split_and!; try done. intros i l Hi Hl.
    pose proof (b_sizes _ _ Hb _ _ Hl) as Hs. destruct l as [|n l]; [done|].
    apply Forall_cons in Hs as [[_ Hs] _]. lia. }
  destruct (olist_lookup b (Z.to_nat order) Hg ltac:(lia)) as [lo Hlo].
  apply wp_bind. eapply wp_with_list; [exact Hlo|reflexivity|]. rewrite set_olist_id by done.
  apply wp_bind. eapply wp_lift; [apply uadd_ok; lia|]. apply wp_bind.
  assert (wp (if Z.of_nat (length lo) =? 0 then split_order order_fuel (order + 1) else mret true) b
    (λ ok b', binv b' live ∧ same_zone b b' ∧
      (if ok then ∃ n l, olist b' !! Z.to_nat order = Some (n :: l)
       else b' = b ∧ ∀ i l, order <= i → olist b !! Z.to_nat i = Some l → l = []))) as Hrec.
  { destruct lo as [|n lo].
    - simpl Z.eqb. eapply wp_mono; [apply (split_order_ok _ b live); [done|lia| |]; unfold order_fuel; lia|].
      intros ok b' (Hb' & Hz & Hme & Hok). split; [done|split; [done|]].
      destruct ok; [by replace (order + 1 - 1) with order in Hok by lia|].
      destruct Hok as [-> Hok]. split; [done|]. intros i l Hi Hl.
      destruct (Z.eq_dec i order) as [->|]; [congruence|]. eapply Hok; [|done]. lia.
    - rewrite (proj2 (Z.eqb_neq _ _)) by (simpl; lia). apply wp_ret. split_and!; try done.
      by exists n, lo. }
  eapply wp_mono; [exact Hrec|]. clear Hrec. intros ok b' (Hb' & Hz & Hok).
  destruct ok; [|by apply wp_ret; destruct Hok as [-> ?]]. destruct Hok as (n & l & Hn).
  destruct (take_block b' live _ n l Hb' Hn) as (m & E & Hfs & Hb2).
  pose proof (b_sizes _ _ Hb' _ _ Hn) as [[Hsz _] _]%Forall_cons.
  apply wp_bind. eapply wp_with_list; [exact Hn|reflexivity|].
  apply wp_bind. eapply wp_lift; [reflexivity|].
  apply wp_bind. eexists _, _. split; [exact E|].
  apply wp_bind. eexists _, _. split; [reflexivity|].
  apply wp_bind. eapply wp_lift; [apply usub_ok; simpl; lia|].
  apply wp_bind. eexists _, _. split; [reflexivity|].
  apply wp_ret. split; [done|]. simpl. split; [done|]. destruct Hz as (_ & _ & Ez & _ & Eb).
  split; [|split; [lia|]].
  - rewrite Hsz. unfold block_sz. rewrite Eb. f_equal. lia.
  - unfold handed. simpl. destruct n. exact Hb2.
Qed.

(** The merging loop never runs: the test [addr2 > self.start] stops it at once. *)
Lemma insert_node_ok fuel b n order :
  0 < b_size n → start b <= b_addr n →
  insert_node (S fuel) n order b = with_list order (l_push_front n) b.
Proof.
  intros Hs Ha. cbn [insert_node]. unfold get. 
  pose proof (lxor_ne (b_addr n) (b_size n) ltac:(lia)) as Hne.
  assert ((Z.lxor (b_addr n) (b_size n) <? b_addr n) || (start b <? Z.lxor (b_addr n) (b_size n)) = true)
    as Hstop.
  { apply orb_true_iff. destruct (Z.lt_ge_cases (Z.lxor (b_addr n) (b_size n)) (b_addr n)).
    - left. by apply Z.ltb_lt.
    - right. apply Z.ltb_lt. lia. }
  rewrite (M_bind_Ret _ _ b b b) by done. rewrite Hstop. by rewrite (M_bind_Ret _ _ b true b).
Qed.

Lemma dealloc_ok b l1 n l2 :
  binv b (l1 ++ n :: l2) →
  ∀ m, handed m = n → wp (dealloc m) b (λ _ b', same_zone b b' ∧ binv b' (l1 ++ l2)).
Proof.
  intros Hb m Hm. pose proof (b_geom _ _ Hb) as Hg. pose proof (g_start b Hg).
  pose proof (live_in_bounds b _ Hb n ltac:(set_solver)) as Hib.
  assert (live_ok b n ∧ in_zone b n) as [[(i & Hi & Hsz) Hbit] (Hd & Hz1 & Hz2)].
  { split; [|].
    - pose proof (b_live _ _ Hb) as Hl. rewrite Forall_forall in Hl. apply Hl. set_solver.
    - pose proof (t_zone _ _ (b_tiling _ _ Hb)) as Hl. rewrite Forall_forall in Hl. apply Hl. set_solver. }
  pose proof (block_sz_pos b i Hg ltac:(lia)) as Hpos. pose proof (g_max b Hg) as [Hmx _].
  unfold MAX_ORDER in Hmx.
  destruct (olist_lookup b (Z.to_nat i) Hg ltac:(lia)) as [l Hl].
  destruct (give_block b l1 n l2 (Z.to_nat i) l Hb Hl) as (mm & E & Hfs & Hg2 & Hb2);
    [rewrite Hsz; f_equal; lia|lia|].
  assert (m_addr m = b_addr n ∧ m_len m = b_size n) as [Ea El] by by rewrite <- Hm.
  unfold dealloc. rewrite Ea, El. unfold b_end in *.
  apply wp_bind, wp_get. apply wp_bind. eapply wp_lift.
  { rewrite (proj2 (Z.ltb_ge _ _)) by lia. rewrite uadd_ok by lia. cbn [mbind res_bind].
    rewrite (proj2 (Z.ltb_ge _ _)) by lia. reflexivity. }
  apply wp_bind. eapply wp_lift; [rewrite is_alloced_ok by done; rewrite Hbit; reflexivity|].
  apply wp_bind. eexists _, _. split; [exact E|].
  apply wp_bind, wp_gets. cbn [b_size set_meta free_space].
  apply wp_bind. eapply wp_lift; [apply uadd_ok; lia|].
  apply wp_bind, wp_modify. apply wp_bind, wp_get. apply wp_bind. eapply wp_lift.
  { set (b2 := set_free_space _ _). transitivity (get_order b2 (block_sz b2 i)).
    - cbn [b_size]. f_equal. exact Hsz.
    - apply get_order_block; [exact Hg2|exact Hi]. }
  change order_fuel with (S 65). unfold wp. rewrite insert_node_ok by (simpl; lia).
  eapply (wp_with_list i (l_push_front (mkB (b_addr n) (b_size n))) _ l () (n :: l)).
  - exact Hl.
  - by destruct n.
  - split; [done|exact Hb2].
Qed.

(** *** Construction *)

(** The loop of [init_orders] at address [a]: the blocks made tile [start, a). *)
Record init_inv (b : BuddyAllocator) (a : Z) : Prop := {
  ii_geom : geom b;
  ii_sizes : sizes_ok b;
  ii_apart : ForallOrdPairs napart (free_nodes b);
  ii_zone : Forall (λ n, in_zone b n ∧ b_end n <= a) (free_nodes b);
  ii_total : btotal (free_nodes b) = a - start b;
  ii_addr : (min_order_size b | a) ∧ start b <= a <= meta_start b;
}.

(** The largest block at [a]: a power of two that divides [a] and fits. *)
Lemma init_len b a :
  geom b → meta_start b - start b < 2 ^ (MAX_ORDER + min_order_bits b) →
  meta_start b - start b < 2 ^ 63 →
  (min_order_size b | a) → start b <= a < meta_start b →
  ∃ o, Z.min (align_of a) (2 ^ log2 (meta_start b - a)) = block_sz b o ∧
    0 <= o < MAX_ORDER ∧ o + min_order_bits b <= 62 ∧
    (block_sz b o | a) ∧ a + block_sz b o <= meta_start b.
Proof.
  intros Hg Hsz H63 Ha Hr. pose proof Hg as [[Hb Hm] Hst [_ Hal] _ _ _ _].
  set (k := min_order_bits b) in *. set (d := meta_start b - a).
  assert (is_usize a) as Hu by (unfold is_usize; lia).
  assert (log2 d = Z.log2 d) as -> by (unfold log2, bsr; subst d; destruct (Z.eqb_spec (meta_start b - a) 0); [lia|done]).
  pose proof (Z.log2_spec d ltac:(subst d; lia)) as [Hl1 Hl2]. pose proof (Z.log2_nonneg d).
  assert (2 ^ k <= d) as Hkd.
  { assert (min_order_size b | d) as Hd by by apply Z.divide_sub_r.
    rewrite <- Hm. apply Z.divide_pos_le; [subst d; lia|done]. }
  assert (k <= Z.log2 d) as Hkl by (apply Z.log2_le_pow2; lia).
  destruct (align_of_pow2 a) as (j & Hj & Ej).
  assert (2 ^ k <= align_of a) as Hka.
  { apply align_of_greatest; [done|by exists k; split; [lia|]|apply Z.pow_le_mono_r; [lia|]|by rewrite <- Hm].
    enough (2 ^ k < 2 ^ 63) as Hlt by (apply Z.pow_lt_mono_r_iff in Hlt; lia). subst d. lia. }
  rewrite Ej in Hka. apply Z.pow_le_mono_r_iff in Hka; [|lia|lia].
  assert (∃ q, Z.min (align_of a) (2 ^ Z.log2 d) = 2 ^ q ∧ k <= q ∧ 2 ^ q <= align_of a ∧ q <= Z.log2 d)
    as (q & Eq & Hkq & Hqa & Hql).
  { rewrite Ej. destruct (Z.min_spec (2 ^ j) (2 ^ Z.log2 d)) as [[Hlt ->]|[Hle ->]].
    - exists j. split; [done|]. apply Z.pow_lt_mono_r_iff in Hlt; lia.
    - exists (Z.log2 d). split; [done|]. lia. }
  assert (2 ^ q <= d) as Hqd.
  { transitivity (2 ^ Z.log2 d); [apply Z.pow_le_mono_r; lia|done]. }
  assert (q < 63) by (apply (Z.pow_lt_mono_r_iff 2); subst d; lia).
  assert (q < MAX_ORDER + k) by (apply (Z.pow_lt_mono_r_iff 2); unfold MAX_ORDER in *; subst d; lia).
  exists (q - k). unfold block_sz. fold k. replace (q - k + k) with q by lia.
  split; [done|]. split; [lia|]. split; [lia|]. split; [|subst d; lia].
  apply align_of_lower; [done|by exists q; split; [lia|]|done].
Qed.

Lemma init_loop_ok fuel b a :
  init_inv b a → meta_start b - start b < 2 ^ (MAX_ORDER + min_order_bits b) →
  meta_start b - start b < 2 ^ 63 →
  (meta_start b - a) / min_order_size b < Z.of_nat fuel →
  wp (init_loop fuel a) b (λ _ b', init_inv b' (meta_start b) ∧
    start b' = start b ∧ meta_start b' = meta_start b ∧ meta b' = meta b ∧
    min_order_size b' = min_order_size b ∧ free_space b' = free_space b).
Proof.
  revert b a. induction fuel as [|fuel IH]; intros b a Hi H1 H2 Hf.
  { pose proof (mos_pos b (ii_geom _ _ Hi)). destruct Hi as [_ _ _ _ _ [_ ?]].
    pose proof (Z.div_pos (meta_start b - a) (min_order_size b) ltac:(lia) ltac:(lia)). lia. }
  pose proof Hi as [Hg Hs Hap Hz Ht [Hda Hr]].
  cbn [init_loop]. apply wp_bind, wp_gets.
  destruct (Z.ltb_spec a (meta_start b)) as [Hlt|Hge].
  2: { apply wp_ret. replace (meta_start b) with a by lia. split_and!; try done. }
  destruct (init_len b a Hg H1 H2 Hda ltac:(lia)) as (o & El & Ho & Ho2 & Hdl & Hle).
  pose proof (block_sz_pos b o Hg ltac:(lia)) as Hpos. pose proof (g_start b Hg).
  pose proof (block_sz_mos b o Hg ltac:(lia)) as Hmos.
  assert (0 <= log2 (meta_start b - a) < 64) as Hlog.
  { unfold log2, bsr. destruct (Z.eqb_spec (meta_start b - a) 0); [lia|].
    split; [apply Z.log2_nonneg|]. apply Z.log2_lt_pow2; lia. }
  apply wp_bind. eapply wp_lift; [apply usub_ok; lia|].
  apply wp_bind. eapply wp_lift; [by apply ushl_1_ok|]. rewrite El.
  apply wp_bind, wp_get.
  assert (get_order b (block_sz b o) = Ret o) as Ego.
  { rewrite get_order_ok; [|done|].
    - unfold block_sz. destruct Hg as [[? _] _ _ _ _ _ _]. rewrite Z.log2_up_pow2 by lia. f_equal. lia.
    - split; [lia|]. unfold block_sz. apply Z.pow_le_mono_r; lia. }
  apply wp_bind. eapply wp_lift; [exact Ego|].
  apply wp_bind. eapply wp_lift; [by rewrite (proj2 (Z.leb_le _ _)) by lia|].
  unfold MAX_ORDER in Ho.
  destruct (olist_lookup b (Z.to_nat o) Hg ltac:(lia)) as [l Hl].
  apply wp_bind. eapply wp_with_list; [exact Hl|reflexivity|].
  set (n := mkB a (block_sz b o)). set (b1 := set_olist _ b).
  apply wp_bind, wp_gets. change (max_order b1) with (max_order b).
  set (b2 := set_max_order (Z.max (max_order b) o) b1).
  apply wp_bind. exists (), b2. split.
  { subst b2. destruct (Z.ltb_spec (max_order b) o).
    - by rewrite Z.max_r by lia.
    - rewrite Z.max_l by lia. by destruct b. }
  apply wp_bind. eapply wp_lift; [apply uadd_ok; lia|].
  destruct (concat_lookup (olist b) (Z.to_nat o) l Hl) as (rest & P1 & P2). specialize (P2 (l ++ [n])).
  assert (free_nodes b2 ≡ₚ n :: free_nodes b) as Pn.
  { unfold free_nodes. simpl. rewrite P2, P1. solve_Permutation. }
  assert (init_inv b2 (a + block_sz b o)) as Hi2.
  { constructor.
    - destruct Hg as [Hbb ? ? [? ?] Hll ? ?]. constructor; simpl; try done.
      + unfold MAX_ORDER in *. lia.
      + by rewrite length_insert.
    - intros i k Hk. simpl in Hk. change (block_sz b2) with (block_sz b). simpl.
      apply list_lookup_insert_Some in Hk as [(<- & <- & _)|[_ Hk]].
      + apply Forall_app. split.
        * eapply Forall_impl; [exact (Hs _ _ Hl)|]. simpl. lia.
        * apply Forall_singleton. subst n. simpl. split; [f_equal; lia|lia].
      + eapply Forall_impl; [exact (Hs _ _ Hk)|]. simpl. lia.
    - apply (ForallOrdPairs_perm napart (n :: free_nodes b)); [apply napart_sym|by symmetry|].
      constructor; [|done]. eapply Forall_impl; [exact Hz|]. intros m [_ Hm]. right. exact Hm.
    - rewrite Pn. constructor.
      + unfold in_zone, b_end. subst n. simpl. split_and!; try done; lia.
      + eapply Forall_impl; [exact Hz|]. intros m [Hm1 Hm2]. split; [exact Hm1|lia].
    - rewrite Pn. simpl. lia.
    - simpl. split; [by apply Z.divide_add_r|lia]. }
  pose proof (mos_pos b Hg) as Hmp.
  eapply wp_mono; [apply (IH b2 (a + block_sz b o) Hi2)|].
  - exact H1.
  - exact H2.
  - change (min_order_size b2) with (min_order_size b). change (meta_start b2) with (meta_start b).
    destruct Hmos as [q Hq]. assert (1 <= q) by nia. rewrite Hq.
    replace (meta_start b - (a + q * min_order_size b))
      with (meta_start b - a + (- q) * min_order_size b) by lia.
    rewrite Z.div_add by lia. lia.
  - by intros [] b'.
Qed.

Lemma repeat_sizes b n : olist b = repeat [] n → sizes_ok b.
Proof.
  intros E i l H. rewrite E in H. apply list_elem_of_lookup_2, list_elem_of_In, repeat_spec in H.
  by subst l.
Qed.

Lemma concat_repeat_nil {T} n : concat (repeat ([] : list T) n) = [].
Proof. by induction n. Qed.
End proofs.

Section zone.
Context {B : Build} {A : AddrOps} {AL : AddrLaws}.

(** The page-aligned address a zone starts from. *)
Definition page_up (a : Z) : Z := a + (- a) mod PAGE_SIZE.

Lemma buddy_new_ok a e :
  0 < a → canon a → canon (page_up a) → is_usize e → e < page_up a + 2 ^ 43 →
  (e <= page_up a → buddy_new a e PAGE_SIZE = Panic) ∧
  (page_up a < e → ∃ b, buddy_new a e PAGE_SIZE = Ret b ∧ binv b [] ∧ start b = page_up a ∧
     meta_start b + Z.of_nat (length (meta b)) <= e).
Proof.
  intros H0 Hc Hcs He Hsz. unfold is_usize in He. unfold buddy_new.
  assert (align_up PAGE_SIZE PAGE_SIZE = Ret PAGE_SIZE) as -> by by destruct B.
  cbn [mbind res_bind]. rewrite Z.max_id.
  assert (pow2 PAGE_SIZE) as Hp by by exists 12.
  rewrite (a_up_ok a PAGE_SIZE) by (done || unfold PAGE_SIZE; lia). fold (page_up a).
  set (s := page_up a) in *. cbn [mbind res_bind].
  assert (PAGE_SIZE | s) as Hds.
  { subst s. unfold page_up. apply Z.mod_divide; [done|].
    rewrite Zplus_mod_idemp_r. by replace (a + - a) with 0 by lia. }
  assert (a <= s) as Has by (subst s; unfold page_up; pose proof (Z.mod_pos_bound (- a) PAGE_SIZE eq_refl); lia).
  clearbody s. split; intros Hes.
  { by rewrite (proj2 (Z.leb_le _ _)). }
  rewrite (proj2 (Z.leb_gt _ _)) by lia. unfold PAGE_SIZE in *. cbn [mbind res_bind]. u.
  set (msz := (e - s) / (8 * 4096) + 1).
  assert (1 <= msz ∧ 32768 * (msz - 1) <= e - s < 32768 * msz) as [Hm1 Hm2].
  { subst msz. change (8 * 4096) with 32768. pose proof (Z.div_mod (e - s) 32768 ltac:(lia)).
    pose proof (Z.mod_pos_bound (e - s) 32768 ltac:(lia)). lia. }
  rewrite (uadd_ok ((e - s) / (8 * 4096)) 1) by (change ((e - s) / (8 * 4096) + 1) with msz; lia).
  cbn [mbind res_bind]. fold msz. u.
  rewrite align_down_eq; [|unfold is_usize; lia|by exists 12|lia]. cbn [mbind res_bind].
  set (ms := e - msz - (e - msz) mod 4096).
  assert (4096 | ms) as Hdm.
  { subst ms. exists ((e - msz) / 4096). pose proof (Z.div_mod (e - msz) 4096 ltac:(lia)). lia. }
  assert (s <= ms <= e - msz) as Hms.
  { pose proof (Z.mod_pos_bound (e - msz) 4096 ltac:(lia)).
    destruct (Z.lt_ge_cases ms s) as [Hlt|]; [|subst ms; lia].
    pose proof (divide_gap 4096 ms s eq_refl Hdm Hds Hlt). subst ms. lia. }
  u. set (b0 := mkBuddy _ _ _ _ _ _ _ _).
  assert (init_inv b0 s) as Hi.
  { constructor.
    - constructor; simpl.
      + split; [vm_compute; done|reflexivity].
      + lia.
      + done.
      + change (log2 4096) with 12. unfold MAX_ORDER. lia.
      + reflexivity.
      + rewrite repeat_length. rewrite Z2Nat.id by lia.
        apply Z.div_lt_upper_bound; lia.
      + apply Forall_forall. intros x Hx.
        apply list_elem_of_In, repeat_spec in Hx. lia.
    - by eapply (repeat_sizes b0).
    - change (free_nodes b0) with (concat (repeat ([] : list bnode) (Z.to_nat MAX_ORDER))).
      rewrite concat_repeat_nil. constructor.
    - change (free_nodes b0) with (concat (repeat ([] : list bnode) (Z.to_nat MAX_ORDER))).
      rewrite concat_repeat_nil. constructor.
    - change (free_nodes b0) with (concat (repeat ([] : list bnode) (Z.to_nat MAX_ORDER))).
      rewrite concat_repeat_nil. simpl. lia.
    - simpl. split; [done|lia]. }
  destruct (init_loop_ok (init_fuel b0) b0 s Hi) as ([] & b' & E & Hi' & E1 & E2 & E3 & E4 & E5).
  { simpl. change (MAX_ORDER + log2 4096) with 44. lia. }
  { simpl. lia. }
  { unfold init_fuel. simpl. rewrite Nat2Z.inj_succ, Z2Nat.id by (apply Z.div_pos; lia). lia. }
  unfold init_orders. rewrite (M_bind_Ret _ _ b0 b0 b0) by done.
  change (start b0) with s. rewrite E. cbn [mbind res_bind].
  exists b'. split; [done|]. split; [|split].
  - destruct Hi' as [Hg Hs Hap Hz Ht _]. constructor; try done.
    + constructor; rewrite app_nil_r; [done| |lia].
      eapply Forall_impl; [exact Hz|]. by intros n [? _].
    + rewrite E5, Ht. simpl. rewrite E1. simpl. lia.
  - rewrite E1. done.
  - rewrite E2, E3. simpl. rewrite repeat_length. lia.
Qed.

(** [BuddyAllocator::new] on a region: it panics when the region holds no whole
    page start; otherwise it ends, and the free blocks it made tile exactly the
    memory from the first page boundary to the bitmap, which fits below the end of
    the region. *)
Theorem buddy_new_spec a e :
  0 < a → canon a → canon (page_up a) → is_usize e → e < page_up a + 2 ^ 43 →
  (e <= page_up a → buddy_new a e PAGE_SIZE = Panic) ∧
  (page_up a < e → ∃ b, buddy_new a e PAGE_SIZE = Ret b ∧ binv b [] ∧ start b = page_up a ∧
     meta_start b + Z.of_nat (length (meta b)) <= e).
Proof. apply buddy_new_ok. Qed.

(** A user of one zone: it allocates, and frees allocations it holds. *)
Inductive buddy_op := BAlloc (size : Z) | BFree (i : nat).

Definition buddy_exec (op : buddy_op) (live : list Allocation) : BM (list Allocation) :=
  match op with
  | BAlloc size =>
      o ← alloc size;
      mret match o with Some m => m :: live | None => live end
  | BFree i =>
      match live !! i with
      | None => mret live
      | Some m => dealloc m;; mret (take i live ++ drop (S i) live)
      end
  end.

Fixpoint buddy_run (ops : list buddy_op) (live : list Allocation) : BM (list Allocation) :=
  match ops with
  | [] => mret live
  | op :: ops => live ← buddy_exec op live; buddy_run ops live
  end.

Definition buddy_op_ok (op : buddy_op) : Prop :=
  match op with BAlloc size => 0 <= size <= 2 ^ 62 | BFree _ => True end.

Lemma alloc_ok b live size :
  binv b live → 0 <= size <= 2 ^ 62 →
  wp (alloc size) b (λ o b', same_zone b b' ∧
    match o with
    | Some m => 0 < size ∧ zindex m = 0 ∧ binv b' (handed m :: live) ∧ size <= m_len m ∧
        (m_len m | m_addr m) ∧ (min_order_size b < m_len m → m_len m < 2 * size)
    | None => b' = b ∧ (size = 0 ∨
        ∀ i l n, olist b !! i = Some l → n ∈ l → b_size n < size)
    end).
Proof.
  intros Hb Hs. unfold alloc. destruct (Z.eqb_spec size 0) as [->|Hne].
  { apply wp_ret. split; [done|]. by split; [|left]. }
  pose proof (b_geom _ _ Hb) as Hg. pose proof (g_bits b Hg) as [Hbits Hmos].
  pose proof (Z.log2_up_nonneg size) as Hlu.
  apply wp_bind, wp_get. apply wp_bind. eapply wp_lift; [apply get_order_ok; [done|lia]|].
  remember (Z.max 0 (Z.log2_up size - min_order_bits b)) as o eqn:Eo.
  assert (size <= 2 ^ Z.log2_up size) as Hup.
  { destruct (Z.eq_dec size 1) as [->|]; [done|]. apply Z.log2_up_spec. lia. }
  assert (size <= block_sz b o) as Hfit.
  { transitivity (2 ^ Z.log2_up size); [done|]. apply Z.pow_le_mono_r; lia. }
  eapply wp_mono; [apply (oalloc_ok b live o Hb); lia|].
  intros [m|] b' [Hz H]; (split; [done|]).
  - destruct H as (Hzi & Hlen & Hle & Hb'). split; [lia|]. split; [done|]. split; [done|].
    rewrite Hlen. split; [done|]. split.
    + pose proof (t_zone _ _ (b_tiling _ _ Hb')) as Hzn. rewrite Forall_forall in Hzn.
      destruct (Hzn (handed m) ltac:(set_solver)) as [Hd _]. simpl in Hd. by rewrite Hlen in Hd.
    + intros Hlt. rewrite Hmos in Hlt. unfold block_sz in Hlt |- *.
      apply Z.pow_lt_mono_r_iff in Hlt; [|lia|lia].
      assert (o + min_order_bits b = Z.log2_up size) as -> by lia.
      assert (size ≠ 1) by (intros ->; change (Z.log2_up 1) with 0 in *; lia).
      pose proof (Z.log2_up_spec size ltac:(lia)) as Hsp.
      replace (Z.log2_up size) with (Z.succ (Z.pred (Z.log2_up size))) at 1 by lia.
      rewrite Z.pow_succ_r by (pose proof (Z.log2_up_pos size ltac:(lia)); lia). lia.
  - destruct H as [-> Hno]. split; [done|]. right. intros i l n Hl Hn.
    pose proof (b_sizes _ _ Hb _ _ Hl) as Hsz. rewrite Forall_forall in Hsz.
    destruct (Hsz n Hn) as [-> Him].
    assert (Z.of_nat i < o) as Hio.
    { destruct (Z.lt_ge_cases (Z.of_nat i) o); [done|].
      rewrite (Hno (Z.of_nat i) l) in Hn; [by apply elem_of_nil in Hn|done|]. by rewrite Nat2Z.id. }
    unfold block_sz. apply Z.le_lt_trans with (2 ^ Z.pred (Z.log2_up size)).
    + apply Z.pow_le_mono_r; lia.
    + apply Z.log2_up_spec. destruct (Z.eq_dec size 1) as [->|]; [change (Z.log2_up 1) with 0 in *; lia|lia].
Qed.

Lemma no_free_block b size :
  (∀ i l n, olist b !! i = Some l → n ∈ l → b_size n < size) → ∀ n, n ∈ free_nodes b → b_size n < size.
Proof.
  intros Hno n Hn. apply list_elem_of_In, in_concat in Hn as (l & Hl & Hn).
  apply list_elem_of_In, list_elem_of_lookup in Hl as [i Hl].
  apply (Hno i l n Hl). by apply list_elem_of_In.
Qed.

(** [alloc] either hands out a block of at least [size] bytes, aligned to its
    own length and less than twice the size asked (or the smallest block), leaving
    a valid zone, or returns [None], changing nothing, and then no free block is
    large enough. *)
Theorem alloc_spec b live size :
  binv b live → 0 < size <= 2 ^ 62 →
  ∃ o b', alloc size b = Ret (o, b') ∧
  match o with
  | Some m => binv b' (handed m :: live) ∧ size <= m_len m ∧ (m_len m | m_addr m) ∧
      (min_order_size b < m_len m → m_len m < 2 * size)
  | None => b' = b ∧ ∀ n, n ∈ free_nodes b → b_size n < size
  end.
Proof.
  intros Hb Hs. destruct (alloc_ok b live size Hb ltac:(lia)) as (o & b' & E & _ & H).
  exists o, b'. split; [done|]. destruct o as [m|].
  - destruct H as (_ & _ & ? & ? & ? & ?). done.
  - destruct H as [-> [->|Hno]]; [lia|]. split; [done|]. by apply no_free_block.
Qed.

Lemma buddy_exec_ok op b live :
  binv b (handed <$> live) → buddy_op_ok op →
  wp (buddy_exec op live) b (λ live' b', binv b' (handed <$> live') ∧ same_zone b b').
Proof.
  intros Hb Hop. destruct op as [size|i]; simpl.
  - apply wp_bind. eapply wp_mono; [by apply (alloc_ok b (handed <$> live))|].
    intros [m|] b' [Hz H]; apply wp_ret.
    + destruct H as (_ & _ & H & _). done.
    + destruct H as [-> _]. done.
  - destruct (live !! i) as [m|] eqn:Hi; [|by apply wp_ret].
    rewrite (take_mid_drop _ _ _ Hi) in Hb at 1. rewrite fmap_app, fmap_cons in Hb.
    apply wp_bind. eapply wp_mono; [by eapply dealloc_ok|].
    intros [] b' [Hz Hb']. apply wp_ret. by rewrite fmap_app.
Qed.

(** C7: Safety of a zone under [alloc] and [dealloc].  Any sequence of allocations
    and of frees of allocations held runs without a panic (no false "double free",
    no accounting underflow), and at every point the free blocks and the blocks in
    use tile the zone exactly: none overlap, none is lost, and [free_space] is the
    number of free bytes. *)
Theorem buddy_safe ops b live :
  binv b (handed <$> live) → Forall buddy_op_ok ops →
  wp (buddy_run ops live) b (λ live' b', binv b' (handed <$> live') ∧ same_zone b b').
Proof.
  intros Hb Hops. revert b live Hb.
  induction Hops as [|op ops Hop _ IH]; intros b live Hb; simpl; [by apply wp_ret|].
  apply wp_bind. eapply wp_mono; [by apply buddy_exec_ok|].
  intros live' b' [Hb' Hz]. eapply wp_mono; [by apply IH|].
  intros live2 b2 [Hb2 Hz2]. split; [done|]. unfold same_zone in *. intuition congruence.
Qed.

(** Freed blocks are never merged.  [insert_node] is meant to join a block with
    its free buddy, but the test that keeps the buddy inside the zone is reversed
    ([addr2 > self.start] leaves the loop), so it only ever pushes the block. *)
Theorem insert_node_never_merges b n order fuel :
  0 < b_size n → start b <= b_addr n →
  insert_node (S fuel) n order b = with_list order (l_push_front n) b.
Proof. apply insert_node_ok. Qed.
End zone.

(** ** Witnesses, and runs of the code on a small zone *)

Definition demo_zone {B : Build} : res BuddyAllocator := buddy_new 0x100000 0x110000 4096.
Definition on_demo {B : Build} {T} (m : BM T) : res T := b ← demo_zone; '(x, _) ← m b; Ret x.
Definition must_alloc {B : Build} (n : Z) : BM Allocation := o ← alloc n; lift (unwrap o).

(** Growing an allocation can take memory in use.  [order_expand_cap] asks of a
    buddy only whether an allocation starts there: here the buddy of [a] has been
    split, its first half is free and its second half [q] is in use.  [realloc]
    then takes the free half for the whole buddy and removes it from the list of
    another size: the list contract is broken. *)
Theorem realloc_grows_into_live {B : Build} :
  on_demo (must_alloc 0x1000;; must_alloc 0x2000;; a ← must_alloc 0x2000;
    p ← must_alloc 0x1000; q ← must_alloc 0x1000;
    mret ((m_addr a, m_len a), (m_addr p, m_len p), (m_addr q, m_len q))) =
    Ret ((0x108000, 0x2000), (0x10a000, 0x1000), (0x10b000, 0x1000)) ∧
  on_demo (must_alloc 0x1000;; must_alloc 0x2000;; a ← must_alloc 0x2000;
    p ← must_alloc 0x1000; q ← must_alloc 0x1000; dealloc p;; realloc a 0x4000) = UB.
Proof. split; destruct B; by vm_compute. Qed.

(** Shrinking miscounts: from 16 KiB to 4 KiB, three pages are freed and
    [free_space] grows by four. *)
Theorem realloc_miscounts {B : Build} :
  on_demo (a ← must_alloc 0x4000; realloc a 0x1000;;
    gets (λ b, (free_space b, btotal (free_nodes b)))) = Ret (61440, 57344).
Proof. destruct B; by vm_compute. Qed.

(** [alloc_at] on a free page whose buddy is also free, which is what freeing
    two buddies leaves, looks for their parent, which is on no list. *)
Theorem alloc_at_free_buddies {B : Build} :
  on_demo (must_alloc 0x1000;; p ← must_alloc 0x1000; q ← must_alloc 0x1000;
    dealloc p;; dealloc q;; alloc_at (m_addr p) 0x1000) = UB.
Proof. destruct B; by vm_compute. Qed.

Lemma buddy_new_spec_witness :
  (0x110000 <= page_up 0x100000 → buddy_new (B:=dev) 0x100000 0x110000 PAGE_SIZE = Panic) ∧
  (page_up 0x100000 < 0x110000 → ∃ b, buddy_new (B:=dev) 0x100000 0x110000 PAGE_SIZE = Ret b ∧
     binv b [] ∧ start b = page_up 0x100000 ∧
     meta_start b + Z.of_nat (length (meta b)) <= 0x110000).
Proof.
  refine (buddy_new_spec (B:=dev) 0x100000 0x110000 _ _ _ _ _);
    [lia|by vm_compute|by vm_compute|unfold is_usize; lia|by vm_compute].
Defined.

(** A zone of one free page. *)
Definition demo_b : BuddyAllocator :=
  mkBuddy 0x1000 0x2000 [0] ([mkB 0x1000 0x1000] :: repeat [] 31) 0 0x1000 12 0x1000.

Lemma demo_b_inv : binv demo_b [].
Proof.
  constructor; [constructor| |constructor| |]; try done; try by repeat constructor.
  - split; [by exists 1|by exists 2].
  - intros i l H. destruct i as [|i]; simplify_eq/=; [by repeat constructor|].
    apply list_elem_of_lookup_2, list_elem_of_In, (repeat_spec 31) in H. by subst l.
Qed.

Lemma alloc_spec_witness :
  ∃ o b', alloc (B:=dev) 1 demo_b = Ret (o, b') ∧
  match o with
  | Some m => binv b' (handed m :: []) ∧ 1 <= m_len m ∧ (m_len m | m_addr m) ∧
      (min_order_size demo_b < m_len m → m_len m < 2 * 1)
  | None => b' = demo_b ∧ ∀ n, n ∈ free_nodes demo_b → b_size n < 1
  end.
Proof. refine (alloc_spec (B:=dev) demo_b [] 1 demo_b_inv _). lia. Defined.

Lemma buddy_safe_witness :
  wp (buddy_run (B:=dev) [BAlloc 1; BAlloc 5000; BFree 0; BAlloc 4096] []) demo_b
    (λ live' b', binv b' (handed <$> live') ∧ same_zone demo_b b').
Proof.
  refine (buddy_safe (B:=dev) [BAlloc 1; BAlloc 5000; BFree 0; BAlloc 4096] demo_b [] demo_b_inv _).
  constructor; [simpl; lia|]. constructor; [simpl; lia|]. constructor; [done|].
  constructor; [simpl; lia|]. constructor.
Defined.

Lemma insert_node_never_merges_witness :
  insert_node (B:=dev) 66 (mkB 0x1000 0x1000) 0 demo_b =
  with_list 0 (l_push_front (mkB 0x1000 0x1000)) demo_b.
Proof. apply (insert_node_never_merges (B:=dev) demo_b (mkB 0x1000 0x1000) 0 65); simpl; lia. Defined.
