(* ===== verification/PageTable.v ===== *)
(** * Page tables: the first half of [kernel/src/mem/virt_alloc.rs]

    Tables are pages of 512 words, reached through pointers: the state is a store
    from physical addresses to tables.  (The code goes through the kernel's linear
    map of physical memory; the model keeps the physical address.)  Frames for new
    tables come from the trait [FrameAllocator], here a class.

    An entry holds the address of a frame and flag bits; bits 52 to 62 of entry 0
    hold the number of entries in use of its table. *)

From S2P Require Import Prelude Misc Sys Ranges.

(** ** Flags *)

Definition PF_NONE : Z := 0.
Definition PF_PRESENT : Z := 1.
Definition PF_WRITABLE : Z := 2.
Definition PF_USER : Z := 4.
Definition PF_PWT : Z := 8.
Definition PF_PCD : Z := 16.
Definition PF_ACCESSED : Z := 32.
Definition PF_DIRTY : Z := 64.
Definition PF_HUGE : Z := 128.
Definition PF_GLOBAL : Z := 256.
Definition PF_NO_EXEC : Z := 2 ^ 63.

Definition PageTableFlags : list Z :=
  [PF_PRESENT; PF_WRITABLE; PF_USER; PF_PWT; PF_PCD; PF_ACCESSED; PF_DIRTY; PF_HUGE;
   PF_GLOBAL; PF_NO_EXEC].

Definition MF_NONE : Z := 0.
Definition MF_READ : Z := 1.
Definition MF_WRITE : Z := 2.
Definition MF_EXEC : Z := 4.
Definition MF_USER : Z := 8.
Definition MF_EXACT_SIZE : Z := 16.

Definition PageMappingFlags : list Z := [MF_READ; MF_WRITE; MF_EXEC; MF_USER; MF_EXACT_SIZE].

Definition mf_exists (flags : Z) : bool :=
  flag_intersects flags (Z.lor (Z.lor MF_READ MF_WRITE) MF_EXEC).

Definition pf_present (flags : Z) : bool := flag_contains flags PF_PRESENT.

Definition from_mapping_flags (flags : Z) : Z :=
  let out := PF_NONE in
  let out := if flag_contains flags MF_WRITE then Z.lor out PF_WRITABLE else out in
  let out := if negb (flag_contains flags MF_EXEC) then Z.lor out PF_NO_EXEC else out in
  let out := if mf_exists flags then Z.lor out PF_PRESENT else out in
  if flag_contains flags MF_USER then Z.lor out PF_USER else out.

(** [CapFlags] are READ = 1 and WRITE = 2. *)
Definition from_cap_flags (flags : Z) : Z :=
  let out := MF_USER in
  let out := if flag_contains flags 1 then Z.lor out MF_READ else out in
  if flag_contains flags 2 then Z.lor out MF_WRITE else out.

Definition PARENT_FLAGS : Z := Z.lor (Z.lor PF_PRESENT PF_WRITABLE) PF_USER.

(** ** Pointers *)

Definition PAGE_ADDR_BITMASK : Z := 0x000ffffffffff000.

Definition ptp_new (addr flags : Z) : Z := Z.lor addr flags.
Definition ptp_addr (p : Z) : Z := Z.land p PAGE_ADDR_BITMASK.
Definition as_mut (p : Z) : option Z :=
  if Z.land p PF_PRESENT =? 0 then None else Some (ptp_addr p).
Definition ptp_flags (p : Z) : Z := from_bits_truncate PageTableFlags p.
Definition set_flags (p flags : Z) : Z := Z.lor (Z.land p PAGE_ADDR_BITMASK) flags.

(** ** The store *)

Class FrameAllocator (W : Type) := {
  alloc_frame : W → res (Z * W);
  dealloc_frame : Z → W → res W;
}.

Section tables.
Context {B : Build} {W : Type} {FA : FrameAllocator W}.

Record PT := mkPT { tables : gmap Z (list Z); frames : W }.

Definition PTM := M PT.

Definition get_entry (t i : Z) : PTM Z := λ s,
  match tables s !! t with
  | None => UB
  | Some es => match es !! Z.to_nat i with Some e => Ret (e, s) | None => Panic end
  end.

Definition put_entry (t i e : Z) : PTM () := λ s,
  match tables s !! t with
  | None => UB
  | Some es =>
      if (Z.to_nat i <? length es)%nat
      then Ret ((), mkPT (<[t := <[Z.to_nat i := e]> es]> (tables s)) (frames s))
      else Panic
  end.

(** *** The count in entry 0 *)

Definition entry_count (e0 : Z) : Z := get_bits e0 (52, 63).

Definition count (t : Z) : PTM Z := e0 ← get_entry t 0; mret (entry_count e0).

Definition with_count (e0 n : Z) : Z :=
  let n := get_bits n (0, 11) in
  Z.lor (Z.land e0 0x800fffffffffffff) (Z.shiftl n 52).

Definition set_count (t n : Z) : PTM () :=
  e0 ← get_entry t 0; put_entry t 0 (with_count e0 n).

(** [(self.count() as isize + n) as _] *)
Definition inc_count (t n : Z) : PTM () :=
  c ← count t; set_count t ((c + n) mod U64).

Definition entry_present (e : Z) : bool := negb (Z.land e PF_PRESENT =? 0).

Definition present (t index : Z) : PTM bool :=
  e ← get_entry t index; mret (entry_present e).

(** *** Making and freeing tables *)

Definition table_new (flags : Z) (dropable : bool) : PTM Z :=
  frame ← (λ s, '(f, w) ← alloc_frame (frames s);
                Ret (f, mkPT (<[f := repeat 0 512]> (tables s)) w));
  let flags := Z.lor flags PF_PRESENT in
  let out := Z.lor frame flags in
  (if dropable then mret ()
   else t ← lift (unwrap (as_mut out)); set_count t 1);;
  mret out.

Definition table_dealloc (t : Z) : PTM () := λ s,
  w ← dealloc_frame t (frames s); Ret ((), mkPT (delete t (tables s)) w).

Definition free_if_empty (t : Z) : PTM bool :=
  c ← count t;
  if c =? 0 then table_dealloc t;; mret true else mret false.

(** The loop of [dealloc_recurse], over the tables behind the entries. *)
Fixpoint dealloc_walk (f : Z → PTM ()) (es : list Z) : PTM () :=
  match es with
  | [] => mret ()
  | e :: es =>
      (if flag_contains (ptp_flags e) PF_HUGE then mret ()
       else match as_mut e with Some t' => f t' | None => mret () end);;
      dealloc_walk f es
  end.

(** [dealloc_recurse] runs over the entries as they were when it started: it
    changes no entry of the table it walks. *)
Fixpoint dealloc_recurse (level : nat) (t : Z) : PTM () :=
  (match level with
   | O => mret ()
   | S level' =>
       es ← (λ s, match tables s !! t with Some es => Ret (es, s) | None => UB end);
       dealloc_walk (dealloc_recurse level') es
   end);;
  table_dealloc t.

Definition dealloc_all (t : Z) : PTM () := dealloc_recurse 3 t.

(** *** Entries *)

Definition set (t index ptr : Z) : PTM () :=
  p ← present t index;
  lift (assert_ (negb p));;
  put_entry t index ptr;;
  inc_count t 1.

Definition get_table (t index : Z) : PTM Z :=
  e ← get_entry t index; lift (unwrap (as_mut e)).

Definition get_or_alloc (t index flags : Z) : PTM Z :=
  p ← present t index;
  match p with
  | true => get_table t index
  | false =>
      out ← table_new flags true;
      set t index out;;
      lift (unwrap (as_mut out))
  end.

Definition remove_entry (t index : Z) : PTM bool :=
  n ← get_entry t index;
  p ← present t index;
  match p with
  | true =>
      put_entry t index (Z.ldiff n PF_PRESENT);;
      inc_count t (-1);;
      free_if_empty t
  | false => mret false
  end.

(** ** Mapping and unmapping frames *)

Inductive PageMappingAction :=
  | Map (pframe vframe : frame) (flags : Z)
  | Unmap (vframe : frame).

Definition virt_frame (a : PageMappingAction) : frame :=
  match a with Map _ v _ => v | Unmap v => v end.

Definition table_indexes (addr : Z) : list Z :=
  [get_bits addr (39, 48); get_bits addr (30, 39); get_bits addr (21, 30); get_bits addr (12, 21)].

Definition depth_flags (v : frame) : nat * Z :=
  match v with
  | FK4 _ => (4%nat, PF_NONE)
  | FM2 _ => (3%nat, PF_HUGE)
  | FG1 _ => (2%nat, PF_HUGE)
  end.

(** The loop of the [Map] case, down the indexes left. *)
Fixpoint map_walk (t : Z) (nums : list Z) (leaf : Z) : PTM () :=
  match nums with
  | [] => mret ()
  | [i] => set t i leaf
  | i :: nums => t' ← get_or_alloc t i PARENT_FLAGS; map_walk t' nums leaf
  end.

(** The tables of the [Unmap] case, from the top one down, each with the index used in it. *)
Fixpoint unmap_tables (t : Z) (nums : list Z) : PTM (list (Z * Z)) :=
  match nums with
  | [] => mret []
  | [i] => mret [(t, i)]
  | i :: nums => t' ← get_table t i; ts ← unmap_tables t' nums; mret ((t, i) :: ts)
  end.

(** Removing upwards until a table stays. *)
Fixpoint remove_up (ts : list (Z * Z)) : PTM () :=
  match ts with
  | [] => mret ()
  | (t, i) :: ts =>
      d ← remove_entry t i;
      match d with true => remove_up ts | false => mret () end
  end.

Definition map_action (cr3 : Z) (a : PageMappingAction) : PTM () :=
  let vframe := virt_frame a in
  let nums := table_indexes (start_addr vframe) in
  let '(depth, hf) := depth_flags vframe in
  match a with
  | Map pframe _ flags =>
      let flags := Z.lor (Z.lor flags PF_PRESENT) hf in
      map_walk cr3 (take depth nums) (ptp_new (start_addr pframe) flags)
  | Unmap _ => ts ← unmap_tables cr3 (take depth nums); remove_up (rev ts)
  end.

Fixpoint map_internal (cr3 : Z) (actions : list PageMappingAction) : PTM () :=
  match actions with
  | [] => mret ()
  | a :: actions => map_action cr3 a;; map_internal cr3 actions
  end.
End tables.
Arguments PT W : clear implicits.
Arguments PTM W : clear implicits.

(** ** The count in entry 0 *)

(** The count bits of a word are replaced; the other bits stay. *)
Lemma with_count_bits e n i :
  0 <= i → Z.testbit (with_count e n) i =
    if (52 <=? i) && (i <? 63) then Z.testbit n (i - 52) else Z.testbit e i && (i <? 64).
Proof.
  intros Hi. unfold with_count.
  assert (get_bits n (0, 11) = Z.land n (Z.ones 11)) as ->.
  { unfold get_bits. cbn. by rewrite Z.shiftr_0_r, Z.land_comm. }
  change 0x800fffffffffffff with (Z.lor (Z.ones 52) (Z.shiftl 1 63)).
  rewrite Z.lor_spec, Z.land_spec, Z.lor_spec, !Z.shiftl_spec, Z.land_spec by lia.
  assert (Z.testbit (Z.ones 52) i = (i <? 52)) as -> by (rewrite Z.testbit_ones by lia; zb).
  assert (Z.testbit 1 (i - 63) = (i =? 63)) as ->.
  { destruct (Z.eqb_spec i 63) as [->|]; [done|]. destruct (Z.le_gt_cases 0 (i - 63)).
    - change 1 with (2 ^ 0). apply Z.pow2_bits_false. lia.
    - by rewrite Z.testbit_neg_r by lia. }
  assert (Z.testbit (Z.ones 11) (i - 52) = (52 <=? i) && (i <? 63)) as -> by (rewrite Z.testbit_ones by lia; zb).
  destruct (Z.leb_spec 52 i), (Z.ltb_spec i 63), (Z.ltb_spec i 52), (Z.eqb_spec i 63), (Z.ltb_spec i 64);
    simpl; try lia; by rewrite ?andb_true_r, ?andb_false_r, ?orb_false_r, ?orb_true_r.
Qed.

Lemma entry_count_bits e j :
  0 <= j → Z.testbit (entry_count e) j = Z.testbit e (j + 52) && (j <? 11).
Proof.
  intros Hj. change (entry_count e) with (Z.shiftr (Z.land (Z.ones 63) e) 52).
  rewrite Z.shiftr_spec, Z.land_spec, Z.testbit_ones by lia. rewrite andb_comm. f_equal. zb.
Qed.

Lemma entry_count_with e n : entry_count (with_count e n) = n mod 2 ^ 11.
Proof.
  apply Z.bits_inj'. intros j Hj. rewrite entry_count_bits, with_count_bits by lia.
  rewrite <- Z.land_ones, Z.land_spec, Z.testbit_ones by lia.
  replace (j + 52 - 52) with j by lia.
  destruct (Z.leb_spec 52 (j + 52)), (Z.ltb_spec (j + 52) 63), (Z.ltb_spec j 11), (Z.leb_spec 0 j);
    simpl; try lia; by rewrite ?andb_true_r, ?andb_false_r.
Qed.

Lemma with_count_twice e n m : with_count (with_count e n) m = with_count e m.
Proof.
  apply Z.bits_inj'. intros i Hi. rewrite !with_count_bits by lia.
  destruct ((52 <=? i) && (i <? 63)); [done|]. by destruct (i <? 64); rewrite ?andb_true_r, ?andb_false_r.
Qed.

Lemma with_count_id e : is_usize e → with_count e (entry_count e) = e.
Proof.
  intros [H0 H1]. apply Z.bits_inj'. intros i Hi. rewrite with_count_bits by lia.
  assert (64 <= i → Z.testbit e i = false) as Hhi.
  { intros Hle. replace e with (e mod 2 ^ 64) by (apply Z.mod_small; done).
    apply Z.mod_pow2_bits_high. lia. }
  destruct (Z.leb_spec 52 i), (Z.ltb_spec i 63); simpl.
  2-4: destruct (Z.ltb_spec i 64); rewrite ?andb_true_r, ?andb_false_r; [done|symmetry; apply Hhi; lia].
  rewrite entry_count_bits by lia. replace (i - 52 + 52) with i by lia.
  rewrite (proj2 (Z.ltb_lt _ _)) by lia. apply andb_true_r.
Qed.

Lemma entry_present_bit e : entry_present e = Z.testbit e 0.
Proof.
  unfold entry_present, PF_PRESENT. replace (Z.land e 1) with (Z.b2z (Z.testbit e 0)).
  - by destruct (Z.testbit e 0).
  - change 1 with (Z.ones 1). rewrite Z.land_ones by lia. change (2 ^ 1) with 2.
    by rewrite Z.bit0_mod.
Qed.

Lemma entry_present_with e n : entry_present (with_count e n) = entry_present e.
Proof. rewrite !entry_present_bit, with_count_bits by lia. apply andb_true_r. Qed.

Lemma entry_present_clear e : entry_present (Z.ldiff e PF_PRESENT) = false.
Proof. rewrite entry_present_bit, Z.ldiff_spec. apply andb_false_r. Qed.

Lemma entry_count_clear e : entry_count (Z.ldiff e PF_PRESENT) = entry_count e.
Proof.
  apply Z.bits_inj'. intros j Hj. rewrite !entry_count_bits, Z.ldiff_spec by lia.
  assert (Z.testbit PF_PRESENT (j + 52) = false) as ->; [|by rewrite andb_true_r].
  unfold PF_PRESENT. change 1 with (2 ^ 0). apply Z.pow2_bits_false. lia.
Qed.

(** ** One table *)

Section one_table.
Context {W : Type} {FA : FrameAllocator W}.
Implicit Types (s : PT W).

(** [t] is a table with the entries [es]. *)
Definition table_at (t : Z) (es : list Z) (s : PT W) : Prop :=
  tables s !! t = Some es ∧ length es = 512%nat.

Definition with_table (t : Z) (es : list Z) (s : PT W) : PT W :=
  mkPT (<[t := es]> (tables s)) (frames s).

Lemma table_at_with t es es' s : table_at t es s → length es' = 512%nat → table_at t es' (with_table t es' s).
Proof. intros _ H. split; [|done]. apply lookup_insert_eq. Qed.

Lemma with_table_twice t es es' s : with_table t es' (with_table t es s) = with_table t es' s.
Proof. unfold with_table. simpl. by rewrite insert_insert_eq. Qed.

Lemma get_entry_ok t i e es s :
  table_at t es s → es !! Z.to_nat i = Some e → get_entry t i s = Ret (e, s).
Proof. intros [H _] He. unfold get_entry. by rewrite H, He. Qed.

Lemma put_entry_ok t i e es s :
  table_at t es s → 0 <= i < 512 → put_entry t i e s = Ret ((), with_table t (<[Z.to_nat i := e]> es) s).
Proof.
  intros [H Hl] Hi. unfold put_entry. rewrite H. rewrite (proj2 (Nat.ltb_lt _ _)) by lia. done.
Qed.

(** The step of the count, on the words of a table. *)
Definition bump (n : Z) (es : list Z) : list Z :=
  match es with
  | [] => []
  | e0 :: es => with_count e0 ((entry_count e0 + n) mod U64) :: es
  end.

Lemma bump_length n es : length (bump n es) = length es.
Proof. by destruct es. Qed.

Lemma inc_count_ok t n es s :
  table_at t es s → inc_count t n s = Ret ((), with_table t (bump n es) s).
Proof.
  intros H. pose proof H as [_ Hl]. destruct es as [|e0 es]; [done|].
  assert (get_entry t 0 s = Ret (e0, s)) as E by by apply (get_entry_ok t 0 e0 (e0 :: es)).
  assert (count t s = Ret (entry_count e0, s)) as Ec by (unfold count; by rewrite (M_bind_Ret _ _ _ _ _ E)).
  unfold inc_count. rewrite (M_bind_Ret _ _ _ _ _ Ec). unfold set_count. rewrite (M_bind_Ret _ _ _ _ _ E).
  rewrite (put_entry_ok t 0 _ (e0 :: es)) by (done || lia). done.
Qed.

Lemma present_ok t i e es s :
  table_at t es s → es !! Z.to_nat i = Some e → present t i s = Ret (entry_present e, s).
Proof. intros H He. unfold present. by rewrite (M_bind_Ret _ _ _ _ _ (get_entry_ok _ _ _ _ _ H He)). Qed.

Lemma set_ok t i p e es s :
  table_at t es s → 0 <= i < 512 → es !! Z.to_nat i = Some e → entry_present e = false →
  set t i p s = Ret ((), with_table t (bump 1 (<[Z.to_nat i := p]> es)) s).
Proof.
  intros H Hi He Hp. unfold set. pose proof H as [_ Hl].
  rewrite (M_bind_Ret _ _ _ _ _ (present_ok _ _ _ _ _ H He)), Hp.
  cbn [negb assert_]. rewrite (M_bind_Ret _ _ _ _ _ (lift_Ret () s)).
  rewrite (M_bind_Ret _ _ _ _ _ (put_entry_ok _ _ p _ _ H Hi)).
  erewrite inc_count_ok; [|eapply table_at_with; [done|by rewrite length_insert]].
  by rewrite with_table_twice.
Qed.

Lemma remove_ok t i e es s :
  table_at t es s → 0 <= i < 512 → es !! Z.to_nat i = Some e → entry_present e = true →
  remove_entry t i s = free_if_empty t (with_table t (bump (-1) (<[Z.to_nat i := Z.ldiff e PF_PRESENT]> es)) s).
Proof.
  intros H Hi He Hp. unfold remove_entry. pose proof H as [_ Hl].
  rewrite (M_bind_Ret _ _ _ _ _ (get_entry_ok _ _ _ _ _ H He)).
  rewrite (M_bind_Ret _ _ _ _ _ (present_ok _ _ _ _ _ H He)), Hp.
  rewrite (M_bind_Ret _ _ _ _ _ (put_entry_ok _ _ _ _ _ H Hi)).
  set (es' := <[Z.to_nat i := Z.ldiff e PF_PRESENT]> es).
  assert (table_at t es' (with_table t es' s)) as H' by (eapply table_at_with; [done|by unfold es'; rewrite length_insert]).
  rewrite (M_bind_Ret _ _ _ _ _ (inc_count_ok t (-1) _ _ H')). by rewrite with_table_twice.
Qed.

Lemma free_if_empty_ok t e0 es s :
  table_at t (e0 :: es) s →
  free_if_empty t s =
    if entry_count e0 =? 0
    then (w ← dealloc_frame t (frames s); Ret (true, mkPT (delete t (tables s)) w))
    else Ret (false, s).
Proof.
  intros H. unfold free_if_empty.
  assert (count t s = Ret (entry_count e0, s)) as Ec.
  { unfold count. by rewrite (M_bind_Ret _ _ _ _ _ (get_entry_ok t 0 e0 _ s H eq_refl)). }
  rewrite (M_bind_Ret _ _ _ _ _ Ec). destruct (entry_count e0 =? 0); [|done].
  unfold mbind, M_bind, table_dealloc, res_bind. by destruct (dealloc_frame t (frames s)).
Qed.


(** At entry 0 it is lost: [set] overwrites the count with the bits of the new pointer,
    so that removing this entry again frees the table, however many entries are in use. *)
Theorem set_zero_then_remove t p e es s :
  table_at t es s → es !! 0%nat = Some e → entry_present e = false →
  entry_present p = true → entry_count p = 0 →
  (set t 0 p;; remove_entry t 0) s =
    (w ← dealloc_frame t (frames s); Ret (true, mkPT (delete t (tables s)) w)).
Proof.
  intros H He Hp Hpp Hc. rewrite (M_bind_Ret _ _ _ _ _ (set_ok t 0 p e es s H ltac:(lia) He Hp)).
  pose proof H as [_ Hl]. destruct es as [|e0 es]; [done|].
  change (Z.to_nat 0) with 0%nat. cbn [list_insert insert bump]. rewrite Hc. change ((0 + 1) mod U64) with 1.
  erewrite remove_ok; [|eapply table_at_with; done|lia|done|by rewrite entry_present_with].
  rewrite with_table_twice. change (Z.to_nat 0) with 0%nat. cbn [list_insert insert bump].
  rewrite entry_count_clear, entry_count_with. change ((1 mod 2 ^ 11 + -1) mod U64) with 0.
  erewrite free_if_empty_ok; [|by eapply table_at_with].
  rewrite entry_count_with. cbn [Z.eqb Z.modulo]. change (0 mod 2 ^ 11 =? 0) with true. cbn [frames tables with_table].
  by rewrite delete_insert_eq.
Qed.

(** ** Freeing all tables *)

(** [f] frees the table it is given, and makes none. *)
Definition frees (f : Z → PTM W ()) : Prop :=
  ∀ t s s', f t s = Ret ((), s') → tables s' ⊆ tables s ∧ tables s' !! t = None.

Lemma dealloc_walk_sub f es s s' :
  frees f → dealloc_walk f es s = Ret ((), s') → tables s' ⊆ tables s.
Proof.
  intros Hf. revert s. induction es as [|e es IH]; intros s H; [by injection H as <-|].
  apply M_bind_Ret_inv in H as ([] & s2 & H2 & H). etransitivity; [by eapply IH|].
  destruct (flag_contains _ _); [by injection H2 as <-|].
  destruct (as_mut e); [|by injection H2 as <-]. by apply Hf in H2 as [? _].
Qed.

Lemma dealloc_walk_frees f es i e t s s' :
  frees f → es !! i = Some e → flag_contains (ptp_flags e) PF_HUGE = false → as_mut e = Some t →
  dealloc_walk f es s = Ret ((), s') → tables s' !! t = None.
Proof.
  intros Hf Hi Hh He. revert i s Hi. induction es as [|x es IH]; intros i s Hi H; [done|].
  apply M_bind_Ret_inv in H as ([] & s2 & H2 & H). destruct i as [|i].
  - injection Hi as ->. rewrite Hh, He in H2. apply Hf in H2 as [_ H2].
    eapply lookup_weaken_None; [exact H2|by eapply dealloc_walk_sub].
  - by eapply IH.
Qed.

Lemma table_dealloc_frees : frees table_dealloc.
Proof.
  intros t s s' H. unfold table_dealloc in H. dret H. injection H as <-. simpl.
  split; [apply delete_subseteq|apply lookup_delete_eq].
Qed.

Lemma dealloc_recurse_frees level : frees (dealloc_recurse level).
Proof.
  induction level as [|level IH]; intros t s s' H; cbn [dealloc_recurse] in H;
    apply M_bind_Ret_inv in H as ([] & s1 & H1 & [Hs Ht]%table_dealloc_frees).
  - by injection H1 as <-.
  - split; [|done]. etransitivity; [exact Hs|]. apply M_bind_Ret_inv in H1 as (es & s2 & H2 & H1).
    assert (s2 = s) as -> by (destruct (tables s !! t); simplify_eq; done).
    by eapply dealloc_walk_sub.
Qed.

(** Freeing all tables does free all: the table behind every entry of the top table is
    gone from the store, so dropping an address space frees the kernel's own tables, which
    every address space shares through entry 511. *)
Theorem dealloc_all_frees t es i e t' s s' :
  tables s !! t = Some es → es !! i = Some e → flag_contains (ptp_flags e) PF_HUGE = false →
  as_mut e = Some t' → dealloc_all t s = Ret ((), s') → tables s' !! t' = None.
Proof.
  intros Ht Hi Hh He H. unfold dealloc_all in H. cbn [dealloc_recurse] in H.
  apply M_bind_Ret_inv in H as ([] & s1 & H1 & [Hs _]%table_dealloc_frees).
  eapply lookup_weaken_None; [|exact Hs].
  apply M_bind_Ret_inv in H1 as (es' & s0 & H0 & H1). rewrite Ht in H0. injection H0 as <- <-.
  eapply dealloc_walk_frees; [exact (dealloc_recurse_frees 2)|done..].
Qed.
End one_table.

(** ** Concrete tables *)

(** Frames handed out upwards. *)
#[export] Instance DemoFrames : FrameAllocator Z := {
  alloc_frame w := Ret (w, w + PAGE_SIZE);
  dealloc_frame _ w := Ret w;
}.

(** A table with two entries in use, at 5 and at 7. *)
Definition demo_words : list Z :=
  <[5%nat := 0x8003]> (<[7%nat := 0x9003]> (with_count 0 2 :: repeat 0 511)).
Definition demo_tables : PT Z := mkPT {[ 0x1000 := demo_words ]} 0x2000.

Lemma demo_words_ok : Forall is_usize demo_words.
Proof.
  apply Forall_insert; [|done]. apply Forall_insert; [|done]. constructor; [done|].
  apply Forall_forall. intros y Hy. apply list_elem_of_In, repeat_spec in Hy. by subst.
Qed.


Lemma set_zero_then_remove_witness :
  (set 0x1000 0 0xa003;; remove_entry 0x1000 0) demo_tables = Ret (true, mkPT ∅ 0x2000).
Proof.
  rewrite (set_zero_then_remove 0x1000 0xa003 (with_count 0 2) demo_words demo_tables);
    [vm_compute; reflexivity|split; vm_compute; reflexivity|reflexivity|reflexivity|reflexivity|reflexivity].
Defined.

(** An address space whose last entry leads to the table at 0x9000. *)
Definition demo_shared : PT Z :=
  mkPT (<[0x9000 := repeat 0 512]> {[ 0x1000 := <[511%nat := 0x9003]> (repeat 0 512) ]}) 0x2000.

Lemma dealloc_all_frees_witness :
  tables (match dealloc_all 0x1000 demo_shared with Ret (_, s) => s | _ => demo_shared end) !! 0x9000 = None.
Proof.
  refine (dealloc_all_frees 0x1000 (<[511%nat := 0x9003]> (repeat 0 512)) 511 0x9003 0x9000 demo_shared _ _ _ _ _ _);
    vm_compute; reflexivity.
Defined.
