(* ===== verification/VirtLayout.v ===== *)
(** * Layouts of mapped memory: the middle of [kernel/src/mem/virt_alloc.rs]

    A [VirtLayout] is the list of pieces of physical memory behind one virtual
    range: pieces up to [dirty_index] are mapped, later ones are new, and pieces on
    [dealloc_que] were popped and are still mapped.  A [PageMappingIterator] turns
    the difference into frame-sized actions for [PageTable.map_internal].

    Physical memory comes from the zone manager, here the class [PhysMem].  The two
    address types are two instances of [AddrOps]; [MEM_OFFSET] is the distance
    between a physical address and its place in the kernel's linear map
    ([kernel/src/util/misc.rs]). *)

From S2P Require Import Prelude Misc Sys Ranges Buddy PageTable.

Class PhysMem (W : Type) := {
  zm_alloc : Z → W → res (option Allocation * W);
  zm_dealloc : Allocation → W → res W;
}.

(** The kernel's two address types, and its constants. *)
Class Addresses := {
  PA : AddrOps;
  VA : AddrOps;
  MEM_OFFSET : Z;
}.

Section layout.
Context {B : Build} {AD : Addresses} {W : Type} {PM : PhysMem W}.

(** ** The linear map *)

Definition phys_to_virt (p : Z) : res Z :=
  s ← uadd p MEM_OFFSET; unwrap (a_try_new (AddrOps:=VA) s).

Definition virt_to_phys (a : Z) : res Z :=
  if a <? MEM_OFFSET then Panic else d ← usub a MEM_OFFSET; a_new (AddrOps:=PA) d.

Definition phys_to_virt_usize (p : Z) : res Z := p ← a_new (AddrOps:=PA) p; phys_to_virt p.
Definition virt_to_phys_usize (a : Z) : res Z := a ← a_new (AddrOps:=VA) a; virt_to_phys a.

(** [PhysRange::from] an allocation. *)
Definition prange_from (m : Allocation) : res range :=
  p ← virt_to_phys (m_addr m); range_new (A:=PA) p (m_len m).

(** ** Elements *)

Inductive VirtLayoutElementType :=
  | Mem (r : range)
  | AllocedMem (m : Allocation)
  | Empty (size : Z).

Definition vlet_size (t : VirtLayoutElementType) : Z :=
  match t with Mem r => r_size r | AllocedMem m => m_len m | Empty n => n end.

Record VirtLayoutElement := mkElem {
  phys_data : VirtLayoutElementType;
  map_size : Z;
  flags : Z;
  mapping_flags : Z;
}.

Definition elem_new (size fl : Z) : M W (option VirtLayoutElement) :=
  size ← lift (align_up size PAGE_SIZE);
  if mf_exists fl then
    m ← zm_alloc size;
    match m with
    | None => mret None
    | Some m =>
        mret (Some (mkElem (AllocedMem m)
          (if flag_contains fl MF_EXACT_SIZE then size else m_len m)
          (from_mapping_flags fl) fl))
    end
  else mret (Some (mkElem (Empty size) size (from_mapping_flags fl) fl)).

Definition elem_from_mem (m : Allocation) (size fl : Z) : res VirtLayoutElement :=
  size ← align_up size PAGE_SIZE;
  Ret (mkElem (AllocedMem m)
    (if flag_contains fl MF_EXACT_SIZE then Z.min (m_len m) size else m_len m)
    (from_mapping_flags fl) fl).

Definition elem_from_range (r : range) (fl : Z) : res VirtLayoutElement :=
  r ← aligned (A:=PA) r;
  Ret (mkElem (Mem r) (r_size r) (from_mapping_flags fl) fl).

Definition elem_size (e : VirtLayoutElement) : Z := map_size e.
Definition raw_size (e : VirtLayoutElement) : Z := vlet_size (phys_data e).

(** Taking frames off an element; it may turn allocated memory into a range. *)
Definition set_phys (t : VirtLayoutElementType) (e : VirtLayoutElement) : VirtLayoutElement :=
  mkElem t (map_size e) (flags e) (mapping_flags e).

Definition elem_get_take_size (e : VirtLayoutElement)
    : res (option PageSize * VirtLayoutElement) :=
  '(p, e) ←
    match phys_data e with
    | AllocedMem m => r ← prange_from m; Ret (get_take_size r, set_phys (Mem r) e)
    | Mem r => Ret (get_take_size r, e)
    | Empty n => Ret (try_from_usize (align_down_to_page_size n), e)
    end;
  Ret (match p, try_from_usize (align_down_to_page_size (map_size e)) with
       | Some p1, Some p2 => Some (ps_min p1 p2)
       | _, _ => None
       end, e).

Definition shrink_map (n : Z) (e : VirtLayoutElement) : res VirtLayoutElement :=
  s ← usub (map_size e) n; Ret (mkElem (phys_data e) s (flags e) (mapping_flags e)).

Definition elem_take (e : VirtLayoutElement) (size : PageSize)
    : res (option (frame * Z) * VirtLayoutElement) :=
  match phys_data e with
  | Mem r =>
      '(f, r) ← take_frame (A:=PA) r size;
      match f with
      | None => Ret (None, set_phys (Mem r) e)
      | Some f => e ← shrink_map (psize size) (set_phys (Mem r) e); Ret (Some (f, flags e), e)
      end
  | Empty n =>
      if n <? psize size then Ret (None, e)
      else
        n' ← usub n (psize size);
        z ← a_new (AddrOps:=PA) 0;
        f ← frame_new (A:=PA) z size;
        e ← shrink_map (psize size) (set_phys (Empty n') e);
        Ret (Some (f, PF_NONE), e)
  | AllocedMem m =>
      r ← prange_from m;
      '(f, r) ← take_frame (A:=PA) r size;
      match f with
      | None => Ret (None, e)
      | Some f => e ← shrink_map (psize size) (set_phys (Mem r) e); Ret (Some (f, flags e), e)
      end
  end.

Definition as_phys_zone (e : VirtLayoutElement) : res (option range) :=
  if negb (pf_present (flags e)) then Ret None
  else
    match phys_data e with
    | AllocedMem m =>
        p ← virt_to_phys (m_addr m); r ← range_new (A:=PA) p (map_size e); Ret (Some r)
    | Mem r => r ← range_new (A:=PA) (r_addr r) (map_size e); Ret (Some r)
    | Empty _ => Ret None
    end.

Definition elem_dealloc (e : VirtLayoutElement) : M W () :=
  match phys_data e with
  | AllocedMem m => λ w, w ← zm_dealloc m w; Ret ((), w)
  | _ => mret ()
  end.

Fixpoint elems_dealloc (es : list VirtLayoutElement) : M W () :=
  match es with
  | [] => mret ()
  | e :: es => elem_dealloc e;; elems_dealloc es
  end.

(** ** Layouts *)

Inductive AllocType := VirtMem | PhysMap | Shared | Protected.

#[export] Instance AllocType_eq_dec : EqDecision AllocType.
Proof. solve_decision. Defined.

Record VirtLayout := mkLayout {
  data : list VirtLayoutElement;
  dealloc_que : list VirtLayoutElement;
  dirty_index : nat;
  clean_size_ : Z;
  atype : AllocType;
}.

Definition vl_new (t : AllocType) : VirtLayout := mkLayout [] [] 0 0 t.
Definition vl_from (v : list VirtLayoutElement) (t : AllocType) : VirtLayout := mkLayout v [] 0 0 t.
Definition vl_try_from (v : list VirtLayoutElement) (t : AllocType) : option VirtLayout :=
  match v with [] => None | _ => Some (mkLayout v [] 0 0 t) end.
Definition alloc_type (l : VirtLayout) : AllocType := atype l.

Definition vl_push (e : VirtLayoutElement) (l : VirtLayout) : VirtLayout :=
  mkLayout (data l ++ [e]) (dealloc_que l) (dirty_index l) (clean_size_ l) (atype l).

(** A popped piece that was never mapped is dropped, without freeing it. *)
Definition vl_pop_delete (l : VirtLayout) : VirtLayout :=
  match last (data l) with
  | None => l
  | Some e =>
      let d := take (length (data l) - 1) (data l) in
      if (length d <? dirty_index l)%nat
      then mkLayout d (dealloc_que l ++ [e]) (length d) (clean_size_ l) (atype l)
      else mkLayout d (dealloc_que l) (dirty_index l) (clean_size_ l) (atype l)
  end.

Fixpoint sum_sizes (n : Z) (es : list VirtLayoutElement) : res Z :=
  match es with
  | [] => Ret n
  | e :: es => n ← uadd n (elem_size e); sum_sizes n es
  end.

Definition vl_size (l : VirtLayout) : res Z := sum_sizes 0 (data l).

(** Slicing panics when [dirty_index] is past the end. *)
Definition clean_slice (l : VirtLayout) : res (list VirtLayoutElement) :=
  if (dirty_index l <=? length (data l))%nat then Ret (take (dirty_index l) (data l)) else Panic.
Definition dirty_slice (l : VirtLayout) : res (list VirtLayoutElement) :=
  if (dirty_index l <=? length (data l))%nat then Ret (drop (dirty_index l) (data l)) else Panic.
Definition clean_size (l : VirtLayout) : Z := clean_size_ l.

Definition vl_flags (l : VirtLayout) : option Z :=
  match data l with
  | e :: _ => Some (mapping_flags e)
  | [] => mapping_flags <$> head (dealloc_que l)
  end.

Definition vl_dealloc (l : VirtLayout) : M W () :=
  elems_dealloc (data l);; elems_dealloc (dealloc_que l).

(** [Drop]. *)
Definition vl_drop (l : VirtLayout) : M W () := vl_dealloc l.

Fixpoint sync_que (n : Z) (es : list VirtLayoutElement) : M W Z :=
  match es with
  | [] => mret n
  | e :: es => n ← lift (usub n (elem_size e)); elem_dealloc e;; sync_que n es
  end.

Definition sync_mem (l : VirtLayout) : M W VirtLayout :=
  dirty ← lift (dirty_slice l);
  n ← lift (sum_sizes (clean_size_ l) dirty);
  n ← sync_que n (dealloc_que l);
  mret (mkLayout (data l) [] (length (data l)) n (atype l)).

Definition mark_unmapped (l : VirtLayout) : M W VirtLayout :=
  elems_dealloc (dealloc_que l);;
  mret (mkLayout (data l) [] 0 0 (atype l)).

(** Elements popped by [revert] are freed, last first. *)
Definition revert (l : VirtLayout) : M W VirtLayout :=
  elems_dealloc (rev (drop (dirty_index l) (data l)));;
  mret (mkLayout (take (dirty_index l) (data l) ++ rev (dealloc_que l)) [] (dirty_index l)
    (clean_size_ l) (atype l)).

(** ** From layouts to actions *)

Record Pmit := mkPmit { phys_zone : range; virt_zone : range; p_flags : Z }.

Definition pmit_new (p v : range) (fl : Z) : res Pmit :=
  assert_ (r_size p =? r_size v);; Ret (mkPmit p v fl).

Definition pmit_present (p : Pmit) : bool := pf_present (p_flags p).

Definition pmit_get_take_size (p : Pmit) : option PageSize :=
  match get_take_size (phys_zone p), get_take_size (virt_zone p) with
  | Some s1, Some s2 => Some (ps_min s1 s2)
  | _, _ => None
  end.

Definition pmit_take (p : Pmit) (size : PageSize) : res (option (frame * frame) * Pmit) :=
  match pmit_get_take_size p with
  | None => Ret (None, p)
  | Some take_size =>
      if ps_ltb take_size size then Ret (None, p)
      else
        '(pf, pz) ← take_frame (A:=PA) (phys_zone p) size;
        pf ← unwrap pf;
        '(vf, vz) ← take_frame (A:=VA) (virt_zone p) size;
        vf ← unwrap vf;
        Ret (Some (pf, vf), mkPmit pz vz (p_flags p))
  end.

Record PageMappingIterator := mkPmi { zones : list Pmit; pindex : nat }.

(** One pass of [new]'s first loop: downwards over the popped pieces. *)
Fixpoint unmap_que (vaddr : Z) (es : list VirtLayoutElement) : res (list Pmit * Z) :=
  match es with
  | [] => Ret ([], vaddr)
  | e :: es =>
      vaddr ← a_sub_n (AddrOps:=VA) vaddr (elem_size e);
      z ← as_phys_zone e;
      here ←
        match z with
        | Some p =>
            v ← range_new (A:=VA) vaddr (elem_size e);
            x ← pmit_new p v PF_NONE; Ret [x]
        | None => Ret []
        end;
      '(rest, vaddr) ← unmap_que vaddr es;
      Ret (here ++ rest, vaddr)
  end.

(** Upwards over pieces, with the flags [f] gives each. *)
Fixpoint zones_up (f : VirtLayoutElement → Z) (vaddr : Z) (es : list VirtLayoutElement)
    : res (list Pmit * Z) :=
  match es with
  | [] => Ret ([], vaddr)
  | e :: es =>
      z ← as_phys_zone e;
      here ←
        match z with
        | Some p =>
            v ← range_new (A:=VA) vaddr (elem_size e);
            x ← pmit_new p v (f e); Ret [x]
        | None => Ret []
        end;
      vaddr ← a_add (AddrOps:=VA) vaddr (elem_size e);
      '(rest, vaddr) ← zones_up f vaddr es;
      Ret (here ++ rest, vaddr)
  end.

Definition pmi_new (l : VirtLayout) (v : range) : res PageMappingIterator :=
  vaddr ← a_add (AddrOps:=VA) (r_addr v) (clean_size l);
  '(zs1, vaddr) ← unmap_que vaddr (dealloc_que l);
  dirty ← dirty_slice l;
  '(zs2, _) ← zones_up flags vaddr dirty;
  Ret (mkPmi (zs1 ++ zs2) 0).

Definition pmi_new_unmapper (l : VirtLayout) (v : range) : res PageMappingIterator :=
  clean ← clean_slice l;
  '(zs1, vaddr) ← zones_up (λ _, PF_NONE) (r_addr v) clean;
  '(zs2, _) ← zones_up (λ _, PF_NONE) vaddr (rev (dealloc_que l));
  Ret (mkPmi (zs1 ++ zs2) 0).

(** The loop of [next]: the index of the first zone from [i] with a frame to take. *)
Fixpoint pmi_seek (zs : list Pmit) (i : nat) : option (PageSize * Pmit) * nat :=
  match zs with
  | [] => (None, i)
  | z :: zs =>
      match pmit_get_take_size z with
      | Some size => (Some (size, z), i)
      | None => pmi_seek zs (S i)
      end
  end.

Definition pmi_next (it : PageMappingIterator)
    : res (option PageMappingAction * PageMappingIterator) :=
  if (pindex it =? length (zones it))%nat then Ret (None, it)
  else
    match pmi_seek (drop (pindex it) (zones it)) (pindex it) with
    | (None, i) => Ret (None, mkPmi (zones it) i)
    | (Some (size, z), i) =>
        '(fs, z') ← pmit_take z size;
        '(pf, vf) ← unwrap fs;
        let it' := mkPmi (<[i := z']> (zones it)) i in
        Ret (Some (if pf_present (p_flags z') then Map pf vf (p_flags z') else Unmap vf), it')
    end.

(** All the actions, as the [for] loop of [map_internal] sees them. *)
Fixpoint pmi_actions (fuel : nat) (it : PageMappingIterator) : res (list PageMappingAction) :=
  match fuel with
  | O => NoFuel
  | S fuel =>
      '(a, it) ← pmi_next it;
      match a with
      | None => Ret []
      | Some a => as_ ← pmi_actions fuel it; Ret (a :: as_)
      end
  end.
End layout.

(** ** What the actions do, page by page *)

(** The pages of a zone: each virtual page, and the physical page and flags it gets, or
    nothing. *)
Fixpoint zone_pages (n : nat) (v p fl : Z) : list (Z * option (Z * Z)) :=
  match n with
  | O => []
  | S n => (v, if pf_present fl then Some (p, fl) else None) ::
      zone_pages n (v + PAGE_SIZE) (p + PAGE_SIZE) fl
  end.

Definition page_count (n : Z) : nat := Z.to_nat (n / PAGE_SIZE).

Definition pmit_pages (z : Pmit) : list (Z * option (Z * Z)) :=
  zone_pages (page_count (r_size (virt_zone z))) (r_addr (virt_zone z)) (r_addr (phys_zone z)) (p_flags z).

Definition action_pages (a : PageMappingAction) : list (Z * option (Z * Z)) :=
  match a with
  | Map pf vf fl => zone_pages (page_count (psize (get_size vf))) (start_addr vf) (start_addr pf) fl
  | Unmap vf => zone_pages (page_count (psize (get_size vf))) (start_addr vf) 0 PF_NONE
  end.

(** A mapping uses two frames of one size, each aligned to it. *)
Definition action_fits (a : PageMappingAction) : Prop :=
  let aligned_frame f := (psize (get_size f) | start_addr f) in
  match a with
  | Map pf vf fl => get_size pf = get_size vf ∧ aligned_frame pf ∧ aligned_frame vf ∧ pf_present fl = true
  | Unmap vf => aligned_frame vf
  end.

Lemma zone_pages_app n m v p fl :
  zone_pages (n + m) v p fl =
  zone_pages n v p fl ++ zone_pages m (v + Z.of_nat n * PAGE_SIZE) (p + Z.of_nat n * PAGE_SIZE) fl.
Proof.
  revert v p. induction n as [|n IH]; intros v p; simpl.
  - f_equal; lia.
  - f_equal. rewrite IH. f_equal. f_equal; unfold PAGE_SIZE; lia.
Qed.

Lemma zone_pages_absent n v p q fl :
  pf_present fl = false → zone_pages n v p fl = zone_pages n v q PF_NONE.
Proof.
  intros H. revert v p q. induction n as [|n IH]; intros v p q; simpl; [done|].
  rewrite H. f_equal. apply IH.
Qed.

Lemma page_count_size s : Z.of_nat (page_count (psize s)) * PAGE_SIZE = psize s.
Proof.
  unfold page_count, PAGE_SIZE. rewrite Z2Nat.id.
  - destruct s; vm_compute; reflexivity.
  - apply Z.div_pos; [|lia]. pose proof (psize_bounds s). unfold PAGE_SIZE in *. lia.
Qed.

Lemma page_count_take n s :
  (PAGE_SIZE | n) → psize s <= n → page_count n = (page_count (psize s) + page_count (n - psize s))%nat.
Proof.
  intros [k ->] Hle.
  assert (∃ j, psize s = j * PAGE_SIZE ∧ 0 < j) as (j & Ej & Hj)
    by (exists (psize s / PAGE_SIZE); by destruct s).
  unfold page_count. rewrite Ej in *. unfold PAGE_SIZE in *.
  replace (k * 4096 - j * 4096) with ((k - j) * 4096) by lia. rewrite !Z.div_mul by lia. lia.
Qed.

Section actions.
Context {B : Build} {AD : Addresses} {PL : AddrLaws (A:=PA)} {VL : AddrLaws (A:=VA)}.

(** A zone with something left, and one used up. *)
Definition pmit_ok (z : Pmit) : Prop :=
  r_size (phys_zone z) = r_size (virt_zone z) ∧
  (r_size (virt_zone z) = 0 ∨ page_range (phys_zone z) ∧ page_range (virt_zone z)).

Lemma pmit_take_size_spec z :
  pmit_ok z →
  match pmit_get_take_size z with
  | None => r_size (virt_zone z) = 0
  | Some s => psize s <= r_size (virt_zone z) ∧
      ∃ pf vf p' v',
        pmit_take z s = Ret (Some (pf, vf), mkPmit p' v' (p_flags z)) ∧
        start_addr pf = r_addr (phys_zone z) ∧ start_addr vf = r_addr (virt_zone z) ∧
        get_size pf = s ∧ get_size vf = s ∧ (psize s | start_addr pf) ∧ (psize s | start_addr vf) ∧
        p' = mkRange (r_addr (phys_zone z) + psize s) (r_size (phys_zone z) - psize s) ∧
        v' = mkRange (r_addr (virt_zone z) + psize s) (r_size (virt_zone z) - psize s) ∧
        pmit_ok (mkPmit p' v' (p_flags z))
  end.
Proof.
  intros [Hs [H0|[Hp Hv]]].
  - destruct z as [[pa ps] [va vs] fl]. simpl in *. subst. unfold pmit_get_take_size. simpl.
    by rewrite get_take_size_empty.
  - unfold pmit_take. unfold pmit_get_take_size at 1.
    destruct (get_take_size_spec _ Hp) as (s1 & E1 & L1 & D1).
    destruct (get_take_size_spec _ Hv) as (s2 & E2 & L2 & D2).
    unfold pmit_get_take_size. rewrite E1, E2. set (s := ps_min s1 s2).
    assert (psize s <= psize s1 ∧ psize s <= psize s2) as [M1 M2].
    { subst s. unfold ps_min, ps_ltb. destruct (Z.ltb_spec (psize s2) (psize s1)); lia. }
    split; [lia|]. unfold ps_ltb. rewrite Z.ltb_irrefl.
    destruct (take_frame_le (A:=PA) _ _ s Hp E1 D1 L1 M1) as (pf & -> & F1 & F2).
    destruct (take_frame_le (A:=VA) _ _ s Hv E2 D2 L2 M2) as (vf & -> & F3 & F4).
    cbn [mbind res_bind unwrap]. exists pf, vf. eexists _, _. rewrite F1, F3.
    split_and!; try done.
    + etransitivity; [|exact D1]. apply pow2_le_divide; auto using pow2_psize.
    + etransitivity; [|exact D2]. apply pow2_le_divide; auto using pow2_psize.
    + unfold pmit_ok. simpl. split; [lia|].
      destruct (page_range_rest _ s Hp) as [E|Hp']; [lia|left; lia|].
      destruct (page_range_rest _ s Hv) as [E|Hv']; [lia|left; lia|]. by right.
Qed.

Definition plan_pages (zs : list Pmit) : list (Z * option (Z * Z)) := flat_map pmit_pages zs.

Lemma pmit_pages_empty z : r_size (virt_zone z) = 0 → pmit_pages z = [].
Proof. intros E. unfold pmit_pages, page_count. by rewrite E. Qed.

Lemma pmi_seek_spec zs i :
  Forall pmit_ok zs →
  match pmi_seek zs i with
  | (None, _) => plan_pages zs = []
  | (Some (s, z), j) => ∃ zs1 zs2, zs = zs1 ++ z :: zs2 ∧ j = (i + length zs1)%nat ∧
      pmit_get_take_size z = Some s ∧ plan_pages zs1 = []
  end.
Proof.
  intros H. revert i. induction H as [|z zs Hz Hzs IH]; intros i; simpl; [done|].
  pose proof (pmit_take_size_spec z Hz) as Hs. destruct (pmit_get_take_size z) as [s|] eqn:E.
  - exists [], zs. by rewrite Nat.add_0_r.
  - specialize (IH (S i)). apply pmit_pages_empty in Hs. rewrite Hs. simpl.
    destruct (pmi_seek zs (S i)) as [[[s z']|] j]; [|done].
    destruct IH as (zs1 & zs2 & -> & -> & Ez & Ep). exists (z :: zs1), zs2.
    simpl. rewrite Hs. split_and!; first [done|lia].
Qed.

Lemma zone_pages_length n v p fl : length (zone_pages n v p fl) = n.
Proof. revert v p. induction n as [|n IH]; intros v p; simpl; [done|]. by rewrite IH. Qed.

(** One action, and the zone it leaves. *)
Lemma pmit_step z s :
  pmit_ok z → pmit_get_take_size z = Some s →
  ∃ pf vf z' a, pmit_take z s = Ret (Some (pf, vf), z') ∧ p_flags z' = p_flags z ∧
    a = (if pf_present (p_flags z') then Map pf vf (p_flags z') else Unmap vf) ∧
    pmit_ok z' ∧ action_fits a ∧ pmit_pages z = action_pages a ++ pmit_pages z' ∧
    (0 < length (action_pages a))%nat.
Proof.
  intros Hz Es. pose proof (pmit_take_size_spec z Hz) as H. rewrite Es in H.
  destruct H as (Hle & pf & vf & p' & v' & Et & F1 & F2 & F3 & F4 & F5 & F6 & -> & -> & Hok).
  exists pf, vf. eexists _, _. split; [exact Et|]. simpl. split; [done|split; [done|]].
  split; [done|].
  assert (pmit_pages z = zone_pages (page_count (psize s)) (r_addr (virt_zone z)) (r_addr (phys_zone z)) (p_flags z) ++
    pmit_pages (mkPmit (mkRange (r_addr (phys_zone z) + psize s) (r_size (phys_zone z) - psize s))
      (mkRange (r_addr (virt_zone z) + psize s) (r_size (virt_zone z) - psize s)) (p_flags z))) as Ep.
  { unfold pmit_pages at 1. destruct Hz as (_ & [H0|[_ (_ & Hd & _)]]).
    { pose proof (psize_bounds s). unfold PAGE_SIZE in *. lia. }
    rewrite (page_count_take _ s Hd Hle), zone_pages_app, page_count_size. done. }
  assert (0 < page_count (psize s))%nat as Hpos.
  { pose proof (page_count_size s). pose proof (psize_bounds s). unfold PAGE_SIZE in *. lia. }
  destruct (pf_present (p_flags z)) eqn:Hfl; unfold action_fits, action_pages.
  - rewrite F1, F2, F3, F4 in *. split_and!; try done. by rewrite zone_pages_length.
  - rewrite F2, F4 in *. split_and!; try done; [|by rewrite zone_pages_length].
    rewrite Ep. f_equal. by apply zone_pages_absent.
Qed.

Lemma plan_pages_app zs1 zs2 : plan_pages (zs1 ++ zs2) = plan_pages zs1 ++ plan_pages zs2.
Proof. apply flat_map_app. Qed.

Lemma pmi_actions_ok fuel zs0 zs :
  Forall pmit_ok zs → (length (plan_pages zs) < fuel)%nat →
  ∃ acts, pmi_actions fuel (mkPmi (zs0 ++ zs) (length zs0)) = Ret acts ∧
    flat_map action_pages acts = plan_pages zs ∧ Forall action_fits acts.
Proof.
  revert zs0 zs. induction fuel as [|fuel IH]; intros zs0 zs Hzs Hf; [lia|].
  cbn [pmi_actions]. unfold pmi_next. cbn [zones pindex].
  destruct (Nat.eqb_spec (length zs0) (length (zs0 ++ zs))) as [E|_].
  { rewrite length_app in E. destruct zs; [|simpl in E; lia]. cbn. exists []. by split_and!. }
  rewrite drop_app_length. pose proof (pmi_seek_spec zs (length zs0) Hzs) as Hs.
  destruct (pmi_seek zs (length zs0)) as [[[s z]|] j].
  2: { cbn. exists []. by rewrite Hs. }
  destruct Hs as (zs1 & zs2 & -> & -> & Es & E1).
  apply Forall_app in Hzs as [_ [Hz Hz2]%Forall_cons].
  destruct (pmit_step z s Hz Es) as (pf & vf & z' & a & -> & Ef & Ea & Hz' & Ha & Ep & Hpos).
  cbn [mbind res_bind unwrap]. rewrite <- Ea.
  assert (<[(length zs0 + length zs1)%nat := z']> (zs0 ++ zs1 ++ z :: zs2) = (zs0 ++ zs1) ++ z' :: zs2) as ->.
  { rewrite app_assoc, <- length_app. rewrite <- (Nat.add_0_r (length _)). by rewrite insert_app_r. }
  rewrite <- length_app.
  rewrite plan_pages_app, E1 in Hf |- *. simpl in Hf |- *. rewrite Ep in Hf |- *.
  destruct (IH (zs0 ++ zs1) (z' :: zs2)) as (acts & -> & Eacts & Hacts).
  - by constructor.
  - simpl. rewrite !length_app in *. lia.
  - cbn [mbind res_bind]. exists (a :: acts). split; [done|]. split; [|by constructor].
    simpl. rewrite Eacts. simpl. by rewrite app_assoc.
Qed.

(** *** From the pieces of a layout *)

(** Where a present piece starts in physical memory. *)
Definition elem_base (e : VirtLayoutElement) : option Z :=
  if pf_present (flags e) then
    match phys_data e with
    | Mem r => Some (r_addr r)
    | AllocedMem m => Some (m_addr m - MEM_OFFSET)
    | Empty _ => None
    end
  else None.

Definition elem_ok (e : VirtLayoutElement) : Prop :=
  (PAGE_SIZE | map_size e) ∧ 0 < map_size e ∧
  ∀ p, elem_base e = Some p → (PAGE_SIZE | p) ∧ 0 <= p ∧ p + map_size e + PAGE_SIZE <= 2 ^ 47.

Fixpoint total_size (es : list VirtLayoutElement) : Z :=
  match es with [] => 0 | e :: es => map_size e + total_size es end.

(** The pages of the pieces laid out one after another from [a]. *)
Fixpoint layout_pages (f : VirtLayoutElement → Z) (a : Z) (es : list VirtLayoutElement)
    : list (Z * option (Z * Z)) :=
  match es with
  | [] => []
  | e :: es =>
      match elem_base e with
      | Some p => zone_pages (page_count (map_size e)) a p (f e)
      | None => []
      end ++ layout_pages f (a + map_size e) es
  end.

Lemma total_size_nonneg es : Forall elem_ok es → 0 <= total_size es.
Proof. induction 1 as [|e es (_ & ? & _) _ IH]; simpl; lia. Qed.

Lemma as_phys_zone_ok e :
  elem_ok e → as_phys_zone e = Ret ((λ p, mkRange p (map_size e)) <$> elem_base e).
Proof.
  intros (Hd & Hn & He). unfold as_phys_zone, elem_base in *. destruct (pf_present (flags e)); simpl; [|done].
  destruct (phys_data e) as [r|m|n]; [| |done]; (destruct (He _ eq_refl) as (H1 & H2 & H3));
    unfold PAGE_SIZE in *.
  - by rewrite range_new_page by first [done|unfold PAGE_SIZE; lia].
  - unfold virt_to_phys. rewrite (proj2 (Z.ltb_ge _ _)) by lia. u.
    rewrite a_new_ok by (apply canon_low; lia). cbn [mbind res_bind].
    by rewrite range_new_page by first [done|unfold PAGE_SIZE; lia].
Qed.

Lemma zones_up_ok f a es :
  Forall elem_ok es → (PAGE_SIZE | a) → 0 <= a → a + total_size es + PAGE_SIZE <= 2 ^ 47 →
  ∃ zs, zones_up f a es = Ret (zs, a + total_size es) ∧ Forall pmit_ok zs ∧
    plan_pages zs = layout_pages f a es.
Proof.
  intros H. revert a. induction H as [|e es He Hes IH]; intros a Hd Ha Hb; simpl in *.
  - exists []. split_and!; [by rewrite Z.add_0_r|done|done].
  - pose proof (total_size_nonneg _ Hes). pose proof He as (E1 & E2 & E3).
    rewrite as_phys_zone_ok by done. cbn [mbind res_bind].
    destruct (IH (a + map_size e)) as (zs & Ez & Hzs & Ep); [by apply Z.divide_add_r|lia|lia|].
    unfold PAGE_SIZE in *.
    unfold elem_size in *.
    assert (a_add (AddrOps:=VA) a (map_size e) = Ret (a + map_size e)) as Eadd.
    { apply a_add_ok; first [lia | apply canon_low; lia]. }
    destruct (elem_base e) as [p|] eqn:Eb; cbn [fmap option_fmap option_map].
    + destruct (E3 _ eq_refl) as (P1 & P2 & P3).
      rewrite range_new_page by (unfold PAGE_SIZE; first [done|lia]).
      cbn [mbind res_bind]. unfold pmit_new. cbn [r_size]. rewrite Z.eqb_refl.
      cbn [assert_ mbind res_bind]. rewrite Eadd. cbn [mbind res_bind]. rewrite Ez. cbn [mbind res_bind].
      eexists. split; [f_equal; f_equal; lia|]. split.
      * constructor; [|done]. unfold pmit_ok, page_range, elem_size, PAGE_SIZE. simpl. split; [done|].
        right. split_and!; first [done|lia].
      * unfold plan_pages in *. simpl. by rewrite Ep.
    + cbn [mbind res_bind]. rewrite Eadd. cbn [mbind res_bind]. rewrite Ez. cbn [mbind res_bind].
      eexists. split; [f_equal; f_equal; lia|]. done.
Qed.

(** C24: What mapping a layout does.  For a layout with no pieces popped, the iterator is
    built without panic and ends; its actions give the pages of the new pieces, each behind
    the other from the end of the mapped part, the physical pages of the piece in order and
    the flags of the piece; a piece that is not present gets no action, and every action uses
    frames aligned to their size. *)
Theorem map_plan fuel l v :
  dealloc_que l = [] → (dirty_index l <= length (data l))%nat →
  let dirty := drop (dirty_index l) (data l) in
  let a := r_addr v + clean_size l in
  Forall elem_ok dirty → (PAGE_SIZE | a) → 0 <= r_addr v → 0 <= clean_size l →
  a + total_size dirty + PAGE_SIZE <= 2 ^ 47 →
  (length (layout_pages flags a dirty) < fuel)%nat →
  ∃ acts, pmi_new l v ≫= pmi_actions fuel = Ret acts ∧
    flat_map action_pages acts = layout_pages flags a dirty ∧ Forall action_fits acts.
Proof.
  intros Hq Hd dirty a Hok Hal Hv Hc Hb Hf. unfold pmi_new. rewrite Hq. cbn [unmap_que].
  pose proof (total_size_nonneg _ Hok). unfold PAGE_SIZE in Hb.
  rewrite a_add_ok by first [lia | apply canon_low; lia]. cbn [mbind res_bind].
  unfold dirty_slice. rewrite (proj2 (Nat.leb_le _ _)) by done. cbn [mbind res_bind].
  fold a dirty. destruct (zones_up_ok flags a dirty Hok Hal) as (zs & -> & Hzs & Ep); [lia|done|].
  cbn [mbind res_bind]. simpl. rewrite <- Ep in *. by apply (pmi_actions_ok fuel [] zs).
Qed.

(** What unmapping a wholly mapped layout does: its actions, built without panic, clear
    the pages of every present piece, and no other page. *)
Theorem unmap_plan fuel l v :
  dealloc_que l = [] → dirty_index l = length (data l) →
  Forall elem_ok (data l) → (PAGE_SIZE | r_addr v) → 0 <= r_addr v →
  r_addr v + total_size (data l) + PAGE_SIZE <= 2 ^ 47 →
  (length (layout_pages (λ _, PF_NONE) (r_addr v) (data l)) < fuel)%nat →
  ∃ acts, pmi_new_unmapper l v ≫= pmi_actions fuel = Ret acts ∧
    flat_map action_pages acts = layout_pages (λ _, PF_NONE) (r_addr v) (data l) ∧
    Forall action_fits acts.
Proof.
  intros Hq Hd Hok Hal Hv Hb Hf. unfold pmi_new_unmapper, clean_slice.
  rewrite (proj2 (Nat.leb_le _ _)) by lia. cbn [mbind res_bind]. rewrite Hd, firstn_all.
  destruct (zones_up_ok (λ _, PF_NONE) (r_addr v) (data l) Hok Hal Hv Hb) as (zs & -> & Hzs & Ep).
  cbn [mbind res_bind]. rewrite Hq. simpl. rewrite app_nil_r. rewrite <- Ep in *.
  by apply (pmi_actions_ok fuel [] zs).
Qed.
End actions.

(** ** A concrete layout *)

#[local] Existing Instance dev.
#[export] Instance DemoAddresses : Addresses := {| PA := DemoAddr; VA := DemoAddr; MEM_OFFSET := 0 |}.

(** A piece of memory and a hole, new; and the same mapped. *)
Definition demo_pieces : list VirtLayoutElement :=
  [mkElem (Mem (mkRange 0x400000 0x2000)) 0x2000 (Z.lor PF_PRESENT PF_WRITABLE) 3;
   mkElem (Empty 0x1000) 0x1000 PF_NONE 0].
Definition demo_new_layout : VirtLayout := vl_from demo_pieces VirtMem.
Definition demo_old_layout : VirtLayout := mkLayout demo_pieces [] 2 0x3000 VirtMem.

Lemma demo_pieces_ok : Forall elem_ok demo_pieces.
Proof.
  unfold demo_pieces. rewrite Forall_cons, Forall_singleton. split.
  - split; [by exists 2|split; [done|]]. intros p [= <-]. split; [by exists 1024|done].
  - split; [by exists 1|split; [done|]]. by intros p [=].
Qed.

Lemma map_plan_witness :
  ∃ acts, pmi_new demo_new_layout (mkRange 0x1000 0x3000) ≫= pmi_actions 10 = Ret acts ∧
    flat_map action_pages acts = [(0x1000, Some (0x400000, 3)); (0x2000, Some (0x401000, 3))] ∧
    Forall action_fits acts.
Proof.
  refine (map_plan (B:=dev) 10 demo_new_layout (mkRange 0x1000 0x3000) _ _ demo_pieces_ok _ _ _ _ _);
    [done|simpl; lia|by exists 1|done|done|done|vm_compute; lia].
Defined.

Lemma unmap_plan_witness :
  ∃ acts, pmi_new_unmapper demo_old_layout (mkRange 0x1000 0x3000) ≫= pmi_actions 10 = Ret acts ∧
    flat_map action_pages acts = [(0x1000, None); (0x2000, None)] ∧ Forall action_fits acts.
Proof.
  refine (unmap_plan (B:=dev) 10 demo_old_layout (mkRange 0x1000 0x3000) _ _ demo_pieces_ok _ _ _ _);
    [done|done|by exists 1|done|done|vm_compute; lia].
Defined.
