(* ===== verification/VirtMapper.v ===== *)
(** * Address spaces: the last part of [kernel/src/mem/virt_alloc.rs]

    A [VirtMapper] keeps, under one lock, a [BTreeMap] from the virtual ranges in
    use to their layouts, and the top page table.  The map is a list sorted by key
    (the derived order of ranges: address first); each method is one step, as the
    lock makes it. *)

From Stdlib Require Import String.
From S2P Require Import Prelude Misc Sys Ranges Buddy PageTable VirtLayout.

(** ** [BTreeMap<VirtRange, _>] *)

Section btree.
Context {V : Type}.
Implicit Types (t : list (range * V)).

Definition bt_get (k : range) t : option V :=
  snd <$> List.find (λ p, bool_decide (p.1 = k)) t.

Fixpoint bt_insert (k : range) (v : V) t : list (range * V) :=
  match t with
  | [] => [(k, v)]
  | (k', v') :: t =>
      if bool_decide (k = k') then (k, v) :: t
      else if range_ltb k k' then (k, v) :: (k', v') :: t
      else (k', v') :: bt_insert k v t
  end.

Definition bt_remove (k : range) t : list (range * V) :=
  filter (λ p, p.1 ≠ k) t.

(** [range(..k)] and [range(k..)]. *)
Definition bt_below (k : range) t : list (range * V) := filter (λ p, range_ltb p.1 k = true) t.
Definition bt_from (k : range) t : list (range * V) := filter (λ p, range_ltb p.1 k = false) t.
End btree.

(** ** The mapper *)

Section mapper.
Context {B : Build} {AD : Addresses} {W : Type} {PM : PhysMem W} {FA : FrameAllocator W}.
Context (MAX_MAP_ADDR : Z).

Abbreviation btree := (list (range * VirtLayout)).

Record VirtMapper := mkMapper { virt_map : btree; cr3 : Z; pt : PT W }.

Definition VM := M VirtMapper.

(** Steps on a part of the state. *)
Definition on_pt {T} (m : PTM W T) : VM T := λ s,
  '(x, p) ← m (pt s); Ret (x, mkMapper (virt_map s) (cr3 s) p).
Definition on_w {T} (m : M W T) : VM T := λ s,
  '(x, w) ← m (frames (pt s)); Ret (x, mkMapper (virt_map s) (cr3 s) (mkPT (tables (pt s)) w)).
Definition get_map : VM btree := λ s, Ret (virt_map s, s).
Definition put_map (t : btree) : VM () := λ s, Ret ((), mkMapper t (cr3 s) (pt s)).

(** The kernel's own tables are shared through entry 511. *)
Definition mapper_new (higher_half : Z) : PTM W VirtMapper :=
  pml4 ← table_new PF_NONE false;
  t ← lift (unwrap (as_mut pml4));
  set t 511 higher_half;;
  p ← get;
  mret (mkMapper [] pml4 p).

Definition get_cr3 (s : VirtMapper) : Z := cr3 s.
Definition is_loaded (loaded : Z) (s : VirtMapper) : bool := cr3 s =? loaded.

(** Mapping a layout, by the actions of an iterator. *)
Definition map_it (fuel : nat) (it : res PageMappingIterator) : VM () :=
  it ← lift it;
  as_ ← lift (pmi_actions fuel it);
  p ← (λ s, Ret (cr3 s, s));
  t ← lift (unwrap (as_mut p));
  on_pt (map_internal t as_).

(** *** Looking at the map *)

Definition address_map {U} (t : btree) (addr : Z) (f : range → VirtLayout → option U) : option U :=
  match last (bt_below (new_unaligned addr usize_max) t) with
  | None => None
  | Some (r, l) => f r l
  end.

Definition get_mapped_range (t : btree) (addr : Z) : res (option range) :=
  match last (bt_below (new_unaligned addr usize_max) t) with
  | None => Ret None
  | Some (r, _) =>
      c ← contains (A:=VA) r addr;
      match c with true => Ret (Some r) | false => Ret None end
  end.

Definition get_alloc_type (t : btree) (addr : Z) : option AllocType :=
  address_map t addr (λ _ l, Some (alloc_type l)).

(** [range_map]: is the range inside one mapped range, or inside the union of its
    two neighbours?  The function is called on the bytes of the range, or not. *)
Definition range_map_ok (t : btree) (v : range) : res bool :=
  let prev := last (bt_below v t) in
  let next := head (bt_from v t) in
  a ← match prev with Some (p, _) => full_contains_range (A:=VA) p v | None => Ret false end;
  match a with
  | true => Ret true
  | false =>
      b ← match next with Some (n, _) => full_contains_range (A:=VA) n v | None => Ret false end;
      match b with
      | true => Ret true
      | false =>
          match prev, next with
          | Some (p, _), Some (n, _) =>
              r ← range_merge (A:=VA) p n;
              match r with
              | Some r => full_contains_range (A:=VA) r v
              | None => Ret false
              end
          | _, _ => Ret false
          end
      end
  end.

Definition range_map {U} (t : btree) (v : range) (f : range → option U) : res (option U) :=
  ok ← range_map_ok t v;
  match ok with true => Ret (f v) | false => Ret None end.

(** The allocation is as long as the range; its contents are not modelled. *)
Definition copy_to_allocation (v : range) : VM (option Allocation) :=
  al ← lift (is_aligned v);
  match al with
  | false => mret None
  | true =>
      t ← get_map;
      ok ← lift (range_map_ok t v);
      match ok with
      | true => on_w (zm_alloc (r_size v))
      | false => mret None
      end
  end.

Definition mapper_contains (t : btree) (v : range) : bool :=
  match bt_get v t with Some _ => true | None => false end.

(** *** Finding room *)

(** The loop of [find_range]: the address reached, and whether a gap was found. *)
Fixpoint find_gap (laddr size : Z) (ks : list range) : res (Z * bool) :=
  match ks with
  | [] => Ret (laddr, false)
  | zone :: ks =>
      diff ← usub (as_usize zone) laddr;
      if size <=? diff then Ret (laddr, true)
      else laddr ← uadd (as_usize zone) (r_size zone); find_gap laddr size ks
  end.

Definition find_range (t : btree) (size : Z) : res (option range) :=
  '(laddr, found) ← find_gap PAGE_SIZE size (fst <$> t);
  room ← (if found : bool then Ret true else d ← usub MAX_MAP_ADDR laddr; Ret (size <=? d));
  match room with
  | false => Ret None
  | true => a ← a_new (AddrOps:=VA) laddr; r ← range_new (A:=VA) a size; Ret (Some r)
  end.

(** The neighbours [free_space] looks at, as iterators it can move. *)
Definition exclude_prev (ex : option range) (l : btree) : btree :=
  match ex, last l with
  | Some x, Some (p, _) => if bool_decide (p = x) then take (length l - 1) l else l
  | _, _ => l
  end.

(** The second test reads [prev], as it is after the first. *)
Definition exclude_next (ex : option range) (prev : option (range * VirtLayout)) (l : btree) : btree :=
  match ex, prev with
  | Some x, Some (p, _) => if bool_decide (p = x) then drop 1 l else l
  | _, _ => l
  end.

Definition free_space_around (t : btree) (v : range) (ex : option range) : res (option (Z * Z)) :=
  let below := exclude_prev ex (bt_below v t) in
  let prev := last below in
  let next := head (exclude_next ex prev (bt_from v t)) in
  ps ←
    match prev with
    | Some (p, _) =>
        e ← end_addr (A:=VA) p;
        if r_addr v <? e then Ret None
        else pe ← end_usize p; d ← usub (as_usize v) pe; Ret (Some d)
    | None =>
        if as_usize v <? PAGE_SIZE then Ret None
        else d ← usub (as_usize v) PAGE_SIZE; Ret (Some d)
    end;
  match ps with
  | None => Ret None
  | Some prev_size =>
      ns ←
        match next with
        | Some (n, _) =>
            e ← end_addr (A:=VA) v;
            if r_addr n <? e then Ret None
            else ve ← end_usize v; d ← usub (as_usize n) ve; Ret (Some d)
        | None =>
            ve ← end_usize v;
            if MAX_MAP_ADDR <? ve then Ret None
            else d ← usub MAX_MAP_ADDR ve; Ret (Some d)
        end;
      match ns with
      | None => Ret None
      | Some next_size => Ret (Some (prev_size, next_size))
      end
  end.

(** *** Mapping *)

Definition err_no_space : MemErr :=
  MemInvlVirtMem "not enough space in virtual memory space for allocation"%string.

(** A layout that is not kept is dropped. *)
Definition drop_err {T} (l : VirtLayout) (e : MemErr) : VM (MemErr + T) :=
  on_w (vl_drop l);; mret (inl e).

(** Mapping a layout at a range, and entering it in the map. *)
Definition install (fuel : nat) (l : VirtLayout) (v : range) : VM (MemErr + range) :=
  map_it fuel (pmi_new l v);;
  l ← on_w (sync_mem l);
  t ← get_map;
  put_map (bt_insert v l t);;
  mret (inr v).

Definition map (fuel : nat) (l : VirtLayout) : VM (MemErr + range) :=
  size ← lift (vl_size l);
  if size =? 0 then drop_err l (MemInvlVirtMem "tryed to map page of size zero"%string)
  else
    t ← get_map;
    r ← lift (find_range t size);
    match r with
    | None => drop_err l err_no_space
    | Some v => install fuel l v
    end.

Definition map_at (fuel : nat) (l : VirtLayout) (v : range) : VM (MemErr + range) :=
  v ← lift (aligned (A:=VA) v);
  size ← lift (vl_size l);
  if negb (size =? r_size v)
  then drop_err l (MemInvlArgs "phys_zones and virt_zone size did not match"%string)
  else if size =? 0 then drop_err l (MemInvlArgs "tryed to map page of size zero"%string)
  else
    t ← get_map;
    f ← lift (free_space_around t v None);
    match f with
    | None => drop_err l (MemInvlVirtMem "invalid virt zone passed to map_at"%string)
    | Some _ => install fuel l v
    end.

(** [alloc_func] edits the layout in place, also when it fails. *)
Definition AllocFunc := VirtLayout → M W ((MemErr + ()) * VirtLayout).

(** The common start of [remap] and [remap_at]: the layout after [alloc_func]. *)
Definition remap_edit (v : range) (at_ : AllocType) (alloc_func : AllocFunc)
    : VM (MemErr + VirtLayout) :=
  t ← get_map;
  match bt_get v t with
  | None => mret (inl (MemInvlPtr "invalid virt zone passed to remap"%string))
  | Some l =>
      if negb (bool_decide (alloc_type l = at_))
      then mret (inl (MemInvlMemType "memory type does not match passed atype"%string))
      else
        '(r, l) ← on_w (alloc_func l);
        put_map (bt_insert v l t);;
        mret match r with inl e => inl e | inr _ => inr l end
  end.

(** What both do with a layout that became empty. *)
Definition remap_empty (fuel : nat) (v nrange : range) (l : VirtLayout) : VM (MemErr + range) :=
  t ← get_map;
  put_map (bt_remove v t);;
  map_it fuel (pmi_new l nrange);;
  l ← on_w (sync_mem l);
  n ← lift (null (A:=VA));
  on_w (vl_drop l);;
  mret (inr n).

Definition remap (fuel : nat) (v : range) (at_ : AllocType) (alloc_func : AllocFunc)
    : VM (MemErr + range) :=
  v ← lift (aligned (A:=VA) v);
  r ← remap_edit v at_ alloc_func;
  match r with
  | inl e => mret (inl e)
  | inr l =>
      new_size ← lift (vl_size l);
      nrange ← lift (range_new (A:=VA) (r_addr v) new_size);
      if new_size =? 0 then remap_empty fuel v nrange l
      else
        t ← get_map;
        f ← lift (free_space_around t nrange (Some v));
        match f with
        | Some _ =>
            put_map (bt_remove v t);;
            install fuel l nrange
        | None =>
            r ← lift (find_range t new_size);
            match r with
            | None =>
                l ← on_w (revert l);
                put_map (bt_insert v l t);;
                mret (inl err_no_space)
            | Some nv =>
                put_map (bt_remove v t);;
                map_it fuel (pmi_new_unmapper l v);;
                l ← on_w (mark_unmapped l);
                install fuel l nv
            end
        end
  end.

Definition remap_at (fuel : nat) (v : range) (target_addr : Z) (at_ : AllocType)
    (alloc_func : AllocFunc) : VM (MemErr + range) :=
  v ← lift (aligned (A:=VA) v);
  target_addr ← lift (a_down (AddrOps:=VA) target_addr PAGE_SIZE);
  r ← remap_edit v at_ alloc_func;
  match r with
  | inl e => mret (inl e)
  | inr l =>
      new_size ← lift (vl_size l);
      nrange ← lift (range_new (A:=VA) target_addr new_size);
      if new_size =? 0 then remap_empty fuel v nrange l
      else
        t ← get_map;
        f ← lift (free_space_around t nrange (Some v));
        match f with
        | Some _ =>
            put_map (bt_remove v t);;
            l ← (if target_addr =? r_addr v then mret l
                 else map_it fuel (pmi_new_unmapper l v);; on_w (mark_unmapped l));
            install fuel l nrange
        | None =>
            l ← on_w (revert l);
            put_map (bt_insert v l t);;
            mret (inl (MemInvlVirtMem "could not remap virt zone to target virt zone"%string))
        end
  end.

Definition unmap (fuel : nat) (v : range) (at_ : AllocType) : VM (MemErr + VirtLayout) :=
  t ← get_map;
  match bt_get v t with
  | None => mret (inl (MemInvlPtr "invalid virt zone passed to remap"%string))
  | Some l =>
      if negb (bool_decide (alloc_type l = at_))
      then mret (inl (MemInvlMemType "memory type does not match passed atype"%string))
      else
        put_map (bt_remove v t);;
        map_it fuel (pmi_new_unmapper l v);;
        l ← on_w (mark_unmapped l);
        mret (inr l)
  end.

(** Dropping the mapper frees its tables; its layouts are dropped with the map. *)
Fixpoint drop_layouts (t : btree) : M W () :=
  match t with
  | [] => mret ()
  | (_, l) :: t => vl_drop l;; drop_layouts t
  end.

Definition mapper_drop : VM () :=
  p ← (λ s, Ret (cr3 s, s));
  t ← lift (unwrap (as_mut p));
  on_pt (dealloc_all t);;
  m ← get_map;
  on_w (drop_layouts m).
End mapper.

(** ** The map of an address space *)

Section maps.
Context {V : Type} (ok : range → V → Prop).
Implicit Types (t : list (range * V)).

Definition r_end (r : range) : Z := r_addr r + r_size r.

(** The ranges lie in [lo, hi), in order, without overlap, and page aligned. *)
Fixpoint map_ok (lo hi : Z) t : Prop :=
  match t with
  | [] => True
  | (r, v) :: t =>
      lo <= r_addr r ∧ 0 < r_size r ∧ (PAGE_SIZE | r_addr r) ∧ (PAGE_SIZE | r_size r) ∧
      r_end r <= hi ∧ ok r v ∧ map_ok (r_end r) hi t
  end.

Definition r_apart (r s : range) : Prop := r_end r <= r_addr s ∨ r_end s <= r_addr r.

Lemma map_ok_weaken lo lo' hi t : lo' <= lo → map_ok lo hi t → map_ok lo' hi t.
Proof. destruct t as [|[r v] t]; simpl; [done|]. intuition lia. Qed.

Lemma map_ok_elem lo hi t r v :
  map_ok lo hi t → (r, v) ∈ t →
  lo <= r_addr r ∧ 0 < r_size r ∧ (PAGE_SIZE | r_addr r) ∧ (PAGE_SIZE | r_size r) ∧
  r_end r <= hi ∧ ok r v.
Proof.
  revert lo. induction t as [|[r' v'] t IH]; intros lo; simpl; [by intros _ ?%elem_of_nil|].
  intros (? & ? & ? & ? & ? & ? & H) [[= -> ->]|Hin]%elem_of_cons; [done|].
  destruct (IH _ H Hin) as (? & ?). unfold r_end in *. split; [lia|done].
Qed.

Lemma map_ok_app lo hi t1 t2 :
  map_ok lo hi (t1 ++ t2) → map_ok lo hi t1 ∧ ∃ lo', lo <= lo' ∧ map_ok lo' hi t2 ∧
    ∀ r v, (r, v) ∈ t1 → r_end r <= lo'.
Proof.
  revert lo. induction t1 as [|[r v] t1 IH]; intros lo; simpl.
  - intros H. split; [done|]. exists lo. split; [lia|split; [done|]]. by intros ? ? ?%elem_of_nil.
  - intros (R1 & R2 & R3 & R4 & R5 & R6 & H). destruct (IH _ H) as (I1 & lo' & Hle & I2 & I3).
    split; [done|]. exists lo'. unfold r_end in *. split; [lia|split; [done|]].
    intros r' v' [[= -> ->]|Hin]%elem_of_cons; [lia|by eapply I3].
Qed.

Lemma map_ok_apart lo hi t1 r v t2 :
  map_ok lo hi (t1 ++ (r, v) :: t2) → ∀ r' v', (r', v') ∈ t1 ++ t2 → r_apart r r'.
Proof.
  intros H r' v' Hin. apply map_ok_app in H as (_ & lo' & _ & (? & ? & _ & _ & _ & _ & H2) & H3).
  apply elem_of_app in Hin as [Hin|Hin].
  - right. pose proof (H3 _ _ Hin). lia.
  - left. destruct (map_ok_elem _ _ _ _ _ H2 Hin) as (? & _). done.
Qed.

Lemma map_ok_before lo hi t1 r v t2 :
  map_ok lo hi (t1 ++ (r, v) :: t2) → ∀ r' v', (r', v') ∈ t1 → r_end r' <= r_addr r.
Proof.
  intros H r' v' Hin. apply map_ok_app in H as (_ & lo' & _ & (? & _) & H3).
  pose proof (H3 _ _ Hin). lia.
Qed.

(** *** [range(..k)] and [range(k..)] of a sorted map *)

Lemma below_from lo hi t k :
  map_ok lo hi t → t = bt_below k t ++ bt_from k t.
Proof.
  revert lo. induction t as [|[r v] t IH]; intros lo; [done|].
  cbn [map_ok]. intros (? & Hp & _ & _ & _ & _ & H). unfold bt_below, bt_from. rewrite !filter_cons. simpl.
  destruct (range_ltb r k) eqn:E; simpl.
  - f_equal. by eapply IH.
  - assert (bt_below k t = []) as E1.
    { apply elem_of_nil_inv. intros [r' v'] [E2 Hin]%list_elem_of_filter. simpl in E2.
      destruct (map_ok_elem _ _ _ _ _ H Hin) as (? & _).
      unfold range_ltb, r_end in *.
      apply orb_true_iff in E2. rewrite Z.ltb_lt, andb_true_iff, Z.eqb_eq, Z.ltb_lt in E2.
      apply orb_false_iff in E as [E3%Z.ltb_ge E4]. lia. }
    unfold bt_below in E1. rewrite E1. simpl. f_equal.
    assert (t = bt_below k t ++ bt_from k t) as Et by by eapply IH.
    unfold bt_below, bt_from in Et. by rewrite E1 in Et.
Qed.

Lemma below_lt k t r v : (r, v) ∈ bt_below k t → range_ltb r k = true ∧ (r, v) ∈ t.
Proof. unfold bt_below. by intros [? ?]%list_elem_of_filter. Qed.
Lemma from_ge k t r v : (r, v) ∈ bt_from k t → range_ltb r k = false ∧ (r, v) ∈ t.
Proof. unfold bt_from. by intros [? ?]%list_elem_of_filter. Qed.

Lemma bt_get_elem k v t : bt_get k t = Some v → (k, v) ∈ t.
Proof.
  unfold bt_get. destruct (List.find _ t) as [[k' v']|] eqn:E; intros [= <-].
  apply List.find_some in E as [Hin Hk%bool_decide_eq_true]. simpl in Hk. subst.
  by apply list_elem_of_In.
Qed.

(** *** Inserting and removing *)

Lemma bt_insert_ok lo hi k v t :
  map_ok lo hi t → lo <= r_addr k → 0 < r_size k → (PAGE_SIZE | r_addr k) →
  (PAGE_SIZE | r_size k) → r_end k <= hi → ok k v → (∀ r v, (r, v) ∈ t → r_apart k r) →
  map_ok lo hi (bt_insert k v t).
Proof.
  revert lo. induction t as [|[r w] t IH]; intros lo Ht H1 H2 H3 H4 H5 H6 Ha; simpl.
  - split_and!; done.
  - destruct Ht as (R1 & R2 & R3 & R4 & R5 & R6 & Ht).
    assert (r_apart k r) as Hk by (eapply Ha; by left).
    unfold r_apart, r_end in *. rewrite bool_decide_eq_false_2 by (intros <-; lia).
    unfold range_ltb. destruct Hk as [Hk|Hk].
    + rewrite (proj2 (Z.ltb_lt _ _)) by lia. simpl. split_and!; done.
    + rewrite (proj2 (Z.ltb_ge _ _)) by lia. rewrite (proj2 (Z.eqb_neq (r_addr k) _)) by lia. simpl.
      split_and!; try done. apply IH; try done. intros r' v' Hin. eapply Ha. by right.
Qed.

Lemma bt_remove_ok lo hi k t : map_ok lo hi t → map_ok lo hi (bt_remove k t).
Proof.
  revert lo. induction t as [|[r w] t IH]; intros lo; [done|]. cbn [map_ok].
  intros (R1 & R2 & R3 & R4 & R5 & R6 & Ht). unfold bt_remove. rewrite filter_cons. simpl.
  destruct (decide (r ≠ k)); simpl.
  - split_and!; try done. by apply IH.
  - eapply map_ok_weaken; [|by apply IH]. unfold r_end. lia.
Qed.

Lemma bt_remove_elem k t r v : (r, v) ∈ bt_remove k t → r ≠ k ∧ (r, v) ∈ t.
Proof. unfold bt_remove. by intros [? ?]%list_elem_of_filter. Qed.

(** The key removed is apart from the keys that stay. *)
Lemma bt_remove_apart lo hi k v t :
  map_ok lo hi t → (k, v) ∈ t → ∀ r w, (r, w) ∈ bt_remove k t → r_apart k r.
Proof.
  intros Ht Hk r w [Hne Hr]%bt_remove_elem.
  apply list_elem_of_split in Hk as (t1 & t2 & ->).
  apply (map_ok_apart _ _ _ _ _ _ Ht r w), elem_of_app.
  apply elem_of_app in Hr as [?|[[= -> ->]|?]%elem_of_cons]; [by left|done|by right].
Qed.
End maps.

(** Replacing the value of a key, and weakening the condition on values. *)
Section update.
Context {V : Type}.
Implicit Types (t : list (range * V)) (ok : range → V → Prop).

Lemma bt_update_ok ok ok' lo hi k v0 v t :
  map_ok ok lo hi t → (k, v0) ∈ t → ok' k v → (∀ r x, ok r x → r ≠ k → ok' r x) →
  map_ok ok' lo hi (bt_insert k v t) ∧ (k, v) ∈ bt_insert k v t ∧
  ∀ r x, (r, x) ∈ bt_insert k v t → ∃ y, (r, y) ∈ t.
Proof.
  intros Ht Hk Hv Hok. revert lo Ht Hk. induction t as [|[r w] t IH]; intros lo Ht Hk; simpl.
  { by apply elem_of_nil in Hk. }
  cbn [map_ok] in Ht. destruct Ht as (R1 & R2 & R3 & R4 & R5 & R6 & Ht).
  assert (∀ r' x, (r', x) ∈ t → r_end r <= r_addr r' ∧ 0 < r_size r') as Hlater.
  { intros r' x Hin. by destruct (map_ok_elem _ _ _ _ _ _ Ht Hin) as (? & ? & _). }
  case_bool_decide as E.
  - subst k. assert (∀ lo' t', map_ok ok lo' hi t' → (∀ r' x, (r', x) ∈ t' → r' ≠ r) →
      map_ok ok' lo' hi t') as Hmono.
    { intros lo' t'. revert lo'. induction t' as [|[r' x] t' IH']; intros lo'; [done|]. cbn [map_ok].
      intros (? & ? & ? & ? & ? & ? & H') Hne. split_and!; try done.
      - apply Hok; [done|]. eapply Hne. by left.
      - apply IH'; [done|]. intros r'' y Hin. eapply Hne. by right. }
    split; [|split; [by left|]].
    + cbn [map_ok]. split_and!; try done. apply Hmono; [done|].
      intros r' x Hin ->. destruct (Hlater _ _ Hin). unfold r_end in *. lia.
    + intros r' x [[= -> ->]|Hin]%elem_of_cons; [exists w; by left|exists x; by right].
  - apply elem_of_cons in Hk as [[= -> ->]|Hk]; [done|].
    destruct (Hlater _ _ Hk) as [H1 H2]. unfold range_ltb, r_end in *.
    rewrite (proj2 (Z.ltb_ge _ _)) by lia. rewrite (proj2 (Z.eqb_neq (r_addr k) _)) by lia. simpl.
    destruct (IH _ Ht Hk) as (I1 & I2 & I3). split; [|split; [by right|]].
    + split_and!; try done. apply Hok; [done|congruence].
    + intros r' x [[= -> ->]|Hin]%elem_of_cons; [exists w; by left|].
      destruct (I3 _ _ Hin) as [y Hy]. exists y. by right.
Qed.

(** Removing the key whose value was in doubt. *)
Lemma bt_remove_strict ok ok' lo hi k t :
  map_ok ok lo hi t → (∀ r x, ok r x → r ≠ k → ok' r x) → map_ok ok' lo hi (bt_remove k t).
Proof.
  intros Ht Hok. revert lo Ht. induction t as [|[r w] t IH]; intros lo Ht; [done|].
  cbn [map_ok] in Ht. destruct Ht as (R1 & R2 & R3 & R4 & R5 & R6 & Ht).
  unfold bt_remove. rewrite filter_cons. simpl. destruct (decide (r ≠ k)) as [Hne|]; simpl.
  - split_and!; try done; [by apply Hok|]. by apply IH.
  - eapply map_ok_weaken; [|by apply IH]. unfold r_end. lia.
Qed.
End update.

(** *** Finding room *)

Section room.
Context {B : Build} {AD : Addresses} {VL : AddrLaws (A:=VA)} (MAX_MAP_ADDR : Z).
Context (ok : range → VirtLayout → Prop).

(** Existing ranges stay in the low half, below the limit of the mapper. *)
Definition LOW : Z := 2 ^ 47 - PAGE_SIZE.
Hypothesis Hmax : LOW <= MAX_MAP_ADDR < U64.

Definition clear_of (t : list (range * VirtLayout)) (a size : Z) : Prop :=
  ∀ r v, (r, v) ∈ t → r_apart (mkRange a size) r.

Lemma find_gap_ok lo size t :
  map_ok ok lo LOW t → PAGE_SIZE <= lo → 0 < size →
  ∃ a found, find_gap lo size (fst <$> t) = Ret (a, found) ∧ lo <= a <= Z.max lo LOW ∧
    (if found : bool then a + size <= LOW ∧ clear_of t a size
     else ∀ r v, (r, v) ∈ t → r_end r <= a) ∧
    ((PAGE_SIZE | lo) → (PAGE_SIZE | a)) ∧
    (∀ b, lo <= b → (found = true → b < a) → (found = false → b < a) → ¬ clear_of t b size).
Proof.
  revert lo. induction t as [|[r v] t IH]; intros lo Ht Hlo Hs;
    [rewrite fmap_nil|rewrite fmap_cons]; cbn [find_gap fst].
  - exists lo, false. split; [done|]. split; [lia|]. split; [by intros ? ? ?%elem_of_nil|].
    split; [done|]. intros b H1 _ H2. specialize (H2 eq_refl). lia.
  - destruct Ht as (R1 & R2 & R3 & R4 & R5 & R6 & Ht).
    unfold as_usize, r_end, LOW, PAGE_SIZE in *. u.
    destruct (Z.leb_spec size (r_addr r - lo)) as [Hle|Hgt].
    + exists lo, true. split; [done|]. split; [lia|]. split; [split; [lia|]|].
      { intros r' v' [[= -> ->]|Hin]%elem_of_cons; left; unfold r_end; simpl; [lia|].
        destruct (map_ok_elem _ _ _ _ _ _ Ht Hin) as (? & _). lia. }
      split; [done|]. intros b H1 H2 _. specialize (H2 eq_refl). lia.
    + u. destruct (IH (r_addr r + r_size r) Ht ltac:(lia) Hs) as (a & found & -> & Ha & Hf & Hd & Hb).
      exists a, found. split; [done|]. split; [lia|]. split; [|split].
      * destruct found.
        -- destruct Hf as [Hf1 Hf2]. split; [done|].
           intros r' v' [[= -> ->]|Hin]%elem_of_cons; [right; unfold r_end; simpl; lia|by eapply Hf2].
        -- intros r' v' [[= -> ->]|Hin]%elem_of_cons; [unfold r_end; lia|by eapply Hf].
      * intros _. apply Hd. by apply Z.divide_add_r.
      * intros b H1 H2 H3 Hc. destruct (Z.lt_ge_cases b (r_addr r + r_size r)) as [Hlt|Hge].
        -- destruct (Hc r v ltac:(by left)) as [Hx|Hx]; unfold r_end in Hx; simpl in Hx; lia.
        -- apply (Hb b Hge H2 H3). intros r' v' Hin. eapply Hc. by right.
Qed.

Lemma find_range_ok size t :
  map_ok ok PAGE_SIZE LOW t → 0 < size < 2 ^ 62 → (PAGE_SIZE | size) →
  ∃ o, find_range MAX_MAP_ADDR t size = Ret o ∧
    match o with
    | Some v => r_size v = size ∧ (PAGE_SIZE | r_addr v) ∧ PAGE_SIZE <= r_addr v ∧
        r_end v <= MAX_MAP_ADDR ∧ clear_of t (r_addr v) size ∧
        (∀ b, PAGE_SIZE <= b → b < r_addr v → ¬ clear_of t b size)
    | None => ∀ b, PAGE_SIZE <= b → b + size <= MAX_MAP_ADDR → ¬ clear_of t b size
    end.
Proof.
  intros Ht Hs Hd. unfold find_range.
  destruct (find_gap_ok PAGE_SIZE size t Ht) as (a & found & -> & Ha & Hf & Hda & Hb); [lia|lia|].
  specialize (Hda (Z.divide_refl _)). cbn [mbind res_bind]. unfold LOW, PAGE_SIZE in *.
  assert (@canon VA VL a) as Hc by (apply canon_low; lia).
  assert (a_new (AddrOps:=VA) a = Ret a) as En by by apply a_new_ok.
  assert (range_new (A:=VA) a size = Ret (mkRange a size)) as Er.
  { apply range_new_page; first [done|lia]. }
  destruct found.
  - destruct Hf as [Hf1 Hf2]. cbn [mbind res_bind]. rewrite En. cbn [mbind res_bind]. rewrite Er.
    cbn [mbind res_bind]. eexists. split; [done|]. unfold r_end. simpl. split_and!; try done; try lia.
    intros b H1 H2. by apply Hb.
  - u. destruct (Z.leb_spec size (MAX_MAP_ADDR - a)).
    + cbn [mbind res_bind]. rewrite En. cbn [mbind res_bind]. rewrite Er. cbn [mbind res_bind].
      eexists. split; [done|]. unfold r_end. simpl. split_and!; try done; try lia.
      * intros r v Hin. right. simpl. by eapply Hf.
      * intros b H1 H2. by apply Hb.
    + eexists. split; [done|]. intros b H1 H2. apply Hb; [done|done|lia].
Qed.

(** Where a range of [size] bytes could go. *)
Definition place (t : list (range * VirtLayout)) (size a : Z) : Prop :=
  PAGE_SIZE <= a ∧ a + size <= MAX_MAP_ADDR ∧ clear_of t a size.

(** C23: [find_range] is first fit, and complete: it never panics, returns the lowest
    range of the size that is clear of every range in use, leaves page zero out and
    ends below the kernel, and returns [None] only when there is no such range. *)
Theorem find_range_spec size t :
  map_ok ok PAGE_SIZE LOW t → 0 < size < 2 ^ 62 → (PAGE_SIZE | size) →
  ∃ o, find_range MAX_MAP_ADDR t size = Ret o ∧
    match o with
    | Some v => r_size v = size ∧ (PAGE_SIZE | r_addr v) ∧ place t size (r_addr v) ∧
        ∀ b, place t size b → r_addr v <= b
    | None => ∀ b, ¬ place t size b
    end.
Proof.
  intros Ht Hs Hd. destruct (find_range_ok size t Ht Hs Hd) as (o & -> & H).
  exists o. split; [done|]. unfold place, r_end in *. destruct o as [v|].
  - destruct H as (H1 & H2 & H3 & H4 & H5 & H6). rewrite H1 in H4. split_and!; try done.
    intros b (B1 & _ & B3). destruct (Z.le_gt_cases (r_addr v) b); [done|].
    exfalso. apply (H6 b); [done|lia|done].
  - intros b (B1 & B2 & B3). by apply (H b).
Qed.

(** A range asked for: whole pages, in the low half. *)
Definition asked (v : range) : Prop :=
  0 <= r_addr v ∧ 0 < r_size v ∧ r_end v <= LOW.

(** The neighbours of a range in a sorted map. *)
Lemma last_below lo t v :
  map_ok ok lo LOW t →
  match last (bt_below v t) with
  | None => bt_below v t = []
  | Some (p, w) => (p, w) ∈ t ∧ range_ltb p v = true ∧
      ∀ r x, (r, x) ∈ bt_below v t → r = p ∨ r_end r <= r_addr p
  end.
Proof.
  intros Ht. destruct (last (bt_below v t)) as [[p w]|] eqn:E.
  - apply last_Some in E as [l E].
    assert ((p, w) ∈ bt_below v t) as Hin by (rewrite E; set_solver).
    apply below_lt in Hin as [H1 H2]. split; [done|split; [done|]].
    intros r x Hr. rewrite E in Hr. apply elem_of_app in Hr as [Hr|Hr%list_elem_of_singleton].
    2: { injection Hr as -> ->. by left. }
    right. rewrite (below_from ok lo LOW t v Ht), E, <- app_assoc in Ht.
    apply map_ok_app in Ht as (_ & lo' & _ & Ht2 & H3). destruct Ht2 as (? & _).
    pose proof (H3 _ _ Hr). lia.
  - by apply last_None in E.
Qed.

Lemma head_from lo t v :
  map_ok ok lo LOW t →
  match head (bt_from v t) with
  | None => bt_from v t = []
  | Some (n, w) => (n, w) ∈ t ∧ range_ltb n v = false ∧
      ∀ r x, (r, x) ∈ bt_from v t → r = n ∨ r_end n <= r_addr r
  end.
Proof.
  intros Ht. destruct (bt_from v t) as [|[n w] l] eqn:E; [done|]. simpl.
  assert ((n, w) ∈ bt_from v t) as Hin by (rewrite E; by left).
  apply from_ge in Hin as [H1 H2]. split; [done|split; [done|]].
  intros r x [Hr|Hr]%elem_of_cons; [injection Hr as -> ->; by left|]. right.
  rewrite (below_from ok lo LOW t v Ht), E in Ht.
  apply map_ok_app in Ht as (_ & lo' & _ & (_ & _ & _ & _ & _ & _ & Ht2) & _).
  destruct (map_ok_elem _ _ _ _ _ _ Ht2 Hr) as (? & _). done.
Qed.

(** The end of a range in the low half. *)
Lemma low_ends r :
  0 <= r_addr r → 0 < r_size r → r_end r <= LOW →
  end_addr (A:=VA) r = Ret (r_end r) ∧ end_usize r = Ret (r_end r).
Proof.
  intros H1 H2 H3. unfold end_addr, end_usize, r_end, as_usize, LOW, PAGE_SIZE in *. split.
  - apply a_add_ok; [apply canon_low; lia|lia|apply canon_low; lia].
  - by u.
Qed.

(** [free_space], without an exclusion, decides whether a range can be mapped: it
    never panics and answers [Some] exactly when the range avoids page zero, ends
    below the kernel and is clear of every range in use. *)
Theorem free_space_spec t v :
  map_ok ok PAGE_SIZE LOW t → asked v →
  ∃ o, free_space_around MAX_MAP_ADDR t v None = Ret o ∧
    (is_Some o ↔ PAGE_SIZE <= r_addr v ∧ r_end v <= MAX_MAP_ADDR ∧ clear_of t (r_addr v) (r_size v)).
Proof.
  intros Ht (V1 & V2 & V3). unfold free_space_around, exclude_prev, exclude_next.
  assert (∀ r x, (r, x) ∈ t → 0 < r_size r ∧ PAGE_SIZE <= r_addr r ∧ r_end r <= LOW) as Hel.
  { intros r x Hin. destruct (map_ok_elem _ _ _ _ _ _ Ht Hin) as (? & ? & _ & _ & ? & _). done. }
  pose proof low_ends as Hend.
  pose proof (last_below _ t v Ht) as Hb. pose proof (head_from _ t v Ht) as Hf.
  destruct (Hend v V1 V2 V3) as [Ev1 Ev2].
  set (OK := PAGE_SIZE <= r_addr v ∧ r_end v <= MAX_MAP_ADDR ∧ clear_of t (r_addr v) (r_size v)).
  assert (∀ b1 b2, (b1 = true ↔ PAGE_SIZE <= r_addr v ∧ (∀ r x, (r, x) ∈ bt_below v t → r_end r <= r_addr v)) →
    (b2 = true ↔ r_end v <= MAX_MAP_ADDR ∧ (∀ r x, (r, x) ∈ bt_from v t → r_end v <= r_addr r)) →
    (b1 && b2 = true ↔ OK)) as Hcomb.
  { intros b1 b2 H1 H2. rewrite andb_true_iff, H1, H2. unfold OK, clear_of, r_apart.
    assert (r_end (mkRange (r_addr v) (r_size v)) = r_end v) as -> by done. simpl. split.
    - intros [[? Hx] [? Hy]]. split; [done|split; [done|]]. intros r x Hin.
      rewrite (below_from ok _ _ t v Ht) in Hin. apply elem_of_app in Hin as [Hin|Hin].
      + right. by eapply Hx.
      + left. by eapply Hy.
    - intros (? & ? & Hc). split; split; try done; intros r x Hin.
      + apply below_lt in Hin as [Hlt Hin]. destruct (Hc r x Hin) as [Hd|Hd]; [|done].
        destruct (Hel r x Hin) as (? & _). unfold range_ltb, r_end in *.
        apply orb_true_iff in Hlt. rewrite Z.ltb_lt, andb_true_iff, Z.eqb_eq, Z.ltb_lt in Hlt. lia.
      + apply from_ge in Hin as [Hlt Hin]. destruct (Hc r x Hin) as [Hd|Hd]; [done|].
        destruct (Hel r x Hin) as (? & _). unfold range_ltb, r_end in *.
        apply orb_false_iff in Hlt as [Hq%Z.ltb_ge _]. lia. }
  assert (∃ o1 : option Z,
    (match last (bt_below v t) with
     | Some (p, _) =>
         e ← end_addr (A:=VA) p;
         if r_addr v <? e then Ret None else pe ← end_usize p; d ← usub (as_usize v) pe; Ret (Some d)
     | None => if as_usize v <? PAGE_SIZE then Ret None else d ← usub (as_usize v) PAGE_SIZE; Ret (Some d)
     end) = Ret o1 ∧
    (is_Some o1 ↔ PAGE_SIZE <= r_addr v ∧ (∀ r x, (r, x) ∈ bt_below v t → r_end r <= r_addr v)))
    as (o1 & -> & Ho1).
  { unfold as_usize, LOW, PAGE_SIZE in *. destruct (last (bt_below v t)) as [[p w]|] eqn:El.
    - destruct Hb as (Hin & Hlt & Hall). destruct (Hel p w Hin) as (P1 & P2 & P3).
      destruct (Hend p ltac:(lia) P1 P3) as [-> ->]. cbn [mbind res_bind].
      destruct (Z.ltb_spec (r_addr v) (r_end p)) as [Hx|Hx].
      + eexists. split; [done|]. split; [by intros [? ?]|]. intros [_ Hy].
        assert ((p, w) ∈ bt_below v t) as Hin2 by (apply last_Some in El as [l ->]; set_solver).
        pose proof (Hy _ _ Hin2). lia.
      + unfold r_end in *. u. eexists. split; [done|]. split; [intros _|by eexists].
        split; [lia|]. intros r x Hr. destruct (Hall r x Hr) as [->|?]; [done|lia].
    - rewrite Hb. destruct (Z.ltb_spec (r_addr v) 4096).
      + eexists. split; [done|]. split; [by intros [? ?]|lia].
      + unfold r_end in *. u. eexists. split; [done|]. split; [intros _|by eexists].
        split; [lia|]. by intros ? ? ?%elem_of_nil. }
  cbn [mbind res_bind].
  assert (∃ o2 : option Z,
    (match head (bt_from v t) with
     | Some (n, _) =>
         e ← end_addr (A:=VA) v;
         if r_addr n <? e then Ret None else ve ← end_usize v; d ← usub (as_usize n) ve; Ret (Some d)
     | None => ve ← end_usize v; if MAX_MAP_ADDR <? ve then Ret None else d ← usub MAX_MAP_ADDR ve; Ret (Some d)
     end) = Ret o2 ∧
    (is_Some o2 ↔ r_end v <= MAX_MAP_ADDR ∧ (∀ r x, (r, x) ∈ bt_from v t → r_end v <= r_addr r)))
    as (o2 & E2 & Ho2).
  { rewrite Ev1, Ev2. cbn [mbind res_bind]. unfold as_usize, LOW, PAGE_SIZE in *.
    destruct (bt_from v t) as [|[n w] l] eqn:El; cbn [hd_error] in *.
    - destruct (Z.ltb_spec MAX_MAP_ADDR (r_end v)); [lia|]. unfold r_end in *. u.
      eexists. split; [done|]. split; [intros _|by eexists]. split; [lia|]. by intros ? ? ?%elem_of_nil.
    - destruct Hf as (Hin & Hlt & Hall). destruct (Hel n w Hin) as (P1 & P2 & P3).
      destruct (Z.ltb_spec (r_addr n) (r_end v)) as [Hx|Hx].
      + eexists. split; [done|]. split; [by intros [? ?]|]. intros [_ Hy].
        pose proof (Hy n w ltac:(by left)). lia.
      + unfold r_end in *. u. eexists. split; [done|]. split; [intros _|by eexists].
        split; [lia|]. intros r x Hr. destruct (Hall r x Hr) as [->|?]; [done|lia]. }
  specialize (Hcomb (bool_decide (is_Some o1)) (bool_decide (is_Some o2))).
  rewrite !bool_decide_eq_true in Hcomb. specialize (Hcomb Ho1 Ho2).
  destruct o1 as [d1|].
  - rewrite E2. cbn [mbind res_bind]. destruct o2 as [d2|].
    + eexists. split; [done|]. rewrite <- Hcomb. split; [|by eexists].
      intros _. by rewrite !bool_decide_eq_true_2 by by eexists.
    + eexists. split; [done|]. rewrite <- Hcomb. split; [by intros [? ?]|].
      rewrite (bool_decide_eq_false_2 (is_Some None)) by (by intros [? ?]).
      by rewrite andb_false_r.
  - eexists. split; [done|]. rewrite <- Hcomb. split; [by intros [? ?]|].
    by rewrite (bool_decide_eq_false_2 (is_Some None)) by (by intros [? ?]).
Qed.
End room.

(** ** What the operations keep *)

Section steps.
Context {B : Build} {AD : Addresses} {W : Type} {PM : PhysMem W} {FA : FrameAllocator W}.

(** Steps that leave the map alone. *)
Definition keeps_map {T} (m : VM (W:=W) T) : Prop :=
  ∀ s x s', m s = Ret (x, s') → virt_map s' = virt_map s.

Lemma keeps_on_w {T} (m : M W T) : keeps_map (on_w m).
Proof. intros s x s' H. unfold on_w in H. dret H. destruct a. by simplify_eq/=. Qed.

Lemma keeps_on_pt {T} (m : PTM W T) : keeps_map (on_pt m).
Proof. intros s x s' H. unfold on_pt in H. dret H. destruct a. by simplify_eq/=. Qed.

Lemma keeps_lift {T} (m : res T) : keeps_map (lift m).
Proof. intros s x s' H. unfold lift in H. dret H. by simplify_eq/=. Qed.

Lemma keeps_bind {T U} (m : VM (W:=W) T) (f : T → VM (W:=W) U) :
  keeps_map m → (∀ x, keeps_map (f x)) → keeps_map (m ≫= f).
Proof. intros Hm Hf s x s' H. dret H. rewrite (Hf _ _ _ _ H). by eapply Hm. Qed.

Lemma keeps_map_it fuel it : keeps_map (map_it fuel it).
Proof.
  unfold map_it. repeat (apply keeps_bind; [apply keeps_lift|intros ?]).
  apply keeps_bind; [intros ? ? ? Hr; by simplify_eq/=|]. intros ?.
  apply keeps_bind; [apply keeps_lift|]. intros ?. apply keeps_on_pt.
Qed.

Lemma get_map_inv (s : VirtMapper (W:=W)) t s' : get_map s = Ret (t, s') → t = virt_map s ∧ s' = s.
Proof. unfold get_map. by intros [= <- <-]. Qed.

Lemma put_map_inv t (s : VirtMapper (W:=W)) x s' : put_map t s = Ret (x, s') → virt_map s' = t.
Proof. unfold put_map. by intros [= <- <-]. Qed.

Lemma lift_inv {T} (m : res T) (s : VirtMapper (W:=W)) x s' : lift m s = Ret (x, s') → m = Ret x ∧ s' = s.
Proof. unfold lift. intros H. dret H. by simplify_eq/=. Qed.

Lemma on_w_inv {T} (m : M W T) (s : VirtMapper (W:=W)) x s' :
  on_w m s = Ret (x, s') → virt_map s' = virt_map s ∧ m (frames (pt s)) = Ret (x, frames (pt s')).
Proof.
  intros H. split; [by eapply keeps_on_w|]. unfold on_w in H. dret H. destruct a as [y w]. by simplify_eq/=.
Qed.

Lemma VM_ret_inv {T} (a b : T) (s s' : VirtMapper (W:=W)) :
  (mret a : VM T) s = Ret (b, s') → b = a ∧ s' = s.
Proof. by intros [= <- <-]. Qed.

End steps.

(** [step H] runs one more statement of a hypothesis "the operation returned". *)
Ltac step H :=
  dret H;
  match goal with
  | E : get_map _ = Ret _ |- _ => apply get_map_inv in E as [? ?]; subst
  | E : put_map _ _ = Ret _ |- _ => apply put_map_inv in E
  | E : lift _ _ = Ret _ |- _ => apply lift_inv in E as [? ?]; subst
  | E : map_it _ _ _ = Ret _ |- _ => apply keeps_map_it in E
  | E : on_w _ _ = Ret _ |- _ => apply on_w_inv in E as [? ?]
  end.

Section invariant.
Context {B : Build} {AD : Addresses} {VL : AddrLaws (A:=VA)} {W : Type} {PM : PhysMem W}
  {FA : FrameAllocator W} (MAX_MAP_ADDR : Z).
Hypothesis Hmax : LOW <= MAX_MAP_ADDR < U64.

(** A layout in the map is as long as its range, and wholly mapped. *)
Definition synced (r : range) (l : VirtLayout) : Prop :=
  vl_size l = Ret (r_size r) ∧ dirty_index l = length (data l) ∧ dealloc_que l = [].

Definition space_ok (t : list (range * VirtLayout)) : Prop := map_ok synced PAGE_SIZE LOW t.

Lemma sync_mem_inv l w l' w' :
  sync_mem l w = Ret (l', w') → data l' = data l ∧ dirty_index l' = length (data l') ∧ dealloc_que l' = [].
Proof.
  unfold sync_mem. intros H. do 3 (dret H). rewrite M_ret_eq in H. by simplify_eq/=.
Qed.

Lemma sync_synced l w l' w' r :
  sync_mem l w = Ret (l', w') → vl_size l = Ret (r_size r) → synced r l'.
Proof.
  intros H Hs. apply sync_mem_inv in H as (E1 & E2 & E3). split; [|done].
  unfold vl_size in *. by rewrite E1.
Qed.

(** Installing a layout on a range clear of the map. *)
Lemma install_inv fuel l v s r s' :
  space_ok (virt_map s) → install fuel l v s = Ret (r, s') →
  vl_size l = Ret (r_size v) → PAGE_SIZE <= r_addr v → 0 < r_size v →
  (PAGE_SIZE | r_addr v) → (PAGE_SIZE | r_size v) → r_end v <= LOW →
  clear_of (virt_map s) (r_addr v) (r_size v) →
  space_ok (virt_map s') ∧ r = inr v ∧ ∃ l', virt_map s' = bt_insert v l' (virt_map s) ∧ data l' = data l.
Proof.
  intros Ht H Hs H1 H2 H3 H4 H5 Hc. unfold install in H. do 4 (step H).
  apply VM_ret_inv in H as [-> ->].
  match goal with E : sync_mem _ _ = Ret _ |- _ => rename E into Hsync end.
  pose proof (sync_synced _ _ _ _ v Hsync Hs) as Hsy. apply sync_mem_inv in Hsync as (Ed & _).
  match goal with E : virt_map _ = bt_insert _ _ _ |- _ => rename E into Em end.
  repeat match goal with E : virt_map _ = virt_map _ |- _ => rewrite E in Em; clear E end.
  split; [|split; [done|by eexists]]. rewrite Em. apply bt_insert_ok; done.
Qed.

Lemma drop_err_inv {T} l e s (r : MemErr + T) s' :
  drop_err l e s = Ret (r, s') → virt_map s' = virt_map s ∧ r = inl e.
Proof. unfold drop_err. intros H. step H. by apply VM_ret_inv in H as [-> ->]. Qed.

(** A page count that fits, and room for it in the low half. *)
Definition room_for (t : list (range * VirtLayout)) (n : Z) : Prop :=
  0 < n < 2 ^ 62 ∧ (PAGE_SIZE | n) ∧ ∃ b, PAGE_SIZE <= b ∧ b + n <= LOW ∧ clear_of t b n.

(** What [find_range] finds then is in the low half too. *)
Lemma find_range_low ok t n o :
  map_ok ok PAGE_SIZE LOW t → room_for t n → find_range MAX_MAP_ADDR t n = Ret o →
  ∃ v, o = Some v ∧ r_size v = n ∧ (PAGE_SIZE | r_addr v) ∧ PAGE_SIZE <= r_addr v ∧
    r_end v <= LOW ∧ clear_of t (r_addr v) n.
Proof.
  intros Ht (Hn & Hd & b & B1 & B2 & B3) E.
  destruct (find_range_ok MAX_MAP_ADDR ok Hmax n t Ht Hn Hd) as (o' & E' & H).
  rewrite E in E'. simplify_eq. destruct o' as [v|].
  - destruct H as (H1 & H2 & H3 & H4 & H5 & H6). exists v. split_and!; try done.
    unfold r_end in *. destruct (Z.le_gt_cases (r_addr v) b) as [|Hlt]; [lia|].
    exfalso. by apply (H6 b).
  - exfalso. apply (H b); [done| |done]. unfold LOW in *. lia.
Qed.

Lemma map_inv fuel l n s r s' :
  space_ok (virt_map s) → vl_size l = Ret n → room_for (virt_map s) n →
  map MAX_MAP_ADDR fuel l s = Ret (r, s') →
  space_ok (virt_map s') ∧ ∃ v l', r = inr v ∧ r_size v = n ∧ data l' = data l ∧
    virt_map s' = bt_insert v l' (virt_map s) ∧ clear_of (virt_map s) (r_addr v) n.
Proof.
  intros Ht Hn Hroom H. unfold map in H. rewrite Hn in H. step H. simplify_eq.
  rewrite (proj2 (Z.eqb_neq _ _)) in H by (destruct Hroom; lia).
  do 2 (step H). match goal with E : find_range _ _ _ = Ret _ |- _ => rename E into Ef end.
  destruct (find_range_low _ _ _ _ Ht Hroom Ef) as (v & -> & H1 & H2 & H3 & H4 & H5).
  destruct Hroom as (? & ? & _).
  destruct (install_inv _ _ _ _ _ _ Ht H) as (Hs & -> & l' & Em & Ed); try done.
  - by rewrite H1.
  - lia.
  - by rewrite H1.
  - by rewrite H1.
  - split; [done|]. by exists v, l'.
Qed.

(** A page range of the low half is its own [aligned]. *)
Lemma aligned_page v :
  page_range v → r_end v <= LOW → aligned (A:=VA) v = Ret v.
Proof.
  intros (V1 & V2 & V3 & V4 & V5) Hl. unfold aligned, new_aligned, r_end, LOW, PAGE_SIZE in *.
  assert (∀ a, 0 <= a <= 2 ^ 47 - 4096 → @canon VA VL a) as Hc by (intros; apply canon_low; lia).
  assert (4096 | r_addr v + r_size v) as Hd by by apply Z.divide_add_r.
  assert ((- (r_addr v + r_size v)) mod 4096 = 0) as Hm.
  { apply divide_mod0; [lia|]. by apply Z.divide_opp_r. }
  rewrite a_add_ok by first [lia | apply Hc; lia]. cbn [mbind res_bind].
  change (psize K4) with 4096.
  assert (a_up (AddrOps:=VA) (r_addr v + r_size v) 4096 = Ret (r_addr v + r_size v)) as ->.
  { rewrite a_up_ok; rewrite ?Hm, ?Z.add_0_r; try done; [apply Hc; lia|by exists 12|apply Hc; lia]. }
  cbn [mbind res_bind].
  rewrite (a_down_aligned (r_addr v)) by first [done | apply Hc; lia | by exists 12 | lia].
  cbn [mbind res_bind]. rewrite a_sub_ok by first [lia | apply Hc; lia]. cbn [mbind res_bind].
  replace (r_addr v + r_size v - r_addr v) with (r_size v) by lia.
  rewrite align_up_eq by first [lia | by exists 12]. cbn [mbind res_bind].
  assert ((r_size v + 4096 - 1) mod 4096 = 4095) as ->.
  { replace (r_size v + 4096 - 1) with (4095 + r_size v) by lia.
    apply divide_mod0 in V2; [|lia]. rewrite Z.add_mod, V2, Z.add_0_r by lia. done. }
  destruct v. simpl. do 2 f_equal. lia.
Qed.

(** The range before [v] that [free_space] compares with: never the excluded one,
    and the last of the others. *)
Lemma exclude_prev_last ok t v ex p x :
  map_ok ok PAGE_SIZE LOW t → last (exclude_prev ex (bt_below v t)) = Some (p, x) →
  ex ≠ Some p ∧ (p, x) ∈ bt_below v t ∧
  ∀ r y, (r, y) ∈ bt_below v t → Some r ≠ ex → r = p ∨ r_end r <= r_addr p.
Proof.
  intros Ht E. unfold exclude_prev in E. pose proof (below_from ok _ _ t v Ht) as Et.
  assert (∀ l0 p0 x0 l1, bt_below v t = l0 ++ (p0, x0) :: l1 →
    ∀ r y, (r, y) ∈ l0 → r_end r <= r_addr p0) as Hord.
  { intros l0 p0 x0 l1 E0. eapply (map_ok_before ok _ _ l0 p0 x0 (l1 ++ bt_from v t)).
    rewrite Et, E0, <- app_assoc in Ht. exact Ht. }
  destruct (last (bt_below v t)) as [[q z]|] eqn:El.
  2: { destruct ex; rewrite El in E; done. }
  apply last_Some in El as [l0 E0].
  assert (ex ≠ Some q → (q, z) = (p, x) → ex ≠ Some p ∧ (p, x) ∈ bt_below v t ∧
    ∀ r y, (r, y) ∈ bt_below v t → Some r ≠ ex → r = p ∨ r_end r <= r_addr p) as Hplain.
  { intros Hne [= -> ->]. split; [done|]. split; [rewrite E0; apply elem_of_app; right; by left|].
    intros r y Hr _. rewrite E0 in Hr. apply elem_of_app in Hr as [Hr|Hr%list_elem_of_singleton].
    - right. by eapply Hord. - injection Hr as -> ->. by left. }
  destruct ex as [w|].
  2: { rewrite E0, last_snoc in E. apply Hplain; congruence. }
  case_bool_decide as Hd.
  2: { rewrite E0, last_snoc in E. apply Hplain; congruence. }
  subst q. rewrite E0, length_app in E. simpl in E. rewrite Nat.add_sub, take_app_length in E.
  apply last_Some in E as [l1 E1]. rewrite E1, <- app_assoc in E0. simpl in E0.
  assert (∀ r y, (r, y) ∈ bt_below v t → 0 < r_size r) as Hpos.
  { intros r y Hr. destruct (map_ok_elem _ _ _ _ _ _ Ht (proj2 (below_lt _ _ _ _ Hr))) as (_ & ? & _).
    done. }
  assert ((p, x) ∈ bt_below v t) as Hp by (rewrite E0; apply elem_of_app; right; by left).
  split; [|split; [done|]].
  - intros [= ->]. assert (r_end p <= r_addr p) as Hle.
    { eapply (Hord (l1 ++ [(p, x)]) p z []); [by rewrite <- app_assoc|apply elem_of_app; right; by left]. }
    pose proof (Hpos _ _ Hp). unfold r_end in Hle. lia.
  - intros r y Hr Hne. rewrite E0 in Hr.
    apply elem_of_app in Hr as [Hr|[Hr|Hr%list_elem_of_singleton]%elem_of_cons].
    + right. by eapply Hord.
    + injection Hr as -> ->. by left.
    + congruence.
Qed.

(** [exclude_next] tests [prev], which is never the excluded range. *)
Lemma exclude_next_idle ok (t : list (range * VirtLayout)) v ex :
  map_ok ok PAGE_SIZE LOW t →
  exclude_next ex (last (exclude_prev ex (bt_below v t))) (bt_from v t) = bt_from v t.
Proof.
  intros Ht. unfold exclude_next. destruct (last _) as [[p x]|] eqn:Ep; [|by destruct ex].
  destruct (exclude_prev_last _ _ _ _ _ _ Ht Ep) as [Hne _].
  destruct ex as [w|]; [|done]. rewrite bool_decide_eq_false_2; [done|]. congruence.
Qed.

(** An answer [Some] of [free_space] means the range avoids page zero and is clear of
    every range but the excluded one. *)
Lemma free_space_clear ok t v ex d :
  map_ok ok PAGE_SIZE LOW t → 0 < r_size v → 0 <= r_addr v → r_end v <= LOW →
  free_space_around MAX_MAP_ADDR t v ex = Ret (Some d) →
  PAGE_SIZE <= r_addr v ∧ ∀ r x, (r, x) ∈ t → Some r ≠ ex → r_apart (mkRange (r_addr v) (r_size v)) r.
Proof.
  intros Ht Hv H0 Hlow H. unfold free_space_around in H.
  assert (∀ r, 0 <= r_addr r → 0 < r_size r → r_end r <= LOW → end_addr (A:=VA) r = Ret (r_end r)) as Hend
    by (intros; by apply low_ends).
  assert (∀ r x, (r, x) ∈ t → 0 < r_size r ∧ PAGE_SIZE <= r_addr r ∧ r_end r <= LOW) as Hel.
  { intros r x Hin. destruct (map_ok_elem _ _ _ _ _ _ Ht Hin) as (? & ? & _ & _ & ? & _). done. }
  set (prev := last (exclude_prev ex (bt_below v t))) in H.
  pose proof (exclude_next_idle _ _ v ex Ht) as En. fold prev in En.
  rewrite En in H. dret H. rename E into Eprev. destruct a as [d1|]; [|done].
  dret H. rename E into Enext. destruct a as [d2|]; [|done].
  pose proof (below_from ok _ _ t v Ht) as Et.
  assert (PAGE_SIZE <= r_addr v ∧ ∀ r x, (r, x) ∈ bt_below v t → Some r ≠ ex → r_end r <= r_addr v)
    as [Hpg Hbelow].
  { destruct prev as [[p x]|] eqn:Ep.
    - destruct (exclude_prev_last _ _ _ _ _ _ Ht Ep) as (_ & Hp & Hall).
      apply below_lt in Hp as [_ Hp]. destruct (Hel _ _ Hp) as (P1 & P2 & P3).
      rewrite (Hend p) in Eprev by (unfold PAGE_SIZE in *; lia). cbn [mbind res_bind] in Eprev.
      destruct (Z.ltb_spec (r_addr v) (r_end p)); [done|]. unfold r_end in *. split; [lia|].
      intros r y Hr Hne. destruct (Hall r y Hr Hne) as [->|?]; lia.
    - unfold as_usize in Eprev. destruct (Z.ltb_spec (r_addr v) PAGE_SIZE); [done|]. split; [lia|].
      intros r x Hr Hne. exfalso. subst prev. apply last_None in Ep. unfold exclude_prev in Ep.
      destruct ex as [w|]; [|rewrite Ep in Hr; by apply elem_of_nil in Hr].
      destruct (last (bt_below v t)) as [[q z]|] eqn:El.
      2: { rewrite Ep in Hr. by apply elem_of_nil in Hr. }
      apply last_Some in El as [l0 E0]. rewrite E0 in Ep, Hr. case_bool_decide.
      + subst. rewrite length_app in Ep. simpl in Ep. rewrite Nat.add_sub, take_app_length in Ep.
        subst l0. simpl in Hr. apply list_elem_of_singleton in Hr. congruence.
      + by apply app_nil in Ep as [_ ?]. }
  split; [done|]. intros r x Hr Hne. rewrite Et in Hr. apply elem_of_app in Hr as [Hr|Hr].
  - right. by eapply Hbelow.
  - left. pose proof (head_from ok _ t v Ht) as Hf.
    destruct (head (bt_from v t)) as [[n z]|]; [|rewrite Hf in Hr; by apply elem_of_nil in Hr].
    destruct Hf as (Hn & _ & Hall). destruct (Hel _ _ Hn) as (P1 & P2 & P3).
    rewrite (Hend v) in Enext by done. cbn [mbind res_bind] in Enext.
    destruct (Z.ltb_spec (r_addr n) (r_end v)); [done|]. unfold r_end in *. simpl.
    destruct (Hall r x Hr) as [->|?]; lia.
Qed.

Lemma page_range_low v : page_range v → r_end v <= LOW → 0 <= r_addr v ∧ 0 < r_size v.
Proof. intros (_ & _ & ? & ? & _) _. done. Qed.

Lemma map_at_inv fuel l n v s r s' :
  space_ok (virt_map s) → vl_size l = Ret n → page_range v → r_end v <= LOW →
  map_at MAX_MAP_ADDR fuel l v s = Ret (r, s') → space_ok (virt_map s').
Proof.
  intros Ht Hn Hv Hlow H. pose proof Hv as (V1 & V2 & V3 & V4 & _).
  unfold map_at in H. rewrite (aligned_page v Hv Hlow), Hn in H. step H. simplify_eq. step H. simplify_eq.
  lazymatch type of H with context [?m =? r_size ?u] =>
    destruct (Z.eqb_spec m (r_size u)) as [Em|]; cbn [negb] in H end.
  2: { apply drop_err_inv in H as [-> _]. done. }
  rewrite (proj2 (Z.eqb_neq _ _)) in H by lia. do 2 (step H).
  match goal with E : free_space_around _ _ ?u _ = Ret ?o |- _ =>
    rename E into Ef; destruct o as [d|] end.
  - destruct (free_space_clear _ _ _ _ _ Ht V4 V3 Hlow Ef) as [Hp Hc].
    destruct (install_inv _ _ _ _ _ _ Ht H) as (Hs & _); try done.
    intros r' x Hin. by eapply Hc.
  - apply drop_err_inv in H as [-> _]. done.
Qed.

Lemma unmap_inv fuel v at_ s r s' :
  space_ok (virt_map s) → unmap fuel v at_ s = Ret (r, s') →
  space_ok (virt_map s') ∧
  match r with
  | inl _ => s' = s
  | inr l => virt_map s' = bt_remove v (virt_map s) ∧
      ∃ l0, (v, l0) ∈ virt_map s ∧ data l = data l0 ∧ dirty_index l = 0%nat
  end.
Proof.
  intros Ht H. unfold unmap in H. step H.
  destruct (bt_get v (virt_map s)) as [l0|] eqn:Hg; [|by apply VM_ret_inv in H as [-> ->]].
  apply bt_get_elem in Hg. destruct (negb _); [by apply VM_ret_inv in H as [-> ->]|].
  do 3 (step H). apply VM_ret_inv in H as [-> ->].
  match goal with E : mark_unmapped _ _ = Ret _ |- _ => rename E into Em end.
  unfold mark_unmapped in Em. dret Em. rewrite M_ret_eq in Em. injection Em as <- _.
  match goal with E : virt_map _ = bt_remove _ _ |- _ => rename E into Er end.
  repeat match goal with E : virt_map _ = virt_map _ |- _ => rewrite <- E in Er; clear E end.
  rewrite Er. split; [by apply bt_remove_ok|]. split; [done|]. by exists l0.
Qed.

(** [alloc_func]s that only add pieces, or fail and change nothing. *)
Definition grows (f : AllocFunc (W:=W)) : Prop :=
  ∀ l w r l' w', f l w = Ret (r, l', w') → ∃ es, data l' = data l ++ es ∧
    dirty_index l' = dirty_index l ∧ dealloc_que l' = dealloc_que l ∧
    (∀ e, r = inl e → l' = l) ∧ (∀ n, vl_size l' = Ret n → (PAGE_SIZE | n)).

Lemma remap_edit_inv v at_ f s r s' :
  space_ok (virt_map s) → grows f → remap_edit v at_ f s = Ret (r, s') →
  match r with
  | inl _ => space_ok (virt_map s')
  | inr l => ∃ l0 es, (v, l0) ∈ virt_map s ∧ virt_map s' = bt_insert v l (virt_map s) ∧
      data l = data l0 ++ es ∧ dirty_index l = length (data l0) ∧ dealloc_que l = [] ∧
      (∀ n, vl_size l = Ret n → (PAGE_SIZE | n)) ∧ ∃ w w', f l0 w = Ret (inr (), l, w')
  end.
Proof.
  intros Ht Hf H. unfold remap_edit in H. step H.
  destruct (bt_get v (virt_map s)) as [l0|] eqn:Hg; [|by apply VM_ret_inv in H as [-> ->]].
  apply bt_get_elem in Hg. destruct (negb _); [by apply VM_ret_inv in H as [-> ->]|].
  step H. lazymatch type of H with (let '(_, _) := ?a in _) _ = _ => destruct a as [e l] end.
  step H. apply VM_ret_inv in H as [-> ->].
  lazymatch goal with E : f l0 _ = Ret _ |- _ => destruct (Hf _ _ _ _ _ E) as (es & D1 & D2 & D3 & D4 & D5) end.
  destruct (map_ok_elem _ _ _ _ _ _ Ht Hg) as (_ & _ & _ & _ & _ & S1 & S2 & S3).
  lazymatch goal with E : virt_map _ = bt_insert _ _ _ |- _ => rename E into Em end.
  destruct e as [e|[]].
  - rewrite (D4 e eq_refl) in Em. rewrite Em. by eapply bt_update_ok.
  - exists l0, es. rewrite D2, D3. split_and!; try done. by eexists _, _.
Qed.

(** The map while the layout of one range is being edited. *)
Definition but (v r : range) (l : VirtLayout) : Prop := r = v ∨ synced r l.

Lemma edited_ok v l0 l t :
  space_ok t → (v, l0) ∈ t →
  map_ok (but v) PAGE_SIZE LOW (bt_insert v l t) ∧ (v, l) ∈ bt_insert v l t ∧
  (∀ r x, (r, x) ∈ bt_insert v l t → ∃ y, (r, y) ∈ t).
Proof. intros Ht Hv. eapply bt_update_ok; [done|done|by left|]. intros. by right. Qed.

Lemma edited_remove v t :
  map_ok (but v) PAGE_SIZE LOW t → space_ok (bt_remove v t).
Proof. intros Ht. eapply bt_remove_strict; [done|]. by intros r x [->|?] ?. Qed.

Lemma edited_restore v l t :
  map_ok (but v) PAGE_SIZE LOW t → (∃ y, (v, y) ∈ t) → synced v l → space_ok (bt_insert v l t).
Proof.
  intros Ht [y Hy] Hl. eapply bt_update_ok; [done|done|done|]. by intros r x [->|?] ?.
Qed.

Lemma clear_remove v t a n :
  (∀ r x, (r, x) ∈ t → Some r ≠ Some v → r_apart (mkRange a n) r) → clear_of (bt_remove v t) a n.
Proof. intros H r x [Hne Hin]%bt_remove_elem. apply (H r x Hin). congruence. Qed.

Lemma remap_empty_inv fuel v nrange l s r s' :
  space_ok (bt_remove v (virt_map s)) → remap_empty fuel v nrange l s = Ret (r, s') →
  space_ok (virt_map s').
Proof.
  intros Ht H. unfold remap_empty in H. do 6 (step H). apply VM_ret_inv in H as [-> ->].
  repeat match goal with E : virt_map _ = virt_map _ |- _ => rewrite E; clear E end.
  by match goal with E : virt_map _ = bt_remove _ _ |- _ => rewrite E end.
Qed.

Lemma mark_unmapped_inv (l l' : VirtLayout) (w w' : W) :
  mark_unmapped l w = Ret (l', w') → data l' = data l.
Proof. unfold mark_unmapped. intros H. dret H. rewrite M_ret_eq in H. by injection H as <- _. Qed.

Lemma vl_size_data l l' : data l' = data l → vl_size l' = vl_size l.
Proof. unfold vl_size. by intros ->. Qed.

(** The layouts [f] can leave at [v] fit at [a], and somewhere else. *)
Definition fits (t : list (range * VirtLayout)) (f : AllocFunc (W:=W)) (v : range) (a : Z) : Prop :=
  ∀ l w l' w' n, (v, l) ∈ t → f l w = Ret (inr (), l', w') → vl_size l' = Ret n → n ≠ 0 →
    a + n <= LOW ∧ room_for t n.

Lemma room_for_keys t t' n :
  (∀ r x, (r, x) ∈ t' → ∃ y, (r, y) ∈ t) → room_for t n → room_for t' n.
Proof.
  intros Hk (H1 & H2 & b & B1 & B2 & B3). split; [done|split; [done|]]. exists b.
  split; [done|split; [done|]]. intros r x Hin. destruct (Hk r x Hin) as [y Hy]. by eapply B3.
Qed.

(** Moving an edited layout to [nv], once its old range is out of the map. *)
Lemma move_inv fuel t l a n s r s' :
  space_ok t → virt_map s = t → vl_size l = Ret n → 0 < n → (PAGE_SIZE | n) →
  PAGE_SIZE <= a → (PAGE_SIZE | a) → a + n <= LOW → clear_of t a n →
  install fuel l (mkRange a n) s = Ret (r, s') → space_ok (virt_map s').
Proof.
  intros Ht E Hs Hn Hd Hp Ha He Hc H. subst t.
  by eapply (install_inv fuel l _ s).
Qed.

(** Moving it where [free_space] says. *)
Lemma moved_ok fuel v t l l' a n d s r s' :
  map_ok (but v) PAGE_SIZE LOW t → vl_size l = Ret n → 0 < n → (PAGE_SIZE | n) →
  0 <= a → (PAGE_SIZE | a) → a + n <= LOW →
  free_space_around MAX_MAP_ADDR t (mkRange a n) (Some v) = Ret (Some d) →
  virt_map s = bt_remove v t → data l' = data l →
  install fuel l' (mkRange a n) s = Ret (r, s') → space_ok (virt_map s').
Proof.
  intros Ht Hs Hn Hd Ha Hda He Hf Em Ed H.
  destruct (free_space_clear _ t (mkRange a n) _ _ Ht Hn Ha He Hf) as [Hp Hc]. simpl in Hp, Hc.
  eapply (move_inv fuel (bt_remove v t) l'); try done.
  - by apply edited_remove.
  - by rewrite (vl_size_data l).
  - by apply clear_remove.
Qed.

Lemma sum_sizes_nonneg es m n : sum_sizes m es = Ret n → 0 <= m → 0 <= n.
Proof.
  revert m. induction es as [|e es IH]; simpl; intros m H; [by simplify_eq|].
  dret H. unfold uadd in E. apply checked_range in E as [? _]. intros. by eapply IH.
Qed.

Lemma remap_inv fuel v at_ f s r s' :
  space_ok (virt_map s) → page_range v → r_end v <= LOW → grows f →
  fits (virt_map s) f v (r_addr v) →
  remap MAX_MAP_ADDR fuel v at_ f s = Ret (r, s') → space_ok (virt_map s').
Proof.
  intros Ht Hv Hlow Hf Hfit H. unfold remap in H. pose proof Hv as (V1 & V2 & V3 & V4 & _).
  rewrite (aligned_page v Hv Hlow) in H. step H. simplify_eq. dret H. rename E into Ee.
  apply remap_edit_inv in Ee; [|done|done].
  match type of Ee with match ?a with _ => _ end => destruct a as [e|l] end.
  { by apply VM_ret_inv in H as [-> ->]. }
  destruct Ee as (l0 & es & Hin & Em & D1 & D2 & D3 & D4 & w & w' & Efun).
  destruct (edited_ok _ _ l _ Ht Hin) as (K1 & K2 & K3). rewrite <- Em in *.
  step H. match goal with E : vl_size l = Ret ?x |- _ => rename E into Esz; rename x into n end.
  destruct (Z.eqb_spec n 0) as [->|Hn0].
  { step H. eapply remap_empty_inv; [|done]. by apply edited_remove. }
  destruct (Hfit _ _ _ _ _ Hin Efun Esz Hn0) as (Hfit1 & Hroom).
  pose proof (D4 _ Esz) as Hdn. destruct Hroom as (Hn & Hroom2) eqn:Er; clear Er.
  rewrite range_new_page in H by first [done | unfold LOW, r_end, PAGE_SIZE in *; lia]. step H. simplify_eq. do 2 (step H).
  match goal with E : free_space_around _ _ _ _ = Ret ?o |- _ => rename E into Ef; destruct o as [d|] end.
  - step H. eapply (moved_ok fuel); eauto; lia.
  - step H. match goal with E : find_range _ _ _ = Ret _ |- _ => rename E into Efr end.
    destruct (find_range_low _ _ _ _ K1 (room_for_keys _ _ _ K3 Hroom) Efr)
      as (nv & -> & N1 & N2 & N3 & N4 & N5).
    destruct nv as [na nn]. simpl in N1, N2, N3, N4, N5. subst nn. do 3 (step H).
    match goal with E : mark_unmapped _ _ = Ret _ |- _ => apply mark_unmapped_inv in E; rename E into Ed end.
    eapply (move_inv _ (bt_remove a (virt_map s0))) in H; try done;
      [by apply edited_remove|congruence|by rewrite (vl_size_data l)|lia|].
    apply clear_remove. intros r' x' Hin' _. by eapply N5.
Qed.

Lemma revert_inv (l l' : VirtLayout) (w w' : W) es l0 :
  data l = data l0 ++ es → dirty_index l = length (data l0) → dealloc_que l = [] →
  revert l w = Ret (l', w') →
  data l' = data l0 ∧ dirty_index l' = length (data l0) ∧ dealloc_que l' = [].
Proof.
  unfold revert. intros D1 D2 D3 H. dret H. rewrite M_ret_eq in H. injection H as <- _. simpl.
  by rewrite D1, D2, D3, take_app_length, app_nil_r.
Qed.

Lemma remap_at_inv fuel v target at_ f s r s' :
  space_ok (virt_map s) → page_range v → r_end v <= LOW → 0 <= target <= LOW → grows f →
  fits (virt_map s) f v target →
  remap_at MAX_MAP_ADDR fuel v target at_ f s = Ret (r, s') → space_ok (virt_map s').
Proof.
  intros Ht Hv Hlow Htg Hf Hfit H. unfold remap_at in H. pose proof Hv as (V1 & V2 & V3 & V4 & _).
  rewrite (aligned_page v Hv Hlow) in H. step H. simplify_eq.
  rewrite a_down_ok in H by first [apply canon_low; unfold LOW, PAGE_SIZE in *; lia | by exists 12 | done].
  step H. simplify_eq. set (ta := target - target mod PAGE_SIZE) in *.
  pose proof (Z.mod_pos_bound target PAGE_SIZE eq_refl).
  assert (PAGE_SIZE | ta) as Hta.
  { exists (target / PAGE_SIZE). subst ta. pose proof (Z_div_mod_eq_full target PAGE_SIZE). lia. }
  assert (0 <= ta) as Hta0. { destruct Hta as [k Hk]. unfold PAGE_SIZE in *. lia. }
  dret H. rename E into Ee. apply remap_edit_inv in Ee; [|done|done].
  match type of Ee with match ?a with _ => _ end => destruct a as [e|l] end.
  { by apply VM_ret_inv in H as [-> ->]. }
  destruct Ee as (l0 & es & Hin & Em & D1 & D2 & D3 & D4 & w & w' & Efun).
  destruct (edited_ok _ _ l _ Ht Hin) as (K1 & K2 & K3). rewrite <- Em in *.
  step H. match goal with E : vl_size l = Ret ?x |- _ => rename E into Esz; rename x into n end.
  destruct (Z.eqb_spec n 0) as [->|Hn0].
  { step H. eapply remap_empty_inv; [|done]. by apply edited_remove. }
  destruct (Hfit _ _ _ _ _ Hin Efun Esz Hn0) as (Hfit1 & Hn & _).
  pose proof (D4 _ Esz) as Hdn.
  rewrite range_new_page in H by first [done | unfold LOW, r_end, PAGE_SIZE in *; lia]. step H. simplify_eq. do 2 (step H).
  match goal with E : free_space_around _ _ _ _ = Ret ?o |- _ => rename E into Ef; destruct o as [d|] end.
  - step H. dret H.
    match goal with E : virt_map _ = bt_remove _ _ |- _ => rename E into Er end.
    match goal with E : (if _ then _ else _) _ = Ret (?x, ?y) |- _ =>
      rename E into Ex; assert (virt_map y = bt_remove a (virt_map s0) ∧ data x = data l) as [Ey Ed] end.
    { destruct (ta =? r_addr a).
      - by apply VM_ret_inv in Ex as [-> ->].
      - step Ex. apply on_w_inv in Ex as (Ex & Ed). apply mark_unmapped_inv in Ed.
        split; [congruence|done]. }
    eapply (moved_ok fuel); eauto; lia.
  - do 2 (step H). apply VM_ret_inv in H as [-> ->].
    match goal with E : revert _ _ = Ret _ |- _ =>
      destruct (revert_inv _ _ _ _ _ _ D1 D2 D3 E) as (R1 & R2 & R3) end.
    match goal with E : virt_map _ = bt_insert a ?x (virt_map s0) |- _ => rewrite E end.
    apply edited_restore; [done|by exists l|].
    destruct (map_ok_elem _ _ _ _ _ _ Ht Hin) as (_ & _ & _ & _ & _ & S1 & _).
    unfold synced. by rewrite (vl_size_data l0), R1, R2.
Qed.

Lemma head_from_eq ok (t : list (range * VirtLayout)) v l n :
  map_ok ok PAGE_SIZE LOW t → (v, l) ∈ t → 0 < n <= r_size v →
  head (bt_from (mkRange (r_addr v) n) t) = Some (v, l).
Proof.
  intros Ht Hin Hn. apply list_elem_of_split in Hin as (t1 & t2 & ->).
  unfold bt_from. rewrite filter_app, filter_cons_True.
  2: { unfold range_ltb. simpl. apply orb_false_iff. rewrite andb_false_iff, !Z.ltb_ge. lia. }
  assert (∀ r x, (r, x) ∈ t1 → 0 < r_size r) as Hpos.
  { intros r x Hr. eapply (map_ok_elem ok _ _ _ r x) in Ht as (_ & ? & _); [done|]. set_solver. }
  assert (∀ r x, (r, x) ∈ t1 → r_addr r < r_addr v) as Hlt.
  { intros r x Hr. pose proof (map_ok_before _ _ _ _ _ _ _ Ht _ _ Hr). pose proof (Hpos _ _ Hr).
    unfold r_end in *. lia. }
  assert (filter (λ p : range * VirtLayout, range_ltb p.1 (mkRange (r_addr v) n) = false) t1 = []) as ->; [|done].
  apply elem_of_nil_inv. intros [r x] [Hf Hr]%list_elem_of_filter. pose proof (Hlt _ _ Hr).
  unfold range_ltb in Hf. simpl in Hf. apply orb_false_iff in Hf as [Hf%Z.ltb_ge _]. lia.
Qed.

(** [remap] to the same or a smaller size never keeps a mapping where it is: asked
    whether the range may go at its own place, [free_space] says no, since it looks for
    the range to leave out among the ranges before, never after. *)
Theorem shrink_never_in_place t v l n :
  space_ok t → (v, l) ∈ t → 0 < n <= r_size v →
  free_space_around MAX_MAP_ADDR t (mkRange (r_addr v) n) (Some v) = Ret None.
Proof.
  intros Ht Hin Hn. unfold free_space_around.
  assert (∀ r x, (r, x) ∈ t → 0 <= r_addr r ∧ 0 < r_size r ∧ r_end r <= LOW ∧ PAGE_SIZE <= r_addr r) as Hel.
  { intros r x Hr. destruct (map_ok_elem _ _ _ _ _ _ Ht Hr) as (? & ? & _ & _ & ? & _).
    unfold PAGE_SIZE in *. split_and!; try done; lia. }
  destruct (Hel _ _ Hin) as (V1 & V2 & V3 & V4).
  rewrite (exclude_next_idle _ _ _ _ Ht), (head_from_eq _ _ _ _ _ Ht Hin Hn).
  destruct (low_ends (mkRange (r_addr v) n)) as [E1 E2]; [done|simpl; lia|unfold r_end in *; simpl; lia|].
  rewrite E1, E2. cbn [mbind res_bind].
  rewrite (proj2 (Z.ltb_lt (r_addr v) _)) by (unfold r_end; simpl; lia).
  destruct (last (exclude_prev _ _)) as [[p x]|] eqn:El.
  - destruct (exclude_prev_last _ _ _ _ _ _ Ht El) as (_ & Hp & _).
    apply below_lt in Hp as [Hlt Hp]. destruct (Hel _ _ Hp) as (P1 & P2 & P3 & _).
    destruct (low_ends p P1 P2 P3) as [-> ->]. cbn [mbind res_bind].
    unfold as_usize. simpl. destruct (Z.ltb_spec (r_addr v) (r_end p)); [done|].
    unfold r_end in *. u. done.
  - unfold as_usize. simpl. rewrite (proj2 (Z.ltb_ge _ _)) by done. unfold r_end, LOW, PAGE_SIZE in *. by u.
Qed.

(** One call on a mapper that returns. *)
Inductive vm_step (s s' : VirtMapper (W:=W)) : Prop :=
  | step_map fuel l n r :
      vl_size l = Ret n → n = 0 ∨ room_for (virt_map s) n →
      map MAX_MAP_ADDR fuel l s = Ret (r, s') → vm_step s s'
  | step_map_at fuel l n v r :
      vl_size l = Ret n → page_range v → r_end v <= LOW →
      map_at MAX_MAP_ADDR fuel l v s = Ret (r, s') → vm_step s s'
  | step_remap fuel v at_ f r :
      page_range v → r_end v <= LOW → grows f → fits (virt_map s) f v (r_addr v) →
      remap MAX_MAP_ADDR fuel v at_ f s = Ret (r, s') → vm_step s s'
  | step_remap_at fuel v target at_ f r :
      page_range v → r_end v <= LOW → 0 <= target <= LOW → grows f → fits (virt_map s) f v target →
      remap_at MAX_MAP_ADDR fuel v target at_ f s = Ret (r, s') → vm_step s s'
  | step_unmap fuel v at_ r :
      unmap fuel v at_ s = Ret (r, s') → vm_step s s'.

Lemma vm_step_ok s s' : space_ok (virt_map s) → vm_step s s' → space_ok (virt_map s').
Proof.
  intros Ht [fuel l n r Hn [->|Hroom] H|fuel l n v r Hn Hv Hl H|fuel v at_ f r Hv Hl Hf Hfit H
    |fuel v tg at_ f r Hv Hl Htg Hf Hfit H|fuel v at_ r H].
  - unfold map in H. rewrite Hn in H. step H. simplify_eq/=. by apply drop_err_inv in H as [-> _].
  - by apply (map_inv fuel l n s r).
  - by apply (map_at_inv fuel l n v s r).
  - by apply (remap_inv fuel v at_ f s r).
  - by apply (remap_at_inv fuel v tg at_ f s r).
  - by apply (unmap_inv fuel v at_ s r).
Qed.

End invariant.

(** ** Concrete runs *)

#[local] Existing Instance dev.

(** Memory not handed out. *)
#[export] Instance DemoMem : PhysMem Z := {
  zm_alloc _ w := Ret (None, w);
  zm_dealloc _ w := Ret w;
}.

Definition demo_layout (n : Z) : VirtLayout :=
  vl_from [mkElem (Mem (mkRange 0x400000 n)) n (Z.lor PF_PRESENT PF_WRITABLE) 3] VirtMem.
Definition demo_pt : PT Z := mkPT ∅ 0x1000.
Definition demo_max : Z := 2 ^ 64 - 2 ^ 31.

Definition demo_mapper : VirtMapper :=
  match mapper_new 0x9001 demo_pt with
  | Ret (s, _) => s
  | _ => mkMapper [] 0 demo_pt
  end.

Definition demo_mapped : VirtMapper :=
  match map (B:=dev) demo_max 10 (demo_layout 0x2000) demo_mapper with
  | Ret (_, s) => s
  | _ => mkMapper [] 0 demo_pt
  end.

Lemma demo_mapped_ok : space_ok (virt_map demo_mapped).
Proof.
  vm_compute virt_map. split_and!; try done; try (by exists 1); try (by exists 2).
Qed.

Lemma demo_room : room_for (virt_map demo_mapper) 0x2000.
Proof.
  split; [lia|]. split; [by exists 2|]. exists PAGE_SIZE. split; [done|split; [done|]].
  intros r v Hin. vm_compute virt_map in Hin. by apply elem_of_nil in Hin.
Qed.

Definition demo_key : range := mkRange 0x1000 0x2000.

Lemma find_range_spec_witness :
  ∃ o, find_range (B:=dev) demo_max (virt_map demo_mapped) 0x1000 = Ret o ∧
    match o with
    | Some v => r_size v = 0x1000 ∧ (PAGE_SIZE | r_addr v) ∧
        place demo_max (virt_map demo_mapped) 0x1000 (r_addr v) ∧
        ∀ b, place demo_max (virt_map demo_mapped) 0x1000 b → r_addr v <= b
    | None => ∀ b, ¬ place demo_max (virt_map demo_mapped) 0x1000 b
    end.
Proof.
  refine (find_range_spec (B:=dev) demo_max synced _ 0x1000 _ demo_mapped_ok _ _);
    [done|done|by exists 1].
Defined.

Lemma free_space_spec_witness :
  ∃ o, free_space_around (B:=dev) demo_max (virt_map demo_mapped) (mkRange 0x3000 0x1000) None = Ret o ∧
    (is_Some o ↔ PAGE_SIZE <= 0x3000 ∧ 0x4000 <= demo_max ∧
      clear_of (virt_map demo_mapped) 0x3000 0x1000).
Proof.
  refine (free_space_spec (B:=dev) demo_max synced _ (virt_map demo_mapped) (mkRange 0x3000 0x1000)
    demo_mapped_ok _); done.
Defined.

Definition demo_entry : VirtLayout :=
  match virt_map demo_mapped with (_, l) :: _ => l | [] => vl_new VirtMem end.

Lemma demo_in : (demo_key, demo_entry) ∈ virt_map demo_mapped.
Proof. vm_compute. left. Qed.

Lemma demo_max_ok : LOW <= demo_max < U64.
Proof. done. Qed.

Lemma shrink_never_in_place_witness :
  free_space_around (B:=dev) demo_max (virt_map demo_mapped) (mkRange (r_addr demo_key) 0x1000) (Some demo_key) = Ret None.
Proof.
  destruct (shrink_never_in_place (B:=dev) demo_max demo_max_ok (virt_map demo_mapped) demo_key demo_entry
    0x1000 demo_mapped_ok demo_in ltac:(done)). reflexivity.
Defined.

Lemma demo_step : vm_step (B:=dev) demo_max demo_mapper demo_mapped.
Proof.
  eapply (step_map (B:=dev) demo_max _ _ 10 (demo_layout 0x2000) 0x2000 (inr demo_key)).
  - by vm_compute.
  - right. exact demo_room.
  - by vm_compute.
Qed.

