(* ===== verification/Boot.v ===== *)
(** * What firmware hands over: [kernel/src/util/hwa_iter.rs], [mb2.rs], [acpi/]

    Firmware tables are bytes in memory.  Memory is a partial function from virtual
    addresses to bytes; reading where it has none is undefined behaviour.  A [HwaIter]
    walks an array of elements that carry their own size: the multiboot tags of
    [mb2.rs] and the entries of the MADT.  References into tables are addresses. *)

From S2P Require Import Prelude Misc Sys Ranges Buddy PageTable VirtLayout.

Definition bytes := Z → option Z.

Section memory.
Context {B : Build} (m : bytes).

Definition read_u8 (a : Z) : res Z := match m a with Some b => Ret b | None => UB end.

(** Little-endian words of [n] bytes. *)
Fixpoint read_le (n : nat) (a : Z) : res Z :=
  match n with
  | O => Ret 0
  | S n => b ← read_u8 a; r ← read_le n (a + 1); Ret (b + 256 * r)
  end.
Definition read_u16 : Z → res Z := read_le 2.
Definition read_u32 : Z → res Z := read_le 4.
Definition read_u64 : Z → res Z := read_le 8.

Fixpoint read_bytes (n : nat) (a : Z) : res (list Z) :=
  match n with
  | O => Ret []
  | S n => b ← read_u8 a; r ← read_bytes n (a + 1); Ret (b :: r)
  end.

Fixpoint sum_bytes (n : nat) (a sum : Z) : res Z :=
  match n with
  | O => Ret sum
  | S n => b ← read_u8 a; sum ← uadd sum b; sum_bytes n (a + 1) sum
  end.

(** ** The iterator *)

Class HwaTag (T : Type) := {
  tag_hd : Z;             (* [size_of_val(self)] *)
  tag_size : Z → res Z;
  tag_elem : Z → res T;
}.

(** [raw_data] of a type of [n] bytes: the address of the data. *)
Definition raw_data (hd size n a : Z) : res Z :=
  e ← uadd hd n; assert_ (e <=? size);; uadd a hd.

Record HwaIter := mkHwa { it_addr : Z; it_end : Z; it_align : Z }.

Definition from_align (addr size align : Z) : res HwaIter :=
  e ← uadd addr size; Ret (mkHwa addr e align).

Definition hwa_from (addr size : Z) : res HwaIter := from_align addr size 0.

(** [n] is [size_of::<U>()]. *)
Definition from_struct_align (n data total_size align : Z) : res HwaIter :=
  assert_ (n <=? total_size);;
  addr ← uadd data n;
  size ← usub total_size n;
  from_align addr size align.

Definition from_struct (n data total_size : Z) : res HwaIter :=
  from_struct_align n data total_size 0.

Definition hwa_next {T} {H : HwaTag T} (it : HwaIter) : res (option T * HwaIter) :=
  if it_end it <=? it_addr it then Ret (None, it)
  else
    let tag := it_addr it in
    size ← tag_size tag;
    addr ← uadd (it_addr it) size;
    if it_end it <? addr then Ret (None, mkHwa addr (it_end it) (it_align it))
    else
      addr ← (if negb (it_align it =? 0) then align_up addr (it_align it) else Ret addr);
      x ← tag_elem tag;
      Ret (Some x, mkHwa addr (it_end it) (it_align it)).

(** All the elements, as a [for] loop sees them. *)
Fixpoint hwa_all {T} {H : HwaTag T} (fuel : nat) (it : HwaIter) : res (list T) :=
  match fuel with
  | O => NoFuel
  | S fuel =>
      '(x, it) ← hwa_next it;
      match x with
      | None => Ret []
      | Some x => xs ← hwa_all fuel it; Ret (x :: xs)
      end
  end.

(** ** ACPI tables *)

Inductive SdtType := Rsdt | Xsdt | Madt | Hpet.

#[export] Instance SdtType_eq_dec : EqDecision SdtType.
Proof. solve_decision. Defined.

Inductive AcpiTable := ARsdt (a : Z) | AMadt (a : Z) | AHpet (a : Z).

Definition assume_rsdt (t : AcpiTable) : option Z := match t with ARsdt a => Some a | _ => None end.
Definition assume_madt (t : AcpiTable) : option Z := match t with AMadt a => Some a | _ => None end.
Definition assume_hpet (t : AcpiTable) : option Z := match t with AHpet a => Some a | _ => None end.

Definition size_of_SdtHeader : Z := 36.
Definition size_of_Madt : Z := 44.

Definition sdt_size (a : Z) : res Z := read_u32 (a + 4).
Definition data_size (a : Z) : res Z := s ← sdt_size a; usub s size_of_SdtHeader.
Definition data_ptr (a : Z) : Z := a + size_of_SdtHeader.

(** [data::<T>()] for elements of [n] bytes: their addresses. *)
Definition sdt_data (n a : Z) : res (list Z) :=
  s ← data_size a;
  if negb (s mod n =? 0) then Panic
  else Ret ((λ i, data_ptr a + n * Z.of_nat i) <$> seq 0 (Z.to_nat (s / n))).

Definition validate (a : Z) : res bool :=
  s ← sdt_size a;
  sum ← sum_bytes (Z.to_nat s) a 0;
  Ret (sum mod 0x100 =? 0).

Definition sdt_type (a : Z) : res (option SdtType) :=
  s ← read_bytes 4 a;
  Ret (if bool_decide (s = [65; 80; 73; 67]) then Some Madt
       else if bool_decide (s = [82; 83; 68; 84]) then Some Rsdt
       else if bool_decide (s = [88; 83; 68; 84]) then Some Xsdt
       else if bool_decide (s = [72; 80; 69; 84]) then Some Hpet
       else None).

Definition as_acpi_table (a : Z) : res (option AcpiTable) :=
  t ← sdt_type a;
  size ← sdt_size a;
  match t with
  | Some Rsdt => assert_ (size_of_SdtHeader <=? size);; Ret (Some (ARsdt a))
  | Some Madt => assert_ (size_of_Madt <=? size);; Ret (Some (AMadt a))
  | Some Hpet => assert_ (size_of_SdtHeader <=? size);; Ret (Some (AHpet a))
  | _ => Ret None
  end.

Section tables.
Context {AD : Addresses}.

(** [Rsdt::from] a physical address. *)
Definition rsdt_from (addr : Z) : res (option Z) :=
  out ← phys_to_virt_usize addr;
  ok ← validate out;
  Ret (if ok : bool then Some out else None).

Fixpoint tables_of (ptrs : list Z) : res (list AcpiTable) :=
  match ptrs with
  | [] => Ret []
  | p :: ptrs =>
      n ← read_u32 p;
      addr ← phys_to_virt_usize n;
      t ← as_acpi_table addr;
      ts ← tables_of ptrs;
      Ret (match t with Some t => t :: ts | None => ts end)
  end.

Definition rsdt_tables (a : Z) : res (list AcpiTable) := ptrs ← sdt_data 4 a; tables_of ptrs.

Fixpoint find_table (ptrs : list Z) (table_type : SdtType) : res (option AcpiTable) :=
  match ptrs with
  | [] => Ret None
  | p :: ptrs =>
      n ← read_u32 p;
      addr ← phys_to_virt_usize n;
      t ← sdt_type addr;
      if bool_decide (t = Some table_type) then as_acpi_table addr else find_table ptrs table_type
  end.

Definition rsdt_get_table (a : Z) (table_type : SdtType) : res (option AcpiTable) :=
  ptrs ← sdt_data 4 a; find_table ptrs table_type.
End tables.

(** *** The MADT *)

Inductive MadtElem :=
  | ProcLocalApic (proc_id apic_id flags : Z)
  | IoApic (ioapic_id ioapic_addr global_sysint_base : Z)
  | IoApicSrcOverride (bus_src irq_src global_sysint flags : Z)
  | IoApicNmi (nmi_src flags global_sysint : Z)
  | LocalApicNmi (proc_id flags lint : Z)
  | LocalApicOverride (addr : Z)
  | ProcLocalX2Apic (x2_apic_id flags acpi_id : Z).

Definition madt_elem (a : Z) : res MadtElem :=
  typ ← read_u8 a;
  size ← read_u8 (a + 1);
  let data n := raw_data 2 size n a in
  match typ with
  | 0 => d ← data 6; p ← read_u8 d; i ← read_u8 (d + 1); f ← read_u32 (d + 2); Ret (ProcLocalApic p i f)
  | 1 => d ← data 10; i ← read_u8 d; p ← read_u32 (d + 2); b ← read_u32 (d + 6); Ret (IoApic i p b)
  | 2 => d ← data 8; b ← read_u8 d; i ← read_u8 (d + 1); g ← read_u32 (d + 2); f ← read_u16 (d + 6);
         Ret (IoApicSrcOverride b i g f)
  | 3 => d ← data 8; n ← read_u8 d; f ← read_u16 (d + 2); g ← read_u32 (d + 4); Ret (IoApicNmi n f g)
  | 4 => d ← data 4; p ← read_u8 d; f ← read_u16 (d + 1); l ← read_u8 (d + 3); Ret (LocalApicNmi p f l)
  | 5 => d ← data 10; p ← read_u64 (d + 2); Ret (LocalApicOverride p)
  | 9 => d ← data 14; x ← read_u32 (d + 2); f ← read_u32 (d + 6); i ← read_u32 (d + 10);
         Ret (ProcLocalX2Apic x f i)
  | _ => Panic
  end.

#[export] Instance MadtTag : HwaTag MadtElem := {
  tag_hd := 2;
  tag_size a := read_u8 (a + 1);
  tag_elem := madt_elem;
}.

Definition lapic_addr (a : Z) : res Z := read_u32 (a + 36).
Definition lapic_flags (a : Z) : res Z := read_u32 (a + 40).
Definition madt_iter (a : Z) : res HwaIter := s ← sdt_size a; from_struct size_of_Madt a s.
End memory.

(** ** Strings *)

(** UTF-8, as [core::str::from_utf8] checks it. *)
Definition utf8_tail (b : Z) : bool := (0x80 <=? b) && (b <=? 0xbf).

Fixpoint utf8 (fuel : nat) (s : list Z) : bool :=
  match fuel with
  | O => true
  | S fuel =>
      match s with
      | [] => true
      | a :: s =>
          if a <=? 0x7f then utf8 fuel s
          else if (0xc2 <=? a) && (a <=? 0xdf) then
            match s with b :: s => utf8_tail b && utf8 fuel s | _ => false end
          else if (0xe0 <=? a) && (a <=? 0xef) then
            match s with
            | b :: c :: s =>
                (if a =? 0xe0 then 0xa0 <=? b else true) && (if a =? 0xed then b <=? 0x9f else true) &&
                utf8_tail b && utf8_tail c && utf8 fuel s
            | _ => false
            end
          else if (0xf0 <=? a) && (a <=? 0xf4) then
            match s with
            | b :: c :: d :: s =>
                (if a =? 0xf0 then 0x90 <=? b else true) && (if a =? 0xf4 then b <=? 0x8f else true) &&
                utf8_tail b && utf8_tail c && utf8_tail d && utf8 fuel s
            | _ => false
            end
          else false
      end
  end.

Definition from_utf8 (s : list Z) : option (list Z) := if utf8 (length s) s then Some s else None.

(** The bytes up to the first zero. *)
Fixpoint cstr_bytes (m : bytes) (fuel : nat) (a : Z) : res (list Z) :=
  match fuel with
  | O => NoFuel
  | S fuel =>
      b ← read_u8 m a;
      if b =? 0 then Ret [] else r ← cstr_bytes m fuel (a + 1); Ret (b :: r)
  end.

Definition from_cstr (m : bytes) (fuel : nat) (a : Z) : res (option (list Z)) :=
  s ← cstr_bytes m fuel a; Ret (from_utf8 s).

(** ** The multiboot information *)

Definition MAX_MEMORY_REGIONS : Z := 16.

(** Regions that were pushed; the variant for empty slots is not reached. *)
Inductive MemoryRegionType :=
  | Usable (r : range)
  | Acpi (r : range)
  | HibernatePreserve (r : range)
  | Defective (r : range)
  | Reserved (r : range)
  | Kernel (r : range).

Definition region_range (t : MemoryRegionType) : range :=
  match t with
  | Usable r | Acpi r | HibernatePreserve r | Defective r | Reserved r | Kernel r => r
  end.

(** The type of a region, from its number. *)
Definition region_typed (typ : Z) (r : range) : MemoryRegionType :=
  match typ with
  | 1 => Usable r
  | 3 => Acpi r
  | 4 => HibernatePreserve r
  | 5 => Defective r
  | _ => Reserved r
  end.

Inductive Mb2Elem :=
  | End
  | Module (a : Z)
  | MemoryMapTag (a : Z)
  | RsdpOld (a : Z)
  | Other (a : Z).

Section mb2.
Context {B : Build} {AD : Addresses} (m : bytes).
(** [consts::KERNEL_PHYS_RANGE], set by the linker. *)
Context (KERNEL_PHYS_RANGE : range).

Definition mb2_elem (a : Z) : res Mb2Elem :=
  typ ← read_u32 m a;
  size ← read_u32 m (a + 4);
  match typ with
  | 0 => Ret End
  | 3 => d ← raw_data 8 size 8 a; Ret (Module d)
  | 6 => Ret (MemoryMapTag a)
  | 14 => d ← raw_data 8 size 20 a; Ret (RsdpOld d)
  | 15 => Panic
  | _ => Ret (Other a)
  end.

#[export] Instance TagHeader : HwaTag Mb2Elem := {
  tag_hd := 8;
  tag_size a := read_u32 m (a + 4);
  tag_elem := mb2_elem;
}.

(** A [MemoryMap] is the list of its regions. *)
Definition MemoryMap := list MemoryRegionType.

Definition push_one (region : MemoryRegionType) (l : MemoryMap) : res MemoryMap :=
  assert_ (Z.of_nat (length l) <? MAX_MEMORY_REGIONS);; Ret (l ++ [region]).

(** [push]: the recursion is on the region of the kernel. *)
Fixpoint push (fuel : nat) (region : MemoryRegionType) (l : MemoryMap) : res MemoryMap :=
  match fuel with
  | O => NoFuel
  | S fuel =>
      e ← end_addr (A:=PA) KERNEL_PHYS_RANGE;
      l ← (if r_addr (region_range region) =? e then push fuel (Kernel KERNEL_PHYS_RANGE) l else Ret l);
      push_one region l
  end.

(** Enough for a kernel that is not empty. *)
Definition push_fuel : nat := 3.

Definition region_new_unchecked (addr len typ : Z) : res MemoryRegionType :=
  a ← a_new (AddrOps:=PA) addr; r ← range_new (A:=PA) a len; Ret (region_typed typ r).

Definition split_opt (o : option range) (s : range) : res (option range * option range) :=
  match o with Some r => split_at (A:=PA) r s | None => Ret (None, None) end.

(** The pieces in the order of the array the code returns. *)
Definition region_new (addr len typ : Z) (initrd_range : range) : res (list (option MemoryRegionType)) :=
  a ← a_new (AddrOps:=PA) addr;
  '(prange1, prange2) ← split_at (A:=PA) (new_unaligned a len) KERNEL_PHYS_RANGE;
  '(prange1, prange3) ← split_opt prange1 initrd_range;
  '(prange2, prange4) ← split_opt prange2 initrd_range;
  Ret (fmap (M:=option) (region_typed typ) <$> [prange1; prange2; prange3; prange4]).

Fixpoint push_all (rs : list (option MemoryRegionType)) (l : MemoryMap) : res MemoryMap :=
  match rs with
  | [] => Ret l
  | Some r :: rs => l ← push push_fuel r l; push_all rs l
  | None :: rs => push_all rs l
  end.

(** The regions of the memory map tag, from [ptr]; [initrd] is what the modules gave. *)
Fixpoint push_regions (n : nat) (ptr : Z) (initrd : option range) (l : MemoryMap) : res MemoryMap :=
  match n with
  | O => Ret l
  | S n =>
      addr ← read_u64 m ptr;
      len ← read_u64 m (ptr + 8);
      typ ← read_u32 m (ptr + 16);
      initrd_range ← unwrap initrd;
      rs ← region_new addr len typ initrd_range;
      l ← push_all rs l;
      push_regions n (ptr + 24) initrd l
  end.

Definition rsdp_validate (a : Z) : res bool :=
  sum ← sum_bytes m 20 a 0; Ret (sum mod 0x100 =? 0).

Record BootInfo := mkBoot { memory_map : MemoryMap; initrd : Z * Z; rsdt : Z }.

(** What the loop over the tags collects: the range and slice of the initrd, the
    memory map tag, the root table. *)
Record BootTags := mkTags {
  initrd_range : option range;
  initrd_slice : option (Z * Z);
  memory_map_tag : option Z;
  tag_rsdt : option Z;
}.

Definition INITRD : list Z := [105; 110; 105; 116; 114; 100].

(** One tag; [None] for the end tag, which leaves the loop. *)
Definition boot_tag (fuel : nat) (x : Mb2Elem) (t : BootTags) : res (option BootTags) :=
  match x with
  | End => Ret None
  | Module d =>
      s ← from_cstr m fuel (d + 8);
      s ← unwrap s;
      if bool_decide (s = INITRD) then
        mod_start ← read_u32 m d;
        mod_end ← read_u32 m (d + 4);
        size ← (if mod_end <? mod_start
                then (if overflow_checks then Panic else Ret ((mod_end - mod_start) mod 2 ^ 32))
                else Ret (mod_end - mod_start));
        paddr ← a_new (AddrOps:=PA) mod_start;
        p ← phys_to_virt paddr;
        Ret (Some (mkTags (Some (new_unaligned paddr size)) (Some (p, size)) (memory_map_tag t) (tag_rsdt t)))
      else Ret (Some t)
  | MemoryMapTag a => Ret (Some (mkTags (initrd_range t) (initrd_slice t) (Some a) (tag_rsdt t)))
  | RsdpOld d =>
      ok ← rsdp_validate d;
      if negb ok then Panic
      else
        n ← read_u32 m (d + 16);
        r ← rsdt_from m n;
        Ret (Some (mkTags (initrd_range t) (initrd_slice t) (memory_map_tag t) r))
  | Other _ => Ret (Some t)
  end.

Fixpoint boot_tags (fuel : nat) (it : HwaIter) (t : BootTags) : res BootTags :=
  match fuel with
  | O => NoFuel
  | S fuel =>
      '(x, it) ← hwa_next it;
      match x with
      | None => Ret t
      | Some x =>
          o ← boot_tag fuel x t;
          match o with None => Ret t | Some t => boot_tags fuel it t end
      end
  end.

(** The number of regions, by 32-bit arithmetic. *)
Definition region_count (size : Z) : res Z :=
  if size <? 16
  then (if overflow_checks then Panic else Ret ((size - 16) mod 2 ^ 32 / 24))
  else Ret ((size - 16) / 24).

Definition boot_new (fuel : nat) (addr : Z) : res BootInfo :=
  size ← read_u32 m addr;
  size ← usub size 8;
  a ← uadd addr 8;
  it ← from_align a size 8;
  t ← boot_tags fuel it (mkTags None None None None);
  map ← match memory_map_tag t with
        | None => Ret []
        | Some tag =>
            size ← read_u32 m (tag + 4);
            n ← region_count size;
            push_regions (Z.to_nat n) (tag + 16) (initrd_range t) []
        end;
  slice ← unwrap (initrd_slice t);
  r ← unwrap (tag_rsdt t);
  Ret (mkBoot map slice r).
End mb2.

(** ** Iterating *)

Section iterating.
Context {B : Build} {T : Type} {H : HwaTag T}.

(** Where the next element is looked for. *)
Definition round_up (align a : Z) : res Z := if negb (align =? 0) then align_up a align else Ret a.

(** The places [P] hold the elements of a table that ends at [hi], none of them empty. *)
Definition tags_ok (P : Z → Prop) (align hi : Z) : Prop :=
  ∀ a, P a → a < hi → ∃ s x, tag_size a = Ret s ∧ 1 <= s < 2 ^ 32 ∧ tag_elem a = Ret x ∧
    ∀ b, round_up align (a + s) = Ret b → P b.

(** C33: Iterating firmware tables ends when no element claims to be empty: the iterator
    moves by at least one byte each time and stops at the end of the table, or before,
    at an element that would cross it.  It looks only at places of the table. *)
Theorem hwa_terminates P fuel it :
  0 <= it_addr it → it_end it < 2 ^ 48 → it_align it = 0 ∨ (pow2 (it_align it) ∧ it_align it <= 2 ^ 32) →
  tags_ok P (it_align it) (it_end it) → P (it_addr it) → (Z.to_nat (it_end it - it_addr it) < fuel)%nat →
  ∃ xs, hwa_all fuel it = Ret xs ∧ Z.of_nat (length xs) <= Z.max 0 (it_end it - it_addr it).
Proof.
  revert it. induction fuel as [|fuel IH]; intros it H0 He Ha Ht HP Hf; [lia|]. cbn [hwa_all].
  unfold hwa_next. destruct (Z.leb_spec (it_end it) (it_addr it)).
  { exists []. split; [done|simpl; lia]. }
  destruct (Ht (it_addr it) HP) as (s & x & Es & Hs & Ex & HP'); [lia|]. rewrite Es. cbn [mbind res_bind]. u.
  destruct (Z.ltb_spec (it_end it) (it_addr it + s)).
  { exists []. split; [done|simpl; lia]. }
  fold (round_up (it_align it) (it_addr it + s)).
  assert (∃ a, round_up (it_align it) (it_addr it + s) = Ret a ∧ it_addr it + s <= a) as (a & Ea & Hle).
  { unfold round_up. destruct (Z.eqb_spec (it_align it) 0) as [|Hn]; simpl; [by eexists|].
    destruct Ha as [|[Hp Hal]]; [done|]. pose proof (pow2_pos _ Hp).
    rewrite align_up_eq by (lia || done). eexists. split; [done|].
    pose proof (Z.mod_pos_bound (it_addr it + s + it_align it - 1) (it_align it) ltac:(lia)). lia. }
  rewrite Ea. cbn [mbind res_bind]. rewrite Ex. cbn [mbind res_bind].
  destruct (IH (mkHwa a (it_end it) (it_align it))) as (xs & -> & Hl); simpl; try done; try lia.
  { by apply HP'. }
  cbn [mbind res_bind]. eexists. split; [done|]. cbn [length] in *. simpl in Hl. lia.
Qed.

(** It never ends when an element claims to be empty: the iterator stays where it is,
    and gives the same element again, whatever the fuel. *)
Lemma hwa_stalls fuel it x :
  0 <= it_addr it < it_end it → it_end it < 2 ^ 48 →
  it_align it = 0 ∨ (pow2 (it_align it) ∧ it_align it <= 2 ^ 32 ∧ (it_align it | it_addr it)) →
  tag_size (it_addr it) = Ret 0 → tag_elem (it_addr it) = Ret x →
  hwa_all fuel it = NoFuel.
Proof.
  intros H0 He Ha Es Ex. induction fuel as [|fuel IH]; [done|]. cbn [hwa_all].
  assert (hwa_next it = Ret (Some x, it)) as ->; [|by cbn [mbind res_bind]; rewrite IH].
  unfold hwa_next. rewrite (proj2 (Z.leb_gt _ _)) by lia. rewrite Es. cbn [mbind res_bind]. u.
  rewrite Z.add_0_r, (proj2 (Z.ltb_ge _ _)) by lia.
  assert ((if negb (it_align it =? 0) then align_up (it_addr it) (it_align it) else Ret (it_addr it))
    = Ret (it_addr it)) as ->.
  { destruct (Z.eqb_spec (it_align it) 0) as [|Hn]; simpl; [done|].
    destruct Ha as [|(Hp & Hal & Hd)]; [done|]. pose proof (pow2_pos _ Hp).
    rewrite align_up_eq by (lia || done). f_equal. apply divide_mod0 in Hd; [|lia].
    replace (it_addr it + it_align it - 1) with (it_align it - 1 + it_addr it) by lia.
    rewrite Z.add_mod, Hd, Z.add_0_r, Z.mod_mod, Z.mod_small by lia. lia. }
  cbn [mbind res_bind]. rewrite Ex. cbn [mbind res_bind]. by destruct it.
Qed.
End iterating.

(** ** Usable memory *)

Section usable.
Context {B : Build} {AD : Addresses} {PL : AddrLaws (A:=PA)} (KERNEL_PHYS_RANGE : range).

(** [s] does not reach into [r] from below. *)
Definition not_across (s r : range) : Prop := r_addr r <= r_addr s ∨ r_addr s + r_size s <= r_addr r.

(** The bytes of the pieces a region was cut into. *)
Definition in_pieces (ps : list (option MemoryRegionType)) (x : Z) : Prop :=
  ∃ t, Some t ∈ ps ∧ in_range (region_range t) x.

Lemma split_opt_bytes o s :
  page_range s → 0 < r_addr s →
  (∀ r, o = Some r → page_range r ∧ ¬ (r_addr s < r_addr r ∧ r_addr r + r_size r <= r_addr s + r_size s)) →
  ∃ lo hi, split_opt o s = Ret (lo, hi) ∧ ∀ x, in_opt lo x ∨ in_opt hi x ↔ in_opt o x ∧ ¬ in_range s x.
Proof.
  intros Hs H0 Ho. destruct o as [r|]; simpl.
  - destruct (Ho r eq_refl) as [Hr Hn]. by apply split_at_bytes.
  - exists None, None. split; [done|]. simpl. tauto.
Qed.

Lemma region_range_typed typ r : region_range (region_typed typ r) = r.
Proof. unfold region_typed. by repeat case_match. Qed.

Lemma in_pieces_opts typ os x :
  in_pieces (fmap (M:=option) (region_typed typ) <$> os) x ↔ ∃ o, o ∈ os ∧ in_opt o x.
Proof.
  unfold in_pieces. split.
  - intros (t & Ht & Hx). apply list_elem_of_fmap in Ht as (o & Eo & Ho). exists o. split; [done|].
    destruct o as [r|]; [|done]. injection Eo as ->. by rewrite region_range_typed in Hx.
  - intros (o & Ho & Hx). destruct o as [r|]; [|done]. exists (region_typed typ r).
    rewrite region_range_typed. split; [|done]. apply list_elem_of_fmap. by exists (Some r).
Qed.

End usable.

(** ** A MADT with two entries, and a memory map *)

#[local] Existing Instance dev.

Definition demo_madt : bytes := λ a,
  match a with
  | 0x1000 => Some 0 | 0x1001 => Some 8 | 0x1002 => Some 1 | 0x1003 => Some 2 | 0x1004 => Some 1
  | 0x1008 => Some 4 | 0x1009 => Some 6 | 0x100a => Some 255 | 0x100d => Some 1
  | _ => if (0x1000 <=? a) && (a <? 0x100e) then Some 0 else None
  end.

Lemma demo_madt_all :
  @hwa_all dev _ (MadtTag demo_madt) 3 (mkHwa 0x1000 0x100e 0) =
  Ret [ProcLocalApic 1 2 1; LocalApicNmi 255 0 1].
Proof. by vm_compute. Qed.

Lemma hwa_terminates_witness :
  ∃ xs, @hwa_all dev _ (MadtTag demo_madt) 15 (mkHwa 0x1000 0x100e 0) = Ret xs ∧
    Z.of_nat (length xs) <= Z.max 0 (0x100e - 0x1000).
Proof.
  refine (@hwa_terminates dev MadtElem (MadtTag demo_madt) (λ a, a = 0x1000 ∨ a = 0x1008 ∨ a = 0x100e) 15
    (mkHwa 0x1000 0x100e 0) _ _ _ _ _ _).
  - done.
  - done.
  - by left.
  - intros a [-> | [-> | ->]] Ha; [| |done].
    + exists 8. eexists. split; [done|]. split; [done|]. split; [by vm_compute|].
      intros b [= <-]. auto.
    + exists 6. eexists. split; [done|]. split; [done|]. split; [by vm_compute|].
      intros b [= <-]. auto.
  - by left.
  - vm_compute. lia.
Defined.

Definition demo_kernel : range := mkRange 0x100000 0x80000.

