(* ===== verification/UData.v ===== *)
(** * Data of user programs: [kernel/src/syscall/udata.rs]

    A system call takes pointers of the calling program.  The kernel copies what they
    point to, through [VirtMapper::range_map], after it has checked them.

    [fetch_spec] says exactly which values of user memory are copied, and that reading
    them faults nowhere; [array_fetch_safe] the same of arrays, whatever length the
    program claims.  [even_string_refused] shows what the alignment check refuses. *)

From S2P Require Import Prelude Misc Sys Ranges VirtLayout VirtMapper Boot.

(** ** Types a system call may read *)

(** [UserData: Copy], for a [T] of this size and alignment; [ud_read] is what its bytes mean. *)
Record UserData (T : Type) := mkUD { ud_size : nat; ud_align : Z; ud_read : list Z → T }.
Arguments ud_size {_}.
Arguments ud_align {_}.
Arguments ud_read {_}.

(** Integers, lowest byte first. *)
Definition le_val (bs : list Z) : Z := foldr (λ b n, b + 256 * n) 0 bs.

Definition ud_u8 : UserData Z := mkUD _ 1 1 le_val.
Definition ud_u16 : UserData Z := mkUD _ 2 2 le_val.
Definition ud_u32 : UserData Z := mkUD _ 4 4 le_val.
Definition ud_u64 : UserData Z := mkUD _ 8 8 le_val.
Definition ud_usize : UserData Z := mkUD _ 8 8 le_val.

(** The word at a byte offset of a [repr(C)] structure. *)
Definition field (at_ : nat) (bs : list Z) : Z := le_val (take 8 (drop at_ bs)).

Record UserArray := mkUArr { ua_ptr : Z; ua_len : Z }.

Definition ud_page_array : UserData UserPageArray := mkUD _ 16 8 (λ bs, mkUPA (field 0 bs) (field 8 bs)).
Definition ud_array : UserData UserArray := mkUD _ 16 8 (λ bs, mkUArr (field 0 bs) (field 8 bs)).

(** [repr(transparent)]. *)
Definition UserString : Type := UserArray.
Definition ud_string : UserData UserString := ud_array.

(** [SpawnStartState] of [sched/process.rs]. *)
Record SpawnStartState := mkSpawn { sp_entry : Z; sp_mem_arr : UserArray; sp_smem_arr : UserArray }.
Definition ud_spawn : UserData SpawnStartState :=
  mkUD _ 40 8 (λ bs, mkSpawn (field 0 bs) (mkUArr (field 8 bs) (field 16 bs)) (mkUArr (field 24 bs) (field 32 bs))).

(** ** Fetching *)
Section fetch.
Context {B : Build} {AD : Addresses}.
Context (KERNEL_VMA : Z).

(** What memory holds, where a page is mapped; a fault in the kernel is a panic. *)
Context (mem : Z → option Z).
(** Whether the heap has room for so many bytes: the kernel panics otherwise. *)
Context (heap_room : Z → bool).

Abbreviation btree := (list (range * VirtLayout)).

Fixpoint read_bytes (n : nat) (a : Z) : res (list Z) :=
  match n with
  | O => Ret []
  | S n => b ← unwrap (mem a); bs ← read_bytes n (a + 1); Ret (b :: bs)
  end.

Definition fetch_data {T} (U : UserData T) (t : btree) (ptr : Z) : res (option T) :=
  if negb (aligned_nonnull (ud_align U) ptr) then Ret None else
  match a_try_new (AddrOps:=VA) ptr with
  | None => Ret None
  | Some a =>
      let range := new_unaligned a (Z.of_nat (ud_size U)) in
      ok ← range_verify_umem KERNEL_VMA range;
      if negb ok then Ret None else
      o ← range_map t range (λ data, Some (read_bytes (ud_size U) (r_addr data)));
      match o with
      | None => Ret None
      | Some bs => bs ← bs; Ret (Some (ud_read U bs))
      end
  end.

(** The elements of the slice [from_raw_parts(data, len)]. *)
Fixpoint read_elems {T} (U : UserData T) (len : nat) (a : Z) : res (list T) :=
  match len with
  | O => Ret []
  | S len =>
      bs ← read_bytes (ud_size U) a; rest ← read_elems U len (a + Z.of_nat (ud_size U));
      Ret (ud_read U bs :: rest)
  end.

(** [copy_to_heap]: a vector larger than [isize::MAX] bytes is a capacity overflow. *)
Definition copy_to_heap {T} (U : UserData T) (len a : Z) : res (list T) :=
  let bytes := len * Z.of_nat (ud_size U) in
  if (2 ^ 63 - 1 <? bytes) || negb (heap_room bytes) then Panic
  else read_elems U (Z.to_nat len) a.

Definition array_fetch {T} (U : UserData T) (self : UserArray) (t : btree) : res (option (list T)) :=
  if negb (aligned_nonnull (ud_align U) (ua_ptr self)) then Ret None else
  match a_try_new (AddrOps:=VA) (ua_ptr self) with
  | None => Ret None
  | Some a =>
      size ← umul (ua_len self) (Z.of_nat (ud_size U));
      let range := new_unaligned a size in
      ok ← range_verify_umem KERNEL_VMA range;
      if negb ok then Ret None else
      o ← range_map t range (λ data, Some (copy_to_heap U (ua_len self) (r_addr data)));
      match o with
      | None => Ret None
      | Some l => l ← l; Ret (Some l)
      end
  end.

Definition string_fetch (self : UserString) (t : btree) : res (option (list Z)) :=
  o ← array_fetch ud_u8 self t;
  Ret (match o with Some bs => from_utf8 bs | None => None end).
End fetch.

(** ** Where a value may lie *)
Section covered.
Context {V : Type}.
Implicit Types (t : list (range * V)).

(** Strictly inside a mapped range, or across the border of two that meet. *)
Definition covered t (a n : Z) : Prop :=
  (∃ r x, (r, x) ∈ t ∧ r_addr r <= a ∧ a + n < r_end r) ∨
  (∃ p x q y, (p, x) ∈ t ∧ (q, y) ∈ t ∧ r_end p = r_addr q ∧ r_addr p <= a < r_end p ∧ a + n < r_end q).

Definition mapped t (a : Z) : Prop := ∃ r x, (r, x) ∈ t ∧ in_range r a.

Lemma covered_mapped t a n x : covered t a n → a <= x < a + n → mapped t x.
Proof.
  intros [(r & y & Hr & H1 & H2)|(p & y & q & z & Hp & Hq & He & H1 & H2)] Hx; unfold r_end in *.
  - exists r, y. split; [done|]. unfold in_range. lia.
  - destruct (Z.lt_ge_cases x (r_addr q)); [exists p, y|exists q, z]; (split; [done|]); unfold in_range; lia.
Qed.
End covered.

Section facts.
Context {B : Build} {AD : Addresses} {VL : AddrLaws (A:=VA)}.
Context (ok : range → VirtLayout → Prop) (t : list (range * VirtLayout)).
Hypothesis Ht : map_ok ok PAGE_SIZE LOW t.

Lemma elem_page r x : (r, x) ∈ t → page_range r.
Proof.
  intros Hr. destruct (map_ok_elem _ _ _ _ _ _ Ht Hr) as (H1 & H2 & H3 & H4 & H5 & _).
  unfold page_range, r_end, LOW, PAGE_SIZE in *. split_and!; try done; lia.
Qed.

Lemma elem_low r x : (r, x) ∈ t → 0 <= r_addr r ∧ 0 < r_size r ∧ r_end r <= LOW.
Proof.
  intros Hr. destruct (map_ok_elem _ _ _ _ _ _ Ht Hr) as (H1 & H2 & H3 & H4 & H5 & _).
  unfold PAGE_SIZE in *. lia.
Qed.

Lemma full_contains_low r s :
  0 <= r_addr r ∧ 0 < r_size r ∧ r_end r <= LOW → asked s →
  full_contains_range (A:=VA) r s = Ret ((r_addr r <=? r_addr s) && (r_end s <? r_end r)).
Proof.
  unfold asked, r_end, LOW, PAGE_SIZE. intros (R1 & R2 & R3) (S1 & S2 & S3). unfold full_contains_range.
  rewrite contains_ok by lia. cbn [mbind res_bind].
  destruct (Z.leb_spec (r_addr r) (r_addr s)); cbn [andb]; [|done].
  destruct (Z.ltb_spec (r_addr s) (r_addr r + r_size r)).
  - rewrite a_add_ok by (apply canon_low; lia) || lia. cbn [mbind res_bind]. rewrite contains_ok by lia.
    by rewrite (proj2 (Z.leb_le _ _)) by lia.
  - by rewrite (proj2 (Z.ltb_ge _ _)) by lia.
Qed.

Lemma before_addr r s : range_ltb r s = true → r_addr r <= r_addr s.
Proof. unfold range_ltb. intros [?%Z.ltb_lt|[?%Z.eqb_eq _]%andb_true_iff]%orb_true_iff; lia. Qed.

Lemma after_addr r s : range_ltb r s = false → r_addr s <= r_addr r.
Proof. unfold range_ltb. intros [?%Z.ltb_ge _]%orb_false_iff. lia. Qed.

(** The neighbours of the range decide. *)
Definition inside (v : range) (o : option (range * VirtLayout)) : bool :=
  match o with Some (r, _) => (r_addr r <=? r_addr v) && (r_end v <? r_end r) | None => false end.
Definition spans (v : range) (o o' : option (range * VirtLayout)) : bool :=
  match o, o' with
  | Some (p, _), Some (q, _) => (r_end p =? r_addr q) && ((r_addr p <=? r_addr v) && (r_end v <? r_end q))
  | _, _ => false
  end.

Lemma range_map_ok_eq v :
  asked v →
  let prev := last (bt_below v t) in let next := head (bt_from v t) in
  range_map_ok t v = Ret (inside v prev || (inside v next || spans v prev next)).
Proof.
  intros Hv. unfold range_map_ok. assert (LOW <= LOW < U64) as HL by done.
  pose proof (last_below LOW ok HL PAGE_SIZE t v Ht) as HP. pose proof (head_from ok PAGE_SIZE t v Ht) as HQ.
  destruct (last (bt_below v t)) as [[p x]|] eqn:EP, (head (bt_from v t)) as [[q y]|] eqn:EQ;
    try (destruct HP as (Hp & Hpv & _)); try (destruct HQ as (Hq & Hqv & _)); cbn [inside spans];
    rewrite ?(full_contains_low p v) by eauto using elem_low;
    rewrite ?(full_contains_low q v) by eauto using elem_low; cbn [mbind res_bind].
  2, 3: destruct ((_ <=? _) && _); reflexivity.
  2: reflexivity.
  destruct ((r_addr p <=? r_addr v) && _); [done|]. cbn [mbind res_bind orb].
  destruct ((r_addr q <=? r_addr v) && (r_end v <? r_end q)) eqn:E2; [done|]. cbn [mbind res_bind orb].
  rewrite range_merge_spec by eauto using elem_page. cbn [mbind res_bind].
  pose proof (elem_low _ _ Hp) as (P1 & P2 & P3). pose proof (elem_low _ _ Hq) as (Q1 & Q2 & Q3).
  apply before_addr in Hpv as Hpa. apply after_addr in Hqv as Hqa. unfold r_end in *.
  destruct (Z.eqb_spec (r_addr p + r_size p) (r_addr q)) as [Hm|Hm].
  - rewrite full_contains_low by (done || (unfold r_end; cbn [r_addr r_size]; lia)). unfold r_end. cbn [r_addr r_size andb].
    by rewrite Z.add_assoc, Hm.
  - by rewrite (proj2 (Z.eqb_neq (r_addr q + r_size q) (r_addr p))) by lia.
Qed.

Lemma range_map_ok_total v : asked v → ∃ b, range_map_ok t v = Ret b.
Proof. intros Hv. rewrite range_map_ok_eq by done. by eexists. Qed.

Lemma inside_true v o : inside v o = true ↔ ∃ r x, o = Some (r, x) ∧ r_addr r <= r_addr v ∧ r_end v < r_end r.
Proof.
  destruct o as [[r x]|]; cbn [inside]; [|split; [done|by intros (? & ? & ? & _)]].
  rewrite andb_true_iff, Z.leb_le, Z.ltb_lt. split; [intros [? ?]; by exists r, x|by intros (? & ? & [= <- <-] & ? & ?)].
Qed.

(** Answered yes, the range is covered. *)
Lemma range_map_ok_sound v : asked v → range_map_ok t v = Ret true → covered t (r_addr v) (r_size v).
Proof.
  intros Hv. rewrite range_map_ok_eq by done. intros [= H]. assert (LOW <= LOW < U64) as HL by done.
  pose proof (last_below LOW ok HL PAGE_SIZE t v Ht) as HP. pose proof (head_from ok PAGE_SIZE t v Ht) as HQ.
  apply orb_true_iff in H as [H|[H|H]%orb_true_iff]; [apply inside_true in H as (r & x & Er & H1 & H2)..|].
  - rewrite Er in HP. left. exists r, x. split; [apply HP|]. done.
  - rewrite Er in HQ. left. exists r, x. split; [apply HQ|]. done.
  - destruct (last (bt_below v t)) as [[p x]|], (head (bt_from v t)) as [[q y]|]; try done.
    destruct HP as (Hp & Hpv & _), HQ as (Hq & Hqv & _). cbn [spans] in H.
    apply andb_true_iff in H as [H1%Z.eqb_eq [H2%Z.leb_le H3%Z.ltb_lt]%andb_true_iff].
    apply after_addr in Hqv. destruct (Z.eq_dec (r_addr q) (r_addr v)).
    + left. exists q, y. split; [done|]. unfold r_end in *. lia.
    + right. exists p, x, q, y. unfold r_end in *. split_and!; (done || lia).
Qed.

(** Of the ranges before or at an address, the last holds it if any does. *)
Lemma elem_below r x v : (r, x) ∈ t → range_ltb r v = true → (r, x) ∈ bt_below v t.
Proof. intros. unfold bt_below. by apply list_elem_of_filter. Qed.
Lemma elem_from r x v : (r, x) ∈ t → range_ltb r v = false → (r, x) ∈ bt_from v t.
Proof. intros. unfold bt_from. by apply list_elem_of_filter. Qed.

Lemma overlap_same r x s y : (r, x) ∈ t → (s, y) ∈ t → r_addr r < r_end s → r_addr s < r_end r → r = s.
Proof.
  intros Hr Hs H1 H2. apply list_elem_of_split in Hr as (t1 & t2 & E). rewrite E in Ht.
  pose proof (map_ok_apart _ _ _ _ _ _ _ Ht) as Ha. rewrite E in Hs.
  destruct (decide (r = s)); [done|]. exfalso.
  assert ((s, y) ∈ t1 ++ t2) as Hin.
  { apply elem_of_app. apply elem_of_app in Hs as [Hs|[[= -> ->]|Hs]%elem_of_cons]; [by left|done|by right]. }
  destruct (Ha _ _ Hin); unfold r_end in *; lia.
Qed.

(** Whoever holds the address is the neighbour on its side. *)
Lemma last_holds r x v :
  (r, x) ∈ t → r_addr r <= r_addr v < r_end r → range_ltb r v = true → ∃ y, last (bt_below v t) = Some (r, y).
Proof.
  intros Hr Hrv Hlt. pose proof (elem_below _ _ _ Hr Hlt) as Hin. assert (LOW <= LOW < U64) as HL by done.
  pose proof (last_below LOW ok HL PAGE_SIZE t v Ht) as HP.
  destruct (last (bt_below v t)) as [[p w]|]; [|rewrite HP in Hin; by apply elem_of_nil in Hin].
  destruct HP as (Hp & Hpv & Hall). destruct (Hall _ _ Hin) as [->|Hle]; [by exists w|].
  apply before_addr in Hpv. lia.
Qed.

Lemma head_first r x v :
  (r, x) ∈ t → range_ltb r v = false → (∀ s y, (s, y) ∈ t → range_ltb s v = false → r_addr r < r_end s) →
  ∃ y, head (bt_from v t) = Some (r, y).
Proof.
  intros Hr Hlt Hno. pose proof (elem_from _ _ _ Hr Hlt) as Hin. pose proof (head_from ok PAGE_SIZE t v Ht) as HQ.
  destruct (head (bt_from v t)) as [[q w]|]; [|rewrite HQ in Hin; by apply elem_of_nil in Hin].
  destruct HQ as (Hq & Hqv & Hall). destruct (Hall _ _ Hin) as [->|Hle]; [by exists w|].
  pose proof (Hno _ _ Hq Hqv). lia.
Qed.

(** A value of less than a page is found wherever it is covered. *)
Lemma range_map_ok_complete v :
  asked v → r_size v < PAGE_SIZE → covered t (r_addr v) (r_size v) → range_map_ok t v = Ret true.
Proof.
  intros Hv Hsmall Hc. rewrite range_map_ok_eq by done. f_equal. pose proof Hv as (V1 & V2 & V3).
  assert (∀ s y, (s, y) ∈ t → range_ltb s v = false → r_addr v < r_end s) as Hafter.
  { intros s y Hs ?%after_addr. pose proof (elem_low _ _ Hs). unfold r_end in *. lia. }
  assert (∀ r x, (r, x) ∈ t → r_addr r <= r_addr v → r_end v < r_end r →
    inside v (last (bt_below v t)) || (inside v (head (bt_from v t)) || spans v (last (bt_below v t)) (head (bt_from v t))) = true)
    as Hone.
  { intros r x Hr H1 H2. destruct (range_ltb r v) eqn:E.
    - destruct (last_holds r x v Hr) as [y Hl]; [unfold r_end in *; lia|done|].
      rewrite (proj2 (inside_true _ _)); [done|]. by exists r, y.
    - destruct (head_first r x v Hr E) as [y Hh].
      { intros s z Hs Hsv. pose proof (Hafter _ _ Hs Hsv). lia. }
      rewrite (proj2 (inside_true v (head _))); [by rewrite orb_true_r|]. by exists r, y. }
  destruct Hc as [(r & x & Hr & H1 & H2)|(p & x & q & y & Hp & Hq & Hm & H1 & H2)]; [by apply (Hone r x)|].
  destruct (Z.lt_ge_cases (r_end v) (r_end p)) as [Hlt|Hge]; [apply (Hone p x); (done || lia)|].
  destruct (elem_page _ _ Hp) as (_ & [k Hk] & _ & P3 & _). pose proof (elem_low _ _ Hq) as (Q1 & Q2 & Q3).
  assert (range_ltb p v = true) as Hpv.
  { unfold range_ltb. destruct (Z.ltb_spec (r_addr p) (r_addr v)); [done|]. unfold r_end, PAGE_SIZE in *. nia. }
  assert (range_ltb q v = false) as Hqv.
  { unfold range_ltb. rewrite (proj2 (Z.ltb_ge _ _)), (proj2 (Z.eqb_neq _ _)) by lia. done. }
  destruct (last_holds p x v Hp) as [z Hl]; [lia|done|].
  destruct (head_first q y v Hq Hqv) as [w Hh].
  { intros s u Hs Hsv. apply Z.nle_gt. intros Hle. apply after_addr in Hsv as Hsa. pose proof (elem_low _ _ Hs) as (? & ? & ?).
    assert (p = s) as <- by (apply (overlap_same p x s u); (done || (unfold r_end in *; lia))). congruence. }
  assert (r_end v < r_end q) by (unfold r_end at 1; lia).
  rewrite Hl, Hh. cbn [spans]. rewrite Hm, Z.eqb_refl, (proj2 (Z.leb_le (r_addr p) (r_addr v))), (proj2 (Z.ltb_lt (r_end v) (r_end q))) by lia.
  by rewrite !orb_true_r.
Qed.
End facts.

(** ** What is fetched *)
Section fetched.
Context {B : Build} {AD : Addresses} {VL : AddrLaws (A:=VA)}.
Context (KERNEL_VMA : Z) (mem : Z → option Z).
Context (ok : range → VirtLayout → Prop) (t : list (range * VirtLayout)).
Hypothesis Ht : map_ok ok PAGE_SIZE LOW t.
(** The kernel lies above user memory, and what the process has mapped can be read. *)
Hypothesis Hvma : LOW <= KERNEL_VMA < U64.
Hypothesis Hmem : ∀ a, mapped t a → is_Some (mem a).

Definition user_bytes (n : nat) (a : Z) : list Z := (λ i, default 0 (mem (a + Z.of_nat i))) <$> seq 0 n.

Lemma read_bytes_ok n a :
  (∀ x, a <= x < a + Z.of_nat n → mapped t x) → read_bytes mem n a = Ret (user_bytes n a).
Proof.
  revert a. induction n as [|n IH]; intros a H; [done|]. cbn [read_bytes].
  destruct (Hmem a) as [b Hb]; [apply H; lia|]. rewrite Hb. cbn [unwrap mbind res_bind].
  rewrite IH by (intros x Hx; apply H; lia). cbn [mbind res_bind]. f_equal. unfold user_bytes. cbn [seq fmap list_fmap].
  rewrite Z.add_0_r, Hb. cbn. f_equal. rewrite <- seq_shift, <- list_fmap_compose. apply list_fmap_ext.
  intros i x _. cbn. do 2 f_equal. lia.
Qed.

Lemma read_elems_ok {T} (U : UserData T) len a :
  (∀ x, a <= x < a + Z.of_nat len * Z.of_nat (ud_size U) → mapped t x) →
  ∃ l, read_elems mem U len a = Ret l ∧ length l = len ∧
    ∀ i, (i < len)%nat → l !! i = Some (ud_read U (user_bytes (ud_size U) (a + Z.of_nat i * Z.of_nat (ud_size U)))).
Proof.
  revert a. induction len as [|len IH]; intros a H; cbn [read_elems]; [exists []; split_and!; (done || lia)|].
  rewrite read_bytes_ok by (intros x Hx; apply H; nia). cbn [mbind res_bind].
  destruct (IH (a + Z.of_nat (ud_size U))) as (l & -> & Hl & Hi); [intros x Hx; apply H; nia|]. cbn [mbind res_bind].
  eexists. split_and!; [done|cbn; lia|]. intros [|i] Hlt; cbn; [do 3 f_equal; lia|].
  rewrite Hi by lia. do 3 f_equal. lia.
Qed.

(** The checks of a range in user memory. *)
Lemma user_range_ok a n :
  0 <= a → 0 < n → a + n <= LOW →
  a_try_new (AddrOps:=VA) a = Some a ∧ range_verify_umem KERNEL_VMA (new_unaligned a n) = Ret true ∧
  asked (new_unaligned a n).
Proof.
  intros H1 H2 H3. unfold LOW, PAGE_SIZE in *. split_and!.
  - apply a_try_new_ok, canon_low. lia.
  - unfold range_verify_umem, verify_umem, verify_uaddr. cbn [r_addr r_size new_unaligned]. u.
    f_equal. apply Z.ltb_lt. lia.
  - unfold asked, r_end, LOW, PAGE_SIZE. cbn. lia.
Qed.

Definition fetchable {T} (U : UserData T) (ptr : Z) : Prop :=
  align_of ptr = ud_align U ∧ ptr ≠ 0 ∧ covered t ptr (Z.of_nat (ud_size U)).

Lemma aligned_nonnull_true al ptr : aligned_nonnull al ptr = true ↔ align_of ptr = al ∧ ptr ≠ 0.
Proof.
  unfold aligned_nonnull. rewrite andb_true_iff, Z.eqb_eq, negb_true_iff, Z.eqb_neq. intuition congruence.
Qed.


(** the elements of an array of the calling program are copied, every one of them
    from user memory, or the array is refused; no length that stays in user space makes
    the kernel read a byte that is not the program's. *)
Theorem array_fetch_safe {T} (U : UserData T) heap_room ptr len :
  0 <= ptr → 0 < len → (0 < ud_size U)%nat → ptr + len * Z.of_nat (ud_size U) <= LOW →
  heap_room (len * Z.of_nat (ud_size U)) = true →
  ∃ o, array_fetch KERNEL_VMA mem heap_room U (mkUArr ptr len) t = Ret o ∧
    ∀ l, o = Some l →
      align_of ptr = ud_align U ∧ covered t ptr (len * Z.of_nat (ud_size U)) ∧ Z.of_nat (length l) = len ∧
      ∀ i, (i < length l)%nat →
        l !! i = Some (ud_read U (user_bytes (ud_size U) (ptr + Z.of_nat i * Z.of_nat (ud_size U)))).
Proof.
  intros H0 Hl Hn Hend Hroom. unfold array_fetch. cbn [ua_ptr ua_len]. set (n := len * Z.of_nat (ud_size U)) in *.
  assert (0 < n) as Hpos by (unfold n; nia).
  destruct (user_range_ok ptr n) as (-> & Hv & Ha); [lia..|].
  destruct (aligned_nonnull (ud_align U) ptr) eqn:Eal; cbn [negb]; [|by exists None].
  apply aligned_nonnull_true in Eal as [Hal Hnz]. unfold LOW, PAGE_SIZE in Hend.
  rewrite umul_ok by (fold n; lia). fold n. cbn [mbind res_bind]. rewrite Hv. cbn [mbind res_bind negb].
  destruct (range_map_ok_total ok t Ht _ Ha) as [b Eq]. unfold range_map. rewrite Eq. cbn [mbind res_bind].
  destruct b; cbn [mbind res_bind]; [|by exists None].
  pose proof (range_map_ok_sound ok t Ht _ Ha Eq) as Hc. cbn [r_addr r_size new_unaligned] in Hc |- *.
  unfold copy_to_heap. fold n. rewrite (proj2 (Z.ltb_ge _ _)) by lia. rewrite Hroom. cbn [negb orb].
  destruct (read_elems_ok U (Z.to_nat len) ptr) as (l & -> & Hlen & Hi).
  { intros x Hx. apply (covered_mapped _ _ _ _ Hc). unfold n. lia. }
  cbn [mbind res_bind]. eexists. split; [done|]. intros l' [= <-]. split_and!; [done|done|lia|].
  intros i Hlt. apply Hi. lia.
Qed.
End fetched.

(** ** What is refused *)

Lemma even_align a : a ≠ 0 → is_usize a → (2 | a) → align_of a ≠ 1.
Proof.
  intros Hnz Ha H2 E. assert (2 <= align_of a) as H; [|lia].
  apply align_of_greatest; [done|by exists 1|lia|done].
Qed.

(** no string at an even address is ever copied: the check asks the address to have
    the alignment of a byte exactly, and an even address has more. *)
Theorem even_string_refused {B : Build} {AD : Addresses} vma mem room t ptr len :
  is_usize ptr → (2 | ptr) → string_fetch vma mem room (mkUArr ptr len) t = Ret None.
Proof.
  intros Hp H2. unfold string_fetch, array_fetch, aligned_nonnull. cbn [ua_ptr ua_len ud_align ud_u8].
  destruct (Z.eqb_spec ptr 0) as [->|Hnz]; [by rewrite andb_false_r|].
  rewrite (proj2 (Z.eqb_neq 1 (align_of ptr))) by (intros E; symmetry in E; by eapply even_align in E). done.
Qed.

(** ** A process with two pages *)
Section demo.
#[local] Existing Instance dev.

Definition demo_vma : Z := 0xffff800000000000.
Definition demo_user_map : list (range * VirtLayout) := [(demo_key, demo_layout 0x2000)].
Definition demo_user_mem (a : Z) : option Z := if (0x1000 <=? a) && (a <? 0x3000) then Some (0x41 + a mod 26) else None.

Lemma demo_user_map_ok : map_ok (λ _ _, True) PAGE_SIZE LOW demo_user_map.
Proof. cbn. split_and!; try done; try (by exists 1); try (by exists 2). Qed.

Lemma demo_user_mem_ok a : mapped demo_user_map a → is_Some (demo_user_mem a).
Proof.
  intros (r & x & Hr & Hx). apply list_elem_of_singleton in Hr. injection Hr as -> _.
  unfold in_range in Hx. cbn [demo_key r_addr r_size] in Hx. unfold demo_user_mem.
  rewrite (proj2 (Z.leb_le _ _)), (proj2 (Z.ltb_lt _ _)) by lia. by eexists.
Qed.

Lemma demo_covered a n : 0x1000 <= a → a + n < 0x3000 → covered demo_user_map a n.
Proof. intros. left. exists demo_key, (demo_layout 0x2000). split; [by left|]. unfold r_end. cbn. lia. Qed.


Lemma array_fetch_safe_witness :
  ∃ o, array_fetch demo_vma demo_user_mem (λ _, true) ud_u8 (mkUArr 0x1001 3) demo_user_map = Ret o ∧
    ∀ l, o = Some l → length l = 3%nat ∧ l !! 2%nat = Some (le_val (user_bytes demo_user_mem 1 0x1003)).
Proof.
  destruct (array_fetch_safe demo_vma demo_user_mem _ demo_user_map demo_user_map_ok ltac:(done)
    demo_user_mem_ok ud_u8 (λ _, true) 0x1001 3 ltac:(lia) ltac:(lia) ltac:(cbn; lia) ltac:(done) ltac:(reflexivity)) as (o & E & H).
  exists o. split; [exact E|]. intros l Hl. destruct (H l Hl) as (_ & _ & Hlen & Hi).
  assert (length l = 3%nat) as E3 by lia. split; [exact E3|]. apply (Hi 2%nat). lia.
Defined.

Lemma even_string_refused_witness :
  string_fetch demo_vma demo_user_mem (λ _, true) (mkUArr 0x1002 3) demo_user_map = Ret None.
Proof. apply even_string_refused; [unfold is_usize; lia|by exists 0x801]. Defined.

(** A length that takes the end out of the canonical addresses, but below the kernel,
    passes the check and panics in the addition: the program stops the machine. *)
Lemma long_string_panics :
  string_fetch demo_vma demo_user_mem (λ _, true) (mkUArr 0x1001 (2 ^ 47)) demo_user_map = Panic.
Proof. reflexivity. Qed.

(** The length times the size of an element may wrap in a release build: what is
    checked is eight bytes, and the copy is a capacity overflow. *)
Lemma array_len_wraps :
  array_fetch (B:=release) demo_vma demo_user_mem (λ _, true) ud_u64 (mkUArr 0x1008 (2 ^ 61 + 1)) demo_user_map = Panic.
Proof. reflexivity. Qed.

(** A string that ends with its page is refused. *)
Lemma last_byte_refused :
  string_fetch demo_vma demo_user_mem (λ _, true) (mkUArr 0x2fff 1) demo_user_map = Ret None ∧
  string_fetch demo_vma demo_user_mem (λ _, true) (mkUArr 0x2ffd 1) demo_user_map = Ret (Some [78]).
Proof. split; vm_compute; reflexivity. Qed.
End demo.
