(* ===== verification/Zones.v ===== *)
(** * The zone manager: the last part of [kernel/src/mem/phys_alloc.rs]

    A [ZoneManager] has one buddy allocator per usable region of the memory map, and
    takes them in turn.  Allocations remember their zone in [zindex].  The manager is
    also what page tables take their frames from, and layouts their memory: it is an
    instance of [FrameAllocator] and of [PhysMem]. *)

From S2P Require Import Prelude Misc Sys Ranges Buddy PageTable VirtLayout Boot.

Definition MAX_ZONES : Z := 4.

(** A zone that was not made is [None]. *)
Record ZoneManager := mkZM {
  zones : list (option BuddyAllocator);
  zlen : Z;
  selnum : Z;
}.

Definition ZM := M ZoneManager.

Definition zm_new : ZoneManager := mkZM (repeat None (Z.to_nat MAX_ZONES)) 0 0.

(** [self.zones.borrow()[i].as_ref().unwrap().lock()], and a step on the allocator. *)
Definition on_zone {T} (i : Z) (f : BM T) : ZM T := λ s,
  match zones s !! Z.to_nat i with
  | Some (Some b) =>
      '(x, b) ← f b; Ret (x, mkZM (<[Z.to_nat i := Some b]> (zones s)) (zlen s) (selnum s))
  | _ => Panic
  end.

Definition with_zindex (i : Z) (m : Allocation) : Allocation := mkAlloc (m_addr m) (m_len m) i.

Section zones.
Context {B : Build} {AD : Addresses}.

(** *** Making the zones *)

Fixpoint init_zones (regions : list MemoryRegionType) (n : Z) (zs : list (option BuddyAllocator))
    : res (Z * list (option BuddyAllocator)) :=
  match regions with
  | [] => Ret (n, zs)
  | Usable mem :: regions =>
      let s := r_addr mem in
      e ← a_add (AddrOps:=PA) (r_addr mem) (r_size mem);
      (if MAX_ZONES <=? n then Panic else Ret ());;
      vs ← phys_to_virt s;
      ve ← phys_to_virt e;
      b ← buddy_new (A:=VA) vs ve PAGE_SIZE;
      n' ← uadd n 1;
      init_zones regions n' (<[Z.to_nat n := Some b]> zs)
  | _ :: regions => init_zones regions n zs
  end.

Definition zm_init (regions : list MemoryRegionType) : ZM () := λ s,
  '(n, zs) ← init_zones regions (zlen s) (zones s);
  Ret ((), mkZM zs n (selnum s)).

(** *** Trying the zones in turn *)

(** The loop of [allocer_action], from zone [i]. *)
Fixpoint try_zones (fuel : nat) (f : BM (option Allocation)) (start i : Z) (flag : bool)
    : ZM (option Allocation) :=
  match fuel with
  | O => λ _, NoFuel
  | S fuel =>
      if negb (i =? start) || flag then
        o ← on_zone i f;
        match o with
        | Some a => mret (Some (with_zindex i a))
        | None =>
            s ← get;
            i ← lift (uadd i 1);
            try_zones fuel f start (i mod zlen s) false
        end
      else mret None
  end.

(** Enough for four zones, and the end of the loop. *)
Definition zone_fuel : nat := 5.

Definition allocer_action (f : BM (option Allocation)) : ZM (option Allocation) :=
  s ← get;
  put (mkZM (zones s) (zlen s) ((selnum s + 1) mod U64));;
  (if zlen s =? 0 then lift Panic else mret ());;
  let start := selnum s mod zlen s in
  try_zones zone_fuel f start start true.

(** The zone that contains an address; it unwraps every entry it looks at. *)
Fixpoint find_containing (f : BM (option Allocation)) (addr : Z) (n : nat) (i : Z)
    : ZM (option Allocation) :=
  match n with
  | O => mret None
  | S n =>
      c ← on_zone i (gets (λ b, contains_addr b addr));
      match c with
      | true => on_zone i f
      | false => find_containing f addr n (i + 1)
      end
  end.

Definition allocer_action_contains (addr : Z) (f : BM (option Allocation)) : ZM (option Allocation) :=
  find_containing f addr (Z.to_nat MAX_ZONES) 0.

(** *** Operations; the zeroed variants zero the memory after the same allocation *)

Definition zm_alloc_ (size : Z) : ZM (option Allocation) := allocer_action (alloc size).
Definition zm_allocz (size : Z) : ZM (option Allocation) := zm_alloc_ size.
Definition zm_oalloc (order : Z) : ZM (option Allocation) := allocer_action (oalloc order).
Definition zm_oallocz (order : Z) : ZM (option Allocation) := zm_alloc_ order.
Definition zm_alloc_at (addr size : Z) : ZM (option Allocation) :=
  allocer_action_contains addr (alloc_at addr size).
Definition zm_allocz_at (addr size : Z) : ZM (option Allocation) := zm_alloc_at addr size.
Definition zm_oalloc_at (addr order : Z) : ZM (option Allocation) :=
  allocer_action_contains addr (oalloc_at addr order).
Definition zm_oallocz_at (addr order : Z) : ZM (option Allocation) := zm_oalloc_at addr order.

(** A block that does not fit its zone is copied to another one, and kept. *)
Definition zm_realloc (mem : Allocation) (size : Z) : ZM (option Allocation) :=
  new_mem ← on_zone (zindex mem) (realloc mem size);
  match new_mem with
  | None => zm_alloc_ size
  | Some out => mret (Some (with_zindex (zindex mem) out))
  end.

Definition zm_orealloc (mem : Allocation) (order : Z) : ZM (option Allocation) :=
  new_mem ← on_zone (zindex mem) (orealloc mem order);
  match new_mem with
  | None => zm_oalloc order
  | Some out => mret (Some (with_zindex (zindex mem) out))
  end.

Definition zm_dealloc_ (mem : Allocation) : ZM () := on_zone (zindex mem) (dealloc mem).

(** *** Frames *)

Definition zm_alloc_frame : ZM Allocation := o ← zm_alloc_ PAGE_SIZE; lift (unwrap o).

Fixpoint dealloc_from (frame : Allocation) (n : nat) (i : Z) : ZM () :=
  match n with
  | O => mret ()
  | S n =>
      c ← on_zone i (b ← get; lift (buddy_contains b frame));
      match c with
      | true => on_zone i (dealloc frame)
      | false => dealloc_from frame n (i + 1)
      end
  end.

Definition zm_dealloc_frame (frame : Allocation) : ZM () :=
  s ← get; dealloc_from frame (Z.to_nat (zlen s)) 0.

(** Page tables keep physical addresses. *)
#[export] Instance ZoneFrames : FrameAllocator ZoneManager := {
  alloc_frame s :=
    '(m, s) ← zm_alloc_frame s; p ← virt_to_phys_usize (m_addr m); Ret (p, s);
  dealloc_frame p s :=
    v ← phys_to_virt_usize p; '(_, s) ← zm_dealloc_frame (mkAlloc v PAGE_SIZE 0) s; Ret s;
}.

#[export] Instance ZoneMem : PhysMem ZoneManager := {
  zm_alloc size s := zm_alloc_ size s;
  zm_dealloc m s := '(_, s) ← zm_dealloc_ m s; Ret s;
}.
End zones.

(** ** The invariant *)

Definition in_zone_no (i : nat) (m : Allocation) : Prop := zindex m = Z.of_nat i.

(** The blocks in use of zone [i], among the allocations held. *)
Definition zone_live (i : nat) (live : list Allocation) : list bnode :=
  handed <$> filter (λ m, zindex m = Z.of_nat i) live.

Definition zones_apart (b c : BuddyAllocator) : Prop :=
  meta_start b <= start c ∨ meta_start c <= start b.

Record zm_inv (s : ZoneManager) (live : list Allocation) : Prop := {
  z_len : length (zones s) = Z.to_nat MAX_ZONES;
  z_zlen : 0 < zlen s <= MAX_ZONES;
  z_zone i : (i < Z.to_nat (zlen s))%nat →
    ∃ b, zones s !! i = Some (Some b) ∧ binv b (zone_live i live);
  z_live : Forall (λ m, 0 <= zindex m < zlen s) live;
  z_sep i j b c : i ≠ j → zones s !! i = Some (Some b) → zones s !! j = Some (Some c) → zones_apart b c;
}.

(** The zones keep their bounds. *)
Definition same_zones (s s' : ZoneManager) : Prop :=
  zlen s' = zlen s ∧ ∀ i b', zones s' !! i = Some (Some b') →
    ∃ b, zones s !! i = Some (Some b) ∧ same_zone b b'.

Section proofs.
Context {B : Build}.

Lemma wp_on_zone {T} (i : nat) (f : BM T) s b Q :
  zones s !! i = Some (Some b) →
  wp f b (λ x b', Q x (mkZM (<[i := Some b']> (zones s)) (zlen s) (selnum s))) →
  wp (on_zone (Z.of_nat i) f) s Q.
Proof.
  intros Hi (x & b' & Hf & HQ). exists x. eexists. split; [|exact HQ].
  unfold on_zone. rewrite Nat2Z.id, Hi, Hf. done.
Qed.

Lemma same_zone_refl b : same_zone b b.
Proof. by unfold same_zone. Qed.

Lemma same_zones_refl s : same_zones s s.
Proof. split; [done|]. intros i b Hi. exists b. by split; [|apply same_zone_refl]. Qed.

Lemma same_zones_trans s1 s2 s3 : same_zones s1 s2 → same_zones s2 s3 → same_zones s1 s3.
Proof.
  intros [E1 H1] [E2 H2]. split; [congruence|]. intros i b3 Hi.
  destruct (H2 _ _ Hi) as (b2 & Hi2 & Hz2). destruct (H1 _ _ Hi2) as (b1 & Hi1 & Hz1).
  exists b1. split; [done|]. unfold same_zone in *. intuition congruence.
Qed.

(** Changing one zone and the allocations held of it. *)
Lemma zm_inv_update s live live' i b b' sel :
  zm_inv s live → zones s !! i = Some (Some b) → (i < Z.to_nat (zlen s))%nat → same_zone b b' →
  binv b' (zone_live i live') → (∀ j, j ≠ i → zone_live j live' = zone_live j live) →
  Forall (λ m, 0 <= zindex m < zlen s) live' →
  let s' := mkZM (<[i := Some b']> (zones s)) (zlen s) sel in zm_inv s' live' ∧ same_zones s s'.
Proof.
  intros [H1 H2 H3 H4 H5] Hi Hlt Hz Hb Hother Hl. simpl.
  assert (i < length (zones s))%nat as Hil by by apply lookup_lt_Some in Hi.
  assert (∀ j c, <[i := Some b']> (zones s) !! j = Some (Some c) →
    ∃ c0, zones s !! j = Some (Some c0) ∧ same_zone c0 c) as Hback.
  { intros j c Hj. destruct (decide (j = i)) as [->|Hne].
    - rewrite list_lookup_insert_eq in Hj by done. injection Hj as <-. by exists b.
    - rewrite list_lookup_insert_ne in Hj by done. exists c. by split; [|apply same_zone_refl]. }
  split; [constructor; simpl|split; [done|exact Hback]]; try done.
  - by rewrite length_insert.
  - intros j Hj. destruct (decide (j = i)) as [->|Hne].
    + exists b'. by rewrite list_lookup_insert_eq.
    + rewrite list_lookup_insert_ne, Hother by done. by apply H3.
  - intros j k c d Hne Hj Hk. destruct (Hback _ _ Hj) as (c0 & Hc0 & Zc).
    destruct (Hback _ _ Hk) as (d0 & Hd0 & Zd). pose proof (H5 _ _ _ _ Hne Hc0 Hd0) as Ha.
    unfold zones_apart, same_zone in *. intuition congruence.
Qed.

Lemma zone_live_cons_eq i m live : zindex m = Z.of_nat i → zone_live i (m :: live) = handed m :: zone_live i live.
Proof. intros E. unfold zone_live. by rewrite filter_cons_True. Qed.

Lemma zone_live_cons_ne i m live : zindex m ≠ Z.of_nat i → zone_live i (m :: live) = zone_live i live.
Proof. intros E. unfold zone_live. by rewrite filter_cons_False. Qed.

Lemma handed_with_zindex i m : handed (with_zindex i m) = handed m.
Proof. done. Qed.

(** One zone tried. *)
Lemma try_one_ok s live i size :
  zm_inv s live → (i < Z.to_nat (zlen s))%nat → 0 < size <= 2 ^ 62 →
  wp (on_zone (Z.of_nat i) (alloc size)) s (λ o s', same_zones s s' ∧ selnum s' = selnum s ∧
    match o with
    | Some m => zm_inv s' (with_zindex (Z.of_nat i) m :: live) ∧ size <= m_len m
    | None => s' = s ∧ ∀ b n, zones s !! i = Some (Some b) → n ∈ free_nodes b → b_size n < size
    end).
Proof.
  intros Hs Hi Hsz. destruct (z_zone _ _ Hs i Hi) as (b & Hb & Hinv).
  eapply wp_on_zone; [done|]. eapply wp_mono; [by apply (alloc_ok b (zone_live i live)); [|lia]|].
  intros [m|] b' [Hz H].
  - destruct H as (_ & _ & Hb' & Hlen & _).
    destruct (zm_inv_update s live (with_zindex (Z.of_nat i) m :: live) i b b' (selnum s) Hs Hb Hi Hz) as [G1 G2].
    + by rewrite zone_live_cons_eq.
    + intros j Hj. apply zone_live_cons_ne. simpl. lia.
    + constructor; [simpl; lia|]. apply Hs.
    + done.
  - destruct H as [-> [->|Hno]]; [lia|].
    assert (mkZM (<[i := Some b]> (zones s)) (zlen s) (selnum s) = s) as ->.
    { rewrite list_insert_id by done. by destruct s. }
    split; [apply same_zones_refl|]. split; [done|]. split; [done|].
    intros c n Hc. rewrite Hb in Hc. injection Hc as <-. by apply no_free_block.
Qed.
End proofs.

(** Zone [i] has no free block of [size] bytes. *)
Definition no_room (s : ZoneManager) (i size : Z) : Prop :=
  ∀ b n, zones s !! Z.to_nat i = Some (Some b) → n ∈ free_nodes b → b_size n < size.

(** Where the round trip over the zones is after [j] steps. *)
Lemma round_trip start j n :
  0 <= start < n → 0 <= j <= n → ((start + j) mod n = start ↔ j = 0 ∨ j = n).
Proof.
  intros Hs Hj. split.
  - intros E. destruct (Z.lt_ge_cases (start + j) n).
    + rewrite Z.mod_small in E by lia. lia.
    + replace (start + j) with (start + j - n + 1 * n) in E by lia.
      rewrite Z.mod_add in E by lia. destruct (Z.eq_dec j n); [by right|].
      rewrite Z.mod_small in E by lia. lia.
  - intros [->| ->]; [rewrite Z.add_0_r; by apply Z.mod_small|].
    replace (start + n) with (start + 1 * n) by lia. rewrite Z.mod_add by lia. by apply Z.mod_small.
Qed.

Section trying.
Context {B : Build}.

Lemma try_zones_ok fuel s live size start j :
  zm_inv s live → 0 < size <= 2 ^ 62 → 0 <= start < zlen s → 0 <= j <= zlen s →
  (Z.to_nat (zlen s - j) < fuel)%nat →
  (∀ k, 0 <= k < j → no_room s ((start + k) mod zlen s) size) →
  wp (try_zones fuel (alloc size) start ((start + j) mod zlen s) (j =? 0)) s
    (λ o s', same_zones s s' ∧ selnum s' = selnum s ∧
      match o with
      | Some m => zm_inv s' (m :: live) ∧ size <= m_len m
      | None => s' = s ∧ ∀ i, 0 <= i < zlen s → no_room s i size
      end).
Proof.
  intros Hs Hsz Hst. pose proof (z_zlen _ _ Hs) as Hz. unfold MAX_ZONES in Hz.
  revert j. induction fuel as [|fuel IH]; intros j Hj Hf Hno; [lia|]. cbn [try_zones].
  pose proof (round_trip start j (zlen s) Hst Hj) as Hrt.
  pose proof (Z.mod_pos_bound (start + j) (zlen s) ltac:(lia)) as Hb.
  assert (negb ((start + j) mod zlen s =? start) || (j =? 0) = negb (j =? zlen s)) as ->.
  { destruct (Z.eqb_spec ((start + j) mod zlen s) start), (Z.eqb_spec j 0), (Z.eqb_spec j (zlen s));
      simpl; try done; lia. }
  destruct (Z.eqb_spec j (zlen s)) as [->|Hjn]; cbn [negb].
  - apply wp_ret. split; [apply same_zones_refl|]. split; [done|split; [done|]]. intros i Hi.
    replace i with ((start + ((i - start) mod zlen s)) mod zlen s).
    + apply Hno. apply Z.mod_pos_bound. lia.
    + rewrite Zplus_mod_idemp_r. replace (start + (i - start)) with i by lia. by apply Z.mod_small.
  - set (i := (start + j) mod zlen s) in *. apply wp_bind.
    assert (Z.of_nat (Z.to_nat i) = i) as Ei by lia. rewrite <- Ei at 1.
    eapply wp_mono; [by apply (try_one_ok s live (Z.to_nat i) size Hs); lia|].
    intros [m|] s' (Hsame & Hsel & H); cbn beta iota.
    + rewrite Ei in *. apply wp_ret. done.
    + destruct H as [-> Hnone]. apply wp_bind, wp_get. apply wp_bind. eapply wp_lift; [by u|].
      assert ((i + 1) mod zlen s = (start + (j + 1)) mod zlen s) as ->.
      { unfold i. rewrite Zplus_mod_idemp_l. f_equal. lia. }
      assert (false = (j + 1 =? 0)) as -> by (destruct (Z.eqb_spec (j + 1) 0); [lia|done]).
      apply IH; [lia|lia|]. intros k Hk. destruct (Z.eq_dec k j) as [->|]; [exact Hnone|apply Hno; lia].
Qed.

Lemma zm_inv_sel s live sel : zm_inv s live → zm_inv (mkZM (zones s) (zlen s) sel) live.
Proof. intros [? ? ? ? ?]. by constructor. Qed.

Lemma zm_alloc_ok s live size :
  zm_inv s live → 0 <= selnum s → 0 < size <= 2 ^ 62 →
  wp (zm_alloc_ size) s (λ o s', same_zones s s' ∧ 0 <= selnum s' ∧
    match o with
    | Some m => zm_inv s' (m :: live) ∧ size <= m_len m
    | None => zm_inv s' live ∧ ∀ i, 0 <= i < zlen s → no_room s i size
    end).
Proof.
  intros Hs Hsel Hsz. unfold zm_alloc_, allocer_action. pose proof (z_zlen _ _ Hs) as Hz.
  unfold MAX_ZONES in Hz. apply wp_bind, wp_get. apply wp_bind, wp_put.
  rewrite (proj2 (Z.eqb_neq (zlen s) 0)) by lia. apply wp_bind, wp_ret. cbv zeta.
  set (s1 := mkZM (zones s) (zlen s) ((selnum s + 1) mod U64)).
  pose proof (Z.mod_pos_bound (selnum s) (zlen s) ltac:(lia)) as Hst.
  pose proof (try_zones_ok zone_fuel s1 live size (selnum s mod zlen s) 0 (zm_inv_sel _ _ _ Hs) Hsz) as H.
  change (zlen s1) with (zlen s) in H. rewrite Z.add_0_r, Z.mod_mod in H by lia.
  eapply wp_mono; [apply H; [lia|lia|unfold zone_fuel; lia|intros; lia]|].
  intros o s' (Hsame & Hsel' & Ho). split; [exact Hsame|].
  split; [rewrite Hsel'; apply Z.mod_pos_bound; lia|].
  destruct o as [m|]; [done|]. destruct Ho as [-> Hno]. split; [by apply zm_inv_sel|done].
Qed.

Lemma zm_dealloc_ok s l1 m l2 :
  zm_inv s (l1 ++ m :: l2) → wp (zm_dealloc_ m) s (λ _ s', same_zones s s' ∧ selnum s' = selnum s ∧ zm_inv s' (l1 ++ l2)).
Proof.
  intros Hs. unfold zm_dealloc_. pose proof (z_live _ _ Hs) as Hl.
  assert (0 <= zindex m < zlen s) as Hm.
  { rewrite Forall_forall in Hl. apply Hl. set_solver. }
  set (i := Z.to_nat (zindex m)). assert (zindex m = Z.of_nat i) as Ei by lia. rewrite Ei.
  destruct (z_zone _ _ Hs i) as (b & Hb & Hinv); [lia|].
  assert (zone_live i (l1 ++ m :: l2) = zone_live i l1 ++ handed m :: zone_live i l2) as El.
  { unfold zone_live. rewrite filter_app, filter_cons_True, fmap_app by done. done. }
  rewrite El in Hinv. eapply wp_on_zone; [done|].
  eapply wp_mono; [by eapply dealloc_ok|]. intros [] b' [Hz Hb'].
  destruct (zm_inv_update s (l1 ++ m :: l2) (l1 ++ l2) i b b' (selnum s) Hs Hb) as [G1 G2]; try done.
  - lia.
  - unfold zone_live in *. by rewrite filter_app, fmap_app.
  - intros j Hj. unfold zone_live. rewrite !filter_app, filter_cons_False by lia. done.
  - apply Forall_app in Hl as [Hl1 Hl2]. apply Forall_cons in Hl2 as [_ Hl2]. by apply Forall_app.
Qed.
End trying.

(** *** The zones of a memory map *)

Definition usable_of (regions : list MemoryRegionType) : list range :=
  omap (λ t, match t with Usable r => Some r | _ => None end) regions.

Section boot_zones.
Context {B : Build} {AD : Addresses} {PL : AddrLaws (A:=PA)} {VL : AddrLaws (A:=VA)}.

(** A usable region: whole pages, and its image in the linear map is addressable. *)
Definition region_ok (r : range) : Prop :=
  page_range r ∧ r_size r < 2 ^ 43 ∧ (PAGE_SIZE | MEM_OFFSET) ∧ 0 < r_addr r + MEM_OFFSET ∧
  ∀ x, r_addr r <= x <= r_addr r + r_size r → @canon VA VL (x + MEM_OFFSET) ∧ is_usize (x + MEM_OFFSET).

Definition within (b : BuddyAllocator) (r : range) : Prop :=
  r_addr r + MEM_OFFSET <= start b ∧ meta_start b <= r_addr r + r_size r + MEM_OFFSET.

(** The entries of the array are the zones of the regions, in order. *)
Definition zones_of (us : list range) (zs : list (option BuddyAllocator)) : Prop :=
  (∀ i r, us !! i = Some r → ∃ b, zs !! i = Some (Some b) ∧ binv b [] ∧ within b r) ∧
  (∀ i b, zs !! i = Some (Some b) → is_Some (us !! i)).

Lemma phys_to_virt_ok x :
  @canon VA VL (x + MEM_OFFSET) → is_usize (x + MEM_OFFSET) → phys_to_virt x = Ret (x + MEM_OFFSET).
Proof. intros Hc [H0 H1]. unfold phys_to_virt. u. by rewrite a_try_new_ok. Qed.

Lemma zone_made r :
  region_ok r → ∃ b, buddy_new (A:=VA) (r_addr r + MEM_OFFSET) (r_addr r + r_size r + MEM_OFFSET) PAGE_SIZE = Ret b ∧
    binv b [] ∧ within b r.
Proof.
  intros ((R1 & _ & R3 & R4 & R5) & Hsz & Hm & H0 & Hx).
  destruct (Hx (r_addr r)) as [Hc Hu]; [lia|]. destruct (Hx (r_addr r + r_size r)) as [_ He]; [lia|].
  assert (page_up (r_addr r + MEM_OFFSET) = r_addr r + MEM_OFFSET) as Ep.
  { unfold page_up. assert ((- (r_addr r + MEM_OFFSET)) mod PAGE_SIZE = 0) as ->; [|lia].
    apply divide_mod0; [done|]. apply Z.divide_opp_r. by apply Z.divide_add_r. }
  destruct (buddy_new_ok (A:=VA) (r_addr r + MEM_OFFSET) (r_addr r + r_size r + MEM_OFFSET)) as [_ H];
    rewrite ?Ep; try done; [lia|].
  destruct H as (b & Eb & Hb & E1 & E2); [rewrite Ep; lia|]. exists b. split; [done|]. split; [done|].
  unfold within. rewrite E1, Ep. lia.
Qed.

Lemma init_zones_ok regions us zs :
  length zs = Z.to_nat MAX_ZONES → zones_of us zs → Forall region_ok (usable_of regions) →
  (length (us ++ usable_of regions) <= Z.to_nat MAX_ZONES)%nat →
  ∃ zs', init_zones regions (Z.of_nat (length us)) zs =
      Ret (Z.of_nat (length (us ++ usable_of regions)), zs') ∧
    length zs' = Z.to_nat MAX_ZONES ∧ zones_of (us ++ usable_of regions) zs'.
Proof.
  revert us zs. induction regions as [|t regions IH]; intros us zs Hl Hz Hr Hn.
  { unfold usable_of. simpl. rewrite app_nil_r. by exists zs. }
  destruct t as [mem|mem|mem|mem|mem|mem]; try by apply IH.
  change (usable_of (Usable mem :: regions)) with (mem :: usable_of regions) in *.
  apply Forall_cons in Hr as [Hmem Hr]. pose proof Hmem as ((_ & _ & R3 & R4 & R5) & _ & _ & _ & Hx).
  unfold PAGE_SIZE in R5. rewrite length_app in Hn. cbn [length] in Hn. unfold MAX_ZONES in *.
  cbn [init_zones]. rewrite a_add_ok by first [lia | apply canon_low; lia]. cbn [mbind res_bind].
  rewrite (proj2 (Z.leb_gt _ _)) by (unfold MAX_ZONES; lia). cbn [mbind res_bind].
  rewrite !phys_to_virt_ok by (apply Hx; lia). cbn [mbind res_bind].
  destruct (zone_made mem Hmem) as (b & -> & Hb & Hw). cbn [mbind res_bind]. u.
  rewrite Nat2Z.id. replace (Z.of_nat (length us) + 1) with (Z.of_nat (length (us ++ [mem])))
    by (rewrite length_app; simpl; lia).
  replace (us ++ mem :: usable_of regions) with ((us ++ [mem]) ++ usable_of regions) by by rewrite <- app_assoc.
  apply IH; [by rewrite length_insert| |done|rewrite !length_app; simpl; lia].
  assert (length us < length zs)%nat as Hlt by lia. destruct Hz as [Hz1 Hz2]. split.
  - intros i r Hi. apply lookup_app_Some in Hi as [Hi|[Hge Hi]].
    + rewrite list_lookup_insert_ne by (apply lookup_lt_Some in Hi; lia). by apply Hz1.
    + assert (i = length us) as -> by (apply lookup_lt_Some in Hi; simpl in Hi; lia).
      rewrite Nat.sub_diag in Hi. injection Hi as <-. rewrite list_lookup_insert_eq by done. by exists b.
  - intros i c Hi. apply lookup_lt_is_Some. rewrite length_app. simpl.
    destruct (decide (i = length us)) as [->|Hne]; [lia|].
    rewrite list_lookup_insert_ne in Hi by done. apply Hz2, lookup_lt_is_Some in Hi. lia.
Qed.

(** The memory map names memory once. *)
Definition regions_apart (us : list range) : Prop :=
  ∀ i j r s, i ≠ j → us !! i = Some r → us !! j = Some s →
    r_addr r + r_size r <= r_addr s ∨ r_addr s + r_size s <= r_addr r.

Lemma zones_of_inv us zs :
  length zs = Z.to_nat MAX_ZONES → zones_of us zs → us ≠ [] → (length us <= Z.to_nat MAX_ZONES)%nat →
  regions_apart us → zm_inv (mkZM zs (Z.of_nat (length us)) 0) [].
Proof.
  intros Hl [Hz1 Hz2] Hne Hn Ha. unfold MAX_ZONES in *. constructor; simpl; try done.
  - unfold MAX_ZONES. destruct us; [done|]. cbn [length] in *. lia.
  - intros i Hi. rewrite Nat2Z.id in Hi. apply lookup_lt_is_Some in Hi as [r Hr].
    destruct (Hz1 _ _ Hr) as (b & Hb & Hinv & _). by exists b.
  - intros i j b c Hij Hi Hj. destruct (Hz2 _ _ Hi) as [r Hr], (Hz2 _ _ Hj) as [s Hs].
    destruct (Hz1 _ _ Hr) as (b' & Hb' & _ & Hw). destruct (Hz1 _ _ Hs) as (c' & Hc' & _ & Hw').
    simplify_eq. pose proof (Ha _ _ _ _ Hij Hr Hs). unfold zones_apart, within in *. lia.
Qed.
End boot_zones.

(** ** A client of the manager *)

Inductive zm_op := ZAlloc (size : Z) | ZFree (i : nat).

Section client.
Context {B : Build} {AD : Addresses} {PL : AddrLaws (A:=PA)} {VL : AddrLaws (A:=VA)}.

Definition zm_exec (op : zm_op) (live : list Allocation) : ZM (list Allocation) :=
  match op with
  | ZAlloc size =>
      o ← zm_alloc_ size;
      mret match o with Some m => m :: live | None => live end
  | ZFree i =>
      match live !! i with
      | None => mret live
      | Some m => zm_dealloc_ m;; mret (take i live ++ drop (S i) live)
      end
  end.

Fixpoint zm_run (ops : list zm_op) (live : list Allocation) : ZM (list Allocation) :=
  match ops with
  | [] => mret live
  | op :: ops => live ← zm_exec op live; zm_run ops live
  end.

Definition zm_op_ok (op : zm_op) : Prop :=
  match op with ZAlloc size => 0 < size <= 2 ^ 62 | ZFree _ => True end.

Lemma zm_exec_ok op s live :
  zm_inv s live → 0 <= selnum s → zm_op_ok op →
  wp (zm_exec op live) s (λ live' s', same_zones s s' ∧ 0 <= selnum s' ∧ zm_inv s' live').
Proof.
  intros Hs Hsel Hop. destruct op as [size|i]; simpl.
  - apply wp_bind. eapply wp_mono; [by apply (zm_alloc_ok s live)|].
    intros [m|] s' (H1 & H2 & H3 & _); by apply wp_ret.
  - destruct (live !! i) as [m|] eqn:Hi.
    2: { apply wp_ret. split; [apply same_zones_refl|done]. }
    rewrite (take_mid_drop _ _ _ Hi) in Hs at 1. apply wp_bind.
    eapply wp_mono; [by apply zm_dealloc_ok|]. intros [] s' (H1 & H2 & H3). apply wp_ret.
    split; [done|]. split; [lia|done].
Qed.

Lemma zm_run_ok ops s live :
  zm_inv s live → 0 <= selnum s → Forall zm_op_ok ops →
  wp (zm_run ops live) s (λ live' s', same_zones s s' ∧ zm_inv s' live').
Proof.
  intros Hs Hsel Hops. revert s live Hs Hsel. induction Hops as [|op ops Hop _ IH]; intros s live Hs Hsel; simpl.
  { apply wp_ret. split; [apply same_zones_refl|done]. }
  apply wp_bind. eapply wp_mono; [by apply zm_exec_ok|]. intros live1 s1 (H1 & H2 & H3).
  eapply wp_mono; [by apply IH|]. intros live2 s2 [H4 H5]. split; [by eapply same_zones_trans|done].
Qed.

Lemma FOP_app_r {T} (R : T → T → Prop) l1 l2 : ForallOrdPairs R (l1 ++ l2) → ForallOrdPairs R l2.
Proof. induction l1 as [|a l1 IH]; simpl; [done|]. intros H. inversion H; subst. by apply IH. Qed.

Lemma zone_member i m live : m ∈ live → zindex m = Z.of_nat i → handed m ∈ zone_live i live.
Proof. intros Hm E. apply list_elem_of_fmap. exists m. split; [done|]. by apply list_elem_of_filter. Qed.

Lemma live_apart live :
  (∀ i, ForallOrdPairs napart (zone_live i live)) →
  (∀ m n, m ∈ live → n ∈ live → 0 <= zindex m ∧ (zindex m ≠ zindex n → napart (handed m) (handed n))) →
  ForallOrdPairs napart (handed <$> live).
Proof.
  induction live as [|m live IH]; intros H1 H2; [constructor|]. rewrite fmap_cons.
  destruct (H2 m m) as [Hm _]; [by left|by left|]. constructor.
  - apply Forall_fmap, Forall_forall. intros n Hn. simpl.
    destruct (Z.eq_dec (zindex m) (zindex n)) as [E|Hne].
    + specialize (H1 (Z.to_nat (zindex m))). rewrite zone_live_cons_eq in H1 by lia.
      inversion H1 as [|? ? Hall _]; subst. rewrite Forall_forall in Hall.
      apply Hall, zone_member; [done|lia].
    + apply H2; [by left|by right|done].
  - apply IH.
    + intros i. specialize (H1 i). destruct (Z.eq_dec (zindex m) (Z.of_nat i)) as [E|Hne].
      * rewrite zone_live_cons_eq in H1 by done. by inversion H1.
      * by rewrite zone_live_cons_ne in H1.
    + intros a b Ha Hb. apply H2; by right.
Qed.

(** An allocation lies in its zone. *)
Lemma live_in_zone s live m :
  zm_inv s live → m ∈ live →
  ∃ b, zones s !! Z.to_nat (zindex m) = Some (Some b) ∧ in_zone b (handed m) ∧ 0 < b_size (handed m).
Proof.
  intros Hs Hm. pose proof (z_live _ _ Hs) as Hl. rewrite Forall_forall in Hl. specialize (Hl m Hm).
  destruct (z_zone _ _ Hs (Z.to_nat (zindex m))) as (b & Hb & Hinv); [lia|].
  exists b. split; [done|]. assert (handed m ∈ zone_live (Z.to_nat (zindex m)) live) as Hin
    by (apply zone_member; [done|lia]).
  pose proof (t_zone _ _ (b_tiling _ _ Hinv)) as Hz. rewrite Forall_forall in Hz. split.
  - apply Hz. apply elem_of_app. by right.
  - pose proof (live_pos b _ (b_geom _ _ Hinv) (b_live _ _ Hinv)) as Hp. rewrite Forall_forall in Hp. by apply Hp.
Qed.

Lemma zm_inv_apart s live : zm_inv s live → ForallOrdPairs napart (handed <$> live).
Proof.
  intros Hs. apply live_apart.
  - intros i. destruct (decide (i < Z.to_nat (zlen s))%nat) as [Hi|Hi].
    + destruct (z_zone _ _ Hs i Hi) as (b & _ & Hinv).
      eapply FOP_app_r, (t_apart _ _ (b_tiling _ _ Hinv)).
    + assert (zone_live i live = []) as ->; [|constructor]. apply elem_of_nil_inv. intros n Hn.
      apply list_elem_of_fmap in Hn as (m & _ & [E Hm]%list_elem_of_filter).
      pose proof (z_live _ _ Hs) as Hl. rewrite Forall_forall in Hl. specialize (Hl m Hm). lia.
  - intros m n Hm Hn. pose proof (z_live _ _ Hs) as Hl. rewrite Forall_forall in Hl.
    pose proof (Hl m Hm) as Lm. pose proof (Hl n Hn) as Ln. split; [lia|]. intros Hne.
    destruct (live_in_zone s live m Hs Hm) as (b & Hb & (_ & M1 & M2) & M3).
    destruct (live_in_zone s live n Hs Hn) as (c & Hc & (_ & N1 & N2) & N3).
    assert (Z.to_nat (zindex m) ≠ Z.to_nat (zindex n)) as Hij by lia.
    pose proof (z_sep _ _ Hs _ _ b c Hij Hb Hc) as Ha. unfold zones_apart, napart in *. lia.
Qed.

(** C14: Physical memory, from boot on.  The zones made of a memory map with at most four
    usable regions serve any history of allocations and frees without panic, and at every
    point the allocations held are disjoint, and each lies inside a usable region. *)
Theorem zones_safe regions ops :
  Forall region_ok (usable_of regions) → regions_apart (usable_of regions) →
  usable_of regions ≠ [] → (length (usable_of regions) <= Z.to_nat MAX_ZONES)%nat →
  Forall zm_op_ok ops →
  wp (zm_init regions;; zm_run ops []) zm_new (λ live s,
    zm_inv s live ∧ ForallOrdPairs napart (handed <$> live) ∧
    ∀ m, m ∈ live → ∃ r, r ∈ usable_of regions ∧ 0 < m_len m ∧
      r_addr r + MEM_OFFSET <= m_addr m ∧ m_addr m + m_len m <= r_addr r + r_size r + MEM_OFFSET).
Proof.
  intros Hr Ha Hne Hn Hops.
  assert (zones_of [] (repeat None (Z.to_nat MAX_ZONES))) as H0.
  { split; [by intros i r|]. intros i b Hi. apply list_elem_of_lookup_2, list_elem_of_In, repeat_spec in Hi. done. }
  destruct (init_zones_ok regions [] (repeat None (Z.to_nat MAX_ZONES))) as (zs & E & Hl & Hz); try done.
  simpl app in E, Hz. change (Z.of_nat (length [])) with 0 in E.
  pose proof (zones_of_inv _ _ Hl Hz Hne Hn Ha) as Hinv.
  apply wp_bind. eexists _, _. split.
  { unfold zm_init, zm_new. cbn [zlen zones selnum]. rewrite E. done. }
  eapply wp_mono; [apply zm_run_ok; [exact Hinv|done|done]|].
  intros live s [[_ Hsame] Hs]. split; [done|]. split; [by eapply zm_inv_apart|].
  intros m Hm. destruct (live_in_zone s live m Hs Hm) as (b' & Hb' & (_ & M1 & M2) & M3).
  destruct (Hsame _ _ Hb') as (b & Hb & Hsz). cbn [zones] in Hb. destruct Hz as [Hz1 Hz2].
  destruct (Hz2 _ _ Hb) as [r Hr']. destruct (Hz1 _ _ Hr') as (b2 & Hb2 & _ & Hw). simplify_eq.
  exists r. split; [by eapply list_elem_of_lookup_2|]. simpl in *. unfold within, same_zone, b_end in *.
  simpl in *. split; [done|]. destruct Hsz as (E1 & E2 & _). lia.
Qed.
End client.

(** ** A small machine *)

#[local] Existing Instance dev.

Definition demo_map : list MemoryRegionType :=
  [Usable (mkRange 0x100000 0x10000); Reserved (mkRange 0x110000 0x1000); Usable (mkRange 0x200000 0x8000)].

Lemma demo_region_ok a n :
  page_range (mkRange a n) → 0 < a → n < 2 ^ 43 → region_ok (VL:=DemoAddrLaws) (mkRange a n).
Proof.
  intros Hp Ha Hn. split; [done|]. split; [done|]. split; [by exists 0|]. simpl. split; [lia|].
  destruct Hp as (_ & _ & _ & _ & H5). unfold PAGE_SIZE in H5. simpl in H5. intros x Hx.
  rewrite Z.add_0_r. split; [|unfold is_usize; lia]. apply (canon_low (AddrLaws:=DemoAddrLaws)). lia.
Qed.

Lemma demo_map_ok : Forall (region_ok (VL:=DemoAddrLaws)) (usable_of demo_map).
Proof.
  assert (page_range (mkRange 0x100000 0x10000) ∧ page_range (mkRange 0x200000 0x8000)) as [P1 P2].
  { split; (split_and!; try done; by apply Z.mod_divide). }
  constructor; [by apply demo_region_ok|]. constructor; [by apply demo_region_ok|constructor].
Qed.

Lemma demo_map_apart : regions_apart (usable_of demo_map).
Proof.
  change (usable_of demo_map) with [mkRange 0x100000 0x10000; mkRange 0x200000 0x8000].
  intros i j r s Hne Hi Hj. pose proof (lookup_lt_Some _ _ _ Hi) as Li.
  pose proof (lookup_lt_Some _ _ _ Hj) as Lj. simpl in Li, Lj.
  destruct i as [|[|i]], j as [|[|j]]; try lia;
    injection Hi as <-; injection Hj as <-; simpl; lia.
Qed.

Lemma zones_safe_witness :
  wp (zm_init demo_map;; zm_run [ZAlloc 1; ZAlloc 0x4000; ZFree 1; ZAlloc 1] []) zm_new (λ live s,
    zm_inv s live ∧ ForallOrdPairs napart (handed <$> live) ∧
    ∀ m, m ∈ live → ∃ r, r ∈ usable_of demo_map ∧ 0 < m_len m ∧
      r_addr r + MEM_OFFSET <= m_addr m ∧ m_addr m + m_len m <= r_addr r + r_size r + MEM_OFFSET).
Proof.
  refine (zones_safe (PL:=DemoAddrLaws) (VL:=DemoAddrLaws) demo_map
    [ZAlloc 1; ZAlloc 0x4000; ZFree 1; ZAlloc 1] demo_map_ok demo_map_apart _ _ _); [done|vm_compute; lia|].
  constructor; [simpl; lia|]. constructor; [simpl; lia|]. constructor; [done|].
  constructor; [simpl; lia|]. constructor.
Defined.
