(* ===== verification/Futex.v ===== *)
(** * Locks: [libutil/src/futex.rs] and [kernel/src/sched/sync.rs]

    A [RawFutex] is a word that counts the threads that hold or want the lock, and the
    id of a kernel futex, made when a thread first has to wait.  A [KFutex] counts
    sleepers in [wait_count] and queues them in the scheduler.  Threads interleave at
    their atomic operations: the state is the shared words and the place of each
    thread in [lock] or [unlock], and each rule is one atomic operation of one thread.
    The atomics of the model are sequentially consistent. *)

From S2P Require Import Prelude.

(** ** The state *)

(** What a thread wants the id for. *)
Inductive call := CBlock | CUnblock.

(** Where a thread is. *)
Inductive pc :=
  | Idle                        (* outside *)
  | GetId (k : call)            (* at the load of [id()] *)
  | CasId (k : call) (new : Z)  (* in [id()], with a new kernel futex, at the exchange *)
  | Block (i : Z)               (* in [KFutex::block], at the [fetch_add] *)
  | Sleepy (i : Z)              (* counted as a sleeper, not queued yet *)
  | Asleep (i : Z)              (* in the scheduler's queue *)
  | Wake (i : Z)                (* in [KFutex::unblock] *)
  | Owner.                      (* holds the lock *)

Definition no_id : Z := usize_max.

Record futex := mkFutex {
  count : Z;          (* [RawFutex::count] *)
  fid : Z;            (* [RawFutex::id] *)
  waits : gmap Z Z;   (* [wait_count] of each kernel futex *)
  pcs : list pc;      (* the threads *)
}.

Definition at_pc (s : futex) (t : nat) (p : pc) : Prop := pcs s !! t = Some p.
Definition goto (t : nat) (p : pc) (s : futex) : futex := mkFutex (count s) (fid s) (waits s) (<[t := p]> (pcs s)).
Definition set_cnt (c : Z) (s : futex) : futex := mkFutex c (fid s) (waits s) (pcs s).
Definition set_fid (i : Z) (s : futex) : futex := mkFutex (count s) i (waits s) (pcs s).
Definition set_waits (w : gmap Z Z) (s : futex) : futex := mkFutex (count s) (fid s) w (pcs s).

Definition futex_init (n : nat) : futex := mkFutex 0 no_id ∅ (repeat Idle n).

(** Where [id()] leads, with the id it returned. *)
Definition after_id (k : call) (i : Z) : pc :=
  match k with CBlock => Block i | CUnblock => Wake i end.

(** ** The steps of thread [t] *)

Inductive raw_step (t : nat) (s : futex) : futex → Prop :=
  (* [lock]: [self.count.fetch_add(1) > 0] *)
  | lock_free : at_pc s t Idle → ¬ 0 < count s → raw_step t s (goto t Owner (set_cnt (count s + 1) s))
  | lock_held : at_pc s t Idle → 0 < count s → raw_step t s (goto t (GetId CBlock) (set_cnt (count s + 1) s))
  (* [try_lock]: [fetch_update] *)
  | try_lock_ok : at_pc s t Idle → count s = 0 → raw_step t s (goto t Owner (set_cnt (count s + 1) s))
  | try_lock_no : at_pc s t Idle → count s ≠ 0 → raw_step t s s
  (* [unlock]: [self.count.fetch_sub(1) > 1] *)
  | unlock_last : at_pc s t Owner → ¬ 1 < count s → raw_step t s (goto t Idle (set_cnt (count s - 1) s))
  | unlock_next : at_pc s t Owner → 1 < count s → raw_step t s (goto t (GetId CUnblock) (set_cnt (count s - 1) s))
  (* [id]: the load, and [futex_new] *)
  | id_load k : at_pc s t (GetId k) → fid s ≠ no_id → raw_step t s (goto t (after_id k (fid s)) s)
  | id_new k new :
      at_pc s t (GetId k) → fid s = no_id → new ≠ no_id → waits s !! new = None →
      raw_step t s (goto t (CasId k new) (set_waits (<[new := 0]> (waits s)) s))
  (* [compare_exchange]; the loser destroys its futex *)
  | id_won k new : at_pc s t (CasId k new) → fid s = no_id →
      raw_step t s (goto t (after_id k new) (set_fid new s))
  | id_lost k new : at_pc s t (CasId k new) → fid s ≠ no_id →
      raw_step t s (goto t (after_id k (fid s)) (set_waits (delete new (waits s)) s)).

(** The kernel's side: [block] and [unblock]. *)
Inductive kfutex_step (t : nat) (s : futex) : futex → Prop :=
  (* [KFutex::block]: [self.wait_count.fetch_add(1) >= 0] *)
  | block_sleep i w : at_pc s t (Block i) → waits s !! i = Some w → 0 <= w →
      kfutex_step t s (goto t (Sleepy i) (set_waits (<[i := w + 1]> (waits s)) s))
  | block_skip i w : at_pc s t (Block i) → waits s !! i = Some w → ¬ 0 <= w →
      kfutex_step t s (goto t Owner (set_waits (<[i := w + 1]> (waits s)) s))
  (* the lock of the futex, and the scheduler *)
  | block_queue i : at_pc s t (Sleepy i) → kfutex_step t s (goto t (Asleep i) s)
  (* [KFutex::unblock(1)], under the lock of the futex: at most one thread is queued back *)
  | wake_one i w u : at_pc s t (Wake i) → waits s !! i = Some w → at_pc s u (Asleep i) →
      kfutex_step t s (goto u Owner (goto t Idle (set_waits (<[i := w - 1]> (waits s)) s)))
  | wake_none i w : at_pc s t (Wake i) → waits s !! i = Some w → (∀ u, ¬ at_pc s u (Asleep i)) →
      kfutex_step t s (goto t Idle (set_waits (<[i := w - 1]> (waits s)) s)).

Definition fstep (t : nat) (s s' : futex) : Prop := raw_step t s s' ∨ kfutex_step t s s'.

Definition fsteps : futex → futex → Prop := rtc (λ s s', ∃ t, fstep t s s').

(** ** Counting threads *)

Definition num (f : pc → bool) (l : list pc) : Z := Z.of_nat (length (filter (λ p, f p = true) l)).

Definition is_owner (p : pc) : bool := match p with Owner => true | _ => false end.
(** Counted in [count], and not the owner. *)
Definition is_queued (p : pc) : bool :=
  match p with GetId CBlock | CasId CBlock _ | Block _ | Sleepy _ | Asleep _ => true | _ => false end.
(** About to hand the lock over. *)
Definition is_waking (p : pc) : bool :=
  match p with GetId CUnblock | CasId CUnblock _ | Wake _ => true | _ => false end.
(** Counted in [wait_count]. *)
Definition is_sleeping (p : pc) : bool := match p with Sleepy _ | Asleep _ => true | _ => false end.

Lemma num_nonneg f l : 0 <= num f l.
Proof. unfold num. lia. Qed.

Lemma num_cons f p l : num f (p :: l) = Z.b2z (f p) + num f l.
Proof. unfold num. rewrite filter_cons. destruct (f p) eqn:E; simpl; lia. Qed.

Lemma num_insert f l t p q :
  l !! t = Some p → num f (<[t := q]> l) = num f l - Z.b2z (f p) + Z.b2z (f q).
Proof.
  revert t. induction l as [|a l IH]; intros t H; [done|]. destruct t as [|t].
  - injection H as ->. change (<[0%nat := q]> (p :: l)) with (q :: l). rewrite !num_cons. lia.
  - change (<[S t := q]> (a :: l)) with (a :: <[t := q]> l). rewrite !num_cons, (IH t H). lia.
Qed.

Lemma num_pos f l t p : l !! t = Some p → f p = true → 1 <= num f l.
Proof.
  revert t. induction l as [|a l IH]; intros [|t] H Hf; simplify_eq/=; rewrite num_cons.
  - rewrite Hf. pose proof (num_nonneg f l). simpl. lia.
  - pose proof (IH _ H Hf). destruct (f a); simpl; lia.
Qed.

Lemma num_two f l t u p q :
  l !! t = Some p → l !! u = Some q → f p = true → f q = true → t ≠ u → 2 <= num f l.
Proof.
  revert t u. induction l as [|a l IH]; intros [|t] [|u] Ht Hu Hp Hq Hne; simplify_eq/=; rewrite ?num_cons.
  - rewrite Hp. pose proof (num_pos _ _ _ _ Hu Hq). simpl. lia.
  - rewrite Hq. pose proof (num_pos _ _ _ _ Ht Hp). simpl. lia.
  - pose proof (IH _ _ Ht Hu Hp Hq ltac:(congruence)). destruct (f a); simpl; lia.
Qed.

Lemma num_le f g l : (∀ p, f p = true → g p = true) → num f l <= num g l.
Proof.
  intros H. induction l as [|a l IH]; [done|]. rewrite !num_cons. specialize (H a).
  destruct (f a), (g a); simpl; try lia.
Qed.

Lemma num_repeat_idle f n : f Idle = false → num f (repeat Idle n) = 0.
Proof. intros H. induction n as [|n IH]; [done|]. simpl. by rewrite num_cons, H, IH. Qed.

(** ** The invariant *)

(** The kernel futex a thread is at. *)
Definition pc_id (p : pc) : option Z :=
  match p with Block i | Sleepy i | Asleep i | Wake i => Some i | _ => None end.

Record ids_ok (s : futex) : Prop := {
  i_at t p i : at_pc s t p → pc_id p = Some i → fid s = i ∧ i ≠ no_id;
  i_new t k n : at_pc s t (CasId k n) → waits s !! n = Some 0 ∧ n ≠ fid s ∧ n ≠ no_id;
  i_apart t u k l n m : t ≠ u → at_pc s t (CasId k n) → at_pc s u (CasId l m) → n ≠ m;
  i_word : fid s ≠ no_id → is_Some (waits s !! fid s);
  i_none : waits s !! no_id = None;
}.

Definition wait (s : futex) : Z := default 0 (waits s !! fid s).

Definition owners (s : futex) : Z := num is_owner (pcs s).
Definition queued (s : futex) : Z := num is_queued (pcs s).
Definition waking (s : futex) : Z := num is_waking (pcs s).
Definition sleeping (s : futex) : Z := num is_sleeping (pcs s).

(** The lock is held, or on its way to the next holder, or a wake-up is stored. *)
Definition tokens (s : futex) : Z := owners s + waking s + Z.max 0 (- wait s).

(** Free, in use, or stuck. *)
Definition tok_ok (s : futex) : Prop :=
  (tokens s = 0 ∧ count s = 0 ∧ wait s = 0) ∨
  (tokens s = 1 ∧ (wait s = sleeping s ∨ wait s = -1 ∧ sleeping s = 0) ∧ 1 <= count s) ∨
  (tokens s = 0 ∧ 1 <= count s ∧ 0 <= wait s).

Record finv (s : futex) : Prop := {
  f_ids : ids_ok s;
  f_count : count s = owners s + queued s;
  f_tok : tok_ok s;
}.

Lemma at_goto s t u p q : at_pc (goto t p s) u q → (u = t ∧ q = p) ∨ (u ≠ t ∧ at_pc s u q).
Proof.
  unfold at_pc, goto. simpl. intros H. destruct (decide (u = t)) as [->|Hne].
  - left. split; [done|]. assert (t < length (pcs s))%nat.
    { apply lookup_lt_Some in H. by rewrite length_insert in H. }
    rewrite list_lookup_insert_eq in H by done. congruence.
  - right. by rewrite list_lookup_insert_ne in H.
Qed.

(** A move to a place that holds no id, or holds the id of the word. *)
Lemma ids_goto s t p :
  ids_ok s → (∀ i, pc_id p = Some i → fid s = i ∧ i ≠ no_id) →
  (∀ k n, p = CasId k n → (waits s !! n = Some 0 ∧ n ≠ fid s ∧ n ≠ no_id) ∧
    ∀ u l m, u ≠ t → at_pc s u (CasId l m) → n ≠ m) →
  ids_ok (goto t p s).
Proof.
  intros [H1 H2 H3 H4 H5] Hp Hc. constructor; try done.
  - intros u q i [[-> ->]|[_ Hu]]%at_goto Hi; [by apply Hp|by eapply H1].
  - intros u k n [[-> E]|[_ Hu]]%at_goto; [by apply (Hc k n)|by eapply H2].
  - intros u v k l n m Hne [[-> E]|[Hu1 Hu]]%at_goto [[-> E']|[Hv1 Hv]]%at_goto; try done.
    + destruct (Hc k n) as [_ Hc']; [done|]. by eapply Hc'.
    + destruct (Hc l m) as [_ Hc']; [done|]. intros ->. by eapply Hc'.
    + by eapply (H3 u v).
Qed.

Lemma ids_cnt s c : ids_ok s → ids_ok (set_cnt c s).
Proof. by intros [? ? ? ? ?]. Qed.

(** A step on the word of the kernel futex in use. *)
Lemma ids_word s w : ids_ok s → fid s ≠ no_id → ids_ok (set_waits (<[fid s := w]> (waits s)) s).
Proof.
  intros [H1 H2 H3 H4 H5] Hf. constructor; simpl; try done.
  - intros t k n Ht. destruct (H2 t k n Ht) as (E & Hn & Hn'). by rewrite lookup_insert_ne.
  - intros _. rewrite lookup_insert_eq. by eexists.
  - by rewrite lookup_insert_ne.
Qed.

(** The thread that made [new] leaves it behind or puts it in place. *)
Lemma ids_new s t k new :
  ids_ok s → fid s = no_id → new ≠ no_id → waits s !! new = None →
  ids_ok (goto t (CasId k new) (set_waits (<[new := 0]> (waits s)) s)).
Proof.
  intros Hs Hf Hn Hw. pose proof Hs as [H1 H2 H3 H4 H5]. apply ids_goto.
  - constructor; simpl; try done.
    + intros u l n Hu. destruct (H2 u l n Hu) as (E & ? & ?). split; [|done].
      rewrite lookup_insert_ne; [done|]. congruence.
    + by rewrite lookup_insert_ne.
  - done.
  - intros l n [= <- <-]. simpl. split; [rewrite lookup_insert_eq; split_and!; congruence|].
    intros u m j _ Hu. destruct (H2 u m j Hu) as (E & _). congruence.
Qed.

Lemma ids_won s t k new :
  ids_ok s → at_pc s t (CasId k new) → fid s = no_id → ids_ok (goto t (after_id k new) (set_fid new s)).
Proof.
  intros [H1 H2 H3 H4 H5] Ht Hf. destruct (H2 t k new Ht) as (E & _ & Hn).
  assert (∀ u q, at_pc (goto t (after_id k new) (set_fid new s)) u q →
    (u = t ∧ q = after_id k new) ∨ (u ≠ t ∧ at_pc s u q)) as Hat by (intros u q Hq; apply at_goto in Hq; exact Hq).
  constructor; simpl; try done.
  - intros u q i [[-> ->]|[_ Hu]]%Hat Hi; [destruct k; simpl in Hi; by simplify_eq|].
    destruct (H1 u q i Hu Hi). congruence.
  - intros u l n [[-> Ec]|[Hne Hu]]%Hat; [by destruct k|]. destruct (H2 u l n Hu) as (En & _ & Hn').
    split; [done|split; [|done]]. intros ->. by apply (H3 u t l k new new).
  - intros u v l j n m Hne [[-> Ec]|[_ Hu]]%Hat; [by destruct k|].
    intros [[-> Ec]|[_ Hv]]%Hat; [by destruct k|]. by apply (H3 u v l j n m).
Qed.

Lemma ids_lost s t k new :
  ids_ok s → at_pc s t (CasId k new) → fid s ≠ no_id →
  ids_ok (goto t (after_id k (fid s)) (set_waits (delete new (waits s)) s)).
Proof.
  intros [H1 H2 H3 H4 H5] Ht Hf. destruct (H2 t k new Ht) as (E & Hnf & Hn).
  assert (∀ u q, at_pc (goto t (after_id k (fid s)) (set_waits (delete new (waits s)) s)) u q →
    (u = t ∧ q = after_id k (fid s)) ∨ (u ≠ t ∧ at_pc s u q)) as Hat by (intros u q Hq; apply at_goto in Hq; exact Hq).
  constructor; simpl.
  - intros u q i [[-> ->]|[_ Hu]]%Hat Hi; [destruct k; simpl in Hi; by simplify_eq|]. by eapply H1.
  - intros u l n [[-> Ec]|[Hne Hu]]%Hat; [by destruct k|]. destruct (H2 u l n Hu) as (En & ? & ?).
    split; [|done]. rewrite lookup_delete_ne; [done|]. by apply (H3 t u k l).
  - intros u v l j n m Hne [[-> Ec]|[_ Hu]]%Hat; [by destruct k|].
    intros [[-> Ec]|[_ Hv]]%Hat; [by destruct k|]. by apply (H3 u v l j n m).
  - intros _. by rewrite lookup_delete_ne by done; apply H4.
  - by rewrite lookup_delete_ne.
Qed.

Lemma fstep_ids t s s' : ids_ok s → fstep t s s' → ids_ok s'.
Proof.
  intros Hs Hstep. pose proof Hs as [H1 H2 H3 H4 H5].
  destruct Hstep as [[Ht ?|Ht ?|Ht ?|Ht ?|Ht ?|Ht ?|k Ht Hf|k new Ht Hf Hn Hw|k new Ht Hf|k new Ht Hf]
    |[i w Ht Hw ?|i w Ht Hw ?|i Ht|i w u Ht Hw Hu|i w Ht Hw Hno]]; try done;
    try (apply ids_goto; [by apply ids_cnt|done|done]).
  - apply ids_goto; [done| |by destruct k]. intros i Hi. destruct k; simpl in Hi; by simplify_eq.
  - by apply ids_new.
  - by apply ids_won.
  - by apply ids_lost.
  - destruct (H1 t _ i Ht eq_refl) as [<- ?]. apply ids_goto; [by apply ids_word| |done].
    intros i [= <-]. done.
  - destruct (H1 t _ i Ht eq_refl) as [<- ?]. apply ids_goto; [by apply ids_word|done|done].
  - destruct (H1 t _ i Ht eq_refl) as [<- ?]. apply ids_goto; [done| |done]. intros i [= <-]. done.
  - destruct (H1 t _ i Ht eq_refl) as [<- ?].
    apply ids_goto; [|done|done]. apply ids_goto; [by apply ids_word|done|done].
  - destruct (H1 t _ i Ht eq_refl) as [<- ?]. apply ids_goto; [by apply ids_word|done|done].
Qed.

Lemma queued_sleeping s : sleeping s <= queued s.
Proof. apply num_le. by intros []. Qed.

Lemma wait_word s i w : fid s = i → waits s !! i = Some w → wait s = w.
Proof. unfold wait. by intros -> ->. Qed.

Lemma wait_set s i w p t : fid s = i → wait (goto t p (set_waits (<[i := w]> (waits s)) s)) = w.
Proof. intros <-. unfold wait. simpl. by rewrite lookup_insert_eq. Qed.

(** [moved t p q s s'] : thread [t] went from [p] to [q]; the counts of threads follow. *)
Lemma moved s s' t p q :
  at_pc s t p → pcs s' = <[t := q]> (pcs s) →
  owners s' = owners s - Z.b2z (is_owner p) + Z.b2z (is_owner q) ∧
  queued s' = queued s - Z.b2z (is_queued p) + Z.b2z (is_queued q) ∧
  waking s' = waking s - Z.b2z (is_waking p) + Z.b2z (is_waking q) ∧
  sleeping s' = sleeping s - Z.b2z (is_sleeping p) + Z.b2z (is_sleeping q).
Proof.
  intros Hp E. unfold owners, queued, waking, sleeping. rewrite E. by rewrite !(num_insert _ _ _ _ _ Hp).
Qed.

(** Counts are not negative, and at least one where a thread is. *)
Lemma counts_pos s t p :
  at_pc s t p → Z.b2z (is_owner p) <= owners s ∧ Z.b2z (is_queued p) <= queued s ∧
  Z.b2z (is_waking p) <= waking s ∧ Z.b2z (is_sleeping p) <= sleeping s.
Proof.
  intros Hp. unfold owners, queued, waking, sleeping.
  assert (∀ f, Z.b2z (f p) <= num f (pcs s)) as H; [|split_and!; apply H].
  intros f. destruct (f p) eqn:E; [by eapply num_pos|apply num_nonneg].
Qed.

(** [one_move Ht q]: thread [t] goes to [q]; what is left is arithmetic. *)
Ltac one_move Ht q :=
  match goal with
  | |- finv ?s1 ∧ _ =>
      let s' := fresh "s'" in let M := fresh "M" in
      set (s' := s1) in *;
      pose proof (moved _ s' _ _ q Ht eq_refl) as M; pose proof (counts_pos _ _ _ Ht);
      cbn [is_owner is_queued is_waking is_sleeping Z.b2z after_id] in *
  end.

(** Nobody holds the lock, or is to get it, and yet it is not free. *)
Definition stuck (s : futex) : Prop := tokens s = 0 ∧ 1 <= count s.

(** [settle w c]: the sleepers' count is [w] now, the word [c]; the invariant follows. *)
Ltac settle w c :=
  match goal with
  | |- finv ?s1 ∧ _ =>
      assert (wait s1 = w) by first [assumption | reflexivity];
      assert (count s1 = c) by first [reflexivity | assumption]; try clearbody s1;
      split; [split; [done|lia|unfold tok_ok, tokens in *; lia]|unfold stuck, tokens in *; lia]
  end.

Lemma fstep_inv t s s' : finv s → fstep t s s' → finv s' ∧ (stuck s → stuck s').
Proof.
  intros Hs Hstep. pose proof Hs as [Hi Hc Hk]. pose proof (fstep_ids t s s' Hi Hstep) as Hi'.
  pose proof (queued_sleeping s) as Hqs. pose proof Hi as [H1 H2 H3 H4 H5].
  pose proof (num_nonneg is_owner (pcs s)) as N1. pose proof (num_nonneg is_waking (pcs s)) as N2.
  pose proof (num_nonneg is_sleeping (pcs s)) as N3. fold (owners s) (waking s) (sleeping s) in N1, N2, N3.
  revert Hi'. destruct Hstep as [[Ht Hn|Ht Hn|Ht Hn|Ht Hn|Ht Hn|Ht Hn|k Ht Hf|k new Ht Hf Hn Hw|k new Ht Hf|k new Ht Hf]
    |[i w Ht Hw Hn|i w Ht Hw Hn|i Ht|i w u Ht Hw Hu|i w Ht Hw Hno]]; intros Hi'.
  - one_move Ht Owner. by settle (wait s) (count s + 1).
  - one_move Ht (GetId CBlock). by settle (wait s) (count s + 1).
  - one_move Ht Owner. by settle (wait s) (count s + 1).
  - done.
  - one_move Ht Idle. by settle (wait s) (count s - 1).
  - one_move Ht (GetId CUnblock). by settle (wait s) (count s - 1).
  - destruct k; [one_move Ht (Block (fid s))|one_move Ht (Wake (fid s))]; by settle (wait s) (count s).
  - assert (wait (goto t (CasId k new) (set_waits (<[new := 0]> (waits s)) s)) = wait s) as Ew
      by (unfold wait; simpl; by rewrite lookup_insert_ne by congruence).
    destruct k; [one_move Ht (CasId CBlock new)|one_move Ht (CasId CUnblock new)]; by settle (wait s) (count s).
  - destruct (H2 t k new Ht) as (E & _).
    assert (wait (goto t (after_id k new) (set_fid new s)) = wait s) as Ew
      by (unfold wait; simpl; by rewrite E, Hf, H5).
    destruct k; [one_move Ht (Block new)|one_move Ht (Wake new)]; by settle (wait s) (count s).
  - destruct (H2 t k new Ht) as (E & Hne & _).
    assert (wait (goto t (after_id k (fid s)) (set_waits (delete new (waits s)) s)) = wait s) as Ew
      by (unfold wait; simpl; by rewrite lookup_delete_ne).
    destruct k; [one_move Ht (Block (fid s))|one_move Ht (Wake (fid s))]; by settle (wait s) (count s).
  - destruct (H1 t _ i Ht eq_refl) as [Ei _]. pose proof (wait_word s i w Ei Hw) as Ew0.
    pose proof (wait_set s i (w + 1) (Sleepy i) t Ei) as Ew.
    one_move Ht (Sleepy i). by settle (w + 1) (count s).
  - destruct (H1 t _ i Ht eq_refl) as [Ei _]. pose proof (wait_word s i w Ei Hw) as Ew0.
    pose proof (wait_set s i (w + 1) Owner t Ei) as Ew.
    one_move Ht Owner. by settle (w + 1) (count s).
  - one_move Ht (Asleep i). by settle (wait s) (count s).
  - destruct (H1 t _ i Ht eq_refl) as [Ei _]. pose proof (wait_word s i w Ei Hw) as Ew0.
    pose proof (wait_set s i (w - 1) Idle t Ei) as Ew1. set (s1 := goto t Idle _) in *.
    assert (at_pc s1 u (Asleep i)) as Hu'.
    { unfold at_pc, s1. simpl. rewrite list_lookup_insert_ne; [done|]. intros ->. unfold at_pc in *. congruence. }
    pose proof (moved s s1 t _ Idle Ht eq_refl) as M1. pose proof (counts_pos _ _ _ Ht).
    assert (count s1 = count s) as Ec1 by done.
    assert (wait (goto u Owner s1) = w - 1) as Ew by done. clearbody s1.
    pose proof (queued_sleeping s1).
    cbn [is_owner is_queued is_waking is_sleeping Z.b2z] in M1, H.
    one_move Hu' Owner. by settle (w - 1) (count s).
  - destruct (H1 t _ i Ht eq_refl) as [Ei _]. pose proof (wait_word s i w Ei Hw) as Ew0.
    pose proof (wait_set s i (w - 1) Idle t Ei) as Ew.
    one_move Ht Idle. by settle (w - 1) (count s).
Qed.

Lemma init_inv n : finv (futex_init n).
Proof.
  assert (∀ t p, at_pc (futex_init n) t p → p = Idle) as Hp.
  { intros t p H. apply list_elem_of_lookup_2, list_elem_of_In, repeat_spec in H. done. }
  assert (∀ f, f Idle = false → num f (pcs (futex_init n)) = 0) as Hn
    by (intros f Hf; by apply num_repeat_idle).
  assert (wait (futex_init n) = 0) as Hw by done.
  split.
  - constructor; try done.
    + intros t p i H%Hp. by subst.
    + intros t k m H%Hp. done.
    + intros t u k l m j _ H%Hp. done.
  - unfold owners, queued. by rewrite !Hn.
  - left. unfold tokens, owners, waking. rewrite Hw, !Hn by done. done.
Qed.

Lemma fsteps_inv s s' : finv s → fsteps s s' → finv s' ∧ (stuck s → stuck s').
Proof.
  intros Hs H. induction H as [|s1 s2 s3 [t Ht] _ IH]; [done|].
  destruct (fstep_inv t _ _ Hs Ht) as [H1 H2]. destruct (IH H1) as [H3 H4]. auto.
Qed.

(** C11: Mutual exclusion.  However the threads interleave their atomic operations, in
    the lock, in the race to make its id and in the kernel, at most one of them holds
    the lock. *)
Theorem mutual_exclusion n s t u :
  fsteps (futex_init n) s → at_pc s t Owner → at_pc s u Owner → t = u.
Proof.
  intros H Ht Hu. destruct (fsteps_inv _ _ (init_inv n) H) as [[_ _ Hk] _].
  destruct (decide (t = u)) as [|Hne]; [done|].
  pose proof (num_two is_owner _ _ _ _ _ Ht Hu eq_refl eq_refl Hne).
  pose proof (num_nonneg is_waking (pcs s)). unfold tok_ok, tokens, owners, waking in *. lia.
Qed.

(** Thread 1 is counted as a sleeper, thread 0 releases the lock before it is queued. *)
Definition lost : futex := mkFutex 1 7 {[ 7 := 0 ]} [Idle; Sleepy 7].

Lemma lost_reached : fsteps (futex_init 2) lost.
Proof.
  eapply rtc_l; [exists 0%nat; left; apply lock_free; [done|simpl; lia]|].
  eapply rtc_l; [exists 1%nat; left; apply lock_held; [done|simpl; lia]|].
  eapply rtc_l; [exists 1%nat; left; by apply (id_new 1 _ CBlock 7)|].
  eapply rtc_l; [exists 1%nat; left; by apply (id_won 1 _ CBlock 7)|].
  eapply rtc_l; [exists 1%nat; right; by eapply (block_sleep 1 _ 7 0)|].
  eapply rtc_l; [exists 0%nat; left; apply unlock_next; [done|simpl; lia]|].
  eapply rtc_l; [exists 0%nat; left; by apply (id_load 0 _ CUnblock)|].
  eapply rtc_l; [exists 0%nat; right; eapply (wake_none 0 _ 7 1); [done|done|]|].
  { intros [|[|u]] Hu; vm_compute in Hu; congruence. }
  apply rtc_refl.
Qed.

(** C40: A wake-up can be lost.  [KFutex::block] counts itself as a sleeper before it takes
    the lock of the futex, and [unblock] uses up that count also when the sleeper is not
    in the queue yet.  Two threads suffice: a state can be reached from which, whatever
    happens, no thread ever gets the lock again. *)
Theorem lost_wakeup :
  ∃ s, fsteps (futex_init 2) s ∧ ∀ s', fsteps s s' → ∀ t, ¬ at_pc s' t Owner.
Proof.
  exists lost. split; [exact lost_reached|]. intros s' H t Ht.
  destruct (fsteps_inv _ _ (init_inv 2) lost_reached) as [Hl _].
  destruct (fsteps_inv _ _ Hl H) as [_ Hs]. destruct Hs as [H0 _].
  { split; reflexivity || (vm_compute; congruence). }
  destruct (counts_pos _ _ _ Ht) as (P & _). pose proof (num_nonneg is_waking (pcs s')).
  unfold tokens, owners, waking in *. simpl in P. lia.
Qed.

Lemma mutual_exclusion_witness :
  let s := mkFutex 1 no_id ∅ [Owner; Idle] in
  fsteps (futex_init 2) s ∧ (at_pc s 0 Owner → at_pc s 0 Owner → 0%nat = 0%nat).
Proof.
  assert (fsteps (futex_init 2) (mkFutex 1 no_id ∅ [Owner; Idle])) as H.
  { eapply rtc_l; [exists 0%nat; left; apply lock_free; [done|simpl; lia]|]. apply rtc_refl. }
  split; [exact H|]. exact (mutual_exclusion 2 _ 0 0 H).
Defined.
