(* ===== verification/CpuMarker.v ===== *)
(** * Marks per processor: [kernel/src/util/cpu_marker.rs]

    A process marks the processors that run it.  The iterator over the marks
    counts from the slice it is in the middle of, so past the first mark its
    answers and its own position are relative numbers: [iter_stuck] shows that
    it can give the same processor for ever. *)

From S2P Require Import Prelude.

(** [config.rs] *)
Definition MAX_CPUS : nat := 16.

(** The processor that runs the code. *)
Class Cpu := prid : nat.

Record CpuMarker := mkMarker { marks : list bool }.

Definition marker_new : CpuMarker := mkMarker (replicate MAX_CPUS false).

(** [self.marks.lock()[prid()] = mark]: panics out of bounds. *)
Definition marker_set `{Cpu} (self : CpuMarker) (mark : bool) : res CpuMarker :=
  match marks self !! prid with
  | Some _ => Ret (mkMarker (<[prid := mark]> (marks self)))
  | None => Panic
  end.

Definition mark `{Cpu} (self : CpuMarker) : res CpuMarker := marker_set self true.
Definition unmark `{Cpu} (self : CpuMarker) : res CpuMarker := marker_set self false.

Record CpuMarkerIter := mkIter { it_marks : list bool; it_index : nat }.

Definition marker_iter (self : CpuMarker) : CpuMarkerIter := mkIter (marks self) 0.

(** [marks.map(|_| 0)] builds a new array and drops it: nothing is cleared. *)
Definition iter_clear (self : CpuMarker) : CpuMarkerIter * CpuMarker := (marker_iter self, self).

(** The position of the first mark. *)
Fixpoint first_mark (l : list bool) : option nat :=
  match l with
  | [] => None
  | true :: _ => Some 0%nat
  | false :: l => S <$> first_mark l
  end.

(** [for (i, elem) in self.marks[self.index..].iter().enumerate()]: slicing
    panics past the end. *)
Definition marker_next (it : CpuMarkerIter) : res (option nat * CpuMarkerIter) :=
  if (length (it_marks it) <? it_index it)%nat then Panic else
  match first_mark (drop (it_index it) (it_marks it)) with
  | Some i => Ret (Some i, mkIter (it_marks it) (S i))
  | None => Ret (None, it)
  end.

(** The first [n] answers. *)
Fixpoint answers (n : nat) (it : CpuMarkerIter) : res (list nat) :=
  match n with
  | O => Ret []
  | S n =>
      '(o, it) ← marker_next it;
      match o with Some i => l ← answers n it; Ret (i :: l) | None => Ret [] end
  end.

Lemma first_mark_Some l i : first_mark l = Some i → l !! i = Some true.
Proof.
  revert i. induction l as [|[] l IH]; intros i; simpl; [done|by intros [= <-]|].
  destruct (first_mark l) as [j|]; simpl; [|done]. intros [= <-]. by apply IH.
Qed.

Lemma first_mark_None l : first_mark l = None → ∀ i, l !! i ≠ Some true.
Proof.
  induction l as [|[] l IH]; simpl; [done|done|].
  destruct (first_mark l); [done|]. intros _ [|i]; [done|]. by apply IH.
Qed.

(** One mark is found, and then the end, wherever the mark is. *)
Lemma single_mark_ok l i :
  l !! i = Some true → (∀ j, l !! j = Some true → j = i) →
  answers 2 (mkIter l 0) = Ret [i].
Proof.
  intros Hi Hone. cbn [answers]. unfold marker_next. cbn [it_marks it_index]. rewrite drop_0.
  replace (length l <? 0)%nat with false by (symmetry; by apply Nat.ltb_ge, Nat.le_0_l).
  destruct (first_mark l) as [j|] eqn:E; [|by destruct (first_mark_None l E i)].
  apply first_mark_Some in E as Hj. apply Hone in Hj as ->. cbn [mbind res_bind answers]. unfold marker_next. cbn [it_marks it_index].
  apply lookup_lt_Some in Hi as Hlt.
  replace (length l <? S i)%nat with false by (symmetry; apply Nat.ltb_ge; lia).
  destruct (first_mark (drop (S i) l)) as [j|] eqn:E'; [|done].
  apply first_mark_Some in E'. rewrite lookup_drop in E'. apply Hone in E'. lia.
Qed.

(** From the first two processors the iterator goes back to the first for ever, and never
    gives the second. *)
Lemma next_again l i :
  (i < 2)%nat → marker_next (mkIter (true :: true :: l) i) = Ret (Some 0%nat, mkIter (true :: true :: l) 1).
Proof.
  intros Hi. unfold marker_next. cbn [it_marks it_index].
  replace (length (true :: true :: l) <? i)%nat with false by (symmetry; apply Nat.ltb_ge; cbn [length]; lia).
  by destruct i as [|[|]]; [..|lia].
Qed.

Lemma iter_stuck l n : answers n (marker_iter (mkMarker (true :: true :: l))) = Ret (replicate n 0%nat).
Proof.
  assert (∀ i, (i < 2)%nat → answers n (mkIter (true :: true :: l) i) = Ret (replicate n 0%nat)) as Ha.
  { induction n as [|n IH]; intros i Hi; [done|]. cbn [answers]. rewrite next_again by done.
    cbn [mbind res_bind]. by rewrite IH by lia. }
  apply Ha. lia.
Qed.
