(* ===== verification/Thread.v ===== *)
(** * Threads: [kernel/src/sched/thread.rs], the registers of [kernel/src/sched/mod.rs]

    What a thread is made of: the register block the interrupt handlers restore,
    its stacks, its state.  [new_thread_ring] shows that the registers a thread
    starts with put every thread of a process that is not the kernel in ring 3, on
    a stack of its own, and give the ports to the I/O privileged ones only. *)

From Stdlib Require Import String.
From S2P Require Import Prelude Misc Sys Ranges Buddy PageTable VirtLayout VirtMapper.

(** ** Stacks *)
Inductive Stack :=
  | SUser (r : range)
  | SKernel (m : Allocation)
  | SKernelNoAlloc (r : range).

Definition DEFAULT_SIZE : Z := PAGE_SIZE * 32.
Definition DEFAULT_KERNEL_SIZE : Z := PAGE_SIZE * 16.

(** [config.rs]: pages of a message buffer. *)
Definition MSG_BUF_LEN : Z := 1.

Section stack.
Context {B : Build} {AD : Addresses} {W : Type} {PM : PhysMem W} {FA : FrameAllocator W}.
Context (MAX_MAP_ADDR : Z).

(** A page that is not mapped, then the stack. *)
Definition user_new (fuel : nat) (size : Z) : VM (Err + Stack) :=
  e1 ← on_w (elem_new PAGE_SIZE MF_NONE);
  match e1 with
  | None => mret (inl (mkErr "out of memory"%string))
  | Some e1 =>
      e2 ← on_w (elem_new size (Z.lor (Z.lor MF_READ MF_WRITE) MF_USER));
      match e2 with
      | None => mret (inl (mkErr "Out of memory"%string))
      | Some e2 =>
          r ← VirtMapper.map MAX_MAP_ADDR fuel (vl_from [e1; e2] Protected);
          match r with
          | inl _ => mret (inl (mkErr "could not map stack in memory"%string))
          | inr v => mret (inr (SUser v))
          end
      end
  end.

Definition kernel_new (size : Z) : VM (Err + Stack) :=
  m ← on_w (zm_alloc size);
  match m with
  | None => mret (inl (mkErr "Out of mem"%string))
  | Some m => mret (inr (SKernel m))
  end.

Definition no_alloc_new (r : range) : Stack := SKernelNoAlloc r.

(** The layout [unmap] gives back is freed, and freed again when it is dropped. *)
Definition stack_dealloc (fuel : nat) (self : Stack) : VM () :=
  match self with
  | SUser v =>
      r ← VirtMapper.unmap fuel v Protected;
      match r with
      | inl _ => lift Panic
      | inr l => on_w (vl_dealloc l);; on_w (vl_drop l)
      end
  | SKernel m => on_w (λ w, w ← zm_dealloc m w; Ret ((), w))
  | SKernelNoAlloc _ => mret ()
  end.

(** ** Message buffers *)
Definition MSG_BUF_SIZE : Z := MSG_BUF_LEN * PAGE_SIZE.
Record MsgBuf := mkMsgBuf { mb_mem : Allocation; mb_vrange : range }.

Definition msgbuf_new (fuel : nat) : VM (option MsgBuf) :=
  m ← on_w (zm_alloc MSG_BUF_SIZE);
  match m with
  | None => mret None
  | Some mem =>
      e ← lift (elem_from_mem mem MSG_BUF_SIZE (Z.lor (Z.lor (Z.lor MF_USER MF_READ) MF_WRITE) MF_EXACT_SIZE));
      r ← VirtMapper.map MAX_MAP_ADDR fuel (vl_from [e] Protected);
      match r with
      | inl _ => mret None
      | inr v => mret (Some (mkMsgBuf mem v))
      end
  end.

(** A buffer of another address space panics. *)
Definition msgbuf_dealloc (fuel : nat) (self : MsgBuf) : VM () :=
  r ← VirtMapper.unmap fuel (mb_vrange self) Protected;
  match r with
  | inl _ => lift Panic
  | inr l => on_w (vl_dealloc l);; on_w (vl_drop l)
  end.
End stack.

Section stack_range.
Context {B : Build}.

Definition bottom (self : Stack) : res Z :=
  match self with
  | SUser v => uadd (r_addr v) PAGE_SIZE
  | SKernel m => Ret (m_addr m)
  | SKernelNoAlloc v => Ret (r_addr v)
  end.

Definition stack_size (self : Stack) : res Z :=
  match self with
  | SUser v => usub (r_size v) PAGE_SIZE
  | SKernel m => Ret (m_len m)
  | SKernelNoAlloc v => Ret (r_size v)
  end.

Definition top (self : Stack) : res Z :=
  b ← bottom self; n ← stack_size self; uadd b n.
End stack_range.

(** ** Registers *)
Record Registers := mkRegs {
  rax : Z; rbx : Z; rcx : Z; rdx : Z; rbp : Z; rsp : Z; call_rsp : Z; call_save_rsp : Z;
  rdi : Z; rsi : Z; r8 : Z; r9 : Z; r10 : Z; r11 : Z; r12 : Z; r13 : Z; r14 : Z; r15 : Z;
  rflags : Z; rip : Z; cs : Z; ss : Z;
}.

Definition regs_new (rflags cs ss : Z) : Registers :=
  mkRegs 0 0 0 0 0 0 0 0 0 0 0 0 0 0 0 0 0 0 rflags 0 cs ss.

Definition regs_zero : Registers := regs_new 0 0 0.

Definition with_rip (i : Z) (r : Registers) : Registers :=
  mkRegs (rax r) (rbx r) (rcx r) (rdx r) (rbp r) (rsp r) (call_rsp r) (call_save_rsp r) (rdi r) (rsi r)
    (r8 r) (r9 r) (r10 r) (r11 r) (r12 r) (r13 r) (r14 r) (r15 r) (rflags r) i (cs r) (ss r).
Definition with_stack (sp bp : Z) (r : Registers) : Registers :=
  mkRegs (rax r) (rbx r) (rcx r) (rdx r) bp sp (call_rsp r) (call_save_rsp r) (rdi r) (rsi r)
    (r8 r) (r9 r) (r10 r) (r11 r) (r12 r) (r13 r) (r14 r) (r15 r) (rflags r) (rip r) (cs r) (ss r).
Definition with_call_rsp (p : Z) (r : Registers) : Registers :=
  mkRegs (rax r) (rbx r) (rcx r) (rdx r) (rbp r) (rsp r) p (call_save_rsp r) (rdi r) (rsi r)
    (r8 r) (r9 r) (r10 r) (r11 r) (r12 r) (r13 r) (r14 r) (r15 r) (rflags r) (rip r) (cs r) (ss r).
Definition with_priv (f c s : Z) (r : Registers) : Registers :=
  mkRegs (rax r) (rbx r) (rcx r) (rdx r) (rbp r) (rsp r) (call_rsp r) (call_save_rsp r) (rdi r) (rsi r)
    (r8 r) (r9 r) (r10 r) (r11 r) (r12 r) (r13 r) (r14 r) (r15 r) f (rip r) c s.

Definition from_rip (rip : Z) : Registers := with_rip rip regs_zero.

Definition apply_stack `{Build} (s : Stack) (self : Registers) : res Registers :=
  t ← top s; sp ← usub t 8; Ret (with_stack sp 0 self).

Definition from_stack `{Build} (s : Stack) : res Registers := apply_stack s regs_zero.

Definition apply_priv (plevel : PrivLevel) (self : Registers) : Registers :=
  match plevel with
  | PKernel => with_priv 0x202 0x08 0x10 self
  | PSuperUser => with_priv 0x202 0x23 0x1b self
  | PIOPriv => with_priv 0x3202 0x23 0x1b self
  | PUser _ => with_priv 0x202 0x23 0x1b self
  end.

Definition from_priv (plevel : PrivLevel) : Registers := apply_priv plevel regs_zero.

(** ** Identifiers and states *)

(** [#[derive(Ord)]]: the process first. *)
Definition Tuid : Type := Z * Z.
Definition tuid_new (pid tid : Z) : Tuid := (pid, tid).
Definition tuid_pid (t : Tuid) : Z := t.1.
Definition tuid_tid (t : Tuid) : Z := t.2.

Inductive ThreadState :=
  | Running
  | Ready
  | Idle
  | Destroy
  | Waiting (t : Tuid)
  | Sleep (nsec : Z)
  | Join (t : Tuid)
  | FutexBlock (f : Z)
  | Listening (id : Z).

#[global] Instance ThreadState_dec : EqDecision ThreadState.
Proof. solve_decision. Defined.

Record Thread := mkThread {
  th_process : Z;
  th_tuid : Tuid;
  th_idle : bool;
  th_ref_count : Z;
  th_state : ThreadState;
  th_run_time : Z;
  th_regs : Registers;
  th_stack : Stack;
  th_kstack : option Stack;
}.

Definition default_state (t : Thread) : ThreadState := if th_idle t then Idle else Ready.

Section new.
Context {B : Build} {AD : Addresses} {W : Type} {PM : PhysMem W} {FA : FrameAllocator W}.
Context (MAX_MAP_ADDR : Z).

Definition thread_stacks (fuel : nat) (uid : PrivLevel) (stack_size kstack_size : Z)
    : VM (Err + (Stack * option Stack)) :=
  s ← (match uid with
       | PKernel => kernel_new stack_size
       | _ => user_new MAX_MAP_ADDR fuel stack_size
       end);
  match s with
  | inl e => mret (inl e)
  | inr s =>
      match uid with
      | PKernel => mret (inr (s, None))
      | _ =>
          k ← kernel_new kstack_size;
          match k with inl e => mret (inl e) | inr k => mret (inr (s, Some k)) end
      end
  end.

Definition thread_regs (uid : PrivLevel) (s : Stack) (k : option Stack) (regs : Registers) : res Registers :=
  regs ← (match k with
          | None => Ret regs
          | Some k => t ← top k; p ← usub t 8; Ret (with_call_rsp p regs)
          end);
  apply_stack s (apply_priv uid regs).

(** [process.upgrade()] gave the process with this pid and uid. *)
Definition new_stack_size (fuel : nat) (pid : Z) (uid : PrivLevel) (tid : Z) (regs : Registers)
    (stack_size kstack_size : Z) : VM (Err + Thread) :=
  ss ← thread_stacks fuel uid stack_size kstack_size;
  match ss with
  | inl e => mret (inl e)
  | inr (s, k) =>
      regs ← lift (thread_regs uid s k regs);
      mret (inr (mkThread pid (tuid_new pid tid) false 0 Ready 0 regs s k))
  end.

Definition thread_new (fuel : nat) (pid : Z) (uid : PrivLevel) (tid : Z) (regs : Registers) : VM (Err + Thread) :=
  new_stack_size fuel pid uid tid regs DEFAULT_SIZE DEFAULT_KERNEL_SIZE.

Definition new_idle (pid tid : Z) (regs : Registers) (r : range) : res Thread :=
  let s := no_alloc_new r in
  regs ← apply_stack s (apply_priv PKernel regs);
  Ret (mkThread pid (tuid_new pid tid) true 0 Ready 0 regs s None).

(** The stacks are freed when the thread is dropped, if its process still lives. *)
Definition thread_drop (fuel : nat) (t : Thread) : VM () :=
  stack_dealloc fuel (th_stack t);;
  match th_kstack t with Some k => stack_dealloc fuel k | None => mret () end.
End new.


(** ** Theorems *)

(** The ring a selector asks for, the I/O privilege level and interrupt flag of the flags. *)
Definition rpl (sel : Z) : Z := Z.land sel 3.
Definition iopl (f : Z) : Z := Z.land (Z.shiftr f 12) 3.

Section ring.
Context {B : Build} {AD : Addresses} {W : Type} {PM : PhysMem W} {FA : FrameAllocator W}.
Context (MAX_MAP_ADDR : Z).

Lemma apply_priv_ring uid regs :
  rpl (cs (apply_priv uid regs)) = cpl_n (as_cpu_priv uid) ∧
  rpl (ss (apply_priv uid regs)) = cpl_n (as_cpu_priv uid) ∧
  Z.testbit (rflags (apply_priv uid regs)) 9 = true ∧
  iopl (rflags (apply_priv uid regs)) = (match uid with PIOPriv => 3 | _ => 0 end) ∧
  rip (apply_priv uid regs) = rip regs.
Proof. by destruct uid. Qed.

Lemma apply_stack_inv s regs r :
  apply_stack s regs = Ret r →
  cs r = cs regs ∧ ss r = ss regs ∧ rflags r = rflags regs ∧ rip r = rip regs ∧
  ∃ t, top s = Ret t ∧ usub t 8 = Ret (rsp r).
Proof.
  unfold apply_stack. intros H. dret H. dret H. injection H as <-. simpl.
  split_and!; try done. by exists a.
Qed.

(** A new thread of the kernel runs in ring 0 on its one stack; a thread of any other
    process runs in ring 3 and has a kernel stack for its system calls, whose top the
    registers name; every thread starts at the address asked for, eight bytes below the top
    of its stack, with interrupts on, and only an I/O privileged one may use the ports. *)
Theorem new_thread_ring fuel pid uid tid regs n kn s t s' :
  new_stack_size MAX_MAP_ADDR fuel pid uid tid regs n kn s = Ret (inr t, s') →
  rpl (cs (th_regs t)) = cpl_n (as_cpu_priv uid) ∧
  rpl (ss (th_regs t)) = cpl_n (as_cpu_priv uid) ∧
  Z.testbit (rflags (th_regs t)) 9 = true ∧
  (iopl (rflags (th_regs t)) = 3 ↔ uid = PIOPriv) ∧
  rip (th_regs t) = rip regs ∧
  (∃ a, top (th_stack t) = Ret a ∧ usub a 8 = Ret (rsp (th_regs t))) ∧
  (th_kstack t = None ↔ uid = PKernel) ∧
  th_tuid t = (pid, tid) ∧ th_state t = Ready.
Proof.
  intros H. unfold new_stack_size in H. dret H. destruct a as [e|[st k]]; [done|].
  dret H. rewrite M_ret_eq in H. injection H as <- <-. cbn [th_regs th_stack th_kstack th_tuid th_state].
  assert (k = None ↔ uid = PKernel) as Hk.
  { unfold thread_stacks in E. dret E. destruct a0 as [|st']; [done|].
    destruct uid; [by injection E as _ <- _| | |]; dret E; destruct a0; try done;
      by injection E as _ <- _. }
  unfold lift in E0. dret E0. injection E0 as <- <-.
  unfold thread_regs in E1. dret E1. apply apply_stack_inv in E1 as (Hc & Hs & Hf & Hi & Ht).
  rewrite Hc, Hs, Hf, Hi. destruct (apply_priv_ring uid a) as (-> & -> & -> & -> & ->).
  split_and!; try done; try by destruct uid.
  destruct k; [dret E0; dret E0; by injection E0 as <-|by injection E0 as ->].
Qed.
End ring.

(** ** A concrete thread *)

#[local] Existing Instance dev.

(** Frames and memory from one counter. *)
#[local] Instance BumpMem : PhysMem Z := {
  zm_alloc n w := Ret (Some (mkAlloc w n 0), w + n);
  zm_dealloc _ w := Ret w;
}.

Definition demo_new : res ((Err + Thread) * VirtMapper (W:=Z)) :=
  new_stack_size demo_max 100 4 (PUser 7) 0 (from_rip 0x401000) DEFAULT_SIZE DEFAULT_KERNEL_SIZE demo_mapper.

Definition demo_thread : Thread :=
  match demo_new with
  | Ret (inr t, _) => t
  | _ => mkThread 0 (0, 0) true 0 Ready 0 regs_zero (SKernelNoAlloc (mkRange 0 0)) None
  end.

Lemma new_thread_ring_witness :
  th_idle demo_thread = false ∧
  rpl (cs (th_regs demo_thread)) = cpl_n (as_cpu_priv (PUser 7)).
Proof.
  split; [by vm_compute|].
  destruct demo_new as [[[e|t] s']| | |] eqn:E; try (exfalso; revert E; vm_compute; done).
  assert (demo_thread = t) as -> by (unfold demo_thread; by rewrite E).
  exact (proj1 (new_thread_ring _ _ _ _ _ _ _ _ _ _ _ E)).
Defined.
