(* ===== verification/Int.v ===== *)
(** * Interrupts: [kernel/src/int/idt.rs], [kernel/src/gdt.rs], [kernel/src/kdata.rs]

    The descriptors the processor reads ([GdtEntry], [TssEntry], [IdtEntry]), the
    record each processor keeps behind its [gs] register ([GsData]), the guards that
    give access to it ([IntDisable], [GsRef]), the table of interrupt handlers and the
    handler the assembly stubs call.

    [descriptors_roundtrip]: the processor reads from the descriptors the addresses
    and privileges they were made from.  [guards_safe]: with guards in scopes, at
    most one [GsRef] lives, interrupts are off as long as any guard does, and both
    come back as they were.  [try_cpud_two]: a refused [try_cpud] lets a second one
    live.  [register_spec] and [dispatch_spec]: the handler table as a
    specification of what runs, in which order. *)

From Stdlib Require Import String.
From S2P Require Import Prelude Misc Sys Thread.
#[local] Open Scope string_scope.
#[local] Open Scope Z_scope.

(** ** Vectors *)
Definition PICM_OFFSET : Z := 32.
Definition PICS_OFFSET : Z := 40.

Definition EXC_DOUBLE_FAULT : Z := 8.
Definition EXC_GENERAL_PROTECTION_FAULT : Z := 13.
Definition EXC_PAGE_FAULT : Z := 14.

Definition IRQ_BASE : Z := PICM_OFFSET.
Definition IRQ_TIMER : Z := PICM_OFFSET.
Definition IRQ_KEYBOARD : Z := PICM_OFFSET + 1.
Definition IRQ_SERIAL_PORT_2 : Z := PICM_OFFSET + 3.
Definition IRQ_SERIAL_PORT_1 : Z := PICM_OFFSET + 4.
Definition IRQ_PARALLEL_PORT_2_3 : Z := PICM_OFFSET + 5.
Definition IRQ_FLOPPY_DISK : Z := PICM_OFFSET + 6.
Definition IRQ_PARALLEL_PORT_1 : Z := PICM_OFFSET + 7.
Definition IRQ_CLOCK : Z := PICS_OFFSET.
Definition IRQ_ACPI : Z := PICS_OFFSET + 1.
Definition IRQ_NONE_1 : Z := PICS_OFFSET + 2.
Definition IRQ_NONE_2 : Z := PICS_OFFSET + 3.
Definition IRQ_MOUSE : Z := PICS_OFFSET + 4.
Definition IRQ_CO_PROCESSOR : Z := PICS_OFFSET + 5.
Definition IRQ_PRIMARY_ATA : Z := PICS_OFFSET + 6.
Definition IRQ_SECONDARY_ATA : Z := PICS_OFFSET + 7.

Definition INT_SCHED : Z := 128.
Definition IPI_PROCESS_EXIT : Z := 129.
Definition IPI_PANIC : Z := 130.
Definition SPURIOUS : Z := 0xf0.

Definition MAX_HANDLERS : nat := 4.
Definition IDT_SIZE : nat := 256.

Definition irq_arr : list Z :=
  [IRQ_TIMER; IRQ_KEYBOARD; IRQ_SERIAL_PORT_2; IRQ_SERIAL_PORT_1; IRQ_PARALLEL_PORT_2_3;
   IRQ_FLOPPY_DISK; IRQ_PARALLEL_PORT_1; IRQ_CLOCK; IRQ_ACPI; IRQ_NONE_1; IRQ_NONE_2;
   IRQ_MOUSE; IRQ_CO_PROCESSOR; IRQ_PRIMARY_ATA; IRQ_SECONDARY_ATA].

(** [as u8], [as u16], [as u32]. *)
Definition as_u8 (n : Z) : Z := n mod 2 ^ 8.
Definition as_u16 (n : Z) : Z := n mod 2 ^ 16.
Definition as_u32 (n : Z) : Z := n mod 2 ^ 32.

(** ** The global descriptor table *)
Record GdtEntry := mkGdtEntry {
  g_limit1 : Z; g_base1 : Z; g_base2 : Z; g_access : Z; g_limit2_flags : Z; g_base3 : Z;
}.

Definition gdt_entry_new (base limit access flags : Z) : GdtEntry :=
  mkGdtEntry (as_u16 (get_bits limit (0, 16))) (as_u16 (get_bits base (0, 16)))
    (as_u8 (get_bits base (16, 24))) access
    (Z.lor (as_u8 (get_bits limit (16, 20))) (as_u8 (Z.shiftl (Z.land flags 0xf) 4)))
    (as_u8 (get_bits base (24, 32))).

Definition gdt_null : GdtEntry := gdt_entry_new 0 0 0 0.
Definition kernel_code : GdtEntry := gdt_entry_new 0 0xffffffff 0x9a 0x0a.
Definition kernel_data : GdtEntry := gdt_entry_new 0 0xffffffff 0x92 0x0a.
Definition user_code : GdtEntry := gdt_entry_new 0 0xffffffff 0xfa 0x0a.
Definition user_data : GdtEntry := gdt_entry_new 0 0xffffffff 0xf2 0x0a.

Record Tss := mkTss {
  rsp0 : Z; rsp1 : Z; rsp2 : Z;
  ist1 : Z; ist2 : Z; ist3 : Z; ist4 : Z; ist5 : Z; ist6 : Z; ist7 : Z;
  iomap : Z;
}.

(** Packed: a reserved word of 4 bytes, three stacks, 8 reserved bytes, seven
    stacks, 8 and 2 reserved bytes, 2 for the I/O map. *)
Definition size_of_Tss : Z := 4 + 3 * 8 + 8 + 7 * 8 + 8 + 2 + 2.

Definition tss_new : Tss := mkTss 0 0 0 0 0 0 0 0 0 0 (as_u16 size_of_Tss).

Record TssEntry := mkTssEntry {
  t_limit1 : Z; t_base1 : Z; t_base2 : Z; t_access : Z; t_limit2_flags : Z; t_base3 : Z; t_base4 : Z;
}.

(** [addr] is the address of the [Tss] the reference points to. *)
Definition tss_entry_new (addr : Z) : TssEntry :=
  mkTssEntry (as_u16 (size_of_Tss - 1)) (as_u16 (get_bits addr (0, 16))) (as_u8 (get_bits addr (16, 24)))
    0x89 0 (as_u8 (get_bits addr (24, 32))) (as_u32 (get_bits addr (32, 64))).

Definition GDT_SIZE : nat := 5.

Record Gdt := mkGdt { gdt_entries : list GdtEntry; gdt_tss : TssEntry }.

Definition gdt_new (tss : Z) : Gdt :=
  mkGdt [gdt_null; kernel_code; kernel_data; user_data; user_code] (tss_entry_new tss).

Definition gdt_set (index : nat) (entry : GdtEntry) (self : Gdt) : Gdt :=
  if (GDT_SIZE <=? index)%nat then self
  else mkGdt (<[index := entry]> (gdt_entries self)) (gdt_tss self).

Definition set_tss (tss_in : TssEntry) (self : Gdt) : Gdt := mkGdt (gdt_entries self) tss_in.

(** ** The interrupt descriptor table *)
Inductive IntHandlerType := Interrupt | Trap.

Definition get_attr_flags (h : IntHandlerType) (ring : CPUPrivLevel) : Z :=
  match h with
  | Interrupt => Z.lor (Z.lor 0x80 (as_u8 (Z.shiftl (cpl_n ring) 5))) 0xe
  | Trap => Z.lor (Z.lor 0x80 (as_u8 (Z.shiftl (cpl_n ring) 5))) 0xf
  end.

Record IdtEntry := mkIdtEntry {
  i_addr1 : Z; i_code_selector : Z; i_ist : Z; i_attr : Z; i_addr2 : Z; i_addr3 : Z;
}.

Definition idt_entry_new (addr : Z) (htype : IntHandlerType) (ring : CPUPrivLevel) : IdtEntry :=
  mkIdtEntry (as_u16 (get_bits addr (0, 16))) 8 0 (get_attr_flags htype ring)
    (as_u16 (get_bits addr (16, 32))) (as_u32 (get_bits addr (32, 64))).

Definition idt_entry_none : IdtEntry := mkIdtEntry 0 0 0 0 0 0.

(** The functions of type [IntHandlerFunc] in the kernel: those of [sched], [main.rs],
    [time/pit.rs], and the closure of [LocalApic::init_timer]. *)
Inductive IntHandlerFunc :=
  | time_handler | int_handler | ipi_process_exit_handler
  | page_fault | double_fault | gp_exception | ipi_panic
  | timer_irq_handler | one_shot_handler | lapic_tick.

#[global] Instance IntHandlerFunc_dec : EqDecision IntHandlerFunc.
Proof. solve_decision. Defined.

Record Idt := mkIdt {
  idt_entries : list IdtEntry;
  handlers : list (list (option IntHandlerFunc));
  handler_override : list (option IntHandlerFunc);
}.

Definition idt_new : Idt :=
  mkIdt (replicate IDT_SIZE idt_entry_none) (replicate IDT_SIZE (replicate MAX_HANDLERS None))
    (replicate IDT_SIZE None).

(** ** The record of a processor *)
Record LocalApic := mkLapic { la_addr : Z; la_elapsed_time : Z; la_count : Z }.

Record GsData := mkGs {
  gs_call_rsp : Z; gs_call_save_rsp : Z; gs_out_regs : Registers;
  gs_last_time : Z; gs_last_switch_nsec : Z; gs_lapic : option LocalApic;
  gs_gdt : Gdt; gs_tss : Tss; gs_idt : Idt;
  other_alive : bool;
}.

(** [tss] is a local of the function, moved into the record after [Gdt::new] took
    its address, [tmp]. *)
Definition gs_new (tmp : Z) : GsData :=
  mkGs 0 0 regs_zero 0 0 None (gdt_new tmp) tss_new idt_new false.

Definition gs_with_alive (b : bool) (g : GsData) : GsData :=
  mkGs (gs_call_rsp g) (gs_call_save_rsp g) (gs_out_regs g) (gs_last_time g) (gs_last_switch_nsec g)
    (gs_lapic g) (gs_gdt g) (gs_tss g) (gs_idt g) b.
Definition gs_with_idt (i : Idt) (g : GsData) : GsData :=
  mkGs (gs_call_rsp g) (gs_call_save_rsp g) (gs_out_regs g) (gs_last_time g) (gs_last_switch_nsec g)
    (gs_lapic g) (gs_gdt g) (gs_tss g) i (other_alive g).
Definition gs_with_last_time (t : Z) (g : GsData) : GsData :=
  mkGs (gs_call_rsp g) (gs_call_save_rsp g) (gs_out_regs g) t (gs_last_switch_nsec g)
    (gs_lapic g) (gs_gdt g) (gs_tss g) (gs_idt g) (other_alive g).
Definition gs_with_lapic (l : option LocalApic) (g : GsData) : GsData :=
  mkGs (gs_call_rsp g) (gs_call_save_rsp g) (gs_out_regs g) (gs_last_time g) (gs_last_switch_nsec g)
    l (gs_gdt g) (gs_tss g) (gs_idt g) (other_alive g).

(** [tss.rsp0], [call_rsp] and [call_save_rsp]. *)
Definition tss_with_rsp0 (p : Z) (t : Tss) : Tss :=
  mkTss p (rsp1 t) (rsp2 t) (ist1 t) (ist2 t) (ist3 t) (ist4 t) (ist5 t) (ist6 t) (ist7 t) (iomap t).
Definition gs_with_stacks (rsp0 call save : Z) (g : GsData) : GsData :=
  mkGs call save (gs_out_regs g) (gs_last_time g) (gs_last_switch_nsec g)
    (gs_lapic g) (gs_gdt g) (tss_with_rsp0 rsp0 (gs_tss g)) (gs_idt g) (other_alive g).

(** [GsData::lapic], [GsData::set_lapic]. *)
Definition lapic (g : GsData) : res LocalApic := unwrap (gs_lapic g).
Definition set_lapic (l : LocalApic) (g : GsData) : GsData := gs_with_lapic (Some l) g.

(** A processor: its interrupt flag and its record. *)
Record CpuState := mkCpu { int_on : bool; gs : GsData }.
Abbreviation CM := (M CpuState).

Definition cpu_with_int (b : bool) (c : CpuState) : CpuState := mkCpu b (gs c).
Definition cpu_with_gs (g : GsData) (c : CpuState) : CpuState := mkCpu (int_on c) g.

Definition upd (f : CpuState → CpuState) : CM () := λ c, Ret ((), f c).
Definition upd_gs (f : GsData → GsData) : CM () := upd (λ c, cpu_with_gs (f (gs c)) c).
Definition get_gs {A} (f : GsData → A) : CM A := λ c, Ret (f (gs c), c).

Definition cli : CM () := upd (cpu_with_int false).
Definition sti : CM () := upd (cpu_with_int true).
Definition is_int_enabled : CM bool := λ c, Ret (int_on c, c).
Definition set_int_enabled (enabled : bool) : CM () := if enabled then sti else cli.

Record IntDisable := mkIntd { old_status : bool }.

Definition intd_new : CM IntDisable :=
  old ← is_int_enabled; cli;; mret (mkIntd old).
Definition intd_drop (self : IntDisable) : CM () := set_int_enabled (old_status self).

Record GsRef := mkGsRef { intd : IntDisable }.

(** [other_alive.swap(v, _)], [other_alive.store(v, _)]. *)
Definition swap_alive (v : bool) : CM bool :=
  old ← get_gs other_alive; upd_gs (gs_with_alive v);; mret old.

(** [GsRef::drop], then the drop of its field. *)
Definition gsref_drop (self : GsRef) : CM () :=
  upd_gs (gs_with_alive false);; intd_drop (intd self).

Definition cpud : CM GsRef :=
  i ← intd_new;
  alive ← swap_alive true;
  if alive : bool then lift Panic else mret (mkGsRef i).

Definition try_cpud : CM (option GsRef) :=
  i ← intd_new;
  alive ← swap_alive true;
  if alive : bool then gsref_drop (mkGsRef i);; mret None else mret (Some (mkGsRef i)).

Definition force_cpud : CM GsRef :=
  i ← intd_new;
  upd_gs (gs_with_alive true);;
  mret (mkGsRef i).

(** [let cpd = cpud(); body], the reference dropped at the end of the scope. *)
Definition with_cpud {A} (body : CM A) : CM A :=
  r ← cpud; a ← body; gsref_drop r;; mret a.

(** ** Registering handlers *)
Inductive Handler :=
  | First (f : IntHandlerFunc)
  | Normal (f : IntHandlerFunc)
  | Last (f : IntHandlerFunc)
  | Override (f : option IntHandlerFunc).

(** Indexing panics out of bounds. *)
Definition index {A} (l : list A) (i : nat) : res A := unwrap (l !! i).

Definition slot (vec i : nat) (d : Idt) : res (option IntHandlerFunc) :=
  s ← index (handlers d) vec; index s i.
Definition set_slot (vec i : nat) (o : option IntHandlerFunc) (d : Idt) : Idt :=
  mkIdt (idt_entries d) (alter (<[i := o]>) vec (handlers d)) (handler_override d).
Definition set_override (vec : nat) (o : option IntHandlerFunc) (d : Idt) : Idt :=
  mkIdt (idt_entries d) (handlers d) (<[vec := o]> (handler_override d)).

Definition first_position : Err := mkErr "couldn't register int handler for first position".
Definition middle_position : Err := mkErr "couldn't register int handler for middle position".

(** [if handlers[vec][i].is_none() { handlers[vec][i] = Some(func); Ok(()) }]. *)
Definition put_slot (vec i : nat) (f : IntHandlerFunc) (otherwise : CM (Err + ())) : CM (Err + ()) :=
  o ← get_gs (λ g, slot vec i (gs_idt g));
  o ← lift o;
  match o with
  | None => upd_gs (λ g, gs_with_idt (set_slot vec i (Some f) (gs_idt g)) g);; mret (inr ())
  | Some _ => otherwise
  end.

(** [for i in 1..MAX_HANDLERS]. *)
Fixpoint put_normal (n i vec : nat) (f : IntHandlerFunc) : CM (Err + ()) :=
  match n with
  | O => mret (inl middle_position)
  | S n => put_slot vec i f (put_normal n (S i) vec f)
  end.

Definition register (self : Handler) (vec : Z) : CM (Err + ()) :=
  let vec := Z.to_nat vec in
  with_cpud
    (match self with
     | First f => put_slot vec 0 f (mret (inl first_position))
     | Normal f => put_normal (MAX_HANDLERS - 1) 1 vec f
     | Last f => put_slot vec (MAX_HANDLERS - 1) f (mret (inl first_position))
     | Override o =>
         l ← get_gs (λ g, index (handler_override (gs_idt g)) vec); lift l;;
         upd_gs (λ g, gs_with_idt (set_override vec o (gs_idt g)) g);; mret (inr ())
     end).

(** ** Handling an interrupt *)
Definition regs_with_calls (p q : Z) (r : Registers) : Registers :=
  mkRegs (rax r) (rbx r) (rcx r) (rdx r) (rbp r) (rsp r) p q (rdi r) (rsi r)
    (r8 r) (r9 r) (r10 r) (r11 r) (r12 r) (r13 r) (r14 r) (r15 r) (rflags r) (rip r) (cs r) (ss r).

Section handling.
(** The rest of the kernel's state, the registers of the current thread in it
    ([*thread_c().regs.lock() = *regs]), and the handler functions. *)
Context {X : Type}.
Abbreviation KM := (M (CpuState * X)).
Context (save_thread_regs : Registers → X → res X).
Context (call : IntHandlerFunc → Registers → Z → KM (bool * Registers)).

Definition on_cpu {A} (m : CM A) : KM A := λ '(c, x), '(a, c) ← m c; Ret (a, (c, x)).
Definition on_rest (f : X → res X) : KM () := λ '(c, x), x ← f x; Ret ((), (c, x)).

(** [for i in 0..MAX_HANDLERS]. *)
Fixpoint run_slots (n i vec : nat) (change_regs : bool) (regs : Registers) (error_code : Z) : KM (bool * Registers) :=
  match n with
  | O => mret (change_regs, regs)
  | S n =>
      func ← on_cpu (with_cpud (o ← get_gs (λ g, slot vec i (gs_idt g)); lift o));
      match func with
      | Some func =>
          r ← call func regs error_code;
          run_slots n (S i) vec (if (i =? MAX_HANDLERS - 1)%nat then fst r else change_regs) (snd r) error_code
      | None => run_slots n (S i) vec change_regs regs error_code
      end
  end.

Definition rust_int_handler (vec : Z) (regs : Registers) (error_code : Z) : KM (bool * Registers) :=
  let vec := Z.to_nat vec in
  regs ← on_cpu (with_cpud (get_gs (λ g, regs_with_calls (gs_call_rsp g) (gs_call_save_rsp g) regs)));
  on_rest (save_thread_regs regs);;
  handler ← on_cpu (with_cpud (o ← get_gs (λ g, index (handler_override (gs_idt g)) vec); lift o));
  r ← (match handler with
       | Some handler => call handler regs error_code
       | None => run_slots MAX_HANDLERS 0 vec false regs error_code
       end);
  (if fst r : bool
   then on_cpu (with_cpud (upd_gs (gs_with_stacks (call_rsp (snd r)) (call_rsp (snd r)) (call_save_rsp (snd r)))))
   else mret ());;
  mret r.
End handling.

(** [idt::init]: [stub n] is the address of the assembly routine [int_handler_n]. *)
Section init.
Context (stub : Z → Z).

Definition set_entry (n : Z) (e : IdtEntry) (d : Idt) : Idt :=
  mkIdt (<[Z.to_nat n := e]> (idt_entries d)) (handlers d) (handler_override d).

(** [minth!]. *)
Definition minth (n : Z) (htype : IntHandlerType) (ring : CPUPrivLevel) : CM () :=
  with_cpud (l ← get_gs (λ g, index (idt_entries (gs_idt g)) (Z.to_nat n)); lift l;;
             upd_gs (λ g, gs_with_idt (set_entry n (idt_entry_new (stub n) htype ring) (gs_idt g)) g)).

Definition idt_vectors : list Z := seqZ 0 48 ++ [128; 129; 130].

Fixpoint minths (l : list Z) : CM () :=
  match l with [] => mret () | n :: l => minth n Interrupt Ring0;; minths l end.

(** [lidt] follows. *)
Definition idt_init : CM () := minths idt_vectors;; with_cpud (mret ()).
End init.

(** ** Theorems *)

(** What the processor reads from the descriptors. *)
Definition gdt_base (e : GdtEntry) : Z := g_base1 e + 2 ^ 16 * (g_base2 e + 2 ^ 8 * g_base3 e).
Definition gdt_limit (e : GdtEntry) : Z := g_limit1 e + 2 ^ 16 * (g_limit2_flags e mod 2 ^ 4).
Definition gdt_flags (e : GdtEntry) : Z := g_limit2_flags e / 2 ^ 4.
Definition tss_base (e : TssEntry) : Z :=
  t_base1 e + 2 ^ 16 * (t_base2 e + 2 ^ 8 * (t_base3 e + 2 ^ 8 * t_base4 e)).
Definition idt_offset (e : IdtEntry) : Z := i_addr1 e + 2 ^ 16 * (i_addr2 e + 2 ^ 16 * i_addr3 e).
(** Present, descriptor privilege level, and the type of an access or attribute byte. *)
Definition present (a : Z) : bool := Z.testbit a 7.
Definition dpl (a : Z) : Z := (a / 2 ^ 5) mod 2 ^ 2.
Definition executable (a : Z) : bool := Z.testbit a 3.

Lemma get_bits_part n s w e :
  e = s + w → is_usize n → 0 <= s → 0 < w → e <= 64 → get_bits n (s, e) mod 2 ^ w = (n / 2 ^ s) mod 2 ^ w.
Proof.
  intros -> Hn Hs Hw He. rewrite get_bits_val by (done || lia).
  replace (s + w - s) with w by lia. by rewrite Z.mod_mod by lia.
Qed.

Lemma mod_split a i j :
  0 <= i → 0 <= j → a mod 2 ^ (i + j) = a mod 2 ^ i + 2 ^ i * ((a / 2 ^ i) mod 2 ^ j).
Proof. intros. rewrite Z.pow_add_r by lia. apply Z.rem_mul_r; lia. Qed.

Lemma split_16_8_8 a : 0 <= a < 2 ^ 32 →
  a mod 2 ^ 16 + 2 ^ 16 * ((a / 2 ^ 16) mod 2 ^ 8 + 2 ^ 8 * ((a / 2 ^ 24) mod 2 ^ 8)) = a.
Proof.
  intros Ha. transitivity (a mod 2 ^ (16 + (8 + 8))); [|by apply Z.mod_small].
  rewrite mod_split by lia. rewrite (mod_split (a / 2 ^ 16) 8 8) by lia.
  by rewrite Z.div_div by lia.
Qed.

Lemma low_nibble_flags l f :
  0 <= l < 16 → 0 <= f < 16 →
  Z.lor l (as_u8 (Z.shiftl (Z.land f 0xf) 4)) mod 2 ^ 4 = l ∧ Z.lor l (as_u8 (Z.shiftl (Z.land f 0xf) 4)) / 2 ^ 4 = f.
Proof.
  intros Hl Hf. change 0xf with (Z.ones 4). rewrite Z.land_ones, (Z.mod_small f) by lia.
  unfold as_u8. rewrite Z.shiftl_mul_pow2, (Z.mod_small (f * _)) by lia.
  rewrite Z.lor_comm, <- Z.shiftl_mul_pow2, lor_shiftl_add, Z.add_comm by lia.
  split; [rewrite Z.mod_add by lia; by apply Z.mod_small|].
  rewrite Z.div_add by lia. by rewrite Z.div_small.
Qed.

Section descriptors.
Context (base limit access flags addr : Z) (h : IntHandlerType) (ring : CPUPrivLevel).
Context (Hbase : 0 <= base < 2 ^ 32) (Hlimit : 0 <= limit < 2 ^ 32) (Hflags : 0 <= flags < 16).
Context (Haddr : is_usize addr).

Lemma gdt_entry_read :
  gdt_base (gdt_entry_new base limit access flags) = base ∧
  gdt_limit (gdt_entry_new base limit access flags) = limit mod 2 ^ 20 ∧
  gdt_flags (gdt_entry_new base limit access flags) = flags.
Proof.
  assert (is_usize base ∧ is_usize limit) as [Hb Hl].
  { unfold is_usize. change (2 ^ 32) with 4294967296 in *. lia. }
  unfold gdt_base, gdt_limit, gdt_flags, gdt_entry_new, as_u16.
  cbn [g_base1 g_base2 g_base3 g_limit1 g_limit2_flags].
  assert (as_u8 (get_bits limit (16, 20)) = (limit / 2 ^ 16) mod 2 ^ 4) as ->.
  { unfold as_u8. rewrite get_bits_val by (done || lia). change (20 - 16) with 4.
    pose proof (Z.mod_pos_bound (limit / 2 ^ 16) (2 ^ 4)). apply Z.mod_small. lia. }
  destruct (low_nibble_flags ((limit / 2 ^ 16) mod 2 ^ 4) flags) as [-> ->]; [by apply Z.mod_pos_bound|done|].
  unfold as_u8. rewrite (get_bits_part limit 0 16), (get_bits_part base 0 16), (get_bits_part base 16 8),
    (get_bits_part base 24 8) by (done || lia).
  change (2 ^ 0) with 1. rewrite !Z.div_1_r. split_and!; [by apply split_16_8_8| |done].
  symmetry. apply (mod_split limit 16 4); lia.
Qed.

Lemma tss_entry_read : tss_base (tss_entry_new addr) = addr.
Proof.
  unfold tss_base, tss_entry_new, as_u16, as_u8, as_u32. cbn [t_base1 t_base2 t_base3 t_base4].
  rewrite (get_bits_part addr 0 16), (get_bits_part addr 16 8), (get_bits_part addr 24 8),
    (get_bits_part addr 32 32) by (done || lia).
  change (2 ^ 0) with 1. rewrite Z.div_1_r.
  transitivity (addr mod 2 ^ (16 + (8 + (8 + 32)))); [|by apply Z.mod_small].
  rewrite mod_split by lia. rewrite (mod_split (addr / 2 ^ 16) 8 (8 + 32)) by lia.
  rewrite (mod_split (addr / 2 ^ 16 / 2 ^ 8) 8 32) by lia. by rewrite !Z.div_div by lia.
Qed.

Lemma idt_entry_read : idt_offset (idt_entry_new addr h ring) = addr.
Proof.
  unfold idt_offset, idt_entry_new, as_u16, as_u32. cbn [i_addr1 i_addr2 i_addr3].
  rewrite (get_bits_part addr 0 16), (get_bits_part addr 16 16), (get_bits_part addr 32 32) by (done || lia).
  change (2 ^ 0) with 1. rewrite Z.div_1_r.
  transitivity (addr mod 2 ^ (16 + (16 + 32))); [|by apply Z.mod_small].
  rewrite mod_split by lia. rewrite (mod_split (addr / 2 ^ 16) 16 32) by lia. by rewrite Z.div_div by lia.
Qed.
End descriptors.

(** The processor reads back from the descriptors what they were made from: base, limit
    (its low 20 bits) and flags of a segment, the address of the task state, the address of
    an interrupt routine with its privilege and presence.  The selectors of a privilege
    level name a code and a data segment of that level in the table of [Gdt::new]. *)
Theorem descriptors_roundtrip base limit access flags addr h ring :
  0 <= base < 2 ^ 32 → 0 <= limit < 2 ^ 32 → 0 <= flags < 16 → is_usize addr →
  let g := gdt_entry_new base limit access flags in
  let e := idt_entry_new addr h ring in
  (gdt_base g = base ∧ gdt_limit g = limit mod 2 ^ 20 ∧ gdt_flags g = flags ∧ g_access g = access) ∧
  tss_base (tss_entry_new addr) = addr ∧
  (idt_offset e = addr ∧ present (i_attr e) = true ∧ dpl (i_attr e) = cpl_n ring ∧
   i_code_selector e = get_cs Ring0) ∧
  (∃ c d, gdt_entries (gdt_new addr) !! Z.to_nat (get_cs ring / 8) = Some c ∧
     gdt_entries (gdt_new addr) !! Z.to_nat (get_ds ring / 8) = Some d ∧
     present (g_access c) = true ∧ executable (g_access c) = true ∧ dpl (g_access c) = cpl_n ring ∧
     present (g_access d) = true ∧ executable (g_access d) = false ∧ dpl (g_access d) = cpl_n ring ∧
     rpl (get_cs ring) = cpl_n ring ∧ rpl (get_ds ring) = cpl_n ring).
Proof.
  intros Hb Hl Hf Ha g e. split_and!.
  - by apply gdt_entry_read.
  - by apply gdt_entry_read.
  - by apply gdt_entry_read.
  - done.
  - by apply tss_entry_read.
  - by apply idt_entry_read.
  - by destruct h, ring.
  - by destruct h, ring.
  - done.
  - destruct ring; eexists _, _; split_and!; done.
Qed.

(** The descriptor of the task state that [GsData::new] makes keeps the address of the
    function's local; the [Tss] of the record, which [rust_int_handler] writes to, is elsewhere. *)
Lemma tss_dangles tmp gsdata_addr offset :
  is_usize tmp → tmp ≠ gsdata_addr + offset → tss_base (gdt_tss (gs_gdt (gs_new tmp))) ≠ gsdata_addr + offset.
Proof. intros H Hne. unfold gs_new. cbn [gs_gdt gdt_new gdt_tss]. by rewrite tss_entry_read. Qed.

(** ** Guards *)

(** The guards alive on a processor, the newest first: [IntDisable], [GsRef], and an
    interrupt being handled, which turned interrupts off and will turn them on. *)
Inductive Guard := GInt (i : IntDisable) | GRef (r : GsRef) | GIrq.

Fixpoint refs (l : list Guard) : nat :=
  match l with [] => 0 | GRef _ :: l => S (refs l) | _ :: l => refs l end.

(** What a processor does: make a guard, leave the newest scope, change its record. *)
Inductive guard_step : CpuState * list Guard → CpuState * list Guard → Prop :=
  | step_intd c l i c' : intd_new c = Ret (i, c') → guard_step (c, l) (c', GInt i :: l)
  | step_cpud c l r c' : cpud c = Ret (r, c') → guard_step (c, l) (c', GRef r :: l)
  | step_irq c l : int_on c = true → guard_step (c, l) (cpu_with_int false c, GIrq :: l)
  | step_intd_drop c l i c' : intd_drop i c = Ret ((), c') → guard_step (c, GInt i :: l) (c', l)
  | step_ref_drop c l r c' : gsref_drop r c = Ret ((), c') → guard_step (c, GRef r :: l) (c', l)
  | step_iret c l : guard_step (c, GIrq :: l) (cpu_with_int true c, l)
  | step_data c l f : (∀ g, other_alive (f g) = other_alive g) →
      guard_step (c, l) (cpu_with_gs (f (gs c)) c, l).

(** What the interrupt flag will be when the guards are gone. *)
Fixpoint flag_chain (b0 now : bool) (l : list Guard) : Prop :=
  match l with
  | [] => now = b0
  | GInt i :: l => now = false ∧ flag_chain b0 (old_status i) l
  | GRef r :: l => now = false ∧ flag_chain b0 (old_status (intd r)) l
  | GIrq :: l => now = false ∧ flag_chain b0 true l
  end.

Definition guards_inv (b0 : bool) (s : CpuState * list Guard) : Prop :=
  flag_chain b0 (int_on s.1) s.2 ∧ refs s.2 = Nat.b2n (other_alive (gs s.1)).

Lemma flag_chain_on b0 l : flag_chain b0 true l → l = [] ∧ b0 = true.
Proof. destruct l as [|[]]; simpl; [by intros <-| | |]; by intros []. Qed.

Lemma cpud_spec c : cpud c = if other_alive (gs c) then Panic else
  Ret (mkGsRef (mkIntd (int_on c)), mkCpu false (gs_with_alive true (gs c))).
Proof.
  destruct c as [on [? ? ? ? ? ? ? ? ? []]]; reflexivity.
Qed.

Lemma gsref_drop_spec r c :
  gsref_drop r c = Ret ((), mkCpu (old_status (intd r)) (gs_with_alive false (gs c))).
Proof. destruct r as [[[]]]; reflexivity. Qed.

Lemma intd_drop_spec i c : intd_drop i c = Ret ((), mkCpu (old_status i) (gs c)).
Proof. destruct i as [[]]; reflexivity. Qed.

Lemma guard_step_inv b0 s s' : guard_step s s' → guards_inv b0 s → guards_inv b0 s'.
Proof.
  unfold guards_inv. intros Hs [Hc Hr].
  destruct Hs as [c l i c' E|c l r c' E|c l Hon|c l i c' E|c l r c' E|c l|c l f Hf]; cbn [fst snd] in *.
  - injection E as <- <-. cbn [flag_chain gs int_on]. split; [|done]. by split.
  - rewrite cpud_spec in E. destruct (other_alive (gs c)) eqn:Ha; [done|]. injection E as <- <-.
    cbn [flag_chain gs int_on refs]. split; [by split|]. by rewrite Hr.
  - rewrite Hon in Hc. cbn. by split.
  - rewrite intd_drop_spec in E. injection E as <-. destruct Hc as [_ Hc]. by split.
  - rewrite gsref_drop_spec in E. injection E as <-. destruct Hc as [_ Hc]. split; [done|].
    cbn [refs] in Hr. cbn. destruct (other_alive (gs c)); simpl in Hr; lia.
  - destruct Hc as [_ Hc]. by split.
  - cbn. by rewrite Hf.
Qed.

(** C31: A processor that starts with no guard and makes and drops them in scopes, takes
    interrupts when they are on, and changes the rest of its record, has at most one [GsRef];
    interrupts are off as long as a guard lives, so that no interrupt finds one; [cpud]
    panics exactly where one lives, and otherwise returns; with the last guard gone,
    interrupts are as they were and [cpud] is free again. *)
Theorem guards_safe c c' l :
  other_alive (gs c) = false → rtc guard_step (c, []) (c', l) →
  (refs l <= 1)%nat ∧
  (l ≠ [] → int_on c' = false) ∧
  (cpud c' = Panic ↔ refs l = 1%nat) ∧ (refs l = 0%nat → returns (cpud c') = true) ∧
  (l = [] → int_on c' = int_on c ∧ other_alive (gs c') = false).
Proof.
  intros Ha Hr.
  assert (guards_inv (int_on c) (c', l)) as [Hc Hrefs].
  { eapply (rtc_ind_r (λ s, guards_inv (int_on c) s)); [|..|exact Hr].
    - split; [done|]. cbn [fst snd refs]. by rewrite Ha.
    - intros y z _ Hyz Hy. by eapply guard_step_inv. }
  cbn [fst snd] in *. rewrite Hrefs, cpud_spec. split_and!.
  - destruct (other_alive (gs c')); simpl; lia.
  - intros Hl. destruct l as [|[]]; [done|..]; by destruct Hc.
  - by destruct (other_alive (gs c')).
  - by destruct (other_alive (gs c')).
  - intros ->. split; [done|]. by destruct (other_alive (gs c')).
Qed.

(** A [try_cpud] that finds a [GsRef] alive gives none, and drops the one it made:
    the flag is cleared while the first one lives, and the next [cpud] gives a second. *)
Theorem try_cpud_two c :
  other_alive (gs c) = false →
  ∃ r1 c1 c2 r2 c3, cpud c = Ret (r1, c1) ∧ try_cpud c1 = Ret (None, c2) ∧ cpud c2 = Ret (r2, c3).
Proof.
  intros Ha. destruct c as [on g]. cbn [gs] in Ha.
  eexists _, _, _, _, _. rewrite cpud_spec. cbn [gs]. rewrite Ha. split; [reflexivity|].
  split; reflexivity.
Qed.

Definition demo_cpu : CpuState := mkCpu true (gs_new 0x7000).

Definition demo_ref : GsRef := mkGsRef (mkIntd true).
Definition demo_cpu_ref : CpuState := mkCpu false (gs_with_alive true (gs_new 0x7000)).

Lemma guards_safe_witness : cpud demo_cpu = Ret (demo_ref, demo_cpu_ref) ∧ cpud demo_cpu_ref = Panic.
Proof.
  split; [reflexivity|].
  assert (rtc guard_step (demo_cpu, []) (demo_cpu_ref, [GRef demo_ref])) as Hr.
  { eapply rtc_l; [apply step_cpud; reflexivity|apply rtc_refl]. }
  exact (proj2 (proj1 (proj2 (proj2 (guards_safe demo_cpu demo_cpu_ref [GRef demo_ref] eq_refl Hr)))) eq_refl).
Defined.

Lemma try_cpud_two_witness :
  ∃ r1 c1 c2 r2 c3, cpud demo_cpu = Ret (r1, c1) ∧ try_cpud c1 = Ret (None, c2) ∧ cpud c2 = Ret (r2, c3).
Proof. exact (try_cpud_two demo_cpu eq_refl). Defined.

(** ** The handler table *)

(** Every vector has its slots. *)
Definition idt_ok (d : Idt) : Prop :=
  length (handlers d) = IDT_SIZE ∧ length (handler_override d) = IDT_SIZE ∧ length (idt_entries d) = IDT_SIZE ∧
  Forall (λ s, length s = MAX_HANDLERS) (handlers d).

(** The positions a handler may take, and the handler. *)
Definition positions (h : Handler) : list nat :=
  match h with First _ => [0] | Normal _ => [1; 2; 3] | Last _ => [3] | Override _ => [] end%nat.

(** The handler at a position of a vector. *)
Definition handler_at (d : Idt) (vec i : nat) : option IntHandlerFunc :=
  s ← handlers d !! vec; mjoin (s !! i).

Lemma idt_new_ok : idt_ok idt_new.
Proof. unfold idt_ok. split_and!; try done. apply (bool_decide_unpack _). vm_compute. exact I. Qed.

Lemma slot_ok d vec i :
  idt_ok d → (vec < IDT_SIZE)%nat → (i < MAX_HANDLERS)%nat → slot vec i d = Ret (handler_at d vec i).
Proof.
  intros (Hl & _ & _ & Hs) Hv Hi. unfold slot, handler_at, index.
  destruct (lookup_lt_is_Some_2 (handlers d) vec) as [s Es]; [lia|]. rewrite Es. cbn [unwrap mbind res_bind option_bind].
  rewrite Forall_lookup in Hs. apply Hs in Es.
  destruct (lookup_lt_is_Some_2 s i) as [o Eo]; [lia|]. by rewrite Eo.
Qed.

Lemma set_slot_ok d vec i o : idt_ok d → idt_ok (set_slot vec i o d).
Proof.
  intros (Hl & Ho & He & Hs). unfold idt_ok, set_slot. cbn [handlers handler_override idt_entries].
  rewrite length_alter. split_and!; try done. rewrite Forall_lookup in Hs |- *. intros v s E.
  destruct (decide (v = vec)) as [->|Hne].
  - rewrite list_lookup_alter_eq in E. destruct (handlers d !! vec) as [s'|] eqn:E'; [|done].
    injection E as <-. rewrite length_insert. by eapply Hs.
  - rewrite list_lookup_alter_ne in E by done. by eapply Hs.
Qed.

Lemma handler_at_set d vec i o v j :
  idt_ok d → (vec < IDT_SIZE)%nat → (i < MAX_HANDLERS)%nat →
  handler_at (set_slot vec i o d) v j = if decide (v = vec ∧ j = i) then o else handler_at d v j.
Proof.
  intros (Hl & _ & _ & Hs) Hv Hi. unfold handler_at, set_slot. cbn [handlers].
  destruct (lookup_lt_is_Some_2 (handlers d) vec) as [s Es]; [lia|].
  rewrite Forall_lookup in Hs. apply Hs in Es as Hlen.
  destruct (decide (v = vec)) as [->|Hne].
  - rewrite list_lookup_alter_eq, Es. cbn [fmap option_fmap option_map mbind option_bind].
    destruct (decide (j = i)) as [->|Hj].
    + rewrite list_lookup_insert_eq by lia. by rewrite decide_True.
    + rewrite list_lookup_insert_ne by done. rewrite decide_False by naive_solver. done.
  - rewrite list_lookup_alter_ne by done. rewrite decide_False by naive_solver. done.
Qed.

(** Reading and changing the table with no other [GsRef] alive. *)
Lemma gs_alive_id g : other_alive g = false → gs_with_alive false g = g.
Proof. destruct g; simpl; by intros ->. Qed.

Lemma with_cpud_eq {A} (body : CM A) c a c' :
  other_alive (gs c) = false →
  body (mkCpu false (gs_with_alive true (gs c))) = Ret (a, c') →
  with_cpud body c = Ret (a, mkCpu (int_on c) (gs_with_alive false (gs c'))).
Proof.
  intros Ha Hb. unfold with_cpud. unfold mbind, M_bind. rewrite cpud_spec, Ha. rewrite Hb, gsref_drop_spec.
  reflexivity.
Qed.

Lemma with_cpud_read {A} (f : GsData → res A) c a :
  other_alive (gs c) = false → f (gs_with_alive true (gs c)) = Ret a →
  with_cpud (o ← get_gs f; lift o) c = Ret (a, c).
Proof.
  intros Ha Hf. rewrite (with_cpud_eq _ c a (mkCpu false (gs_with_alive true (gs c)))); [|done|].
  - destruct c as [on []]. simpl in *. by rewrite Ha.
  - unfold mbind, M_bind, get_gs, lift. cbn [gs]. by rewrite Hf.
Qed.

Lemma put_slot_eq vec i f k c :
  idt_ok (gs_idt (gs c)) → (vec < IDT_SIZE)%nat → (i < MAX_HANDLERS)%nat →
  put_slot vec i f k c =
    match handler_at (gs_idt (gs c)) vec i with
    | None => Ret (inr (), cpu_with_gs (gs_with_idt (set_slot vec i (Some f) (gs_idt (gs c))) (gs c)) c)
    | Some _ => k c
    end.
Proof.
  intros Hok Hv Hi. unfold put_slot, get_gs, lift, mbind, M_bind. rewrite (slot_ok _ _ _ Hok Hv Hi).
  cbn [mbind res_bind]. by destruct (handler_at _ _ _).
Qed.

(** The first free position of a list. *)
Definition free_position (d : Idt) (vec : nat) (l : list nat) : option nat :=
  snd <$> list_find (λ i, handler_at d vec i = None) l.

Lemma put_normal_eq vec f c n i :
  idt_ok (gs_idt (gs c)) → (vec < IDT_SIZE)%nat → (i + n <= MAX_HANDLERS)%nat →
  put_normal n i vec f c =
    match free_position (gs_idt (gs c)) vec (seq i n) with
    | Some j => Ret (inr (), cpu_with_gs (gs_with_idt (set_slot vec j (Some f) (gs_idt (gs c))) (gs c)) c)
    | None => Ret (inl middle_position, c)
    end.
Proof.
  intros Hok Hv. revert i. induction n as [|n IH]; intros i Hi; [done|].
  cbn [put_normal]. rewrite put_slot_eq by (done || lia). rewrite IH by lia.
  unfold free_position. cbn [seq list_find].
  destruct (handler_at (gs_idt (gs c)) vec i) eqn:E.
  - rewrite decide_False by congruence. by destruct (list_find _ (seq (S i) n)) as [[]|].
  - by rewrite decide_True by done.
Qed.

Lemma free_position_Some d vec l i :
  free_position d vec l = Some i → NoDup l → i ∈ l ∧ handler_at d vec i = None ∧
  ∃ k, l !! k = Some i ∧ ∀ j m, l !! m = Some j → (m < k)%nat → handler_at d vec j ≠ None.
Proof.
  unfold free_position. destruct (list_find _ l) as [[k j]|] eqn:E; [|done]. intros [= ->] _.
  apply list_find_Some in E as (Hk & Hn & Hb). split_and!; [by eapply list_elem_of_lookup_2|done|].
  exists k. split; [done|]. intros j m Hm Hlt. by eapply Hb.
Qed.

Lemma free_position_None d vec l : free_position d vec l = None → ∀ i, i ∈ l → handler_at d vec i ≠ None.
Proof.
  unfold free_position. destruct (list_find _ l) as [[]|] eqn:E; [done|]. intros _.
  apply list_find_None in E. by rewrite Forall_forall in E.
Qed.

(** What [register] does to a slot, or does not. *)
Definition registered (f : IntHandlerFunc) (ps : list nat) (vec : nat) (d : Idt) (r : Err + ()) (d' : Idt) : Prop :=
  (r = inr () ∧ ∃ i, i ∈ ps ∧ handler_at d vec i = None ∧ (∀ j, j ∈ ps → (j < i)%nat → handler_at d vec j ≠ None) ∧
     (∀ v j, handler_at d' v j = if decide (v = vec ∧ j = i) then Some f else handler_at d v j) ∧
     handler_override d' = handler_override d) ∨
  ((∃ e, r = inl e) ∧ d' = d ∧ ∀ i, i ∈ ps → handler_at d vec i ≠ None).

Lemma put_normal_registered n i vec f c e :
  idt_ok (gs_idt (gs c)) → (vec < IDT_SIZE)%nat → (i + n <= MAX_HANDLERS)%nat →
  put_normal n i vec f c = Ret e →
  ∃ d', e.2 = cpu_with_gs (gs_with_idt d' (gs c)) c ∧ idt_ok d' ∧
    registered f (seq i n) vec (gs_idt (gs c)) e.1 d'.
Proof.
  intros Hok Hv Hi. rewrite put_normal_eq by done.
  destruct (free_position _ _ _) as [j|] eqn:E; intros [= <-]; cbn [fst snd].
  - apply free_position_Some in E as (Hj & Hn & k & Hk & Hb); [|apply NoDup_seq].
    pose proof Hj as Hj'. apply elem_of_seq in Hj'.
    eexists. split; [done|]. split; [by apply set_slot_ok|]. left. split; [done|]. exists j. split_and!; try done.
    + intros m Hm Hlt. apply elem_of_seq in Hm. apply (Hb m (m - i)%nat).
      * apply lookup_seq. lia.
      * apply lookup_seq in Hk. lia.
    + intros. apply handler_at_set; [done..|]. unfold MAX_HANDLERS in *. lia.
  - exists (gs_idt (gs c)). split; [by destruct c as [? []]|]. split; [done|]. right. split_and!; [by eexists|done|].
    by apply free_position_None.
Qed.

Lemma put_slot_registered vec i f err c :
  idt_ok (gs_idt (gs c)) → (vec < IDT_SIZE)%nat → (i < MAX_HANDLERS)%nat →
  ∃ r d', put_slot vec i f (mret (inl err)) c = Ret (r, cpu_with_gs (gs_with_idt d' (gs c)) c) ∧ idt_ok d' ∧
    registered f [i] vec (gs_idt (gs c)) r d'.
Proof.
  intros Hok Hv Hi. rewrite put_slot_eq by done. destruct (handler_at _ vec i) eqn:E.
  - exists (inl err), (gs_idt (gs c)). split; [by destruct c as [? []]|]. split; [done|]. right.
    split_and!; [by eexists|done|]. intros j ->%list_elem_of_singleton. congruence.
  - eexists _, _. split; [done|]. split; [by apply set_slot_ok|]. left. split; [done|]. exists i. split_and!; try done.
    + by apply list_elem_of_singleton.
    + intros j ->%list_elem_of_singleton. lia.
    + intros. by apply handler_at_set.
Qed.

(** Where a handler registered with [h] may go. *)
Definition register_result (h : Handler) (vec : nat) (d : Idt) (r : Err + ()) (d' : Idt) : Prop :=
  match h with
  | First f | Normal f | Last f => registered f (positions h) vec d r d'
  | Override o => r = inr () ∧ d' = set_override vec o d
  end.

Lemma register_body h vec c :
  idt_ok (gs_idt (gs c)) → (vec < IDT_SIZE)%nat →
  ∃ r d',
    (match h with
     | First f => put_slot vec 0 f (mret (inl first_position))
     | Normal f => put_normal (MAX_HANDLERS - 1) 1 vec f
     | Last f => put_slot vec (MAX_HANDLERS - 1) f (mret (inl first_position))
     | Override o =>
         l ← get_gs (λ g, index (handler_override (gs_idt g)) vec); lift l;;
         upd_gs (λ g, gs_with_idt (set_override vec o (gs_idt g)) g);; mret (inr ())
     end) c = Ret (r, cpu_with_gs (gs_with_idt d' (gs c)) c) ∧ idt_ok d' ∧
    register_result h vec (gs_idt (gs c)) r d'.
Proof.
  intros Hok Hv. destruct h as [f|f|f|o].
  - apply put_slot_registered; [done..|unfold MAX_HANDLERS; lia].
  - assert (∃ r, put_normal (MAX_HANDLERS - 1) 1 vec f c = Ret r) as [[r c'] Hr].
    { rewrite put_normal_eq by (done || unfold MAX_HANDLERS; lia). destruct (free_position _ _ _); by eexists. }
    pose proof Hr as Hp; apply put_normal_registered in Hp as (d' & Hc & Hd & Hreg); [|done|done|unfold MAX_HANDLERS; lia].
    cbn [fst snd] in *. subst c'. by exists r, d'.
  - apply put_slot_registered; [done..|unfold MAX_HANDLERS; lia].
  - destruct Hok as (Hl & Ho & He & Hs). unfold get_gs, lift, mbind, M_bind, index.
    destruct (lookup_lt_is_Some_2 (handler_override (gs_idt (gs c))) vec) as [x Hx]; [lia|].
    rewrite Hx. cbn [unwrap mbind res_bind upd_gs upd mret M_ret]. eexists _, _. split; [done|].
    split; [|done]. unfold idt_ok, set_override. cbn [handlers handler_override idt_entries].
    by rewrite length_insert.
Qed.

(** Registering a handler takes the first free position of those its kind may take,
    and changes nothing else of the table; it fails, and changes nothing, exactly when none
    of them is free.  An override always replaces the one before.  The interrupt flag and
    the reference to the record are as they were. *)
Theorem register_spec h vec c :
  idt_ok (gs_idt (gs c)) → other_alive (gs c) = false → 0 <= vec < 256 →
  ∃ r d', register h vec c = Ret (r, cpu_with_gs (gs_with_idt d' (gs c)) c) ∧ idt_ok d' ∧
    register_result h (Z.to_nat vec) (gs_idt (gs c)) r d'.
Proof.
  intros Hok Ha Hv.
  destruct (register_body h (Z.to_nat vec) (mkCpu false (gs_with_alive true (gs c)))) as (r & d' & Hb & Hd & Hr).
  { by destruct c as [? []]. }
  { unfold IDT_SIZE. lia. }
  exists r, d'. split; [|split; [done|by destruct c as [? []]]].
  unfold register. erewrite with_cpud_eq; [|done|exact Hb].
  destruct c as [on []]. cbn in Ha. by rewrite Ha.
Qed.

(** A [Normal] handler can take the last position, and the [Last] one then finds none. *)
Lemma normal_takes_last f g h k c :
  let r := (register (Normal f) IRQ_TIMER;; register (Normal g) IRQ_TIMER;;
            register (Normal h) IRQ_TIMER;; register (Last k) IRQ_TIMER) in
  ∃ c', r (mkCpu c (gs_new 0)) = Ret (inl first_position, c') ∧ handler_at (gs_idt (gs c')) 32 3 = Some h.
Proof. destruct c; eexists; vm_compute; split; reflexivity. Qed.

Lemma register_spec_witness :
  ∃ r d', register (Last time_handler) IRQ_TIMER demo_cpu = Ret (r, cpu_with_gs (gs_with_idt d' (gs demo_cpu)) demo_cpu) ∧
    idt_ok d' ∧ register_result (Last time_handler) 32 (gs_idt (gs demo_cpu)) r d'.
Proof.
  exact (register_spec (Last time_handler) IRQ_TIMER demo_cpu idt_new_ok eq_refl
    (conj (Zle_bool_imp_le 0 IRQ_TIMER eq_refl) (proj1 (Z.ltb_lt IRQ_TIMER 256) eq_refl))).
Defined.

Lemma descriptors_roundtrip_witness : idt_offset (idt_entry_new 0xffffffff80101234 Interrupt Ring0) = 0xffffffff80101234.
Proof.
  refine (proj1 (proj1 (proj2 (proj2 (descriptors_roundtrip 0 0xffffffff 0x9a 0x0a 0xffffffff80101234 Interrupt Ring0 _ _ _ _)))));
    unfold is_usize; lia.
Defined.

(** ** What runs on an interrupt *)
Section dispatch.
Context {X : Type}.
Abbreviation KM := (M (CpuState * X)).
Context (save_thread_regs : Registers → X → res X).
Context (call : IntHandlerFunc → Registers → Z → KM (bool * Registers)).

(** The handlers of a vector in order; the last position's answer is the answer. *)
Fixpoint chain (fs : list (option IntHandlerFunc)) (regs : Registers) (error_code : Z) : KM (bool * Registers) :=
  match fs with
  | [] => mret (false, regs)
  | None :: fs => chain fs regs error_code
  | [Some f] => call f regs error_code
  | Some f :: fs => r ← call f regs error_code; chain fs (snd r) error_code
  end.

Definition take_stacks (r : bool * Registers) (c : CpuState) : CpuState :=
  if fst r
  then cpu_with_gs (gs_with_stacks (call_rsp (snd r)) (call_rsp (snd r)) (call_save_rsp (snd r)) (gs c)) c
  else c.

(** With the registers of the interrupted thread saved, the override or else the chain
    runs; if it changed the registers, its stacks become the processor's. *)
Definition served (l : list (option IntHandlerFunc)) (o : option IntHandlerFunc) (regs : Registers) (error_code : Z)
    : KM (bool * Registers) := λ '(c, x),
  let regs := regs_with_calls (gs_call_rsp (gs c)) (gs_call_save_rsp (gs c)) regs in
  x ← save_thread_regs regs x;
  z ← (match o with Some f => call f regs error_code | None => chain l regs error_code end) (c, x);
  Ret (fst z, (take_stacks (fst z) (fst (snd z)), snd (snd z))).

(** No [GsRef] lives, and the positions of the vector hold these handlers. *)
Definition quiet (vec : nat) (l : list (option IntHandlerFunc)) (c : CpuState) : Prop :=
  other_alive (gs c) = false ∧ handlers (gs_idt (gs c)) !! vec = Some l.

Lemma on_cpu_Ret {A} (m : CM A) c (x : X) a c' : m c = Ret (a, c') → on_cpu m (c, x) = Ret (a, (c', x)).
Proof. unfold on_cpu. by intros ->. Qed.

Lemma finish_eq (m : KM (bool * Registers)) s :
  (∀ r s', m s = Ret (r, s') → other_alive (gs s'.1) = false) →
  (r ← m; (if fst r : bool
     then on_cpu (with_cpud (upd_gs (gs_with_stacks (call_rsp (snd r)) (call_rsp (snd r)) (call_save_rsp (snd r)))))
     else mret ());; mret r) s =
  (z ← m s; Ret (fst z, (take_stacks (fst z) (fst (snd z)), snd (snd z)))).
Proof.
  intros Hm. unfold mbind, M_bind. destruct (m s) as [[[ch r] [c1 x1]]| | |] eqn:E; try done.
  specialize (Hm _ _ eq_refl). cbn [fst snd] in *. destruct ch; [|done]. cbn [res_bind fst snd on_cpu].
  erewrite with_cpud_eq; [|done|reflexivity]. cbn. destruct c1 as [on []]. simpl in *. by rewrite Hm.
Qed.

(** The frame of the handler around what runs. *)
Lemma handler_frame vec o regs e c x :
  other_alive (gs c) = false → handler_override (gs_idt (gs c)) !! Z.to_nat vec = Some o →
  let regs1 := regs_with_calls (gs_call_rsp (gs c)) (gs_call_save_rsp (gs c)) regs in
  let run := match o with Some f => call f regs1 e | None => run_slots call MAX_HANDLERS 0 (Z.to_nat vec) false regs1 e end in
  (∀ x' r s', save_thread_regs regs1 x = Ret x' → run (c, x') = Ret (r, s') → other_alive (gs s'.1) = false) →
  rust_int_handler save_thread_regs call vec regs e (c, x) =
    (x ← save_thread_regs regs1 x;
     z ← run (c, x); Ret (fst z, (take_stacks (fst z) (fst (snd z)), snd (snd z)))).
Proof.
  intros Ha Ho regs1 run Hrun. unfold rust_int_handler.
  assert (with_cpud (get_gs (λ g, regs_with_calls (gs_call_rsp g) (gs_call_save_rsp g) regs)) c = Ret (regs1, c)) as Hr.
  { rewrite (with_cpud_eq _ c regs1 (mkCpu false (gs_with_alive true (gs c)))); [|done|done].
    destruct c as [on []]. simpl in *. by rewrite Ha. }
  rewrite (M_bind_Ret _ _ _ regs1 (c, x)) by by apply on_cpu_Ret.
  destruct (save_thread_regs regs1 x) as [x'| | |] eqn:Es;
    [|by unfold mbind, M_bind, on_rest; rewrite Es..].
  rewrite (M_bind_Ret _ _ _ () (c, x')) by (unfold on_rest; by rewrite Es).
  rewrite (M_bind_Ret _ _ _ o (c, x')) by
    (apply on_cpu_Ret, with_cpud_read; [done|unfold index; cbn; by rewrite Ho]).
  exact (finish_eq run (c, x') (λ r s', Hrun x' r s' eq_refl)).
Qed.

Context (vec : Z) (l : list (option IntHandlerFunc)).
Context (Hlen : length l = MAX_HANDLERS).
Context (Hcall : ∀ f regs e s r s', quiet (Z.to_nat vec) l s.1 → call f regs e s = Ret (r, s') →
  quiet (Z.to_nat vec) l s'.1).

Lemma read_slot i f c :
  quiet (Z.to_nat vec) l c → l !! i = Some f →
  with_cpud (o ← get_gs (λ g, slot (Z.to_nat vec) i (gs_idt g)); lift o) c = Ret (f, c).
Proof.
  intros [Ha Hl] Hi. apply with_cpud_read; [done|]. unfold slot, index.
  replace (gs_idt (gs_with_alive true (gs c))) with (gs_idt (gs c)) by done.
  rewrite Hl. cbn [unwrap mbind res_bind]. by rewrite Hi.
Qed.

Lemma run_slots_chain n i regs e s :
  quiet (Z.to_nat vec) l s.1 → (i + n = MAX_HANDLERS)%nat →
  run_slots call n i (Z.to_nat vec) false regs e s = chain (drop i l) regs e s.
Proof.
  revert i regs s. induction n as [|n IH]; intros i regs [c x] Hq Hi.
  - by rewrite drop_ge by lia.
  - destruct (lookup_lt_is_Some_2 l i) as [f Hf]; [lia|]. rewrite (drop_S _ _ _ Hf).
    cbn [run_slots]. rewrite (M_bind_Ret _ _ _ f (c, x)) by (apply on_cpu_Ret; by apply read_slot).
    destruct f as [f|]; [|rewrite IH by (done || lia); by destruct (drop (S i) l)].
    destruct n as [|n].
    + rewrite (drop_ge l (S i)) by lia. replace (i =? MAX_HANDLERS - 1)%nat with true
        by (symmetry; apply Nat.eqb_eq; lia).
      cbn [chain run_slots]. unfold mbind, M_bind. by destruct (call f regs e (c, x)) as [[[] ?]| | |].
    + destruct (lookup_lt_is_Some_2 l (S i)) as [f' Hf']; [lia|].
      replace (i =? MAX_HANDLERS - 1)%nat with false by (symmetry; apply Nat.eqb_neq; lia).
      destruct (drop (S i) l) as [|o fs] eqn:Ed; [by rewrite (drop_S _ _ _ Hf') in Ed|].
      change (chain (Some f :: o :: fs) regs e) with (r ← call f regs e; chain (o :: fs) (snd r) e).
      unfold mbind, M_bind. destruct (call f regs e (c, x)) as [[r s']| | |] eqn:E; try done.
      rewrite <- Ed. apply IH; [by eapply Hcall|lia].
Qed.

Lemma chain_quiet fs regs e s r s' :
  quiet (Z.to_nat vec) l s.1 → chain fs regs e s = Ret (r, s') → quiet (Z.to_nat vec) l s'.1.
Proof.
  revert regs s. induction fs as [|[f|] fs IH]; intros regs s Hq H; cbn [chain] in H.
  - by injection H as <- <-.
  - destruct fs as [|f' fs]; [by eapply Hcall|]. dret H. eapply IH; [|exact H]. by eapply Hcall.
  - by eapply IH.
Qed.

(** C36: With no [GsRef] alive on the processor, an interrupt runs the vector's override, or
    else the handlers of its four positions in order, each on the registers the one before
    left; only the last position's answer counts; and exactly when it says so, the stacks of
    the registers become those of the processor. *)
Theorem dispatch_spec o regs e c x :
  quiet (Z.to_nat vec) l c → handler_override (gs_idt (gs c)) !! Z.to_nat vec = Some o →
  rust_int_handler save_thread_regs call vec regs e (c, x) = served l o regs e (c, x).
Proof.
  intros Hq Ho. rewrite (handler_frame vec o).
  - unfold served. destruct (save_thread_regs _ x); cbn [mbind res_bind]; try done.
    destruct o; [done|]. by rewrite run_slots_chain by done.
  - by destruct Hq.
  - done.
  - intros x' r s' _ H. destruct o as [f|]; [by eapply Hcall in H as []|].
    rewrite run_slots_chain in H by done. by eapply chain_quiet in H as [].
Qed.
End dispatch.

(** ** A processor with two handlers of the timer *)
Definition demo_slots : list (option IntHandlerFunc) := [Some lapic_tick; None; None; Some time_handler].

Definition demo_timer_cpu : CpuState :=
  mkCpu false (gs_with_idt (set_slot 32 0 (Some lapic_tick) (set_slot 32 3 (Some time_handler) idt_new)) (gs_new 0x7000)).

(** Handlers that write down that they ran; the scheduler's asks for a switch. *)
Definition demo_call (f : IntHandlerFunc) (regs : Registers) (_ : Z) :
    M (CpuState * list IntHandlerFunc) (bool * Registers) :=
  λ '(c, x), Ret ((bool_decide (f = time_handler), regs_with_calls 0x9000 0x9100 regs), (c, (x ++ [f])%list)).

Lemma dispatch_spec_witness :
  ∃ r c', rust_int_handler (λ _, Ret) demo_call IRQ_TIMER regs_zero 0 (demo_timer_cpu, []) =
    Ret ((true, r), (c', [lapic_tick; time_handler])) ∧
  rsp0 (gs_tss (gs c')) = 0x9000.
Proof.
  eexists _, _. rewrite (dispatch_spec (λ _, Ret) demo_call IRQ_TIMER demo_slots eq_refl) with (o:=None).
  - split; reflexivity.
  - intros f regs e [c x] r s' Hq H. injection H as <- <-. exact Hq.
  - split; reflexivity.
  - reflexivity.
Defined.

(** ** The gates [idt::init] installs *)
Section gates.
Context (stub : Z → Z).

Lemma minth_eq n h r c :
  idt_ok (gs_idt (gs c)) → other_alive (gs c) = false → 0 <= n < 256 →
  minth stub n h r c =
    Ret ((), cpu_with_gs (gs_with_idt (set_entry n (idt_entry_new (stub n) h r) (gs_idt (gs c))) (gs c)) c).
Proof.
  intros (_ & _ & He & _) Ha Hn. unfold minth.
  destruct (lookup_lt_is_Some_2 (idt_entries (gs_idt (gs c))) (Z.to_nat n)) as [e Ee]; [unfold IDT_SIZE in *; lia|].
  erewrite with_cpud_eq; [|done|].
  2:{ unfold mbind, M_bind, get_gs, lift, index. cbn [gs gs_idt gs_with_alive]. rewrite Ee. reflexivity. }
  destruct c as [on []]. simpl in *. by rewrite Ha.
Qed.

Lemma set_entry_ok n e d : idt_ok d → idt_ok (set_entry n e d).
Proof. unfold idt_ok, set_entry. cbn [handlers handler_override idt_entries]. by rewrite length_insert. Qed.

(** The gate of each vector after the list is done. *)
Lemma minths_eq l c :
  idt_ok (gs_idt (gs c)) → other_alive (gs c) = false → Forall (λ n, 0 <= n < 256) l →
  ∃ d, minths stub l c = Ret ((), cpu_with_gs (gs_with_idt d (gs c)) c) ∧ idt_ok d ∧
    handlers d = handlers (gs_idt (gs c)) ∧ ∀ n, 0 <= n < 256 → idt_entries d !! Z.to_nat n =
      if decide (n ∈ l) then Some (idt_entry_new (stub n) Interrupt Ring0)
      else idt_entries (gs_idt (gs c)) !! Z.to_nat n.
Proof.
  revert c. induction l as [|m l IH]; intros c Hok Ha Hl.
  - exists (gs_idt (gs c)). split; [by destruct c as [? []]|]. split; [done|]. split; [done|]. intros n _.
    by rewrite decide_False by apply not_elem_of_nil.
  - apply Forall_cons in Hl as [Hm Hl]. cbn [minths]. rewrite (M_bind_Ret _ _ _ _ _ (minth_eq _ _ _ _ Hok Ha Hm)).
    set (d1 := set_entry m _ _). set (c1 := cpu_with_gs _ c).
    destruct (IH c1) as (d & Hd & Hokd & Hhs & Hent); [by apply set_entry_ok|done|done|].
    exists d. split; [exact Hd|]. split; [done|]. split; [exact Hhs|]. intros n Hn. rewrite Hent by done.
    destruct (decide (n ∈ l)) as [Hin|Hin]; [by rewrite decide_True by by apply list_elem_of_further|].
    destruct Hok as (_ & _ & He & _). unfold c1. cbn [gs cpu_with_gs gs_idt gs_with_idt]. unfold d1, set_entry. cbn [idt_entries].
    destruct (decide (n = m)) as [->|Hne].
    + rewrite decide_True by constructor. rewrite list_lookup_insert_eq; [done|unfold IDT_SIZE in He; lia].
    + rewrite list_lookup_insert_ne by lia. rewrite decide_False; [done|]. rewrite elem_of_cons. tauto.
Qed.

(** [idt::init] returns with a present ring 0 gate, to its own routine, for the vectors of the
    exceptions, of the interrupt lines, of the scheduler and of the two interprocessor
    interrupts, and for no other: the vectors of spurious interrupts, [SPURIOUS] and the last one
    of the disabled controllers, have none. *)
Theorem idt_init_gates c :
  gs_idt (gs c) = idt_new → other_alive (gs c) = false →
  ∃ d, idt_init stub c = Ret ((), cpu_with_gs (gs_with_idt d (gs c)) c) ∧
    (∀ n e, 0 <= n < 256 → idt_entries d !! Z.to_nat n = Some e →
       present (i_attr e) = bool_decide (n ∈ idt_vectors) ∧
       (n ∈ idt_vectors → e = idt_entry_new (stub n) Interrupt Ring0)) ∧
    Forall (λ n, n ∈ idt_vectors) (irq_arr ++ [EXC_PAGE_FAULT; INT_SCHED; IPI_PROCESS_EXIT; IPI_PANIC]) ∧
    (SPURIOUS ∉ idt_vectors) ∧ (0xf8 + 7 ∉ idt_vectors).
Proof.
  intros Hi Ha. unfold idt_init.
  destruct (minths_eq idt_vectors c) as (d & Hd & Hok & _ & Hent).
  { rewrite Hi. apply idt_new_ok. }
  { done. }
  { apply (bool_decide_unpack _). vm_compute. exact I. }
  rewrite (M_bind_Ret _ _ _ _ _ Hd). exists d. split_and!.
  - erewrite with_cpud_eq; [|done|reflexivity]. destruct c as [on []]. simpl in *. by rewrite Ha.
  - intros n e Hn He. rewrite Hent, Hi in He by done. destruct (decide (n ∈ idt_vectors)) as [Hin|Hin].
    + injection He as <-. rewrite bool_decide_true by done. by split.
    + rewrite bool_decide_false by done. unfold idt_new in He. cbn [idt_entries] in He.
      apply lookup_replicate in He as [-> _]. by split.
  - apply (bool_decide_unpack _). vm_compute. exact I.
  - apply (bool_decide_unpack _). vm_compute. exact I.
  - apply (bool_decide_unpack _). vm_compute. exact I.
Qed.
End gates.

Lemma idt_init_gates_witness :
  ∃ d, idt_init (λ n, 0x100000 + 32 * n) demo_cpu = Ret ((), cpu_with_gs (gs_with_idt d (gs demo_cpu)) demo_cpu) ∧
    (SPURIOUS ∉ idt_vectors).
Proof.
  destruct (idt_init_gates (λ n, 0x100000 + 32 * n) demo_cpu eq_refl eq_refl) as (d & Hd & _ & _ & Hs & _).
  exists d. exact (conj Hd Hs).
Defined.
