(* ===== verification/Time.v ===== *)
(** * Devices on ports: [kernel/src/int/pic.rs], [kernel/src/time/pit.rs], [kernel/src/config.rs]

    The state the device drivers share ([Dev]), with the accesses made to the
    hardware so far; the interrupt controllers of the PC, and its interval timer.

    What a device answers to a read is a function of the accesses before it
    ([Devices]): the drivers are the code of the repository, the devices are not.

    [one_shot_fires] follows a one shot from the call through the interrupt to the
    callback; [tick_round] shows that processors that all take a tick, in any
    interleaving, advance the time once. *)

From Stdlib Require Import String.
From S2P Require Import Prelude Misc Sys Thread CpuMarker Int.

(** ** Accesses to devices *)
Inductive Io :=
  | Out (port val : Z)
  | In (port : Z)
  | MWrite (addr val : Z)
  | MRead (addr : Z).

(** What the hardware answers after a history of accesses: a port, a register in
    memory, [cpuid]; and whether it has raised the line of the timer. *)
Class Devices := {
  dev_in : list Io → Z → Z;
  dev_read : list Io → Z → Z;
  dev_timer_irq : list Io → bool;
  dev_cpuid : Z → Z * Z * Z * Z;     (* eax, ebx, ecx, edx *)
}.

(** ** State *)
Record Pit := mkPit { p_elapsed_time : Z; p_reset : Z; p_nano_reset : Z; p_lock : bool }.

Definition pit_new : Pit := mkPit 0 0 0 false.

(** [fn() -> ()]: the initial callback, and that of the calibration of the local timer. *)
Inductive Callback := cb_nothing | cb_calibrate_fired.

(** The io apic, as [int/apic/ioapic.rs] keeps it. *)
Record IoApicState := mkIoApic { io_select : Z; io_reg : Z; max_irq_index : Z }.

Record Dev := mkDev {
  d_io : list Io;
  d_pit : Pit;
  d_oneshot : Callback;
  d_use_apic : bool;
  d_cpu_count : Z;
  d_io_apic : IoApicState;
  d_lapic_addr : Z;
  d_bsp_id : Z;
  d_lapic_ids : gmap nat Z;
  d_calibrate_fired : bool;
  d_nanosec_per_tick : Z;
  d_thread_regs : Registers;      (* the saved registers of the current thread *)
}.

Abbreviation KM := (M (CpuState * Dev)).

Definition dev_new : Dev :=
  mkDev [] pit_new cb_nothing true 1 (mkIoApic 0 0 0) 0 0 ∅ false 0 regs_zero.

Definition w_io (v : list Io) (d : Dev) : Dev :=
  mkDev v (d_pit d) (d_oneshot d) (d_use_apic d) (d_cpu_count d) (d_io_apic d) (d_lapic_addr d) (d_bsp_id d)
    (d_lapic_ids d) (d_calibrate_fired d) (d_nanosec_per_tick d) (d_thread_regs d).
Definition w_pit (v : Pit) (d : Dev) : Dev :=
  mkDev (d_io d) v (d_oneshot d) (d_use_apic d) (d_cpu_count d) (d_io_apic d) (d_lapic_addr d) (d_bsp_id d)
    (d_lapic_ids d) (d_calibrate_fired d) (d_nanosec_per_tick d) (d_thread_regs d).
Definition w_oneshot (v : Callback) (d : Dev) : Dev :=
  mkDev (d_io d) (d_pit d) v (d_use_apic d) (d_cpu_count d) (d_io_apic d) (d_lapic_addr d) (d_bsp_id d)
    (d_lapic_ids d) (d_calibrate_fired d) (d_nanosec_per_tick d) (d_thread_regs d).
Definition w_use_apic (v : bool) (d : Dev) : Dev :=
  mkDev (d_io d) (d_pit d) (d_oneshot d) v (d_cpu_count d) (d_io_apic d) (d_lapic_addr d) (d_bsp_id d)
    (d_lapic_ids d) (d_calibrate_fired d) (d_nanosec_per_tick d) (d_thread_regs d).
Definition w_cpu_count (v : Z) (d : Dev) : Dev :=
  mkDev (d_io d) (d_pit d) (d_oneshot d) (d_use_apic d) v (d_io_apic d) (d_lapic_addr d) (d_bsp_id d)
    (d_lapic_ids d) (d_calibrate_fired d) (d_nanosec_per_tick d) (d_thread_regs d).
Definition w_io_apic (v : IoApicState) (d : Dev) : Dev :=
  mkDev (d_io d) (d_pit d) (d_oneshot d) (d_use_apic d) (d_cpu_count d) v (d_lapic_addr d) (d_bsp_id d)
    (d_lapic_ids d) (d_calibrate_fired d) (d_nanosec_per_tick d) (d_thread_regs d).
Definition w_lapic_addr (v : Z) (d : Dev) : Dev :=
  mkDev (d_io d) (d_pit d) (d_oneshot d) (d_use_apic d) (d_cpu_count d) (d_io_apic d) v (d_bsp_id d)
    (d_lapic_ids d) (d_calibrate_fired d) (d_nanosec_per_tick d) (d_thread_regs d).
Definition w_bsp_id (v : Z) (d : Dev) : Dev :=
  mkDev (d_io d) (d_pit d) (d_oneshot d) (d_use_apic d) (d_cpu_count d) (d_io_apic d) (d_lapic_addr d) v
    (d_lapic_ids d) (d_calibrate_fired d) (d_nanosec_per_tick d) (d_thread_regs d).
Definition w_lapic_ids (v : gmap nat Z) (d : Dev) : Dev :=
  mkDev (d_io d) (d_pit d) (d_oneshot d) (d_use_apic d) (d_cpu_count d) (d_io_apic d) (d_lapic_addr d) (d_bsp_id d)
    v (d_calibrate_fired d) (d_nanosec_per_tick d) (d_thread_regs d).
Definition w_calibrate_fired (v : bool) (d : Dev) : Dev :=
  mkDev (d_io d) (d_pit d) (d_oneshot d) (d_use_apic d) (d_cpu_count d) (d_io_apic d) (d_lapic_addr d) (d_bsp_id d)
    (d_lapic_ids d) v (d_nanosec_per_tick d) (d_thread_regs d).
Definition w_nanosec_per_tick (v : Z) (d : Dev) : Dev :=
  mkDev (d_io d) (d_pit d) (d_oneshot d) (d_use_apic d) (d_cpu_count d) (d_io_apic d) (d_lapic_addr d) (d_bsp_id d)
    (d_lapic_ids d) (d_calibrate_fired d) v (d_thread_regs d).
Definition w_thread_regs (v : Registers) (d : Dev) : Dev :=
  mkDev (d_io d) (d_pit d) (d_oneshot d) (d_use_apic d) (d_cpu_count d) (d_io_apic d) (d_lapic_addr d) (d_bsp_id d)
    (d_lapic_ids d) (d_calibrate_fired d) (d_nanosec_per_tick d) v.

Definition on_dev (f : Dev → Dev) : KM () := λ '(c, d), Ret ((), (c, f d)).
Definition of_dev {A} (f : Dev → A) : KM A := λ '(c, d), Ret (f d, (c, d)).

Section ports.
Context {DV : Devices}.

Definition outb (port data : Z) : KM () := on_dev (λ d, w_io (d_io d ++ [Out port data]) d).
Definition inb (port : Z) : KM Z :=
  h ← of_dev d_io; on_dev (w_io (h ++ [In port]));; mret (dev_in h port).

(** ** The interrupt controllers *)
Definition PICM_COMMAND : Z := 0x20.
Definition PICM_DATA : Z := 0x21.
Definition PICS_COMMAND : Z := 0xa0.
Definition PICS_DATA : Z := 0xa1.
Definition PIC_EOI : Z := 0x20.
Definition ICW1_ICW4 : Z := 0x01.
Definition ICW1_INIT : Z := 0x10.
Definition ICW4_8086 : Z := 0x01.
Definition PICM_DISABLE_OFFSET : Z := 0xf8.
Definition PICS_DISABLE_OFFSET : Z := 0xf8.

Definition pic_remap (moffset soffset : Z) : KM () :=
  s1 ← inb PICM_DATA;
  s2 ← inb PICS_DATA;
  outb PICM_COMMAND (Z.lor ICW1_INIT ICW1_ICW4);;
  outb PICS_COMMAND (Z.lor ICW1_INIT ICW1_ICW4);;
  outb PICM_DATA moffset;;
  outb PICS_DATA soffset;;
  outb PICM_DATA 4;;
  outb PICS_DATA 2;;
  outb PICM_DATA ICW4_8086;;
  outb PICS_DATA ICW4_8086;;
  outb PICM_DATA s1;;
  outb PICS_DATA s2.

Definition pic_disable : KM () :=
  pic_remap PICM_DISABLE_OFFSET PICS_DISABLE_OFFSET;;
  outb PICM_DATA 0xff;;
  outb PICS_DATA 0xff.
End ports.

(** ** Configuration *)
Definition use_apic : KM bool := of_dev d_use_apic.
Definition set_use_apic (val : bool) : KM () := on_dev (w_use_apic val).
Definition cpu_count : KM Z := of_dev d_cpu_count.
Definition set_cpu_count (val : Z) : KM () := on_dev (w_cpu_count val).

(** [arch/x64/cpuid.rs] *)
Section cpuid.
Context {DV : Devices}.
Definition has_apic : bool := let '(eax, ebx, ecx, edx) := dev_cpuid 1 in get_bits edx (9, 10) =? 1.
Definition apic_id : Z := let '(eax, ebx, ecx, edx) := dev_cpuid 1 in as_u8 (get_bits ebx (24, 32)).
Definition core_clock_freq : Z := let '(eax, ebx, ecx, edx) := dev_cpuid 0x15 in ecx.

Definition config_init : KM () := set_use_apic has_apic.
End cpuid.

(** Durations in nanoseconds. *)
Definition TIMER_PERIOD : Z := 40 * 1000000.
Definition SCHED_TIME : Z := 10 * 1000000.

(** ** The interval timer *)
Definition PIT_CHANNEL_0 : Z := 0x40.
Definition PIT_COMMAND : Z := 0x43.
Definition NANOSEC_PER_CLOCK : Z := 838.

Section pit.
Context {DV : Devices} {B : Build}.

Definition on_pit (f : Pit → Pit) : KM () := on_dev (λ d, w_pit (f (d_pit d)) d).
Definition of_pit {A} (f : Pit → A) : KM A := of_dev (λ d, f (d_pit d)).

Definition p_with_lock (b : bool) (p : Pit) : Pit := mkPit (p_elapsed_time p) (p_reset p) (p_nano_reset p) b.
Definition p_with_elapsed (t : Z) (p : Pit) : Pit := mkPit t (p_reset p) (p_nano_reset p) (p_lock p).
Definition p_with_reset (r n : Z) (p : Pit) : Pit := mkPit (p_elapsed_time p) r n (p_lock p).

(** [let _lock = self.lock.lock(); body]: a spin lock, which this processor alone can
    free, is waited for without end. *)
Definition with_pit_lock (body : KM ()) : KM () :=
  l ← of_pit p_lock;
  if l : bool then (λ _, NoFuel) : KM ()
  else on_pit (p_with_lock true);; body;; on_pit (p_with_lock false).

Definition set_reset (ticks : Z) : KM () :=
  with_pit_lock
    (outb PIT_COMMAND 0x34;;
     outb PIT_CHANNEL_0 (as_u8 (get_bits ticks (0, 8)));;
     outb PIT_CHANNEL_0 (as_u8 (get_bits ticks (8, 16)));;
     on_pit (p_with_reset ticks (NANOSEC_PER_CLOCK * ticks))).

Definition pit_disable : KM () :=
  with_pit_lock (outb PIT_COMMAND 0x32;; on_pit (p_with_elapsed 0)).

(** [compare_exchange(old, new)]: the value before it when it fails. *)
Definition cas_elapsed (old new : Z) : KM (option Z) :=
  t ← of_pit p_elapsed_time;
  if t =? old then on_pit (p_with_elapsed new);; mret None else mret (Some t).

(** [with_cpud] for code that also reaches the devices. *)
Definition cpd_scope {A} (body : KM A) : KM A :=
  r ← on_cpu cpud; a ← body; on_cpu (gsref_drop r);; mret a.

Definition pit_tick : KM () :=
  t ← of_pit p_elapsed_time;
  n ← of_pit p_nano_reset;
  new_time ← lift (uadd t n);
  cpd_scope
    (last ← on_cpu (get_gs gs_last_time);
     r ← cas_elapsed last new_time;
     on_cpu (upd_gs (gs_with_last_time (match r with None => new_time | Some time => time end)))).

(** [try_into] a [u16]. *)
Definition one_shot (duration : Z) (f : Callback) : KM bool :=
  let ticks := duration mod U64 / NANOSEC_PER_CLOCK in
  if ticks <? 2 ^ 16 then
    r ← on_cpu (register (Override (Some one_shot_handler)) IRQ_TIMER);
    match r with
    | inl _ => lift Panic
    | inr _ => on_dev (w_oneshot f);; set_reset ticks;; mret true
    end
  else mret false.

(** [Pit::nsec_no_latch], [Pit::nsec]. *)
Definition pit_nsec_no_latch : KM Z := of_pit p_elapsed_time.

Definition pit_nsec : KM Z :=
  l ← of_pit p_lock;
  if l : bool then pit_nsec_no_latch else
  on_pit (p_with_lock true);;
  outb PIT_COMMAND 0;;
  low ← inb PIT_CHANNEL_0;
  high ← inb PIT_CHANNEL_0;
  t ← of_pit p_elapsed_time;
  r ← of_pit p_reset;
  n ← lift (d ← usub r (Z.lor (Z.shiftl high 8) low); m ← umul NANOSEC_PER_CLOCK d; uadd t m);
  on_pit (p_with_lock false);;
  mret n.

Definition run_callback (f : Callback) : KM () :=
  match f with cb_nothing => mret () | cb_calibrate_fired => on_dev (w_calibrate_fired true) end.

(** [timer_irq_handler], [one_shot_handler]. *)
Definition run_timer_irq_handler (regs : Registers) : KM (bool * Registers) :=
  pit_tick;; mret (false, regs).

Definition run_one_shot_handler (regs : Registers) : KM (bool * Registers) :=
  pit_disable;;
  r ← on_cpu (register (Override None) IRQ_TIMER);
  match r with
  | inl _ => lift Panic
  | inr _ => f ← of_dev d_oneshot; run_callback f;; mret (false, regs)
  end.

Definition pit_init : KM (Err + ()) :=
  set_reset 0xffff;;
  on_cpu (register (First timer_irq_handler) IRQ_TIMER).

(** The handlers of the timer; [other] stands for those of the scheduler, of the
    faults and of the local timer. *)
Definition call_timer (other : IntHandlerFunc → Registers → Z → KM (bool * Registers))
    (f : IntHandlerFunc) (regs : Registers) (error_code : Z) : KM (bool * Registers) :=
  match f with
  | timer_irq_handler => run_timer_irq_handler regs
  | one_shot_handler => run_one_shot_handler regs
  | _ => other f regs error_code
  end.

(** An interrupt of a vector: the assembly stub around [rust_int_handler] runs with
    interrupts off; the registers of the current thread are saved in its record. *)
Definition interrupt (other : IntHandlerFunc → Registers → Z → KM (bool * Registers))
    (vec : Z) (regs : Registers) (error_code : Z) : KM (bool * Registers) :=
  rust_int_handler (λ r d, Ret (w_thread_regs r d)) (call_timer other) vec regs error_code.
End pit.

(** ** Theorems *)

Definition with_override (vec : Z) (o : option IntHandlerFunc) (c : CpuState) : CpuState :=
  cpu_with_gs (gs_with_idt (set_override (Z.to_nat vec) o (gs_idt (gs c))) (gs c)) c.

Lemma register_override_eq o vec c :
  idt_ok (gs_idt (gs c)) → other_alive (gs c) = false → 0 <= vec < 256 →
  register (Override o) vec c = Ret (inr (), with_override vec o c).
Proof.
  intros Hok Ha Hv. destruct (register_spec (Override o) vec c Hok Ha Hv) as (r & d' & -> & _ & -> & ->). done.
Qed.

Lemma with_override_ok vec o c : idt_ok (gs_idt (gs c)) → idt_ok (gs_idt (gs (with_override vec o c))).
Proof. unfold idt_ok. cbn. by rewrite length_insert. Qed.

Section one_shots.
Context {DV : Devices} {B : Build}.
Context (other : IntHandlerFunc → Registers → Z → KM (bool * Registers)).

Definition reset_words (ticks : Z) : list Io :=
  [Out PIT_COMMAND 0x34; Out PIT_CHANNEL_0 (ticks mod 2 ^ 8); Out PIT_CHANNEL_0 (ticks / 2 ^ 8)].

Definition after_reset (ticks : Z) (d : Dev) : Dev :=
  w_pit (p_with_reset ticks (NANOSEC_PER_CLOCK * ticks) (d_pit d)) (w_io (d_io d ++ reset_words ticks) d).

Definition after_disable (d : Dev) : Dev :=
  w_pit (p_with_elapsed 0 (d_pit d)) (w_io (d_io d ++ [Out PIT_COMMAND 0x32]) d).

Lemma set_reset_eq ticks c d :
  p_lock (d_pit d) = false → 0 <= ticks < 2 ^ 16 → set_reset ticks (c, d) = Ret ((), (c, after_reset ticks d)).
Proof.
  intros Hl Ht. assert (is_usize ticks) as Hu by (unfold is_usize; change (2 ^ 16) with 65536 in Ht; lia).
  assert (as_u8 (get_bits ticks (0, 8)) = ticks mod 2 ^ 8) as E1.
  { unfold as_u8. rewrite (get_bits_part ticks 0 8) by (done || lia). change (2 ^ 0) with 1. by rewrite Z.div_1_r. }
  assert (as_u8 (get_bits ticks (8, 16)) = ticks / 2 ^ 8) as E2.
  { unfold as_u8. rewrite (get_bits_part ticks 8 8) by (done || lia). apply Z.mod_small.
    split; [apply Z.div_pos; lia|apply Z.div_lt_upper_bound; lia]. }
  destruct d as [io [t r n l] ? ? ? ? ? ? ? ? ? ?]. cbn in Hl. subst l.
  unfold set_reset. rewrite E1, E2.
  unfold with_pit_lock, on_pit, of_pit, outb, on_dev, of_dev, mbind, M_bind.
  cbn [d_pit d_io w_pit w_io p_lock p_with_lock p_with_reset p_elapsed_time].
  by rewrite <- !app_assoc.
Qed.

Lemma pit_disable_eq c d : p_lock (d_pit d) = false → pit_disable (c, d) = Ret ((), (c, after_disable d)).
Proof. destruct d as [io [t r n l] ? ? ? ? ? ? ? ? ? ?]. cbn. by intros ->. Qed.

(** Whether a callback sets the flag of the calibration. *)
Definition fires (f : Callback) (d : Dev) : Dev :=
  match f with cb_nothing => d | cb_calibrate_fired => w_calibrate_fired true d end.

Lemma run_callback_eq f c d : run_callback f (c, d) = Ret ((), (c, fires f d)).
Proof. by destruct f. Qed.

Lemma one_shot_eq duration f c d :
  idt_ok (gs_idt (gs c)) → other_alive (gs c) = false → p_lock (d_pit d) = false →
  0 <= duration < U64 → duration / NANOSEC_PER_CLOCK < 2 ^ 16 →
  one_shot duration f (c, d) =
    Ret (true, (with_override IRQ_TIMER (Some one_shot_handler) c,
                after_reset (duration / NANOSEC_PER_CLOCK) (w_oneshot f d))).
Proof.
  intros Hok Ha Hl Hd Ht. unfold one_shot. rewrite Z.mod_small by done.
  rewrite (proj2 (Z.ltb_lt _ _)) by done.
  rewrite (M_bind_Ret _ _ _ (inr ()) (with_override IRQ_TIMER (Some one_shot_handler) c, d))
    by (apply on_cpu_Ret, register_override_eq; done).
  rewrite (M_bind_Ret _ _ _ () (with_override IRQ_TIMER (Some one_shot_handler) c, w_oneshot f d)) by done.
  rewrite (M_bind_Ret _ _ _ _ _ (set_reset_eq (duration / NANOSEC_PER_CLOCK) (with_override IRQ_TIMER (Some one_shot_handler) c) (w_oneshot f d) Hl
    (conj (Z.div_pos _ NANOSEC_PER_CLOCK (proj1 Hd) ltac:(done)) Ht))). done.
Qed.

(** What an interrupt of the timer does while a one shot is pending. *)
Lemma one_shot_interrupt regs e c d :
  idt_ok (gs_idt (gs c)) → other_alive (gs c) = false → p_lock (d_pit d) = false →
  handler_override (gs_idt (gs c)) !! Z.to_nat IRQ_TIMER = Some (Some one_shot_handler) →
  let r := regs_with_calls (gs_call_rsp (gs c)) (gs_call_save_rsp (gs c)) regs in
  rust_int_handler (λ r d, Ret (w_thread_regs r d)) (call_timer other) IRQ_TIMER regs e (c, d) =
    Ret ((false, r), (with_override IRQ_TIMER None c, fires (d_oneshot d) (after_disable (w_thread_regs r d)))).
Proof.
  intros Hok Ha Hl Ho r.
  assert (∀ d, p_lock (d_pit d) = false →
    call_timer other one_shot_handler r e (c, d) =
      Ret ((false, r), (with_override IRQ_TIMER None c, fires (d_oneshot d) (after_disable d)))) as Hrun.
  { intros d' Hl'. unfold call_timer, run_one_shot_handler.
    rewrite (M_bind_Ret _ _ _ _ _ (pit_disable_eq c d' Hl')).
    rewrite (M_bind_Ret _ _ _ (inr ()) (with_override IRQ_TIMER None c, after_disable d'))
      by (apply on_cpu_Ret, register_override_eq; done).
    rewrite (M_bind_Ret _ _ _ (d_oneshot d') (with_override IRQ_TIMER None c, after_disable d')) by done.
    by rewrite (M_bind_Ret _ _ _ _ _ (run_callback_eq _ _ _)). }
  rewrite (handler_frame _ _ _ (Some one_shot_handler)); [|done|done|].
  - rewrite res_bind_ret. fold r. rewrite Hrun by done. done.
  - intros x' r' s' [= <-] H. fold r in H. rewrite Hrun in H by done. by injection H as <- <-.
Qed.

(** A one shot that fits the counter replaces every handler of the timer; the next
    interrupt of the timer stops the counter, gives the handlers back and runs the callback,
    once, on a processor whose table, interrupt flag and record are as before.  One that does
    not fit is refused, and changes nothing. *)
Theorem one_shot_fires duration f regs e c d :
  idt_ok (gs_idt (gs c)) → other_alive (gs c) = false → p_lock (d_pit d) = false → 0 <= duration < U64 →
  (2 ^ 16 <= duration / NANOSEC_PER_CLOCK → one_shot duration f (c, d) = Ret (false, (c, d))) ∧
  (duration / NANOSEC_PER_CLOCK < 2 ^ 16 →
   ∃ c1 d1 r c2 d2, one_shot duration f (c, d) = Ret (true, (c1, d1)) ∧
     rust_int_handler (λ r d, Ret (w_thread_regs r d)) (call_timer other) IRQ_TIMER regs e (c1, d1) =
       Ret ((false, r), (c2, d2)) ∧
     handlers (gs_idt (gs c2)) = handlers (gs_idt (gs c)) ∧
     handler_override (gs_idt (gs c2)) !! Z.to_nat IRQ_TIMER = Some None ∧
     int_on c2 = int_on c ∧ other_alive (gs c2) = false ∧
     d_calibrate_fired d2 = (match f with cb_calibrate_fired => true | cb_nothing => d_calibrate_fired d end) ∧
     p_elapsed_time (d_pit d2) = 0 ∧ p_lock (d_pit d2) = false ∧
     d_io d2 = d_io d ++ reset_words (duration / NANOSEC_PER_CLOCK) ++ [Out PIT_COMMAND 0x32]).
Proof.
  intros Hok Ha Hl Hd. split.
  - intros Ht. unfold one_shot. rewrite Z.mod_small by done. by rewrite (proj2 (Z.ltb_ge _ _)) by done.
  - intros Ht. pose proof (one_shot_eq duration f c d Hok Ha Hl Hd Ht) as H1.
    eexists _, _, _, _, _. split; [exact H1|].
    assert (length (handler_override (gs_idt (gs c))) = IDT_SIZE) as Hlen by by destruct Hok as (_ & ? & _).
    assert (Z.to_nat IRQ_TIMER < length (handler_override (gs_idt (gs c))))%nat as Hin.
    { rewrite Hlen. unfold IDT_SIZE, IRQ_TIMER, PICM_OFFSET. lia. }
    split.
    { apply one_shot_interrupt; [by apply with_override_ok|done|done|]. cbn [with_override gs cpu_with_gs gs_idt
        gs_with_idt set_override handler_override]. by rewrite list_lookup_insert_eq. }
    split_and!; try done.
    + cbn [with_override gs cpu_with_gs gs_idt gs_with_idt set_override handler_override].
      rewrite list_lookup_insert_eq; [done|]. by rewrite length_insert.
    + by destruct f.
    + by destruct f.
    + by destruct f.
    + destruct f; cbn; by rewrite <- app_assoc.
Qed.
End one_shots.

(** ** Ticks on several processors *)

(** The two atomic steps of [Pit::tick]: the load, and the exchange with the time this
    processor saw last. *)
Definition tick_cas (last new elapsed : Z) : Z * Z := if elapsed =? last then (new, new) else (elapsed, elapsed).

Lemma pit_tick_eq {B : Build} c d :
  other_alive (gs c) = false → is_usize (p_elapsed_time (d_pit d) + p_nano_reset (d_pit d)) →
  let p := tick_cas (gs_last_time (gs c)) (p_elapsed_time (d_pit d) + p_nano_reset (d_pit d)) (p_elapsed_time (d_pit d)) in
  pit_tick (c, d) = Ret ((), (cpu_with_gs (gs_with_last_time (snd p) (gs c)) c, w_pit (p_with_elapsed (fst p) (d_pit d)) d)).
Proof.
  intros Ha Hu p. unfold pit_tick, cpd_scope, cas_elapsed, of_pit, of_dev, on_pit, on_dev, on_cpu, lift, mbind, M_bind.
  rewrite uadd_ok by done. cbn [mbind res_bind]. rewrite cpud_spec, Ha. cbn [res_bind mret M_ret get_gs gs gs_with_alive gs_last_time].
  destruct c as [on []], d as [? [] ? ? ? ? ? ? ? ? ? ?]. simpl in *. subst p. unfold tick_cas. subst.
  match goal with |- context [?a =? ?b] => destruct (a =? b) end; rewrite ?gsref_drop_spec; destruct on; reflexivity.
Qed.

Inductive TickPc := TWaiting | TLoaded (new : Z) | TDone.

(** A processor's position and its [last_time]; the time, and the nanoseconds of a tick. *)
Record Ticking := mkTicking { tk_elapsed : Z; tk_cores : list (TickPc * Z) }.

Inductive tick_step (n : Z) : Ticking → Ticking → Prop :=
  | tick_load t cs i last : cs !! i = Some (TWaiting, last) →
      tick_step n (mkTicking t cs) (mkTicking t (<[i := (TLoaded (t + n), last)]> cs))
  | tick_exchange t cs i new last : cs !! i = Some (TLoaded new, last) →
      tick_step n (mkTicking t cs)
        (mkTicking (fst (tick_cas last new t)) (<[i := (TDone, snd (tick_cas last new t))]> cs)).

Definition tick_done (x : TickPc * Z) : Prop := x.1 = TDone.

#[local] Instance tick_done_dec x : Decision (tick_done x).
Proof. destruct x as [[] ?]; unfold tick_done; simpl; [right|right|left]; done. Defined.

(** While the time is [t0], nobody is done; then it is [t0 + n], and those done saw it. *)
Definition tick_inv (n t0 : Z) (s : Ticking) : Prop :=
  (tk_elapsed s = t0 ∧ ∀ i x, tk_cores s !! i = Some x → x.2 = t0 ∧ (x.1 = TWaiting ∨ x.1 = TLoaded (t0 + n))) ∨
  (tk_elapsed s = t0 + n ∧ ∀ i x, tk_cores s !! i = Some x → x.2 = if decide (tick_done x) then t0 + n else t0).

Lemma tick_step_inv n t0 s s' : 0 < n → tick_step n s s' → tick_inv n t0 s → tick_inv n t0 s'.
Proof.
  intros Hn Hs Hinv. destruct Hs as [t cs i last Hi|t cs i new last Hi].
  - destruct Hinv as [[Ht Hc]|[Ht Hc]]; [left|right]; (split; [done|]); cbn [tk_elapsed tk_cores] in *; subst t;
      intros j x Hx; apply list_lookup_insert_Some in Hx as [(-> & <- & _)|[_ Hx]]; try by eapply Hc.
    + split; [by apply Hc in Hi as []|by right].
    + by apply Hc in Hi.
  - cbn [tk_elapsed tk_cores] in *. right. destruct Hinv as [[Ht Hc]|[Ht Hc]]; cbn [tk_elapsed tk_cores] in *; subst t.
    + apply Hc in Hi as Hi'. destruct Hi' as [Hl [?|Hn']]; [done|]. cbn [fst snd] in *. subst last. injection Hn' as ->.
      unfold tick_cas. rewrite Z.eqb_refl. split; [done|]. intros j x Hx.
      apply list_lookup_insert_Some in Hx as [(-> & <- & _)|[_ Hx]]; [done|].
      apply Hc in Hx as [-> Hp]. rewrite decide_False; [done|]. unfold tick_done. destruct Hp; congruence.
    + apply Hc in Hi as Hl. cbn [snd] in Hl. rewrite decide_False in Hl by done. subst last. unfold tick_cas.
      rewrite (proj2 (Z.eqb_neq _ _)) by lia. split; [done|]. intros j x Hx.
      apply list_lookup_insert_Some in Hx as [(-> & <- & _)|[_ Hx]]; [done|by eapply Hc].
Qed.

(** When every processor, all having seen the current time, takes one tick, in any
    interleaving of their loads and exchanges, the time advances by one tick exactly, and
    every processor has seen it. *)
Theorem tick_round n t0 k s :
  0 < n → (0 < k)%nat → rtc (tick_step n) (mkTicking t0 (replicate k (TWaiting, t0))) s → Forall tick_done (tk_cores s) →
  tk_elapsed s = t0 + n ∧ tk_cores s = replicate k (TDone, t0 + n).
Proof.
  intros Hn Hk Hr Hd.
  assert (length (tk_cores s) = k ∧ tick_inv n t0 s) as [Hlen Hinv].
  { eapply (rtc_ind_r (λ s, length (tk_cores s) = k ∧ tick_inv n t0 s)); [|..|exact Hr].
    - split; [apply length_replicate|]. left. split; [done|]. intros i x [-> _]%lookup_replicate. by auto.
    - intros y z _ Hyz [Hl Hi]. split; [|by eapply tick_step_inv].
      destruct Hyz; cbn [tk_cores] in *; by rewrite length_insert. }
  rewrite Forall_lookup in Hd. destruct Hinv as [[_ Hc]|[Ht Hc]].
  - destruct (lookup_lt_is_Some_2 (tk_cores s) 0) as [x Hx]; [lia|].
    apply Hd in Hx as Hdx. apply Hc in Hx as [_ Hp]. unfold tick_done in Hdx. destruct Hp; congruence.
  - split; [done|]. apply list_eq. intros i. destruct (tk_cores s !! i) as [x|] eqn:Hx.
    + apply Hc in Hx as H2. apply Hd in Hx as H1. rewrite decide_True in H2 by done.
      apply lookup_lt_Some in Hx. symmetry. apply lookup_replicate. split; [|lia]. destruct x. unfold tick_done in H1.
      simpl in *. by subst.
    + symmetry. apply lookup_ge_None. rewrite length_replicate. apply lookup_ge_None in Hx. lia.
Qed.

Lemma tick_round_witness :
  tk_elapsed (mkTicking 838 [(TDone, 838); (TDone, 838)]) = 0 + 838.
Proof.
  refine (proj1 (tick_round 838 0 2 (mkTicking 838 [(TDone, 838); (TDone, 838)]) ltac:(lia) ltac:(lia) _ _)).
  - eapply rtc_l; [apply (tick_load _ 0 _ 0 0); reflexivity|].
    eapply rtc_l; [apply (tick_load _ 0 _ 1 0); reflexivity|].
    eapply rtc_l; [apply (tick_exchange _ 0 _ 1 838 0); reflexivity|].
    eapply rtc_l; [apply (tick_exchange _ 838 _ 0 838 0); reflexivity|].
    apply rtc_refl.
  - repeat constructor.
Defined.

(** Devices that answer 0 and raise no line. *)
#[local] Instance silent_devices : Devices := {
  dev_in _ _ := 0; dev_read _ _ := 0; dev_timer_irq _ := false; dev_cpuid _ := (0, 0, 0, 0x200);
}.

Lemma one_shot_fires_witness :
  ∃ c1 d1 r c2 d2, one_shot 20000000 cb_calibrate_fired (demo_cpu, dev_new) = Ret (true, (c1, d1)) ∧
    @rust_int_handler Dev (λ r d, Ret (w_thread_regs r d)) (@call_timer dev (λ _ r _, mret (false, r)))
      IRQ_TIMER regs_zero 0 (c1, d1) = Ret ((false, r), (c2, d2)) ∧
    d_calibrate_fired d2 = true.
Proof.
  destruct (proj2 (@one_shot_fires dev (λ _ r _, mret (false, r)) 20000000 cb_calibrate_fired regs_zero 0
    demo_cpu dev_new idt_new_ok eq_refl eq_refl ltac:(lia)) eq_refl)
    as (c1 & d1 & r & c2 & d2 & H1 & H2 & _ & _ & _ & _ & H3 & _).
  exists c1, d1, r, c2, d2. exact (conj H1 (conj H2 H3)).
Defined.
