(* ===== verification/Apic.v ===== *)
(** * The advanced interrupt controllers: [kernel/src/int/apic/], [kernel/src/int/mod.rs],
    [kernel/src/time/apic_timer.rs]

    The words of the controllers' registers, by fields; interprocessor interrupts; the
    io apic and how [apic::init] routes the interrupt lines from the ACPI tables; the
    local apic and its timer.

    The [bitfield] structs are packed by the crate [modular_bitfield]: writing a field
    is the operation of a class, with the bits it documents as law.

    [send_ipi_roundtrip]: the command register is written high word first, with a word
    that says which interrupt was sent, for each of them.  [apic_routes]: what the pins
    of the io apic do after [apic::init].  [calibrate_spec]: the local timer's
    calibration against the interval timer. *)

From Stdlib Require Import String.
From S2P Require Import Prelude Misc Sys Ranges PageTable VirtLayout Boot Thread CpuMarker Int Time.
#[local] Open Scope Z_scope.

(** ** Fields of words *)
Class Bitfields := bf_with : Z → Z → Z → Z → Z.   (* offset, width, value, word *)

Class BitfieldLaws {BF : Bitfields} := {
  bf_nonneg off w v word : 0 <= off → 0 < w → 0 <= v < 2 ^ w → 0 <= word → 0 <= bf_with off w v word;
  bf_bit off w v word i : 0 <= off → 0 < w → 0 <= v < 2 ^ w → 0 <= i →
    Z.testbit (bf_with off w v word) i =
      if (off <=? i) && (i <? off + w) then Z.testbit v (i - off) else Z.testbit word i;
}.

(** Reading a field, as the hardware does. *)
Definition bits_of (off w word : Z) : Z := (word / 2 ^ off) mod 2 ^ w.

Section fields.
Context {BF : Bitfields} {BL : BitfieldLaws}.

Lemma field_bit off w word i :
  0 <= off → 0 < w → 0 <= i → Z.testbit (bits_of off w word) i = (i <? w) && Z.testbit word (i + off).
Proof.
  intros. unfold bits_of. rewrite <- Z.land_ones, <- Z.shiftr_div_pow2, Z.land_spec, Z.shiftr_spec by lia.
  destruct (Z.ltb_spec i w); [rewrite Z.ones_spec_low by lia|rewrite Z.ones_spec_high by lia]; simpl;
    by rewrite ?andb_true_r, ?andb_false_r.
Qed.

Lemma field_eq off w v word : 0 <= off → 0 < w → 0 <= v < 2 ^ w → bits_of off w (bf_with off w v word) = v.
Proof.
  intros Ho Hw Hv. apply Z.bits_inj'. intros i Hi. rewrite field_bit, bf_bit by lia.
  destruct (Z.ltb_spec i w); simpl.
  - rewrite (proj2 (Z.leb_le _ _)), (proj2 (Z.ltb_lt _ _)) by lia. simpl. f_equal. lia.
  - rewrite <- (Z.mod_small v (2 ^ w)) by done. by rewrite Z.mod_pow2_bits_high by lia.
Qed.

Lemma field_ne off w off' w' v word :
  0 <= off → 0 < w → 0 <= off' → 0 < w' → 0 <= v < 2 ^ w' → off + w <= off' ∨ off' + w' <= off →
  bits_of off w (bf_with off' w' v word) = bits_of off w word.
Proof.
  intros Ho Hw Ho' Hw' Hv Hd. apply Z.bits_inj'. intros i Hi. rewrite !field_bit, bf_bit by lia.
  destruct (Z.ltb_spec i w); [simpl|done].
  destruct (Z.leb_spec off' (i + off)), (Z.ltb_spec (i + off) (off' + w')); simpl; done || lia.
Qed.

Lemma field_0 off w : bits_of off w 0 = 0.
Proof. unfold bits_of. by rewrite Zdiv_0_l, Zmod_0_l. Qed.

(** A word made by writing fields below bit [n] has [n] bits. *)
Definition fits (n word : Z) : Prop := 0 <= word < 2 ^ n.

Lemma fits_with n off w v word :
  fits n word → 0 <= off → 0 < w → off + w <= n → 0 <= v < 2 ^ w → fits n (bf_with off w v word).
Proof.
  intros [H0 Hn] Ho Hw Hle Hv. split; [by apply bf_nonneg|].
  assert (bf_with off w v word = bf_with off w v word mod 2 ^ n) as ->; [|apply Z.mod_pos_bound; lia].
  apply Z.bits_inj'. intros i Hi. destruct (Z.lt_ge_cases i n).
  - by rewrite Z.mod_pow2_bits_low by lia.
  - rewrite Z.mod_pow2_bits_high, bf_bit by lia. rewrite (proj2 (Z.ltb_ge _ _)), andb_false_r by lia.
    rewrite <- (Z.mod_small word (2 ^ n)) by done. by rewrite Z.mod_pow2_bits_high by lia.
Qed.
End fields.

(** Writing fields of constant offsets: reads past other fields, and stops at its own. *)
Ltac rf := repeat (first [rewrite field_ne by (done || lia) | rewrite field_eq by (done || lia) | rewrite field_0]).

(** The bit operations the crate compiles to satisfy the laws. *)
Definition bf_mask (off w v word : Z) : Z :=
  Z.lor (Z.ldiff word (Z.shiftl (Z.ones w) off)) (Z.shiftl v off).

Lemma bf_mask_laws : @BitfieldLaws bf_mask.
Proof.
  split.
  - intros off w v word Ho Hw Hv H0. unfold bf_with, bf_mask. apply Z.lor_nonneg. split.
    + by apply Z.ldiff_nonneg; left.
    + apply Z.shiftl_nonneg. lia.
  - intros off w v word i Ho Hw Hv Hi. unfold bf_with, bf_mask. rewrite Z.lor_spec, Z.ldiff_spec, !Z.shiftl_spec by done.
    destruct (Z.leb_spec off i); simpl.
    + destruct (Z.ltb_spec i (off + w)).
      * rewrite Z.ones_spec_low by lia. simpl. by rewrite andb_false_r.
      * rewrite Z.ones_spec_high by lia. simpl. rewrite andb_true_r.
        rewrite <- (Z.mod_small v (2 ^ w)), Z.mod_pow2_bits_high by lia. by rewrite orb_false_r.
    + rewrite !(Z.testbit_neg_r _ (i - off)) by lia. simpl. by rewrite andb_true_r, orb_false_r.
Qed.

(** ** Register words *)
Inductive DelivMode := Fixed | LowPrio | Smi | Nmi | Init | Sipi | ExtInt.
Definition deliv_mode_bits (d : DelivMode) : Z :=
  match d with Fixed => 0 | LowPrio => 1 | Smi => 2 | Nmi => 4 | Init => 5 | Sipi => 6 | ExtInt => 7 end.
Inductive DestMode := Physical | Logical.
Definition dest_mode_bits (d : DestMode) : Z := match d with Physical => 0 | Logical => 1 end.
Inductive TriggerMode := Edge | Level.
Definition trigger_mode_bits (t : TriggerMode) : Z := match t with Edge => 0 | Level => 1 end.
Definition trigger_mode_default : TriggerMode := Edge.
Inductive PinPolarity := ActiveHigh | ActiveLow.
Definition pin_polarity_bits (p : PinPolarity) : Z := match p with ActiveHigh => 0 | ActiveLow => 1 end.
Definition pin_polarity_default : PinPolarity := ActiveHigh.
Inductive IpiDestShort := SNone | SThis | SAllIncludeThis | SAllExcludeThis.
Definition dest_short_bits (d : IpiDestShort) : Z :=
  match d with SNone => 0 | SThis => 1 | SAllIncludeThis => 2 | SAllExcludeThis => 3 end.
Inductive LvtTimerMode := OneShot | Periodic | TscDeadline.
Definition timer_mode_bits (t : LvtTimerMode) : Z := match t with OneShot => 0 | Periodic => 1 | TscDeadline => 2 end.

Inductive IoApicDest := To (id : Z) | ToAll.
Inductive IpiDest := This | AllExcludeThis | AllIncludeThis | OtherPhysical (d : Z) | OtherLogical (d : Z).
Inductive Ipi := IpiTo (d : IpiDest) (vec : Z) | IpiSmi (d : IpiDest) | IpiInit (d : IpiDest) | IpiSipi (d : IpiDest) (vec : Z).

#[global] Instance IpiDest_dec : EqDecision IpiDest.
Proof. solve_decision. Defined.
#[global] Instance Ipi_dec : EqDecision Ipi.
Proof. solve_decision. Defined.

Definition ipi_dest (i : Ipi) : IpiDest :=
  match i with IpiTo d _ => d | IpiSmi d => d | IpiInit d => d | IpiSipi d _ => d end.

Definition ipi_panic_all : Ipi := IpiTo AllExcludeThis IPI_PANIC.

Section words.
Context {BF : Bitfields}.

(** [IrqEntry]: vec 8, deliv_mode 3, dest_mode 1, deliv_status 1, polarity 1, remote_irr 1,
    trigger_mode 1, masked 1, 39 skipped, dest 8. *)
Definition irq_with_vec (v w : Z) : Z := bf_with 0 8 v w.
Definition irq_with_deliv_mode (d : DelivMode) (w : Z) : Z := bf_with 8 3 (deliv_mode_bits d) w.
Definition irq_with_dest_mode (d : DestMode) (w : Z) : Z := bf_with 11 1 (dest_mode_bits d) w.
Definition irq_with_polarity (p : PinPolarity) (w : Z) : Z := bf_with 13 1 (pin_polarity_bits p) w.
Definition irq_with_trigger_mode (t : TriggerMode) (w : Z) : Z := bf_with 15 1 (trigger_mode_bits t) w.
Definition irq_with_masked (b : bool) (w : Z) : Z := bf_with 16 1 (Z.b2z b) w.
Definition irq_with_dest (d w : Z) : Z := bf_with 56 8 d w.

Definition irq_entry_from (vec : Z) (dest : IoApicDest) (polarity : PinPolarity) (trigger_mode : TriggerMode) : Z :=
  let out := irq_with_trigger_mode trigger_mode (irq_with_polarity polarity (irq_with_vec vec (irq_with_deliv_mode Fixed 0))) in
  match dest with
  | To dest => irq_with_dest dest (irq_with_dest_mode Physical out)
  | ToAll => irq_with_dest 1 (irq_with_dest_mode Logical out)
  end.

Definition irq_new_masked : Z := irq_with_masked true 0.

(** [CmdReg]: vector 8, deliv_mode 3, dest_mode 1, status 1, 1 skipped, assert 1,
    trigger_mode 1, 2 skipped, dest_short 2, 36 skipped, dest 8. *)
Definition cmd_set_vector (v w : Z) : Z := bf_with 0 8 v w.
Definition cmd_set_deliv_mode (d : DelivMode) (w : Z) : Z := bf_with 8 3 (deliv_mode_bits d) w.
Definition cmd_set_dest_mode (d : DestMode) (w : Z) : Z := bf_with 11 1 (dest_mode_bits d) w.
Definition cmd_with_assert (b : bool) (w : Z) : Z := bf_with 14 1 (Z.b2z b) w.
Definition cmd_with_trigger_mode (t : TriggerMode) (w : Z) : Z := bf_with 15 1 (trigger_mode_bits t) w.
Definition cmd_set_dest_short (d : IpiDestShort) (w : Z) : Z := bf_with 18 2 (dest_short_bits d) w.
Definition cmd_set_dest (d w : Z) : Z := bf_with 56 8 d w.

Definition cmd_default : Z := cmd_with_trigger_mode Edge (cmd_with_assert true 0).

Definition cmd_from (ipi : Ipi) : Z :=
  let out := cmd_default in
  let out :=
    match ipi_dest ipi with
    | This => cmd_set_dest_short SThis out
    | AllExcludeThis => cmd_set_dest_short SAllExcludeThis out
    | AllIncludeThis => cmd_set_dest_short SAllIncludeThis out
    | OtherPhysical dest => cmd_set_dest dest (cmd_set_dest_mode Physical (cmd_set_dest_short SNone out))
    | OtherLogical dest => cmd_set_dest dest (cmd_set_dest_mode Logical (cmd_set_dest_short SNone out))
    end in
  match ipi with
  | IpiTo _ vec => cmd_set_deliv_mode Fixed (cmd_set_vector vec out)
  | IpiSmi _ => cmd_set_deliv_mode Smi (cmd_set_vector 0 out)
  | IpiInit _ => cmd_set_deliv_mode Init (cmd_set_vector 0 out)
  | IpiSipi _ vec => cmd_set_deliv_mode Sipi (cmd_set_vector vec out)
  end.

(** [LvtEntry]: vec 8, deliv_mode 3, 1 skipped, deliv_status 1, polarity 1, remote_irr 1,
    trigger_mode 1, masked 1, timer_mode 2, 13 skipped. *)
Definition lvt_default : Z := 0.
Definition lvt_new_timer (vec : Z) : Z := bf_with 0 8 vec (bf_with 17 2 (timer_mode_bits Periodic) lvt_default).
Definition lvt_new_masked : Z := bf_with 16 1 1 lvt_default.

(** [SpuriousReg]: vec 8, apic_enabled 1, focus_processor_checking 1, 2 skipped, suppres_eoi 1, 19 skipped. *)
Definition spurious_new_enabled (vec : Z) : Z := bf_with 8 1 1 (bf_with 0 8 vec 0).
End words.

(** ** Registers in memory *)
Section mmio.
Context {DV : Devices}.
Definition mwrite (addr val : Z) : KM () := on_dev (λ d, w_io (d_io d ++ [MWrite addr val]) d).
Definition mread (addr : Z) : KM Z :=
  h ← of_dev d_io; on_dev (w_io (h ++ [MRead addr]));; mret (dev_read h addr).
End mmio.

(** ** The io apic *)
Section ioapic.
Context {DV : Devices} {B : Build} {AD : Addresses} {BF : Bitfields}.

Definition IO_APIC_VER : Z := 1.

Definition io_apic_new : IoApicState := mkIoApic 0 0 0.

Definition ioapic_read_reg (reg : Z) : KM Z :=
  a ← of_dev d_io_apic; mwrite (io_select a) reg;; mread (io_reg a).
Definition ioapic_write_reg (reg data : Z) : KM () :=
  a ← of_dev d_io_apic; mwrite (io_select a) reg;; mwrite (io_reg a) data.

Definition irq_index (a : IoApicState) (irq : Z) : option Z :=
  if max_irq_index a <? irq then None else Some (0x10 + irq * 2).

Definition set_irq_entry (irq entry : Z) : KM bool :=
  a ← of_dev d_io_apic;
  match irq_index a irq with
  | Some index =>
      ioapic_write_reg index (as_u32 (get_bits entry (0, 32)));;
      ioapic_write_reg (index + 1) (as_u32 (get_bits entry (32, 64)));;
      mret true
  | None => mret false
  end.

(** [for irq in 0..=self.max_irq_index]. *)
Fixpoint mask_irqs (n : nat) (irq : Z) : KM () :=
  match n with
  | O => mret ()
  | S n => set_irq_entry irq irq_new_masked;; mask_irqs n (irq + 1)
  end.

Definition io_apic_init (addr : Z) : KM () :=
  select ← lift (phys_to_virt addr);
  reg ← lift (uadd select 0x10);
  a ← of_dev d_io_apic;
  on_dev (w_io_apic (mkIoApic select reg (max_irq_index a)));;
  v ← ioapic_read_reg IO_APIC_VER;
  let m := as_u8 (get_bits v (16, 24)) in
  on_dev (w_io_apic (mkIoApic select reg m));;
  mask_irqs (Z.to_nat (m + 1)) 0.
End ioapic.

(** ** The local apic *)
Section lapic.
Context {DV : Devices} {B : Build} {AD : Addresses} {BF : Bitfields} {CPU : Cpu}.

Definition REG_OFFSET : Z := 0x10.
Definition LA_EOI : Z := 0xb0.
Definition LOGICAL_DEST : Z := 0xd0.
Definition DEST_FORMAT : Z := 0xe0.
Definition SPURIOUS_VEC : Z := 0xf0.
Definition LA_ERROR : Z := 0x280.
Definition LVT_MACHINE_CHECK : Z := 0x2f0.
Definition CMD_BASE : Z := 0x300.
Definition LVT_TIMER : Z := 0x320.
Definition LVT_THERMAL : Z := 0x330.
Definition LVT_PERF : Z := 0x340.
Definition LVT_LINT0 : Z := 0x350.
Definition LVT_LINT1 : Z := 0x360.
Definition LVT_ERROR : Z := 0x370.
Definition TIMER_INIT_COUNT : Z := 0x380.
Definition TIMER_COUNT : Z := 0x390.
Definition TIMER_DIVIDE_CONFIG : Z := 0x3e0.

Definition read_reg_32 (l : LocalApic) (reg : Z) : KM Z := a ← lift (uadd (la_addr l) reg); mread a.
Definition write_reg_32 (l : LocalApic) (reg val : Z) : KM () := a ← lift (uadd (la_addr l) reg); mwrite a val.

Definition read_reg_64 (l : LocalApic) (reg : Z) : KM Z :=
  r ← lift (uadd reg REG_OFFSET);
  high ← read_reg_32 l r;
  low ← read_reg_32 l reg;
  mret (Z.lor (Z.shiftl high 32) low).

Definition write_reg_64 (l : LocalApic) (reg val : Z) : KM () :=
  let low := as_u32 (get_bits val (0, 32)) in
  let high := as_u32 (get_bits val (32, 64)) in
  r ← lift (uadd reg REG_OFFSET);
  write_reg_32 l r high;; write_reg_32 l reg low.

(** [for (i, elem) in ...enumerate()]. *)
Fixpoint read_regs (l : LocalApic) (n : nat) (reg i : Z) : KM (list Z) :=
  match n with
  | O => mret []
  | S n => x ← read_reg_64 l (reg + 2 * i * REG_OFFSET); xs ← read_regs l n reg (i + 1); mret (x :: xs)
  end.
Definition read_reg_256 (l : LocalApic) (reg : Z) : KM (list Z) := read_regs l 4 reg 0.

Fixpoint write_regs (l : LocalApic) (vals : list Z) (reg i : Z) : KM () :=
  match vals with
  | [] => mret ()
  | v :: vals => write_reg_64 l (reg + 2 * i * REG_OFFSET) v;; write_regs l vals reg (i + 1)
  end.
Definition write_reg_256 (l : LocalApic) (reg : Z) (val : list Z) : KM () := write_regs l val reg 0.

Definition send_ipi (l : LocalApic) (ipi : Ipi) : KM () := write_reg_64 l CMD_BASE (cmd_from ipi).
Definition lapic_eoi (l : LocalApic) : KM () := write_reg_32 l LA_EOI 0.
Definition lapic_error (l : LocalApic) : KM Z := read_reg_32 l LA_ERROR.

(** [IpiDest::to_prid], [Ipi::process_exit]: panics for a processor without an id. *)
Definition to_prid (p : nat) : KM IpiDest :=
  m ← of_dev d_lapic_ids; id ← lift (unwrap (m !! p)); mret (OtherPhysical id).
Definition ipi_process_exit (p : nat) : KM Ipi := d ← to_prid p; mret (IpiTo d IPI_PROCESS_EXIT).

Inductive LvtType :=
  | LvtTimer (e : Z) | LvtMachineCheck (e : Z) | LvtLint0 (e : Z) | LvtLint1 (e : Z)
  | LvtErr (e : Z) | LvtPerf (e : Z) | LvtThermal (e : Z).

Definition set_lvt (l : LocalApic) (lvte : LvtType) : KM () :=
  match lvte with
  | LvtTimer e => write_reg_32 l LVT_TIMER e
  | LvtMachineCheck e => write_reg_32 l LVT_MACHINE_CHECK e
  | LvtLint0 e => write_reg_32 l LVT_LINT0 e
  | LvtLint1 e => write_reg_32 l LVT_LINT1 e
  | LvtErr e => write_reg_32 l LVT_ERROR e
  | LvtPerf e => write_reg_32 l LVT_PERF e
  | LvtThermal e => write_reg_32 l LVT_THERMAL e
  end.

(** [LocalApic::from]. *)
Definition lapic_from (addr : Z) : KM LocalApic :=
  v ← lift (phys_to_virt addr);
  let out := mkLapic v 0 0 in
  m ← of_dev d_lapic_ids;
  on_dev (w_lapic_ids (<[prid := apic_id]> m));;
  set_lvt out (LvtTimer lvt_new_masked);;
  set_lvt out (LvtMachineCheck lvt_new_masked);;
  set_lvt out (LvtLint0 lvt_new_masked);;
  set_lvt out (LvtLint1 lvt_new_masked);;
  set_lvt out (LvtErr lvt_new_masked);;
  set_lvt out (LvtPerf lvt_new_masked);;
  set_lvt out (LvtThermal lvt_new_masked);;
  write_reg_32 out LOGICAL_DEST 1;;
  write_reg_32 out DEST_FORMAT 0xf0000000;;
  write_reg_32 out TIMER_DIVIDE_CONFIG 3;;
  write_reg_32 out SPURIOUS_VEC (spurious_new_enabled SPURIOUS);;
  mret out.

(** [cpud().lapic().tick()]. *)
Definition la_tick (l : LocalApic) : res LocalApic :=
  t ← uadd (la_elapsed_time l) TIMER_PERIOD; Ret (mkLapic (la_addr l) t (la_count l)).

Definition with_lapic {A} (body : LocalApic → KM (A * LocalApic)) : KM A :=
  cpd_scope
    (o ← on_cpu (get_gs gs_lapic); l ← lift (unwrap o);
     r ← body l; on_cpu (upd_gs (set_lapic (snd r)));; mret (fst r)).

Definition run_lapic_tick (regs : Registers) : KM (bool * Registers) :=
  with_lapic (λ l, l ← lift (la_tick l); mret ((), l));; mret (false, regs).

(** [eoi], called by the assembly after the handler of an interrupt line. *)
Definition eoi (irq : Z) : KM () :=
  u ← use_apic;
  if u : bool then with_lapic (λ l, lapic_eoi l;; mret ((), l))
  else
    d ← lift (if overflow_checks && (irq <? PICM_OFFSET) then Panic else Ret ((irq - PICM_OFFSET) mod 2 ^ 8));
    (if 7 <? d then outb PICS_COMMAND PIC_EOI else mret ());;
    outb PICM_COMMAND PIC_EOI.

(** The handlers of the timers; [other] stands for those of the scheduler and of the faults. *)
Context (other : IntHandlerFunc → Registers → Z → KM (bool * Registers)).

Definition call_handler : IntHandlerFunc → Registers → Z → KM (bool * Registers) :=
  call_timer (λ f regs e, match f with lapic_tick => run_lapic_tick regs | _ => other f regs e end).

(** The assembly stub of an interrupt line: the gate turns interrupts off, the return
    brings back the flag. *)
Definition irq_stub (irq : Z) (regs : Registers) : KM Registers :=
  i ← on_cpu is_int_enabled;
  on_cpu cli;;
  r ← rust_int_handler (λ r d, Ret (w_thread_regs r d)) call_handler irq regs 0;
  eoi irq;;
  on_cpu (set_int_enabled i);;
  mret (snd r).

(** [while !CALIBRATE_FIRED.load() {}]: at each turn the line of the timer may be raised. *)
Fixpoint wait_calibrate (fuel : nat) (regs : Registers) : KM () :=
  match fuel with
  | O => λ _, NoFuel
  | S fuel =>
      fired ← of_dev d_calibrate_fired;
      if fired : bool then mret () else
      h ← of_dev d_io; i ← on_cpu is_int_enabled;
      (if i && dev_timer_irq h then irq_stub IRQ_TIMER regs;; mret () else mret ());;
      wait_calibrate fuel regs
  end.

Definition TIMER_CALIBRATE_TIME : Z := 20 * 1000000.
Definition u32_max : Z := 0xffffffff.

(** Unsigned division panics on 0. *)
Definition udiv (a b : Z) : res Z := if b =? 0 then Panic else Ret (a / b).
(** [a - b] on [u32]. *)
Definition usub32 (a b : Z) : res Z :=
  if b <=? a then Ret (a - b) else if overflow_checks then Panic else Ret ((a - b) mod 2 ^ 32).

Definition nanosec_per_timer_tick (fuel : nat) (regs : Registers) (l : LocalApic) : KM Z :=
  nsec ← of_dev d_nanosec_per_tick;
  if negb (nsec =? 0) then mret nsec else
  write_reg_32 l TIMER_INIT_COUNT u32_max;;
  set_use_apic false;;
  on_cpu sti;;
  one_shot TIMER_CALIBRATE_TIME cb_calibrate_fired;;
  wait_calibrate fuel regs;;
  on_cpu cli;;
  set_use_apic true;;
  new_count ← read_reg_32 l TIMER_COUNT;
  write_reg_32 l TIMER_INIT_COUNT 0;;
  lapic_eoi l;;
  on_dev (w_calibrate_fired false);;
  elapsed_ticks ← lift (usub32 u32_max new_count);
  out ← lift (udiv (TIMER_CALIBRATE_TIME mod U64) elapsed_ticks);
  on_dev (w_nanosec_per_tick out);;
  mret out.

Definition init_timer (fuel : nat) (regs : Registers) (period : Z) (l : LocalApic) : KM (bool * LocalApic) :=
  nsec_per ← nanosec_per_timer_tick fuel regs l;
  if 2 ^ 32 <=? period then mret (false, l) else
  count ← lift (udiv period (as_u32 nsec_per));
  let l := mkLapic (la_addr l) (la_elapsed_time l) count in
  r ← on_cpu (register (First lapic_tick) IRQ_TIMER);
  match r with
  | inl _ => lift Panic
  | inr _ =>
      set_lvt l (LvtTimer (lvt_new_timer IRQ_TIMER));;
      write_reg_32 l TIMER_INIT_COUNT (la_count l);;
      mret (true, l)
  end.

(** [LocalApic::nsec], and [timer().nsec()] of [time/mod.rs]. *)
Definition lapic_nsec (fuel : nat) (regs : Registers) (l : LocalApic) : KM Z :=
  c ← read_reg_32 l TIMER_COUNT;
  d ← lift (usub32 (la_count l) c);
  n ← nanosec_per_timer_tick fuel regs l;
  lift (m ← umul d n; uadd (la_elapsed_time l) m).

Definition timer_nsec (fuel : nat) (regs : Registers) : KM Z :=
  u ← use_apic;
  if u : bool then with_lapic (λ l, n ← lapic_nsec fuel regs l; mret (n, l)) else pit_nsec.

Definition timer_nsec_no_latch (fuel : nat) (regs : Registers) : KM Z :=
  u ← use_apic;
  if u : bool then timer_nsec fuel regs else pit_nsec_no_latch.
End lapic.

(** ** Routing the interrupt lines *)
Record IrqOverride := mkOverride { ov_sysint : Z; ov_polarity : PinPolarity; ov_trigger_mode : TriggerMode }.

Definition IrqOverrides := gmap Z IrqOverride.

Definition get_irq (self : IrqOverrides) (irq : Z) : IrqOverride :=
  match self !! irq with
  | Some o => o
  | None => mkOverride irq pin_polarity_default trigger_mode_default
  end.

Definition override_irq (irq : Z) (over : IrqOverride) (self : IrqOverrides) : IrqOverrides := <[irq := over]> self.

Section init.
Context {DV : Devices} {B : Build} {AD : Addresses} {BF : Bitfields} {CPU : Cpu}.
Context (other : IntHandlerFunc → Registers → Z → KM (bool * Registers)).

(** Both are read from the same bits of the flags. *)
Definition override_polarity (flags : Z) : res PinPolarity :=
  match get_bits flags (0, 2) with
  | 0 => Ret pin_polarity_default
  | 1 => Ret ActiveHigh
  | 3 => Ret ActiveLow
  | _ => Panic
  end.
Definition override_trigger_mode (flags : Z) : res TriggerMode :=
  match get_bits flags (0, 2) with
  | 0 => Ret trigger_mode_default
  | 1 => Ret Edge
  | 3 => Ret Level
  | _ => Panic
  end.

(** [irq_src + IRQ_BASE] on [u8]. *)
Definition uadd8 (a b : Z) : res Z :=
  if a + b <? 2 ^ 8 then Ret (a + b) else if overflow_checks then Panic else Ret ((a + b) mod 2 ^ 8).

(** The locals of [init] the loop over the table changes. *)
Record Scan := mkScan { sc_lapic_addr : Z; sc_overrides : IrqOverrides; sc_ap_ids : list Z; sc_flag : bool }.

Definition scan_entry (entry : MadtElem) (s : Scan) : KM Scan :=
  match entry with
  | ProcLocalApic _ apic_id _ =>
      if sc_flag s
      then on_dev (w_bsp_id apic_id);; mret (mkScan (sc_lapic_addr s) (sc_overrides s) (sc_ap_ids s) false)
      else mret (mkScan (sc_lapic_addr s) (sc_overrides s) (sc_ap_ids s ++ [apic_id]) false)
  | IoApic _ ioapic_addr sysint =>
      lift (assert_ (sysint =? 0));;
      a ← lift (a_new (AddrOps:=PA) ioapic_addr);
      io_apic_init a;;
      mret s
  | IoApicSrcOverride _ irq_src global_sysint flags =>
      polarity ← lift (override_polarity flags);
      trigger_mode ← lift (override_trigger_mode flags);
      irq ← lift (uadd8 irq_src IRQ_BASE);
      mret (mkScan (sc_lapic_addr s)
        (override_irq irq (mkOverride global_sysint polarity trigger_mode) (sc_overrides s)) (sc_ap_ids s) (sc_flag s))
  | LocalApicOverride addr => mret (mkScan addr (sc_overrides s) (sc_ap_ids s) (sc_flag s))
  | _ => mret s
  end.

Fixpoint scan (entries : list MadtElem) (s : Scan) : KM Scan :=
  match entries with
  | [] => mret s
  | e :: entries => s ← scan_entry e s; scan entries s
  end.

Definition irq_entry (overrides : IrqOverrides) (bsp_id irq : Z) : Z :=
  let over := get_irq overrides irq in
  if irq =? IRQ_TIMER
  then irq_entry_from irq (To 0) (ov_polarity over) (ov_trigger_mode over)
  else irq_entry_from irq (To bsp_id) (ov_polarity over) (ov_trigger_mode over).

(** [for irq in irq_arr()]. *)
Fixpoint route_irqs (irqs : list Z) (overrides : IrqOverrides) : KM () :=
  match irqs with
  | [] => mret ()
  | irq :: irqs =>
      bsp ← of_dev d_bsp_id;
      set_irq_entry (as_u8 (ov_sysint (get_irq overrides irq))) (irq_entry overrides bsp irq);;
      route_irqs irqs overrides
  end.

(** [apic::init], on the entries the iterator over the table gives. *)
Definition apic_init_entries (fuel : nat) (regs : Registers) (lapic_addr lapic_flags : Z) (entries : list MadtElem) : KM (list Z) :=
  (if 0 <? Z.land lapic_flags 1 then pic_disable else mret ());;
  s ← scan entries (mkScan lapic_addr ∅ [] true);
  lift (assert_ (Z.of_nat (length (sc_ap_ids s)) <? Z.of_nat MAX_CPUS));;
  route_irqs irq_arr (sc_overrides s);;
  on_dev (w_lapic_addr (sc_lapic_addr s));;
  a ← lift (a_new (AddrOps:=PA) (sc_lapic_addr s));
  l ← lapic_from a;
  r ← init_timer other fuel regs TIMER_PERIOD l;
  cpd_scope (on_cpu (upd_gs (set_lapic (snd r))));;
  mret (sc_ap_ids s).

Definition apic_init (m : bytes) (fuel : nat) (regs : Registers) (madt : Z) : KM (list Z) :=
  addr ← lift (lapic_addr m madt);
  flags ← lift (lapic_flags m madt);
  it ← lift (madt_iter m madt);
  entries ← lift (hwa_all (H:=MadtTag m) fuel it);
  apic_init_entries fuel regs addr flags entries.

(** [ap_init], up to the wait for the other processors. *)
Definition apic_ap_init (fuel : nat) (regs : Registers) : KM () :=
  addr ← of_dev d_lapic_addr;
  a ← lift (a_new (AddrOps:=PA) addr);
  l ← lapic_from a;
  r ← init_timer other fuel regs TIMER_PERIOD l;
  cpd_scope (on_cpu (upd_gs (set_lapic (snd r)))).
End init.

(** ** Interprocessor interrupts *)

(** What the command register means. *)
Definition decode_cmd (w : Z) : option Ipi :=
  d ← match bits_of 18 2 w with
      | 0 => Some ((if bits_of 11 1 w =? 0 then OtherPhysical else OtherLogical) (bits_of 56 8 w))
      | 1 => Some This
      | 2 => Some AllIncludeThis
      | 3 => Some AllExcludeThis
      | _ => None
      end;
  match bits_of 8 3 w with
  | 0 => Some (IpiTo d (bits_of 0 8 w))
  | 2 => Some (IpiSmi d)
  | 5 => Some (IpiInit d)
  | 6 => Some (IpiSipi d (bits_of 0 8 w))
  | _ => None
  end.

Definition u8 (n : Z) : Prop := 0 <= n < 256.

Definition ipi_ok (i : Ipi) : Prop :=
  match ipi_dest i with OtherPhysical d | OtherLogical d => u8 d | _ => True end ∧
  match i with IpiTo _ v | IpiSipi _ v => u8 v | _ => True end.

(** The bits of an enumeration fit its field. *)
Lemma deliv_mode_range d : 0 <= deliv_mode_bits d < 2 ^ 3.
Proof. by destruct d. Qed.
Lemma dest_short_range d : 0 <= dest_short_bits d < 2 ^ 2.
Proof. by destruct d. Qed.
Lemma bit_range b : 0 <= Z.b2z b < 2 ^ 1.
Proof. by destruct b. Qed.
Lemma dest_mode_range d : 0 <= dest_mode_bits d < 2 ^ 1.
Proof. by destruct d. Qed.
Lemma trigger_mode_range d : 0 <= trigger_mode_bits d < 2 ^ 1.
Proof. by destruct d. Qed.
Lemma pin_polarity_range d : 0 <= pin_polarity_bits d < 2 ^ 1.
Proof. by destruct d. Qed.
#[local] Hint Resolve deliv_mode_range dest_short_range bit_range dest_mode_range trigger_mode_range pin_polarity_range : core.

Section sending.
Context {B : Build} {BF : Bitfields} {BL : BitfieldLaws}.

Lemma cmd_from_word ipi :
  ipi_ok ipi → fits 64 (cmd_from ipi) ∧ decode_cmd (cmd_from ipi) = Some ipi ∧
    bits_of 14 1 (cmd_from ipi) = 1 ∧ bits_of 15 1 (cmd_from ipi) = 0.
Proof.
  unfold ipi_ok, u8. intros [Hd Hv].
  unfold cmd_from, cmd_default, decode_cmd, cmd_set_deliv_mode, cmd_set_vector, cmd_set_dest_short, cmd_set_dest,
    cmd_set_dest_mode, cmd_with_trigger_mode, cmd_with_assert.
  assert (fits 64 0) by (split; [done|apply Z.pow_pos_nonneg; lia]).
  destruct ipi as [[]|[]|[]|[]]; cbn [ipi_dest] in *; cbn [deliv_mode_bits dest_short_bits dest_mode_bits trigger_mode_bits Z.b2z].
  all: split; [repeat apply fits_with; done || lia|].
  all: rf.
  all: split_and!; done.
Qed.

Lemma halves w : fits 64 w →
  as_u32 (get_bits w (0, 32)) = w mod 2 ^ 32 ∧ as_u32 (get_bits w (32, 64)) = w / 2 ^ 32.
Proof.
  intros Hw. assert (is_usize w) as Hu by exact Hw. destruct Hw as [H0 H1]. unfold as_u32.
  rewrite (get_bits_part w 0 32), (get_bits_part w 32 32) by (done || lia). change (2 ^ 0) with 1. rewrite Z.div_1_r.
  split; [done|]. apply Z.mod_small. split; [apply Z.div_pos; lia|]. apply Z.div_lt_upper_bound; [lia|].
  rewrite <- Z.pow_add_r by lia. exact H1.
Qed.

Lemma mwrite_reg l reg v c d :
  is_usize (la_addr l + reg) →
  write_reg_32 l reg v (c, d) = Ret ((), (c, w_io (d_io d ++ [MWrite (la_addr l + reg) v]) d)).
Proof. intros H. unfold write_reg_32, lift, mbind, M_bind. by rewrite uadd_ok by done. Qed.

(** C32: Sending an interprocessor interrupt writes the command register twice, its high word
    first, since the low word sends it; the two make a word that says exactly which interrupt
    is sent to whom, edge triggered and asserted. *)
Theorem send_ipi_roundtrip l ipi c d :
  ipi_ok ipi → 0 <= la_addr l → la_addr l + CMD_BASE + REG_OFFSET < U64 →
  ∃ high low,
    send_ipi l ipi (c, d) =
      Ret ((), (c, w_io (d_io d ++ [MWrite (la_addr l + (CMD_BASE + REG_OFFSET)) high; MWrite (la_addr l + CMD_BASE) low]) d)) ∧
    0 <= high < 2 ^ 32 ∧ 0 <= low < 2 ^ 32 ∧
    decode_cmd (low + 2 ^ 32 * high) = Some ipi ∧
    bits_of 14 1 (low + 2 ^ 32 * high) = 1 ∧ bits_of 15 1 (low + 2 ^ 32 * high) = 0.
Proof.
  intros Hi H0 H1. destruct (cmd_from_word ipi Hi) as (Hf & Hdec & Hrest).
  destruct (halves _ Hf) as [El Eh]. exists (cmd_from ipi / 2 ^ 32), (cmd_from ipi mod 2 ^ 32).
  assert (cmd_from ipi mod 2 ^ 32 + 2 ^ 32 * (cmd_from ipi / 2 ^ 32) = cmd_from ipi) as ->
    by (pose proof (Z.div_mod (cmd_from ipi) (2 ^ 32)); lia).
  unfold CMD_BASE, REG_OFFSET in *. split_and!; try done.
  - unfold send_ipi, write_reg_64. rewrite El, Eh.
    rewrite (M_bind_Ret _ _ _ (CMD_BASE + REG_OFFSET) (c, d)) by (unfold lift; by rewrite uadd_ok).
    unfold CMD_BASE, REG_OFFSET.
    rewrite (M_bind_Ret _ _ _ _ _ (mwrite_reg l (0x300 + 0x10) (cmd_from ipi / 2 ^ 32) c d ltac:(unfold is_usize; lia))).
    rewrite mwrite_reg by (unfold is_usize; lia). cbn [d_io w_io]. by rewrite <- app_assoc.
  - apply Z.div_pos; [apply Hf|lia].
  - destruct Hf as [_ Hf]. apply Z.div_lt_upper_bound; [lia|]. by rewrite <- Z.pow_add_r by lia.
  - by apply Z.mod_pos_bound.
  - by apply Z.mod_pos_bound.
  - apply Hrest.
  - apply Hrest.
Qed.
End sending.

(** ** The pins of the io apic *)

(** Its two windows: a write to the first selects a register, a write to the second sets it. *)
Definition ioapic_step (sel win : Z) (st : Z * gmap Z Z) (e : Io) : Z * gmap Z Z :=
  match e with
  | MWrite a v => if a =? sel then (v, snd st) else if a =? win then (fst st, <[fst st := v]> (snd st)) else st
  | _ => st
  end.
Definition ioapic_regs (sel win : Z) (h : list Io) : gmap Z Z := snd (foldl (ioapic_step sel win) (0, ∅) h).

(** The entry of a pin. *)
Definition pin (sel win : Z) (h : list Io) (p : Z) : option Z :=
  lo ← ioapic_regs sel win h !! (0x10 + p * 2);
  hi ← ioapic_regs sel win h !! (0x10 + p * 2 + 1);
  Some (lo + 2 ^ 32 * hi).

Section pins.
Context {DV : Devices} {B : Build} {BF : Bitfields} {BL : BitfieldLaws}.
Context (sel win m : Z).
Context (Hsw : sel ≠ win).

Definition entry_words (irq e : Z) : list Io :=
  [MWrite sel (0x10 + irq * 2); MWrite win (e mod 2 ^ 32); MWrite sel (0x10 + irq * 2 + 1); MWrite win (e / 2 ^ 32)].

Lemma pin_entry h irq e p :
  fits 64 e → pin sel win (h ++ entry_words irq e) p = if decide (p = irq) then Some e else pin sel win h p.
Proof.
  intros He. unfold pin, ioapic_regs. rewrite foldl_app. set (st := foldl _ _ h).
  unfold entry_words. cbn [foldl ioapic_step]. rewrite !Z.eqb_refl.
  rewrite (proj2 (Z.eqb_neq win sel)) by done. cbn [fst snd].
  destruct (decide (p = irq)) as [->|Hne].
  - rewrite (lookup_insert_ne _ (0x10 + irq * 2 + 1) (0x10 + irq * 2)) by lia. rewrite !lookup_insert_eq.
    cbn [mbind option_bind]. f_equal. pose proof (Z.div_mod e (2 ^ 32)). lia.
  - by rewrite !lookup_insert_ne by lia.
Qed.

Lemma set_irq_entry_eq irq e c d :
  d_io_apic d = mkIoApic sel win m → fits 64 e →
  set_irq_entry irq e (c, d) =
    if m <? irq then Ret (false, (c, d)) else Ret (true, (c, w_io (d_io d ++ entry_words irq e) d)).
Proof.
  intros Ha He. destruct (halves e He) as [El Eh]. unfold set_irq_entry. rewrite El, Eh.
  rewrite (M_bind_Ret _ _ _ (mkIoApic sel win m) (c, d)) by (unfold of_dev; by rewrite Ha).
  unfold irq_index. cbn [max_irq_index]. destruct (m <? irq); [done|].
  destruct d as [? ? ? ? ? ia ? ? ? ? ? ?]. cbn in Ha. subst ia.
  unfold ioapic_write_reg, of_dev, mwrite, on_dev, mbind, M_bind. cbn. by rewrite <- !app_assoc.
Qed.

(** Writing an entry, with what it does to the pins. *)
Lemma set_irq_entry_pins irq e c d :
  d_io_apic d = mkIoApic sel win m → fits 64 e →
  ∃ b h, set_irq_entry irq e (c, d) = Ret (b, (c, w_io h d)) ∧
    ∀ p, p <= m → pin sel win h p = if decide (p = irq) then Some e else pin sel win (d_io d) p.
Proof.
  intros Ha He. rewrite set_irq_entry_eq by done. destruct (Z.ltb_spec m irq).
  - exists false, (d_io d). split; [by destruct d|]. intros p Hp. by rewrite decide_False by lia.
  - eexists _, _. split; [done|]. intros p _. by apply pin_entry.
Qed.

Lemma masked_fits : fits 64 irq_new_masked.
Proof. unfold irq_new_masked, irq_with_masked. apply fits_with; try lia; [|apply bit_range]. split; [done|by apply Z.pow_pos_nonneg]. Qed.

Lemma mask_irqs_pins n irq c d :
  d_io_apic d = mkIoApic sel win m →
  ∃ h, mask_irqs n irq (c, d) = Ret ((), (c, w_io h d)) ∧
    ∀ p, p <= m → pin sel win h p = if decide (irq <= p < irq + Z.of_nat n) then Some irq_new_masked else pin sel win (d_io d) p.
Proof.
  revert irq d. induction n as [|n IH]; intros irq d Ha.
  - exists (d_io d). split; [by destruct d|]. intros p _. by rewrite decide_False by lia.
  - cbn [mask_irqs]. destruct (set_irq_entry_pins irq irq_new_masked c d Ha masked_fits) as (b & h & E & Hp).
    rewrite (M_bind_Ret _ _ _ _ _ E). destruct (IH (irq + 1) (w_io h d)) as (h' & E' & Hp'); [done|].
    exists h'. split; [exact E'|]. intros p Hle. rewrite Hp' by done. cbn [d_io w_io]. rewrite Hp by done.
    destruct (decide (irq + 1 <= p < irq + 1 + Z.of_nat n)), (decide (irq <= p < irq + Z.of_nat (S n))), (decide (p = irq));
      done || lia.
Qed.

(** The last of the lines whose system interrupt is the pin. *)
Fixpoint routed (ov : IrqOverrides) (p : Z) (irqs : list Z) : option Z :=
  match irqs with
  | [] => None
  | irq :: irqs =>
      match routed ov p irqs with
      | Some i => Some i
      | None => if as_u8 (ov_sysint (get_irq ov irq)) =? p then Some irq else None
      end
  end.

Lemma irq_entry_fits ov bsp irq : u8 bsp → u8 irq → fits 64 (irq_entry ov bsp irq).
Proof.
  unfold u8. intros Hb Hi. unfold irq_entry, irq_entry_from, irq_with_dest, irq_with_dest_mode, irq_with_trigger_mode,
    irq_with_polarity, irq_with_vec, irq_with_deliv_mode.
  assert (fits 64 0) by (split; [done|apply Z.pow_pos_nonneg; lia]).
  destruct (irq =? IRQ_TIMER); repeat apply fits_with; try done; try lia; auto using deliv_mode_range, pin_polarity_range,
    trigger_mode_range, dest_mode_range.
Qed.

Lemma route_irqs_pins ov irqs c d :
  d_io_apic d = mkIoApic sel win m → u8 (d_bsp_id d) → Forall u8 irqs →
  ∃ h, route_irqs irqs ov (c, d) = Ret ((), (c, w_io h d)) ∧
    ∀ p, p <= m → pin sel win h p =
      match routed ov p irqs with Some irq => Some (irq_entry ov (d_bsp_id d) irq) | None => pin sel win (d_io d) p end.
Proof.
  revert d. induction irqs as [|irq irqs IH]; intros d Ha Hb Hi.
  - exists (d_io d). split; [by destruct d|done].
  - apply Forall_cons in Hi as [Hi Hirqs]. cbn [route_irqs routed].
    rewrite (M_bind_Ret _ _ _ (d_bsp_id d) (c, d)) by done.
    destruct (set_irq_entry_pins (as_u8 (ov_sysint (get_irq ov irq))) _ c d Ha (irq_entry_fits ov _ _ Hb Hi)) as (b & h & E & Hp).
    rewrite (M_bind_Ret _ _ _ _ _ E). destruct (IH (w_io h d)) as (h' & E' & Hp'); [done..|].
    exists h'. split; [exact E'|]. intros p Hle. rewrite Hp' by done. cbn [d_io d_bsp_id w_io].
    destruct (routed ov p irqs); [done|]. rewrite Hp by done.
    destruct (Z.eqb_spec (as_u8 (ov_sysint (get_irq ov irq))) p) as [->|Hne]; [by rewrite decide_True|].
    by rewrite decide_False by congruence.
Qed.
End pins.

(** ** [apic::init] *)

(** The overrides a table describes. *)
Definition flags_override (sysint flags : Z) : IrqOverride :=
  if get_bits flags (0, 2) =? 3 then mkOverride sysint ActiveLow Level else mkOverride sysint ActiveHigh Edge.

Definition collect_entry (m : IrqOverrides) (e : MadtElem) : IrqOverrides :=
  match e with IoApicSrcOverride _ i g f => <[i + IRQ_BASE := flags_override g f]> m | _ => m end.
Definition collect (m : IrqOverrides) (entries : list MadtElem) : IrqOverrides := foldl collect_entry m entries.

(** Entries that are not the io apic's, with the flags ACPI allows, of lines below 224. *)
Definition entry_ok (e : MadtElem) : Prop :=
  match e with
  | IoApic _ _ _ => False
  | IoApicSrcOverride _ i _ f => 0 <= i < 224 ∧ 0 <= f < 2 ^ 16 ∧ get_bits f (0, 2) ≠ 2
  | ProcLocalApic _ id _ => u8 id
  | _ => True
  end.

Section init_spec.
Context {DV : Devices} {B : Build} {AD : Addresses} {BF : Bitfields} {BL : BitfieldLaws}.

Lemma override_flags f :
  0 <= f < 2 ^ 16 → get_bits f (0, 2) ≠ 2 →
  override_polarity f = Ret (ov_polarity (flags_override 0 f)) ∧ override_trigger_mode f = Ret (ov_trigger_mode (flags_override 0 f)).
Proof.
  intros Hf Hn. assert (0 <= get_bits f (0, 2) < 2 ^ 2) as Hr.
  { apply (get_bits_range f 0 2); try lia. unfold is_usize. change (2 ^ 16) with 65536 in Hf. lia. }
  unfold override_polarity, override_trigger_mode, flags_override.
  assert (get_bits f (0, 2) = 0 ∨ get_bits f (0, 2) = 1 ∨ get_bits f (0, 2) = 3) as [-> | [-> | ->]]; [|done..].
  change (2 ^ 2) with 4 in Hr. lia.
Qed.

(** A scan past such entries touches no device; it remembers the first processor. *)
Definition scanned (entries : list MadtElem) (s s' : Scan) (d d' : Dev) : Prop :=
  sc_overrides s' = collect (sc_overrides s) entries ∧ d' = w_bsp_id (d_bsp_id d') d ∧ (u8 (d_bsp_id d) → u8 (d_bsp_id d')).

Lemma scan_entry_ok e s c d :
  entry_ok e → ∃ s' d', scan_entry e s (c, d) = Ret (s', (c, d')) ∧ scanned [e] s s' d d'.
Proof.
  intros He. destruct e; cbn [entry_ok] in He; try done; unfold scanned, collect; cbn [foldl collect_entry scan_entry].
  - destruct (sc_flag s).
    + eexists _, (w_bsp_id apic_id d). split; [reflexivity|]. by split_and!.
    + eexists _, d. split; [reflexivity|]. split_and!; [done|by destruct d|done].
  - destruct He as (Hi & Hf & Hn). destruct (override_flags _ Hf Hn) as [Ep Et]. rewrite Ep, Et.
    unfold uadd8, IRQ_BASE, PICM_OFFSET. rewrite (proj2 (Z.ltb_lt _ _)) by lia.
    eexists _, d. split; [reflexivity|]. split_and!; [|by destruct d|done]. cbn [sc_overrides]. unfold override_irq.
    f_equal. unfold flags_override. by destruct (_ =? 3).
  - eexists _, d. split; [reflexivity|]. split_and!; [done|by destruct d|done].
  - eexists _, d. split; [reflexivity|]. split_and!; [done|by destruct d|done].
  - eexists _, d. split; [reflexivity|]. split_and!; [done|by destruct d|done].
  - eexists _, d. split; [reflexivity|]. split_and!; [done|by destruct d|done].
Qed.

Lemma scan_ok entries s c d :
  Forall entry_ok entries → ∃ s' d', scan entries s (c, d) = Ret (s', (c, d')) ∧ scanned entries s s' d d'.
Proof.
  revert s d. induction entries as [|e entries IH]; intros s d He.
  - exists s, d. unfold scanned. split_and!; [done|done|by destruct d|done].
  - apply Forall_cons in He as [He Hes]. destruct (scan_entry_ok e s c d He) as (s1 & d1 & E1 & Ho1 & Hd1 & Hb1).
    destruct (IH s1 d1 Hes) as (s2 & d2 & E2 & Ho2 & Hd2 & Hb2). exists s2, d2.
    cbn [scan]. rewrite (M_bind_Ret _ _ _ _ _ E1). split; [exact E2|]. split; [|split].
    + rewrite Ho2, Ho1. done.
    + rewrite Hd2, Hd1. by destruct d.
    + auto.
Qed.

Lemma scan_app xs ys s st : scan (xs ++ ys) s st = (s ← scan xs s; scan ys s) st.
Proof.
  revert s st. induction xs as [|e xs IH]; intros s st; [done|]. cbn [scan app]. unfold mbind, M_bind.
  destruct (scan_entry e s st) as [[s1 st1]| | |]; [exact (IH s1 st1)|done..].
Qed.

(** The number of the last pin, as the version register says. *)
Definition last_pin (sel win : Z) (h : list Io) : Z :=
  as_u8 (get_bits (dev_read (h ++ [MWrite sel IO_APIC_VER]) win) (16, 24)).

Lemma io_apic_init_pins addr sel c d :
  phys_to_virt addr = Ret sel → 0 <= sel → sel + 0x10 < U64 →
  let m := last_pin sel (sel + 0x10) (d_io d) in
  ∃ h, io_apic_init addr (c, d) = Ret ((), (c, w_io h (w_io_apic (mkIoApic sel (sel + 0x10) m) d))) ∧
    ∀ p, 0 <= p <= m → pin sel (sel + 0x10) h p = Some irq_new_masked.
Proof.
  intros Hp H0 H1 m. unfold io_apic_init. rewrite Hp.
  rewrite (M_bind_Ret _ _ _ sel (c, d)) by done.
  rewrite (M_bind_Ret _ _ _ (sel + 0x10) (c, d)) by (unfold lift; by rewrite uadd_ok by lia).
  rewrite (M_bind_Ret _ _ _ (d_io_apic d) (c, d)) by done.
  set (a0 := mkIoApic sel (sel + 0x10) (max_irq_index (d_io_apic d))).
  rewrite (M_bind_Ret _ _ _ () (c, w_io_apic a0 d)) by done.
  set (h1 := d_io d ++ [MWrite sel IO_APIC_VER; MRead (sel + 0x10)]).
  rewrite (M_bind_Ret _ _ _ (dev_read (d_io d ++ [MWrite sel IO_APIC_VER]) (sel + 0x10)) (c, w_io h1 (w_io_apic a0 d))).
  2:{ unfold ioapic_read_reg, of_dev, mwrite, mread, on_dev, mbind, M_bind, h1.
      cbn. by rewrite M_ret_eq, <- !app_assoc. }
  fold m. rewrite (M_bind_Ret _ _ _ () (c, w_io h1 (w_io_apic (mkIoApic sel (sel + 0x10) m) d))) by done.
  destruct (mask_irqs_pins (BL:=BL) sel (sel + 0x10) m ltac:(lia) (Z.to_nat (m + 1)) 0 c
    (w_io h1 (w_io_apic (mkIoApic sel (sel + 0x10) m) d)) eq_refl) as (h & E & Hpins).
  exists h. split; [exact E|]. intros p Hp'. rewrite Hpins by lia. by rewrite decide_True by lia.
Qed.

(** The part of [init] that programs the io apic. *)
Definition program_io_apic (entries : list MadtElem) (s : Scan) : KM Scan :=
  s ← scan entries s; route_irqs irq_arr (sc_overrides s);; mret s.

Lemma program_pins pre post id addr sel s c d :
  Forall entry_ok pre → Forall entry_ok post → is_usize addr → a_new (AddrOps:=PA) addr = Ret addr →
  phys_to_virt addr = Ret sel → 0 <= sel → sel + 0x10 < U64 → u8 (d_bsp_id d) →
  let m := last_pin sel (sel + 0x10) (d_io d) in
  let ov := collect (sc_overrides s) (pre ++ post) in
  ∃ s' d', program_io_apic (pre ++ IoApic id addr 0 :: post) s (c, d) = Ret (s', (c, d')) ∧ sc_overrides s' = ov ∧
    (∀ p, 0 <= p <= m → pin sel (sel + 0x10) (d_io d') p =
      Some (match routed ov p irq_arr with Some irq => irq_entry ov (d_bsp_id d') irq | None => irq_new_masked end)) ∧
    u8 (d_bsp_id d').
Proof.
  intros Hpre Hpost Hu Hn Hv H0 H1 Hb m ov. unfold program_io_apic.
  destruct (scan_ok pre s c d Hpre) as (s1 & d1 & E1 & Ho1 & Hd1 & Hb1).
  assert (d_io d1 = d_io d) as Hio by by rewrite Hd1.
  destruct (io_apic_init_pins addr sel c d1 Hv H0 H1) as (h & E2 & Hmask). rewrite Hio in E2, Hmask. fold m in E2, Hmask.
  set (d2 := w_io h (w_io_apic (mkIoApic sel (sel + 0x10) m) d1)) in *.
  destruct (scan_ok post s1 c d2 Hpost) as (s3 & d3 & E3 & Ho3 & Hd3 & Hb3).
  assert (scan (pre ++ IoApic id addr 0 :: post) s (c, d) = Ret (s3, (c, d3))) as Escan.
  { rewrite scan_app, (M_bind_Ret _ _ _ _ _ E1). cbn [scan].
    rewrite (M_bind_Ret _ _ _ s1 (c, d2)); [exact E3|]. cbn [scan_entry assert_].
    rewrite (M_bind_Ret _ _ _ () (c, d1)) by done.
    rewrite (M_bind_Ret _ _ _ addr (c, d1)) by (unfold lift; by rewrite Hn).
    by rewrite (M_bind_Ret _ _ _ _ _ E2). }
  destruct (route_irqs_pins (BL:=BL) sel (sel + 0x10) m ltac:(lia) (sc_overrides s3) irq_arr c d3) as (h' & E4 & Hpins).
  { by rewrite Hd3. }
  { apply Hb3. by apply Hb1. }
  { apply (bool_decide_unpack _). vm_compute. exact I. }
  exists s3, (w_io h' d3). rewrite (M_bind_Ret _ _ _ _ _ Escan), (M_bind_Ret _ _ _ _ _ E4). split; [done|].
  assert (sc_overrides s3 = ov) as Hov by (rewrite Ho3, Ho1; unfold ov, collect; by rewrite foldl_app).
  split; [done|]. split; [|by apply Hb3, Hb1]. intros p Hp. cbn [d_io w_io d_bsp_id]. rewrite Hpins, Hov by lia.
  destruct (routed ov p irq_arr); [done|]. rewrite Hd3. by apply Hmask.
Qed.
End init_spec.

Section routes.
Context {DV : Devices} {B : Build} {AD : Addresses} {BF : Bitfields} {BL : BitfieldLaws}.

Lemma irq_entry_read ov bsp irq :
  u8 bsp → u8 irq →
  let e := irq_entry ov bsp irq in
  bits_of 0 8 e = irq ∧ bits_of 16 1 e = 0 ∧ bits_of 56 8 e = (if irq =? IRQ_TIMER then 0 else bsp) ∧
  bits_of 13 1 e = pin_polarity_bits (ov_polarity (get_irq ov irq)) ∧
  bits_of 15 1 e = trigger_mode_bits (ov_trigger_mode (get_irq ov irq)) ∧ bits_of 8 3 e = 0.
Proof.
  intros Hb Hi e. unfold u8 in *. unfold e, irq_entry, irq_entry_from, irq_with_dest, irq_with_dest_mode, irq_with_trigger_mode,
    irq_with_polarity, irq_with_vec, irq_with_deliv_mode.
  pose proof (pin_polarity_range (ov_polarity (get_irq ov irq))).
  pose proof (trigger_mode_range (ov_trigger_mode (get_irq ov irq))).
  destruct (irq =? IRQ_TIMER); cbn [dest_mode_bits deliv_mode_bits]; rf; split_and!; done.
Qed.

Lemma masked_read : bits_of 16 1 irq_new_masked = 1 ∧ bits_of 0 8 irq_new_masked = 0.
Proof. unfold irq_new_masked, irq_with_masked. cbn [Z.b2z]. rf. done. Qed.

Lemma routed_in ov p irqs irq : routed ov p irqs = Some irq → irq ∈ irqs ∧ as_u8 (ov_sysint (get_irq ov irq)) = p.
Proof.
  induction irqs as [|i irqs IH]; cbn [routed]; [done|]. destruct (routed ov p irqs) as [j|].
  - intros [= ->]. destruct IH; [done|]. split; [by apply list_elem_of_further|done].
  - destruct (Z.eqb_spec (as_u8 (ov_sysint (get_irq ov i))) p); [|done]. intros [= ->]. split; [constructor|done].
Qed.

Lemma irq_arr_range irq : irq ∈ irq_arr → 32 <= irq < 48.
Proof.
  intros H. assert (Forall (λ i, 32 <= i < 48) irq_arr) as HF.
  { apply (bool_decide_unpack _). vm_compute. exact I. }
  rewrite Forall_forall in HF. by apply HF.
Qed.

Context (pre post : list MadtElem) (id addr sel : Z).
Context (Hpre : Forall entry_ok pre) (Hpost : Forall entry_ok post).
Context (Haddr : is_usize addr) (Hnew : a_new (AddrOps:=PA) addr = Ret addr).
Context (Hvirt : phys_to_virt addr = Ret sel) (Hsel : 0 <= sel) (Hwin : sel + 0x10 < U64).


(** A line the tables do not override gets, as its system interrupt, its vector and not its
    number: on an io apic with at most 32 pins no pin ever has the vector of that line, and
    [apic::init] loses its interrupts without a sign. *)
Theorem apic_drops_lines la c d irq :
  u8 (d_bsp_id d) → irq ∈ irq_arr → collect ∅ (pre ++ post) !! irq = None →
  last_pin sel (sel + 0x10) (d_io d) < 32 →
  ∃ s d', program_io_apic (pre ++ IoApic id addr 0 :: post) (mkScan la ∅ [] true) (c, d) = Ret (s, (c, d')) ∧
    ∀ p e, 0 <= p <= last_pin sel (sel + 0x10) (d_io d) → pin sel (sel + 0x10) (d_io d') p = Some e → bits_of 0 8 e ≠ irq.
Proof.
  intros Hb Hirq Hov Hlast.
  destruct (program_pins pre post id addr sel (mkScan la ∅ [] true) c d) as (s & d' & E & _ & Hpins & Hb'); [done..|].
  exists s, d'. split; [exact E|]. intros p e Hp He. rewrite Hpins in He by done. cbn [sc_overrides] in He.
  apply irq_arr_range in Hirq.
  destruct (routed (collect ∅ (pre ++ post)) p irq_arr) as [j|] eqn:Er; apply (inj Some) in He as <-;
    [|pose proof (proj2 masked_read) as Em; intros H; rewrite Em in H; lia].
  apply routed_in in Er as [Hin%irq_arr_range Hs].
  destruct (irq_entry_read (collect ∅ (pre ++ post)) (d_bsp_id d') j) as (-> & _); [done|unfold u8; lia|].
  intros ->. unfold get_irq in Hs. rewrite Hov in Hs. cbn [ov_sysint] in Hs. unfold as_u8 in Hs.
  rewrite Z.mod_small in Hs by lia. lia.
Qed.
End routes.

(** The trigger mode of an override follows the polarity, whatever its own two bits say:
    an active high, level triggered line is set up for edges. *)
Lemma trigger_follows_polarity f :
  0 <= f < 2 ^ 16 → get_bits f (0, 2) ≠ 2 →
  override_trigger_mode f = Ret Level ↔ override_polarity f = Ret ActiveLow.
Proof.
  intros Hf Hn. destruct (override_flags f Hf Hn) as [-> ->]. unfold flags_override.
  by destruct (_ =? 3).
Qed.

Lemma active_high_level_is_edge : override_polarity 0xd = Ret ActiveHigh ∧ override_trigger_mode 0xd = Ret Edge.
Proof. split; reflexivity. Qed.

(** ** The timer of the local apic *)
Section calibration.
Context {DV : Devices} {B : Build} {AD : Addresses} {BF : Bitfields} {CPU : Cpu}.
Context (other : IntHandlerFunc → Registers → Z → KM (bool * Registers)).

Definition quiet_cpu (c : CpuState) : Prop := idt_ok (gs_idt (gs c)) ∧ other_alive (gs c) = false.

(** A pending one shot, and its interrupt acknowledged to the controllers of the PC. *)
Lemma irq_stub_one_shot regs c d :
  quiet_cpu c → p_lock (d_pit d) = false → d_use_apic d = false →
  handler_override (gs_idt (gs c)) !! Z.to_nat IRQ_TIMER = Some (Some one_shot_handler) →
  ∃ r t, irq_stub other IRQ_TIMER regs (c, d) =
    Ret (r, (mkCpu (int_on c) (gs (with_override IRQ_TIMER None c)),
      let d := fires (d_oneshot d) (after_disable (w_thread_regs t d)) in
      w_io (d_io d ++ [Out PICM_COMMAND PIC_EOI]) d)).
Proof.
  intros [Hok Ha] Hl Hu Ho. unfold irq_stub.
  rewrite (M_bind_Ret _ _ _ (int_on c) (c, d)) by by destruct c.
  rewrite (M_bind_Ret _ _ _ () (mkCpu false (gs c), d)) by by destruct c.
  unfold call_handler.
  rewrite (M_bind_Ret _ _ _ _ _ (one_shot_interrupt _ regs 0 (mkCpu false (gs c)) d Hok Ha Hl Ho)).
  set (r := regs_with_calls _ _ _). set (d1 := fires _ _).
  assert (d_use_apic d1 = false) as Hu1 by (unfold d1; by destruct (d_oneshot d)).
  rewrite (M_bind_Ret _ _ _ () (with_override IRQ_TIMER None (mkCpu false (gs c)), w_io (d_io d1 ++ [Out PICM_COMMAND PIC_EOI]) d1)).
  2:{ unfold eoi. rewrite (M_bind_Ret _ _ _ false (with_override IRQ_TIMER None (mkCpu false (gs c)), d1))
        by (unfold use_apic, of_dev; by rewrite Hu1).
      rewrite andb_false_r. reflexivity. }
  eexists _, r. unfold mbind, M_bind, on_cpu, set_int_enabled. by destruct (int_on c).
Qed.

(** The turns of the wait: the interrupt comes at the first, the second sees the flag. *)
Lemma wait_calibrate_fires fuel regs c d :
  quiet_cpu c → p_lock (d_pit d) = false → d_use_apic d = false → int_on c = true →
  handler_override (gs_idt (gs c)) !! Z.to_nat IRQ_TIMER = Some (Some one_shot_handler) →
  d_oneshot d = cb_calibrate_fired → d_calibrate_fired d = false → dev_timer_irq (d_io d) = true →
  ∃ d', wait_calibrate other (S (S fuel)) regs (c, d) = Ret ((), (mkCpu true (gs (with_override IRQ_TIMER None c)), d')) ∧
    d_io d' = d_io d ++ [Out PIT_COMMAND 0x32; Out PICM_COMMAND PIC_EOI] ∧ d_nanosec_per_tick d' = d_nanosec_per_tick d.
Proof.
  intros Hq Hl Hu Hi Ho Hf Hc Hirq.
  destruct (irq_stub_one_shot regs c d Hq Hl Hu Ho) as (r & t & E). rewrite Hf, Hi in E.
  pose (d1 := fires cb_calibrate_fired (after_disable (w_thread_regs t d))).
  pose (d' := w_io (d_io d1 ++ [Out PICM_COMMAND PIC_EOI]) d1). fold d1 in E. cbv zeta in E. fold d' in E. exists d'.
  split; [|split; [unfold d', d1; cbn; by rewrite <- app_assoc|done]].
  cbn [wait_calibrate]. rewrite (M_bind_Ret _ _ _ false (c, d)) by (unfold of_dev; by rewrite Hc).
  rewrite (M_bind_Ret _ _ _ (d_io d) (c, d)) by done.
  rewrite (M_bind_Ret _ _ _ true (c, d)) by (unfold on_cpu, is_int_enabled; by rewrite <- Hi).
  rewrite Hirq. cbn [andb].
  rewrite (M_bind_Ret _ _ _ () (mkCpu true (gs (with_override IRQ_TIMER None c)), d')).
  - by rewrite (M_bind_Ret _ _ _ true (mkCpu true (gs (with_override IRQ_TIMER None c)), d')).
  - by rewrite (M_bind_Ret _ _ _ _ _ E).
Qed.

Context (l : LocalApic) (c : CpuState) (d : Dev).
Context (Hq : quiet_cpu c) (Hlock : p_lock (d_pit d) = false) (Hfired : d_calibrate_fired d = false).
Context (Hfirst : d_nanosec_per_tick d = 0).
Context (Hla : 0 <= la_addr l) (Hla' : la_addr l + TIMER_DIVIDE_CONFIG < U64).

(** The accesses up to the interrupt, and up to the reading of the count. *)
Definition armed : list Io := d_io d ++ MWrite (la_addr l + TIMER_INIT_COUNT) u32_max :: reset_words 23866.
Definition counted : list Io := armed ++ [Out PIT_COMMAND 0x32; Out PICM_COMMAND PIC_EOI].

Context (Hirq : dev_timer_irq armed = true).

Lemma calibrate_runs fuel regs :
  (2 <= fuel)%nat → 0 <= dev_read counted (la_addr l + TIMER_COUNT) <= u32_max →
  let ticks := u32_max - dev_read counted (la_addr l + TIMER_COUNT) in
  ∃ d', d_use_apic d' = true ∧ d_calibrate_fired d' = false ∧ d_nanosec_per_tick d' = 0 ∧
  nanosec_per_timer_tick other fuel regs l (c, d) =
    (out ← lift (udiv 20000000 ticks); on_dev (w_nanosec_per_tick out);; mret out)
      (mkCpu false (gs (with_override IRQ_TIMER None (with_override IRQ_TIMER (Some one_shot_handler) c))), d').
Proof.
  intros Hfuel Hcnt ticks. destruct fuel as [|[|fuel]]; [lia|lia|].
  unfold nanosec_per_timer_tick. rewrite (M_bind_Ret _ _ _ 0 (c, d)) by (unfold of_dev; by rewrite Hfirst).
  cbn [negb Z.eqb].
  set (d1 := w_io (d_io d ++ [MWrite (la_addr l + TIMER_INIT_COUNT) u32_max]) d).
  unfold TIMER_DIVIDE_CONFIG in *.
  assert (∀ reg, 0 <= reg <= 0x3e0 → is_usize (la_addr l + reg)) as Hreg by (intros; unfold is_usize; lia).
  rewrite (M_bind_Ret _ _ _ () (c, d1)) by (apply mwrite_reg, Hreg; unfold TIMER_INIT_COUNT; lia).
  rewrite (M_bind_Ret _ _ _ () (c, w_use_apic false d1)) by done.
  rewrite (M_bind_Ret _ _ _ () (mkCpu true (gs c), w_use_apic false d1)) by by destruct c.
  destruct Hq as [Hok Ha].
  rewrite (M_bind_Ret _ _ _ _ _ (one_shot_eq TIMER_CALIBRATE_TIME cb_calibrate_fired (mkCpu true (gs c)) (w_use_apic false d1)
    Hok Ha Hlock ltac:(unfold TIMER_CALIBRATE_TIME; lia) ltac:(done))).
  set (c2 := with_override _ _ _). set (d2 := after_reset _ _).
  destruct (wait_calibrate_fires fuel regs c2 d2) as (d3 & E3 & Hio & Hns).
  { split; [by apply with_override_ok|done]. }
  { done. }
  { done. }
  { done. }
  { unfold c2. cbn [with_override gs cpu_with_gs gs_idt gs_with_idt set_override handler_override].
    apply list_lookup_insert_eq. destruct Hok as (_ & -> & _). unfold IDT_SIZE, IRQ_TIMER, PICM_OFFSET. lia. }
  { done. }
  { done. }
  { unfold d2, after_reset. cbn [d_io w_io w_pit d1 w_use_apic w_oneshot]. rewrite <- app_assoc. exact Hirq. }
  assert (d_io d3 = counted) as Hio3.
  { rewrite Hio. unfold counted, armed, d2, after_reset, d1. cbn [d_io w_io w_pit w_use_apic w_oneshot].
    by rewrite <- !app_assoc. }
  rewrite (M_bind_Ret _ _ _ _ _ E3). set (c4 := mkCpu true _).
  rewrite (M_bind_Ret _ _ _ () (mkCpu false (gs c4), d3)) by done.
  rewrite (M_bind_Ret _ _ _ () (mkCpu false (gs c4), w_use_apic true d3)) by done.
  rewrite (M_bind_Ret _ _ _ (dev_read counted (la_addr l + TIMER_COUNT))
    (mkCpu false (gs c4), w_io (counted ++ [MRead (la_addr l + TIMER_COUNT)]) (w_use_apic true d3))).
  2:{ unfold read_reg_32, lift, mread, of_dev, on_dev, mbind, M_bind. rewrite uadd_ok by (apply Hreg; unfold TIMER_COUNT; lia).
      cbn [mbind res_bind d_io w_use_apic]. by rewrite Hio3. }
  rewrite (M_bind_Ret _ _ _ _ _ (mwrite_reg l TIMER_INIT_COUNT 0 (mkCpu false (gs c4)) _ (Hreg TIMER_INIT_COUNT ltac:(unfold TIMER_INIT_COUNT; lia)))).
  unfold lapic_eoi.
  rewrite (M_bind_Ret _ _ _ _ _ (mwrite_reg l LA_EOI 0 (mkCpu false (gs c4)) _ (Hreg LA_EOI ltac:(unfold LA_EOI; lia)))).
  set (d4 := w_io _ _). rewrite (M_bind_Ret _ _ _ () (mkCpu false (gs c4), w_calibrate_fired false d4)) by done.
  rewrite (M_bind_Ret _ _ _ ticks (mkCpu false (gs c4), w_calibrate_fired false d4))
    by (unfold lift, usub32; by rewrite (proj2 (Z.leb_le _ _)) by lia).
  exists (w_calibrate_fired false d4). split; [done|]. split; [done|]. split; [|done].
  cbn. rewrite Hns. exact Hfirst.
Qed.

(** The first use of the local timer calibrates it: the interval timer fires once, the wait
    ends, the nanoseconds of a tick are 20 ms over the ticks counted, and are kept; interrupts are off,
    the handlers of the timer are back, the local apic is in use again.  A timer that did not
    move panics. *)
Theorem calibrate_spec fuel regs :
  (2 <= fuel)%nat → 0 <= dev_read counted (la_addr l + TIMER_COUNT) <= u32_max →
  let ticks := u32_max - dev_read counted (la_addr l + TIMER_COUNT) in
  (ticks = 0 → nanosec_per_timer_tick other fuel regs l (c, d) = Panic) ∧
  (ticks ≠ 0 → ∃ c' d', nanosec_per_timer_tick other fuel regs l (c, d) = Ret (20000000 / ticks, (c', d')) ∧
     int_on c' = false ∧ handlers (gs_idt (gs c')) = handlers (gs_idt (gs c)) ∧
     handler_override (gs_idt (gs c')) !! Z.to_nat IRQ_TIMER = Some None ∧ other_alive (gs c') = false ∧
     d_use_apic d' = true ∧ d_calibrate_fired d' = false ∧ d_nanosec_per_tick d' = 20000000 / ticks).
Proof.
  intros Hfuel Hcnt ticks. destruct (calibrate_runs fuel regs Hfuel Hcnt) as (d' & Hu & Hf & _ & E). fold ticks in E.
  split; intros Ht; rewrite E; unfold udiv, lift, mbind, M_bind.
  - by rewrite Ht.
  - rewrite (proj2 (Z.eqb_neq _ _)) by done. cbn [mbind res_bind]. eexists _, _. split; [done|].
    destruct Hq as [(_ & Ho & _) Ha]. split_and!; try done.
    cbn [with_override gs cpu_with_gs gs_idt gs_with_idt set_override handler_override].
    rewrite list_lookup_insert_eq; [done|]. rewrite length_insert, Ho. unfold IDT_SIZE, IRQ_TIMER, PICM_OFFSET. lia.
Qed.
End calibration.

(** ** A concrete machine *)
#[local] Existing Instance dev.
#[local] Instance MaskFields : Bitfields := bf_mask.

(** A version register with 24 pins, a count of a million ticks, a timer that fires. *)
#[local] Instance demo_devices : Devices := {
  dev_in _ _ := 0;
  dev_read _ a := if a =? 0x2010 then 0x170011 else if a =? 0x1390 then u32_max - 1000000 else 0;
  dev_timer_irq _ := true;
  dev_cpuid _ := (0, 0, 0, 0x200);
}.

Definition demo_lapic : LocalApic := mkLapic 0x1000 0 0.
Definition demo_other : IntHandlerFunc → Registers → Z → KM (bool * Registers) := λ _ r _, mret (false, r).

Lemma calibrate_spec_witness :
  ∃ c' d', @nanosec_per_timer_tick demo_devices dev demo_other 2 regs_zero demo_lapic (demo_cpu, dev_new) =
    Ret (20, (c', d')) ∧ d_use_apic d' = true.
Proof.
  destruct (proj2 (@calibrate_spec demo_devices dev demo_other demo_lapic demo_cpu dev_new
    (conj idt_new_ok eq_refl) eq_refl eq_refl eq_refl ltac:(vm_compute; done) ltac:(vm_compute; done) eq_refl 2 regs_zero
    ltac:(lia) ltac:(vm_compute; split; done)) ltac:(vm_compute; done)) as (c' & d' & H & _ & _ & _ & _ & Hu & _).
  exists c', d'. exact (conj H Hu).
Defined.

Lemma send_ipi_roundtrip_witness :
  ∃ high low, @send_ipi dev MaskFields demo_lapic (IpiSipi AllExcludeThis 8) (demo_cpu, dev_new) =
      Ret ((), (demo_cpu, w_io [MWrite 0x1310 high; MWrite 0x1300 low] dev_new)) ∧
    decode_cmd (low + 2 ^ 32 * high) = Some (IpiSipi AllExcludeThis 8).
Proof.
  destruct (@send_ipi_roundtrip dev MaskFields bf_mask_laws demo_lapic (IpiSipi AllExcludeThis 8) demo_cpu dev_new
    ltac:(vm_compute; done) ltac:(vm_compute; done) ltac:(vm_compute; done)) as (high & low & H & _ & _ & Hd & _).
  exists high, low. exact (conj H Hd).
Defined.

(** The tables of a common machine: the timer's line is pin 2. *)
Definition demo_pre : list MadtElem := [ProcLocalApic 0 0 1; ProcLocalApic 1 1 1].
Definition demo_post : list MadtElem := [IoApicSrcOverride 0 0 2 0].

Lemma demo_entries : Forall entry_ok demo_pre ∧ Forall entry_ok demo_post.
Proof.
  unfold demo_pre, demo_post. split; repeat constructor; vm_compute; try done; intros [=].
Qed.


Lemma apic_drops_lines_witness :
  ∃ s d', @program_io_apic demo_devices dev DemoAddresses MaskFields (demo_pre ++ IoApic 0 0x2000 0 :: demo_post)
      (mkScan 0 ∅ [] true) (demo_cpu, dev_new) = Ret (s, (demo_cpu, d')) ∧
    ∀ p e, 0 <= p <= 23 → pin 0x2000 0x2010 (d_io d') p = Some e → bits_of 0 8 e ≠ IRQ_KEYBOARD.
Proof.
  exact (@apic_drops_lines demo_devices dev DemoAddresses MaskFields bf_mask_laws demo_pre demo_post 0 0x2000 0x2000
    (proj1 demo_entries) (proj2 demo_entries) ltac:(vm_compute; done) ltac:(vm_compute; done) ltac:(vm_compute; done)
    ltac:(vm_compute; done) ltac:(vm_compute; done) 0 demo_cpu dev_new IRQ_KEYBOARD ltac:(vm_compute; done)
    ltac:(apply (bool_decide_unpack _); vm_compute; exact I) ltac:(vm_compute; done) ltac:(vm_compute; done)).
Defined.
