(* ===== verification/Console.v ===== *)
(** * The console: [kernel/src/util/io.rs]

    The writer of the text screen, 25 rows of 80 cells, and the port writer the
    system call [sys_print_debug] uses.

    [console_refines]: the screen is always the last rows of everything written, on
    an unbounded page of rows of 80 cells; in particular no write indexes a cell that
    is not there.  [print_debug_spec]: the system call prints the first bytes of its
    argument words. *)

From S2P Require Import Prelude Misc Sys Thread Int Time.

Definition VGA_BUF_WIDTH : nat := 80.
Definition VGA_BUF_HEIGHT : nat := 25.
Definition DEBUGCON_PORT : Z := 0xe9.

Inductive Color :=
  | Black | Blue | Green | Cyan | Red | Magenta | Brown | LightGray
  | DarkGray | LightBlue | LightGreen | LightCyan | LightRed | Pink | Yellow | White.

(** [as u8]. *)
Definition color_u8 (c : Color) : Z :=
  match c with
  | Black => 0 | Blue => 1 | Green => 2 | Cyan => 3 | Red => 4 | Magenta => 5 | Brown => 6 | LightGray => 7
  | DarkGray => 8 | LightBlue => 9 | LightGreen => 10 | LightCyan => 11 | LightRed => 12 | Pink => 13
  | Yellow => 14 | White => 15
  end.

Definition color_code (foreground background : Color) : Z :=
  Z.lor (as_u8 (Z.shiftl (color_u8 background) 4)) (color_u8 foreground).

Record ScreenChar := mkChar { cchar : Z; sc_color : Z }.

Abbreviation Buffer := (list (list ScreenChar)).

Record Writer := mkWriter { xpos : nat; ypos : nat; w_color : Z; w_buffer : Buffer }.

Definition with_pos (x y : nat) (w : Writer) : Writer := mkWriter x y (w_color w) (w_buffer w).
Definition with_buffer (b : Buffer) (w : Writer) : Writer := mkWriter (xpos w) (ypos w) (w_color w) b.

(** [chars[y][x].read()] and [.write(c)]: indexing panics out of bounds. *)
Definition read_cell (y x : nat) (w : Writer) : res ScreenChar :=
  row ← unwrap (w_buffer w !! y); unwrap (row !! x).
Definition write_cell (y x : nat) (c : ScreenChar) (w : Writer) : res Writer :=
  row ← unwrap (w_buffer w !! y); unwrap (row !! x);; Ret (with_buffer (<[y := <[x := c]> row]> (w_buffer w)) w).

(** [for i in i..(i + n)]. *)
Fixpoint for_range (n i : nat) (body : nat → Writer → res Writer) (w : Writer) : res Writer :=
  match n with O => Ret w | S n => w ← body i w; for_range n (S i) body w end.

Definition clear_row (row : nat) (w : Writer) : res Writer :=
  let blank := mkChar 0x20 (w_color w) in
  for_range VGA_BUF_WIDTH 0 (λ x, write_cell row x blank) w.

Definition clear (w : Writer) : res Writer := for_range VGA_BUF_HEIGHT 0 clear_row w.

Definition scroll_down (lines : nat) (w : Writer) : res Writer :=
  if (VGA_BUF_HEIGHT <=? lines)%nat then for_range VGA_BUF_HEIGHT 0 clear_row w
  else
    w ← for_range (VGA_BUF_HEIGHT - lines) 0
          (λ y, for_range VGA_BUF_WIDTH 0 (λ x w, c ← read_cell (y + lines) x w; write_cell y x c w)) w;
    for_range lines (VGA_BUF_HEIGHT - lines) clear_row w.

Definition wrap_pos (w : Writer) : res Writer :=
  let w := if (VGA_BUF_WIDTH <=? xpos w)%nat then with_pos 0 (ypos w + 1) w else w in
  if (VGA_BUF_HEIGHT <=? ypos w)%nat
  then w ← scroll_down (ypos w - VGA_BUF_HEIGHT + 1) w; Ret (with_pos (xpos w) (VGA_BUF_HEIGHT - 1) w)
  else Ret w.

Definition write_byte (byte : Z) (w : Writer) : res Writer :=
  if byte =? 0x0a then wrap_pos (with_pos 0 (ypos w + 1) w)
  else
    w ← write_cell (ypos w) (xpos w) (mkChar byte (w_color w)) w;
    wrap_pos (with_pos (xpos w + 1) (ypos w) w).

(** The bytes of the string: printable ASCII and newlines, a square for the others. *)
Definition shown (b : Z) : Z := if ((0x20 <=? b) && (b <=? 0x7e)) || (b =? 0x0a) then b else 0xfe.

Fixpoint write_string (string : list Z) (w : Writer) : res Writer :=
  match string with [] => Ret w | b :: string => w ← write_byte (shown b) w; write_string string w end.

(** The static writer, over what the screen's memory holds. *)
Definition writer_new (b : Buffer) : Writer := mkWriter 0 0 (color_code Yellow Black) b.

(** ** The debug port *)
Section port.
Context {DV : Devices}.

Definition port_write_byte (port byte : Z) : KM () := outb port byte.

Fixpoint port_write_string (port : Z) (string : list Z) : KM () :=
  match string with [] => mret () | b :: string => port_write_byte port b;; port_write_string port string end.

(** [while i < size_of::<usize>() && n > 0]; [fuel] is what is left of the first bound. *)
Fixpoint print_bytes (fuel : nat) (i : Z) (bytes : Z) (n : nat) : KM nat :=
  match fuel, n with
  | S fuel, S n => port_write_byte DEBUGCON_PORT (as_u8 (get_bits bytes (8 * i, 8 * i + 8)));; print_bytes fuel (i + 1) bytes n
  | _, _ => mret n
  end.

Fixpoint print_words (words : list Z) (n : nat) : KM nat :=
  match words with [] => mret n | a :: words => n ← print_bytes 8 0 a n; print_words words n end.

(** [options] and the ten arguments. *)
Definition sys_print_debug (options : Z) (args : list Z) : KM () :=
  print_words args (Z.to_nat (Z.min options 80));; mret ().
End port.

(** ** Theorems *)

Definition dims (b : Buffer) : Prop :=
  length b = VGA_BUF_HEIGHT ∧ Forall (λ r, length r = VGA_BUF_WIDTH) b.

Definition blank_row (color : Z) : list ScreenChar := replicate VGA_BUF_WIDTH (mkChar 0x20 color).

Lemma dims_row b y : dims b → (y < VGA_BUF_HEIGHT)%nat → ∃ r, b !! y = Some r ∧ length r = VGA_BUF_WIDTH.
Proof.
  intros [Hl Hf] Hy. destruct (lookup_lt_is_Some_2 b y) as [r Hr]; [lia|]. exists r. split; [done|].
  rewrite Forall_lookup in Hf. by eapply Hf.
Qed.

Lemma dims_insert b y r : dims b → length r = VGA_BUF_WIDTH → dims (<[y := r]> b).
Proof. intros [Hl Hf] Hr. split; [by rewrite length_insert|]. by apply Forall_insert. Qed.

Lemma write_cell_eq y x c w r :
  w_buffer w !! y = Some r → (x < length r)%nat → write_cell y x c w = Ret (with_buffer (<[y := <[x := c]> r]> (w_buffer w)) w).
Proof.
  intros Hr Hx. unfold write_cell. rewrite Hr. cbn [unwrap mbind res_bind].
  by destruct (lookup_lt_is_Some_2 r x Hx) as [d ->].
Qed.

(** A loop over the cells of a row that writes [g x] at each [x]. *)
Lemma for_row y g body w n : ∀ i b r,
  (∀ x b r, (x < VGA_BUF_WIDTH)%nat → b !! y = Some r → length r = VGA_BUF_WIDTH →
     (∀ z, z ≠ y → b !! z = w_buffer w !! z) →
     body x (with_buffer b w) = Ret (with_buffer (<[y := <[x := g x]> r]> b) w)) →
  b !! y = Some r → length r = VGA_BUF_WIDTH → (∀ z, z ≠ y → b !! z = w_buffer w !! z) → (i + n <= VGA_BUF_WIDTH)%nat →
  ∃ r', for_range n i body (with_buffer b w) = Ret (with_buffer (<[y := r']> b) w) ∧ length r' = VGA_BUF_WIDTH ∧
    ∀ x, r' !! x = if decide (i <= x < i + n)%nat then Some (g x) else r !! x.
Proof.
  induction n as [|n IH]; intros i b r Hbody Hr Hlen Hb Hi; cbn [for_range].
  - exists r. rewrite list_insert_id by done. split_and!; [done|done|]. intros x. by rewrite decide_False by lia.
  - rewrite (Hbody i b r) by (done || lia). cbn [mbind res_bind].
    apply lookup_lt_Some in Hr as Hy.
    destruct (IH (S i) (<[y := <[i := g i]> r]> b) (<[i := g i]> r)) as (r' & E & Hl & Hx).
    + done.
    + by apply list_lookup_insert_eq.
    + by rewrite length_insert.
    + intros z Hz. rewrite list_lookup_insert_ne by done. by apply Hb.
    + lia.
    + exists r'. rewrite E, list_insert_insert_eq. split_and!; [done|done|]. intros x. rewrite Hx.
      destruct (decide (x = i)) as [->|Hne].
      * rewrite decide_False, decide_True by lia. apply list_lookup_insert_eq. lia.
      * rewrite list_lookup_insert_ne by done.
        destruct (decide (S i <= x < S i + n)%nat), (decide (i <= x < i + S n)%nat); done || lia.
Qed.

Lemma clear_row_eq y w :
  dims (w_buffer w) → (y < VGA_BUF_HEIGHT)%nat →
  clear_row y w = Ret (with_buffer (<[y := blank_row (w_color w)]> (w_buffer w)) w).
Proof.
  intros Hd Hy. destruct (dims_row _ _ Hd Hy) as (r & Hr & Hl). unfold clear_row.
  destruct (for_row y (λ _, mkChar 0x20 (w_color w)) (λ x, write_cell y x (mkChar 0x20 (w_color w))) w
    VGA_BUF_WIDTH 0 (w_buffer w) r) as (r' & E & Hl' & Hx); [|done..|].
  { intros x b r0 Hx Hb Hl0 _. rewrite (write_cell_eq y x _ (with_buffer b w) r0) by (done || lia). done. }
  replace (with_buffer (w_buffer w) w) with w in E by by destruct w. rewrite E. do 3 f_equal.
  apply list_eq. intros x. rewrite Hx. unfold blank_row. destruct (decide (0 <= x < 0 + VGA_BUF_WIDTH)%nat).
  - symmetry. apply lookup_replicate. split; [done|lia].
  - rewrite !(proj2 (lookup_ge_None _ _)); [done|rewrite length_replicate; lia|lia].
Qed.

(** Clearing some rows in a row. *)
Lemma clear_rows n : ∀ i w, dims (w_buffer w) → (i + n <= VGA_BUF_HEIGHT)%nat →
  ∃ b', for_range n i clear_row w = Ret (with_buffer b' w) ∧ dims b' ∧
    ∀ y, b' !! y = if decide (i <= y < i + n)%nat then Some (blank_row (w_color w)) else w_buffer w !! y.
Proof.
  induction n as [|n IH]; intros i w Hd Hi; cbn [for_range].
  - exists (w_buffer w). split; [by destruct w|]. split; [done|]. intros y. by rewrite decide_False by lia.
  - rewrite clear_row_eq by (done || lia). cbn [mbind res_bind].
    destruct (IH (S i) (with_buffer (<[i := blank_row (w_color w)]> (w_buffer w)) w)) as (b' & E & Hd' & Hy); [|lia|].
    { apply dims_insert; [done|]. apply length_replicate. }
    exists b'. rewrite E. split_and!; [done|done|]. intros y. rewrite Hy. cbn [w_color w_buffer with_buffer].
    destruct Hd as [Hl _]. destruct (decide (y = i)) as [->|Hne].
    + rewrite decide_False, decide_True by lia. apply list_lookup_insert_eq. lia.
    + rewrite list_lookup_insert_ne by done.
      destruct (decide (S i <= y < S i + n)%nat), (decide (i <= y < i + S n)%nat); done || lia.
Qed.

Lemma copy_row_eq y lines w r :
  dims (w_buffer w) → (0 < lines)%nat → (y + lines < VGA_BUF_HEIGHT)%nat → w_buffer w !! (y + lines)%nat = Some r →
  for_range VGA_BUF_WIDTH 0 (λ x w, c ← read_cell (y + lines) x w; write_cell y x c w) w
  = Ret (with_buffer (<[y := r]> (w_buffer w)) w).
Proof.
  intros Hd Hn Hy Hr. destruct (dims_row _ y Hd) as (r0 & Hr0 & Hl0); [lia|].
  destruct (dims_row _ _ Hd Hy) as (r1 & Hr1 & Hl). assert (r1 = r) as -> by congruence.
  destruct (for_row y (λ x, default (mkChar 0 0) (r !! x)) (λ x w, c ← read_cell (y + lines) x w; write_cell y x c w) w
    VGA_BUF_WIDTH 0 (w_buffer w) r0) as (r' & E & Hl' & Hx); [|done..|].
  { intros x b r2 Hx Hb Hl2 Hz. unfold read_cell. cbn [w_buffer with_buffer].
    rewrite (Hz (y + lines)%nat) by lia. rewrite Hr. cbn [unwrap mbind res_bind].
    destruct (lookup_lt_is_Some_2 r x) as [c Hc]; [lia|]. rewrite Hc. cbn [unwrap mbind res_bind default].
    rewrite (write_cell_eq y x _ (with_buffer b w) r2) by (done || lia). done. }
  replace (with_buffer (w_buffer w) w) with w in E by by destruct w. rewrite E. do 3 f_equal.
  apply list_eq. intros x. rewrite Hx. destruct (decide (0 <= x < 0 + VGA_BUF_WIDTH)%nat).
  - destruct (lookup_lt_is_Some_2 r x) as [c Hc]; [lia|]. by rewrite Hc.
  - rewrite !(proj2 (lookup_ge_None _ _)); [done|lia|lia].
Qed.

Lemma copy_rows lines b n : ∀ i w, dims b → dims (w_buffer w) → (0 < lines)%nat → (i + n + lines <= VGA_BUF_HEIGHT)%nat →
  (∀ y, (i <= y)%nat → w_buffer w !! y = b !! y) →
  ∃ b', for_range n i (λ y, for_range VGA_BUF_WIDTH 0 (λ x w, c ← read_cell (y + lines) x w; write_cell y x c w)) w
        = Ret (with_buffer b' w) ∧ dims b' ∧
    ∀ y, b' !! y = if decide (i <= y < i + n)%nat then b !! (y + lines)%nat else w_buffer w !! y.
Proof.
  induction n as [|n IH]; intros i w Hb Hd Hl Hi Hsame; cbn [for_range].
  - exists (w_buffer w). split; [by destruct w|]. split; [done|]. intros y. by rewrite decide_False by lia.
  - destruct (dims_row b (i + lines) Hb) as (r & Hr & Hlen); [lia|].
    rewrite (copy_row_eq i lines w r) by (done || lia || (rewrite Hsame by lia; done)). cbn [mbind res_bind].
    destruct (IH (S i) (with_buffer (<[i := r]> (w_buffer w)) w)) as (b' & E & Hd' & Hy);
      [done|by apply dims_insert|done|lia| |].
    { intros y Hy. cbn [w_buffer with_buffer]. rewrite list_lookup_insert_ne by lia. apply Hsame. lia. }
    exists b'. rewrite E. split_and!; [done|done|]. intros y. rewrite Hy. cbn [w_buffer with_buffer].
    destruct Hd as [Hld _]. destruct (decide (y = i)) as [->|Hne].
    + rewrite decide_False, decide_True by lia. rewrite Hr. apply list_lookup_insert_eq. lia.
    + rewrite list_lookup_insert_ne by done.
      destruct (decide (S i <= y < S i + n)%nat), (decide (i <= y < i + S n)%nat); done || lia.
Qed.

(** Scrolling drops the top rows and clears as many at the bottom. *)
Lemma scroll_down_eq lines w :
  dims (w_buffer w) → (0 < lines)%nat →
  scroll_down lines w
  = Ret (with_buffer (drop lines (w_buffer w) ++ replicate (min lines VGA_BUF_HEIGHT) (blank_row (w_color w))) w).
Proof.
  intros Hd Hl. pose proof (proj1 Hd) as Hlen. unfold scroll_down. destruct (Nat.leb_spec VGA_BUF_HEIGHT lines).
  - destruct (clear_rows VGA_BUF_HEIGHT 0 w Hd) as (b' & -> & Hd' & Hy); [lia|]. do 2 f_equal.
    rewrite drop_ge by lia. rewrite Nat.min_r by lia. cbn [app]. apply list_eq. intros y. rewrite Hy.
    destruct (decide _); [symmetry; apply lookup_replicate; split; [done|lia]|].
    rewrite !(proj2 (lookup_ge_None _ _)); [done|rewrite length_replicate; lia|lia].
  - destruct (copy_rows lines (w_buffer w) (VGA_BUF_HEIGHT - lines) 0 w) as (b1 & -> & Hd1 & Hy1); [done|done|done|lia|done|].
    cbn [mbind res_bind].
    destruct (clear_rows lines (VGA_BUF_HEIGHT - lines) (with_buffer b1 w) Hd1) as (b2 & -> & Hd2 & Hy2); [lia|].
    rewrite Nat.min_l by lia. unfold with_buffer at 1 2. cbn [xpos ypos w_color]. unfold with_buffer. do 2 f_equal.
    apply list_eq. intros y. rewrite Hy2. cbn [w_buffer with_buffer w_color].
    destruct (decide (y < VGA_BUF_HEIGHT - lines)%nat).
    + rewrite decide_False by lia. rewrite Hy1, decide_True by lia.
      rewrite lookup_app_l by (rewrite length_drop; lia). by rewrite lookup_drop, Nat.add_comm.
    + rewrite lookup_app_r by (rewrite length_drop; lia). rewrite length_drop, Hlen.
      destruct (decide _); [symmetry; apply lookup_replicate; split; [done|lia]|].
      rewrite !(proj2 (lookup_ge_None _ _)); [done|rewrite length_replicate; lia|destruct Hd1; lia].
Qed.

(** *** The abstract terminal

    A page that only grows, and a position on it: nothing scrolls and nothing is lost. *)
Record Terminal := mkTerm { page : Buffer; t_col : nat; t_line : nat }.

Definition term_newline (color : Z) (t : Terminal) : Terminal :=
  let page' := if (S (t_line t) <? length (page t))%nat then page t else (page t ++ [blank_row color])%list in
  mkTerm page' 0 (S (t_line t)).

Definition term_put (color : Z) (c : ScreenChar) (t : Terminal) : Terminal :=
  let t' := mkTerm (alter <[t_col t := c]> (t_line t) (page t)) (S (t_col t)) (t_line t) in
  if (t_col t' =? VGA_BUF_WIDTH)%nat then term_newline color t' else t'.

Definition term_byte (color byte : Z) (t : Terminal) : Terminal :=
  if byte =? 0x0a then term_newline color t else term_put color (mkChar byte color) t.

Definition term_write (color : Z) (string : list Z) (t : Terminal) : Terminal :=
  foldl (λ t b, term_byte color (shown b) t) t string.

(** The screen is the last rows of the page, the writer's position the terminal's. *)
Definition shows (w : Writer) (t : Terminal) : Prop :=
  let above := (length (page t) - VGA_BUF_HEIGHT)%nat in
  (VGA_BUF_HEIGHT <= length (page t))%nat ∧ Forall (λ r, length r = VGA_BUF_WIDTH) (page t) ∧
  w_buffer w = drop above (page t) ∧ xpos w = t_col t ∧ (t_col t < VGA_BUF_WIDTH)%nat ∧
  (ypos w + above = t_line t)%nat ∧ (ypos w < VGA_BUF_HEIGHT)%nat.

Lemma shows_dims w t : shows w t → dims (w_buffer w).
Proof.
  intros (Hl & Hf & -> & _). split; [rewrite length_drop; lia|]. by apply Forall_drop.
Qed.

(** One line down, from a column that may be past the end. *)
Lemma newline_shows w t x y :
  shows w t → (y = ypos w + 1)%nat →
  ∃ w', (if (VGA_BUF_HEIGHT <=? y)%nat
         then w ← scroll_down (y - VGA_BUF_HEIGHT + 1) (with_pos x y w);
              Ret (with_pos (xpos w) (VGA_BUF_HEIGHT - 1) w)
         else Ret (with_pos x y w)) = Ret w' ∧
    xpos w' = x ∧ w_color w' = w_color w ∧ shows (with_pos 0 (ypos w') w') (term_newline (w_color w) t).
Proof.
  intros HR ->. pose proof (shows_dims _ _ HR) as Hd. destruct HR as (Hl & Hf & Hb & Hx & Hc & Hy & Hyl).
  destruct (Nat.leb_spec VGA_BUF_HEIGHT (ypos w + 1)).
  - rewrite scroll_down_eq by (done || lia). cbn [mbind res_bind]. eexists. split_and!; [done..|].
    unfold shows, term_newline. cbn [page t_col t_line w_buffer xpos ypos with_pos with_buffer w_color].
    destruct (Nat.ltb_spec (S (t_line t)) (length (page t))); [lia|].
    rewrite length_app. cbn [length]. replace (ypos w + 1 - VGA_BUF_HEIGHT + 1)%nat with 1%nat by lia.
    split_and!; [lia| | |done|unfold VGA_BUF_WIDTH; lia|lia|lia].
    + apply Forall_app. split; [done|]. apply Forall_singleton. apply length_replicate.
    + rewrite Hb, drop_drop. rewrite drop_app_le by lia. f_equal. f_equal. lia.
  - eexists. split_and!; [done..|].
    unfold shows, term_newline. cbn [page t_col t_line w_buffer xpos ypos with_pos with_buffer w_color].
    destruct (Nat.ltb_spec (S (t_line t)) (length (page t))); [|lia].
    split_and!; (done || lia || (unfold VGA_BUF_WIDTH; lia)).
Qed.

Lemma write_byte_shows byte w t :
  shows w t → ∃ w', write_byte byte w = Ret w' ∧ w_color w' = w_color w ∧ shows w' (term_byte (w_color w) byte t).
Proof.
  intros HR. pose proof (shows_dims _ _ HR) as Hd. unfold write_byte, term_byte.
  destruct (byte =? 0x0a).
  - destruct (newline_shows w t 0 (ypos w + 1) HR eq_refl) as (w' & E & Hx & Hc & HR').
    exists w'. unfold wrap_pos. cbn [xpos ypos with_pos]. rewrite (proj2 (Nat.leb_gt VGA_BUF_WIDTH 0)) by (unfold VGA_BUF_WIDTH; lia).
    cbn [ypos with_pos]. split_and!; [exact E|done|]. destruct w' as [x' y' c' b']. cbn in Hx. by subst x'.
  - pose proof HR as (Hl & Hf & Hb & Hx & Hc & Hy & Hyl).
    destruct (dims_row _ _ Hd Hyl) as (r & Hr & Hlr).
    rewrite (write_cell_eq _ _ _ _ r) by (done || lia). cbn [mbind res_bind].
    set (c := mkChar byte (w_color w)). set (b' := <[ypos w := <[xpos w := c]> r]> (w_buffer w)).
    set (pg := alter <[t_col t := c]> (t_line t) (page t)).
    assert (Hb' : b' = drop (length pg - VGA_BUF_HEIGHT) pg).
    { unfold b', pg. rewrite length_alter, <- Hy, Hb.
      apply list_eq. intros z. rewrite lookup_drop. destruct (decide (z = ypos w)) as [->|Hne].
      - rewrite list_lookup_insert_eq by (rewrite length_drop; lia).
        rewrite (Nat.add_comm (length _ - _)), list_lookup_alter_eq, Nat.add_comm, <- lookup_drop, <- Hb, Hr. cbn. by rewrite Hx.
      - rewrite list_lookup_insert_ne by done. rewrite list_lookup_alter_ne by lia. by rewrite lookup_drop. }
    assert (Hf' : Forall (λ r, length r = VGA_BUF_WIDTH) pg).
    { apply Forall_lookup. intros z r'. unfold pg. destruct (decide (z = t_line t)) as [->|Hne].
      - rewrite list_lookup_alter_eq. intros (r0 & Hr0 & ->)%fmap_Some. rewrite length_insert.
        by eapply (Forall_lookup_1 _ _ _ _ Hf).
      - rewrite list_lookup_alter_ne by done. intros Hz. by eapply (Forall_lookup_1 _ _ _ _ Hf). }
    assert (Hl1 : length pg = length (page t)) by apply length_alter.
    unfold term_put. fold pg. clearbody pg b'. unfold wrap_pos. cbn [xpos ypos with_pos with_buffer w_buffer w_color t_col].
    replace (xpos w + 1)%nat with (S (t_col t)) by lia.
    destruct (Nat.leb_spec VGA_BUF_WIDTH (S (t_col t))); cbn [ypos with_pos].
    + rewrite (proj2 (Nat.eqb_eq (S (t_col t)) VGA_BUF_WIDTH)) by lia.
      assert (HR1 : shows (mkWriter 0 (ypos w) (w_color w) b') (mkTerm pg 0 (t_line t))).
      { unfold shows. cbn [page t_col t_line w_buffer xpos ypos]. split_and!; (done || lia || (unfold VGA_BUF_WIDTH; lia)). }
      destruct (newline_shows _ _ 0 (ypos w + 1) HR1 eq_refl) as (w' & E & Hx' & Hcc & HR').
      exists w'. split_and!; [exact E|exact Hcc|]. destruct w' as [x' y' c' b2]. cbn in Hx'. by subst x'.
    + rewrite (proj2 (Nat.eqb_neq (S (t_col t)) VGA_BUF_WIDTH)) by lia.
      rewrite (proj2 (Nat.leb_gt VGA_BUF_HEIGHT (ypos w))) by lia.
      eexists. split_and!; [done|done|]. unfold shows. cbn [page t_col t_line w_buffer xpos ypos with_pos with_buffer].
      split_and!; (done || lia).
Qed.

(** C22: the console refines the terminal that never scrolls: whatever bytes are
    written, no cell outside the screen is touched (nothing panics), and the screen is
    the last 25 rows of the page. *)
Theorem console_refines string w t :
  shows w t →
  ∃ w', write_string string w = Ret w' ∧ w_color w' = w_color w ∧ shows w' (term_write (w_color w) string t).
Proof.
  revert w t. induction string as [|b string IH]; intros w t HR; cbn [write_string]; [by exists w|].
  destruct (write_byte_shows (shown b) w t HR) as (w1 & -> & Hc & HR1). cbn [mbind res_bind].
  destruct (IH w1 _ HR1) as (w' & -> & Hc' & HR'). exists w'. rewrite Hc in Hc', HR'. done.
Qed.

Definition garbage : Buffer := replicate VGA_BUF_HEIGHT (replicate VGA_BUF_WIDTH (mkChar 0x3f 0)).

(** Thirty lines on the fresh writer. *)
Lemma console_refines_witness :
  shows (writer_new garbage) (mkTerm garbage 0 0) ∧
  ∃ w', write_string (concat (replicate 30 [0x41; 0x0a])) (writer_new garbage) = Ret w' ∧
    w_color w' = color_code Yellow Black ∧
    shows w' (term_write (color_code Yellow Black) (concat (replicate 30 [0x41; 0x0a])) (mkTerm garbage 0 0)).
Proof.
  assert (HR : shows (writer_new garbage) (mkTerm garbage 0 0)).
  { split_and!; try (vm_compute; lia); [|vm_compute; reflexivity..].
    apply Forall_replicate. apply length_replicate. }
  split; [exact HR|]. exact (console_refines _ _ _ HR).
Defined.

(** ** The debug port *)
Section print_debug.
Context {DV : Devices}.

(** The eight bytes of a word, the lowest first. *)
Definition word_bytes (a : Z) : list Z := (λ i, a / 2 ^ (8 * Z.of_nat i) mod 256) <$> seq 0 8.

Definition printed (bytes : list Z) (d : Dev) : Dev := w_io (d_io d ++ map (Out DEBUGCON_PORT) bytes) d.

Lemma print_bytes_eq a c fuel : ∀ i n d,
  is_usize a → (fuel + i <= 8)%nat →
  print_bytes fuel (Z.of_nat i) a n (c, d)
  = Ret ((n - fuel)%nat, (c, printed (take n ((λ i, a / 2 ^ (8 * Z.of_nat i) mod 256) <$> seq i fuel)) d)).
Proof.
  induction fuel as [|fuel IH]; intros i n d Ha Hi.
  - cbn [print_bytes seq fmap list_fmap]. unfold printed. rewrite take_nil, app_nil_r, Nat.sub_0_r. by destruct d.
  - destruct n as [|n]; cbn [print_bytes].
    { unfold printed. rewrite take_0, app_nil_r. by destruct d. }
    replace (Z.of_nat i + 1) with (Z.of_nat (S i)) by lia.
    erewrite M_bind_Ret by reflexivity. rewrite IH by (done || lia). do 3 f_equal.
    rewrite get_bits_val by (done || lia). replace (8 * Z.of_nat i + 8 - 8 * Z.of_nat i) with 8 by lia.
    unfold as_u8. rewrite Z.mod_mod by lia. unfold printed. cbn. by rewrite <- app_assoc.
Qed.

Lemma print_words_eq words c : ∀ n d,
  Forall is_usize words →
  ∃ n', print_words words n (c, d) = Ret (n', (c, printed (take n (words ≫= word_bytes)) d)).
Proof.
  induction words as [|a words IH]; intros n d Hw; cbn [print_words].
  - exists n. unfold printed. cbn. rewrite take_nil, app_nil_r. by destruct d.
  - apply Forall_cons in Hw as [Ha Hw]. erewrite M_bind_Ret by (by apply (print_bytes_eq a c 8 0)).
    destruct (IH (n - 8)%nat (printed (take n (word_bytes a)) d) Hw) as [n' E]. exists n'. unfold word_bytes in E.
    rewrite E. do 3 f_equal. cbn [mbind list_bind]. rewrite take_app. unfold word_bytes, printed.
    cbn [d_io w_io]. rewrite length_fmap, length_seq, map_app, (app_assoc (d_io d)). by destruct d.
Qed.

(** the system call writes to the debug port the first [min(options, 80)] bytes
    of its ten argument words, lowest byte first, and does nothing else. *)
Theorem print_debug_spec options args c d :
  Forall is_usize args →
  sys_print_debug options args (c, d)
  = Ret ((), (c, printed (take (Z.to_nat (Z.min options 80)) (args ≫= word_bytes)) d)).
Proof.
  intros Ha. unfold sys_print_debug.
  destruct (print_words_eq args c (Z.to_nat (Z.min options 80)) d Ha) as [n' E]. by erewrite M_bind_Ret by exact E.
Qed.

End print_debug.

(** A port nobody answers on. *)
#[local] Instance quiet_devices : Devices := {
  dev_in _ _ := 0; dev_read _ _ := 0; dev_timer_irq _ := false; dev_cpuid _ := (0, 0, 0, 0);
}.

Lemma print_debug_spec_witness :
  sys_print_debug 11 [0x6f77206f6c6c6568; 0x646c72] (demo_cpu, dev_new)
  = Ret ((), (demo_cpu, printed [0x68; 0x65; 0x6c; 0x6c; 0x6f; 0x20; 0x77; 0x6f; 0x72; 0x6c; 0x64] dev_new)).
Proof.
  assert (H : Forall is_usize [0x6f77206f6c6c6568; 0x646c72]) by (repeat constructor; unfold is_usize; lia).
  exact (print_debug_spec 11 _ demo_cpu dev_new H).
Defined.
