(* ===== verification/Sched.v ===== *)
(** * The scheduler: [kernel/src/sched/mod.rs], [process.rs], [thread.rs], [sync.rs]

    The list of threads is one state under one lock: the queues, the threads at their
    addresses, the processes that are not dropped yet, the kernel futexes.  A function
    that holds the lock throughout is one step; one that gives it up in between is cut
    into the steps it is made of, so that they can be interleaved.

    Queues are sequences of thread addresses, which [LinkedList.list_refines] shows the
    intrusive lists to be; the trees of queues are maps ([AvlTreeSpec.avl_map]). *)

From Stdlib Require Import String.
From S2P Require Import Prelude Sys Thread CpuMarker.

(** ** State *)

(** [Process], without the parts that have a file of their own. *)
Record Process := mkProc {
  p_alive : bool;
  p_cpus : CpuMarker;
  p_uid : PrivLevel;
  p_next_tid : Z;
  p_threads : gmap Z Z;      (* the address of each thread *)
  p_arcs : nat;              (* the strong count *)
}.

Record KFutex := mkKF {
  kf_id : Z;
  kf_wait_count : Z;
  kf_alive : bool;
  kf_block_lock : bool;
  kf_ref_count : Z;
}.

Record ThreadList := mkTL {
  running : list (list Z);
  ready : list Z;
  idle : list (list Z);
  destroy : list Z;
  sleep : list Z;
  join : gmap Tuid (list Z);
  wait : gmap Tuid (list Z);
  conn_wait : gmap Z (list Z);
  futexq : gmap Z (list Z);
}.

Record Sched := mkSched {
  threads : gmap Z Thread;        (* at their addresses, until they are freed *)
  procs : gmap Z Process;         (* by pid, until the last [Arc] is dropped *)
  proc_list : gset Z;
  kfutexes : gmap Z KFutex;       (* at their addresses *)
  tlist : ThreadList;
  last_switch : gmap nat Z;       (* [GsData::last_switch_nsec] of each processor, 0 at first *)
  loaded : gmap nat Z;            (* the process whose page tables [cr3] holds *)
}.

Definition SM := M Sched.

Definition with_threads (m : gmap Z Thread) (s : Sched) : Sched :=
  mkSched m (procs s) (proc_list s) (kfutexes s) (tlist s) (last_switch s) (loaded s).
Definition with_procs (m : gmap Z Process) (s : Sched) : Sched :=
  mkSched (threads s) m (proc_list s) (kfutexes s) (tlist s) (last_switch s) (loaded s).
Definition with_proc_list (m : gset Z) (s : Sched) : Sched :=
  mkSched (threads s) (procs s) m (kfutexes s) (tlist s) (last_switch s) (loaded s).
Definition with_kfutexes (m : gmap Z KFutex) (s : Sched) : Sched :=
  mkSched (threads s) (procs s) (proc_list s) m (tlist s) (last_switch s) (loaded s).
Definition with_tlist (t : ThreadList) (s : Sched) : Sched :=
  mkSched (threads s) (procs s) (proc_list s) (kfutexes s) t (last_switch s) (loaded s).
Definition with_last_switch (m : gmap nat Z) (s : Sched) : Sched :=
  mkSched (threads s) (procs s) (proc_list s) (kfutexes s) (tlist s) m (loaded s).
Definition with_loaded (m : gmap nat Z) (s : Sched) : Sched :=
  mkSched (threads s) (procs s) (proc_list s) (kfutexes s) (tlist s) (last_switch s) m.

Definition modify (f : Sched → Sched) : SM () := λ s, Ret ((), f s).

(** [for x in l]. *)
Fixpoint each {A} (l : list A) (f : A → SM ()) : SM () :=
  match l with
  | [] => mret ()
  | x :: l => f x;; each l f
  end.

(** ** Threads *)

Definition the_thread (a : Z) : SM Thread := λ s,
  match threads s !! a with Some t => Ret (t, s) | None => UB end.

Definition thread_put (a : Z) (f : Thread → Thread) : SM () :=
  t ← the_thread a; modify (λ s, with_threads (<[a := f t]> (threads s)) s).

Definition th_with_state (st : ThreadState) (t : Thread) : Thread :=
  mkThread (th_process t) (th_tuid t) (th_idle t) (th_ref_count t) st (th_run_time t) (th_regs t)
    (th_stack t) (th_kstack t).
Definition th_with_time (n : Z) (t : Thread) : Thread :=
  mkThread (th_process t) (th_tuid t) (th_idle t) (th_ref_count t) (th_state t) n (th_regs t)
    (th_stack t) (th_kstack t).
Definition th_with_refs (n : Z) (t : Thread) : Thread :=
  mkThread (th_process t) (th_tuid t) (th_idle t) n (th_state t) (th_run_time t) (th_regs t)
    (th_stack t) (th_kstack t).
Definition th_with_regs (r : Registers) (t : Thread) : Thread :=
  mkThread (th_process t) (th_tuid t) (th_idle t) (th_ref_count t) (th_state t) (th_run_time t) r
    (th_stack t) (th_kstack t).

Definition state (a : Z) : SM ThreadState := t ← the_thread a; mret (th_state t).
Definition set_state (a : Z) (st : ThreadState) : SM () := thread_put a (th_with_state st).

(** [fetch_add] wraps whatever the profile. *)
Definition inc_time (a : Z) (nsec : Z) : SM () :=
  thread_put a (λ t, th_with_time ((th_run_time t + nsec) mod U64) t).

(** [Weak::upgrade]. *)
Definition process (a : Z) : SM (option Process) :=
  t ← the_thread a; s ← get; mret (procs s !! th_process t).

Definition is_alive (a : Z) : SM bool :=
  p ← process a;
  match p with Some p => mret (p_alive p) | None => mret false end.

(** ** The queues *)

(** [id.as_ref().unwrap()]. *)
Definition the_futex (p : Z) (s : Sched) : res KFutex :=
  if p =? 0 then Panic else
  match kfutexes s !! p with Some f => Ret f | None => UB end.

(** What names a queue of the list. *)
Inductive qkey :=
  | KRunning (c : nat)
  | KReady
  | KIdle (c : nat)
  | KDestroy
  | KSleep
  | KJoin (t : Tuid)
  | KWait (t : Tuid)
  | KConn (i : Z)
  | KFutexQ (f : Z).

#[global] Instance qkey_dec : EqDecision qkey.
Proof. solve_decision. Defined.

Definition qget (k : qkey) (l : ThreadList) : option (list Z) :=
  match k with
  | KRunning c => running l !! c
  | KReady => Some (ready l)
  | KIdle c => idle l !! c
  | KDestroy => Some (destroy l)
  | KSleep => Some (sleep l)
  | KJoin t => join l !! t
  | KWait t => wait l !! t
  | KConn i => conn_wait l !! i
  | KFutexQ f => futexq l !! f
  end.

Definition qput (k : qkey) (q : list Z) (l : ThreadList) : ThreadList :=
  match k with
  | KRunning c => mkTL (<[c := q]> (running l)) (ready l) (idle l) (destroy l) (sleep l) (join l) (wait l) (conn_wait l) (futexq l)
  | KReady => mkTL (running l) q (idle l) (destroy l) (sleep l) (join l) (wait l) (conn_wait l) (futexq l)
  | KIdle c => mkTL (running l) (ready l) (<[c := q]> (idle l)) (destroy l) (sleep l) (join l) (wait l) (conn_wait l) (futexq l)
  | KDestroy => mkTL (running l) (ready l) (idle l) q (sleep l) (join l) (wait l) (conn_wait l) (futexq l)
  | KSleep => mkTL (running l) (ready l) (idle l) (destroy l) q (join l) (wait l) (conn_wait l) (futexq l)
  | KJoin t => mkTL (running l) (ready l) (idle l) (destroy l) (sleep l) (<[t := q]> (join l)) (wait l) (conn_wait l) (futexq l)
  | KWait t => mkTL (running l) (ready l) (idle l) (destroy l) (sleep l) (join l) (<[t := q]> (wait l)) (conn_wait l) (futexq l)
  | KConn i => mkTL (running l) (ready l) (idle l) (destroy l) (sleep l) (join l) (wait l) (<[i := q]> (conn_wait l)) (futexq l)
  | KFutexQ f => mkTL (running l) (ready l) (idle l) (destroy l) (sleep l) (join l) (wait l) (conn_wait l) (<[f := q]> (futexq l))
  end.

(** Taking the node of a queue out of its tree. *)
Definition qdrop (k : qkey) (l : ThreadList) : ThreadList :=
  match k with
  | KJoin t => mkTL (running l) (ready l) (idle l) (destroy l) (sleep l) (delete t (join l)) (wait l) (conn_wait l) (futexq l)
  | KWait t => mkTL (running l) (ready l) (idle l) (destroy l) (sleep l) (join l) (delete t (wait l)) (conn_wait l) (futexq l)
  | KConn i => mkTL (running l) (ready l) (idle l) (destroy l) (sleep l) (join l) (wait l) (delete i (conn_wait l)) (futexq l)
  | KFutexQ f => mkTL (running l) (ready l) (idle l) (destroy l) (sleep l) (join l) (wait l) (conn_wait l) (delete f (futexq l))
  | _ => l
  end.

(** Every thread on a queue. *)
Definition tree_queues `{Countable K} (m : gmap K (list Z)) : list Z := concat (map_to_list m).*2.
Definition all_queued (l : ThreadList) : list Z :=
  concat (running l) ++ ready l ++ concat (idle l) ++ destroy l ++ sleep l ++
  tree_queues (join l) ++ tree_queues (wait l) ++ tree_queues (conn_wait l) ++ tree_queues (futexq l).

Definition tl_new : ThreadList := mkTL [] [] [] [] [] ∅ ∅ ∅ ∅.

(** The index of the processor is checked by the vectors. *)
Definition per_cpu (k : qkey) : bool :=
  match k with KRunning _ | KIdle _ => true | _ => false end.

Section cpu.
Context {P : Cpu}.

Definition key (st : ThreadState) (s : Sched) : res qkey :=
  match st with
  | Running => Ret (KRunning prid)
  | Ready => Ret KReady
  | Idle => Ret (KIdle prid)
  | Destroy => Ret KDestroy
  | Sleep _ => Ret KSleep
  | Join t => Ret (KJoin t)
  | Waiting t => Ret (KWait t)
  | Listening i => Ret (KConn i)
  | FutexBlock p => f ← the_futex p s; Ret (KFutexQ (kf_id f))
  end.

(** The queue of a state, for [get] and [get_mut]. *)
Definition tl_get (st : ThreadState) : SM (option (qkey * list Z)) := λ s,
  k ← key st s;
  match qget k (tlist s) with
  | Some q => Ret (Some (k, q), s)
  | None => if per_cpu k then Panic else Ret (None, s)
  end.

(** [thread_list[state]]. *)
Definition tl_index (st : ThreadState) : SM (qkey * list Z) :=
  o ← tl_get st; lift (unwrap o).

Definition tl_set (k : qkey) (q : list Z) : SM () := modify (λ s, with_tlist (qput k q (tlist s)) s).

(** A node that is linked in a list already would tie the two lists together. *)
Definition push (a : Z) (k : qkey) (q : list Z) : SM () := λ s,
  if decide (a ∈ all_queued (tlist s)) then UB else tl_set k (q ++ [a]) s.

Definition pop_front (st : ThreadState) : SM (option Z) :=
  '(k, q) ← tl_index st;
  match q with
  | [] => mret None
  | a :: q => tl_set k q;; mret (Some a)
  end.

Definition pop (st : ThreadState) : SM (option Z) :=
  '(k, q) ← tl_index st;
  match last q with
  | None => mret None
  | Some a => tl_set k (removelast q);; mret (Some a)
  end.

(** A node that is not in the list ties others to it, or drops the ends. *)
Definition remove_node (a : Z) (k : qkey) (q : list Z) : SM () :=
  if decide (a ∈ q) then tl_set k (filter (λ b, b ≠ a) q) else lift UB.

Definition remove_from_current (a : Z) : SM () :=
  st ← state a; '(k, q) ← tl_index st; remove_node a k q.

Definition insert_into (a : Z) : SM () :=
  st ← state a; '(k, q) ← tl_index st; push a k q.

Definition move_to (a : Z) (st : ThreadState) : SM () :=
  remove_from_current a;; set_state a st;; insert_into a.

(** [for _ in self.running.len()..=prid]. *)
Definition ensure_running (prid : nat) : SM () := modify (λ s,
  let l := tlist s in let n := (S prid - length (running l))%nat in
  with_tlist (mkTL (running l ++ replicate n []) (ready l) (idle l ++ replicate n []) (destroy l)
    (sleep l) (join l) (wait l) (conn_wait l) (futexq l)) s).

(** Moving up to [count] threads between two queues; [fuel] bounds the moves. *)
Fixpoint move_loop (fuel : nat) (old new : ThreadState) (i count : Z) : SM Z :=
  match fuel with
  | O => lift NoFuel
  | S fuel =>
      if count <=? i then mret count else
      o ← pop_front old;
      match o with
      | None => mret i
      | Some a => set_state a new;; insert_into a;; move_loop fuel old new (i + 1) count
      end
  end.

Definition is_running (st : ThreadState) : bool := match st with Running => true | _ => false end.

Definition inner_state_move (fuel : nat) (old new : ThreadState) (count : Z) : SM Z :=
  if is_running new then lift Panic else
  if is_running old then lift Panic else
  o ← tl_get old; n ← tl_get new;
  match o, n with
  | Some _, Some _ => move_loop fuel old new 0 count
  | _, _ => mret 0
  end.

(** Makes the queue of a state, if it lives in a tree and is not there. *)
Definition ensure (st : ThreadState) : SM () :=
  match st with
  | Join _ | Waiting _ | Listening _ | FutexBlock _ =>
      o ← tl_get st; s ← get; k ← lift (key st s);
      match o with Some _ => mret () | None => tl_set k [] end
  | _ => mret ()
  end.

(** Takes the queue of a state out of its tree; it has to be empty. *)
Definition dealloc_state (st : ThreadState) : SM () :=
  match st with
  | Join _ | Waiting _ | Listening _ | FutexBlock _ =>
      o ← tl_get st;
      match o with
      | Some (k, q) =>
          modify (λ s, with_tlist (qdrop k (tlist s)) s);;
          lift (assert_ (length q =? 0)%nat)
      | None => mret ()
      end
  | _ => mret ()
  end.

Definition state_move (fuel : nat) (old new : ThreadState) (count : Z) : SM Z :=
  ensure new;; inner_state_move fuel old new count.

(** ** Switching threads *)

(** [ThreadState::atomic_process]. *)
Definition force_unlock (p : Z) : SM () :=
  s ← get; f ← lift (the_futex p s);
  modify (λ s, with_kfutexes (<[p := mkKF (kf_id f) (kf_wait_count f) (kf_alive f) false (kf_ref_count f)]> (kfutexes s)) s).

Definition atomic_process (st : ThreadState) : SM () :=
  match st with FutexBlock p => force_unlock p | _ => mret () end.

(** [self.cpus_running.set(running)] of a process that is not dropped. *)
Definition set_running (pid : Z) (p : Process) (b : bool) : SM () :=
  m ← lift (marker_set (p_cpus p) b);
  modify (λ s, with_procs (<[pid := mkProc (p_alive p) m (p_uid p) (p_next_tid p) (p_threads p) (p_arcs p)]> (procs s)) s).

(** The thread to run next: the first of the ready ones whose process lives, or the idle one. *)
Fixpoint pick (fuel : nat) : SM (option Z) :=
  match fuel with
  | O => lift NoFuel
  | S fuel =>
      o ← pop_front Ready;
      match o with
      | Some t =>
          alive ← is_alive t;
          if alive : bool then mret (Some t)
          else set_state t Destroy;; insert_into t;; pick fuel
      | None => pop Idle
      end
  end.

(** The thread that ran leaves the processor. *)
Definition switch_out (old : Z) (nsec_last nsec_current : Z) : SM () :=
  (if nsec_last <=? nsec_current then inc_time old (nsec_current - nsec_last) else mret ());;
  st ← state old;
  atomic_process st;;
  (if is_running st then t ← the_thread old; set_state old (default_state t) else mret ());;
  insert_into old.

(** The thread that was picked takes it; its registers and address space are loaded. *)
Definition switch_in (old_pid : Z) (old_process : option Process) (t : Z) : SM Registers :=
  set_state t Running;;
  insert_into t;;
  th ← the_thread t;
  p ← process t;
  _ ← lift (unwrap p);
  (match old_process with
   | Some _ => s ← get; q ← lift (unwrap (procs s !! old_pid)); set_running old_pid q false
   | None => mret ()
   end);;
  s ← get; q ← lift (unwrap (procs s !! th_process th)); set_running (th_process th) q true;;
  (if (match old_process with None => true | Some _ => negb (old_pid =? th_process th) end)
   then modify (λ s, with_loaded (<[prid := th_process th]> (loaded s)) s) else mret ());;
  mret (th_regs th).

(** Whether a switch was made, and the registers to go on with. *)
Definition schedule (regs : Registers) (nsec_last nsec_current : Z) : SM (bool * Registers) :=
  s ← get;
  o ← pick (S (length (ready (tlist s))));
  match o with
  | None => mret (false, regs)
  | Some t =>
      o ← pop Running;
      old ← lift (unwrap o);
      th ← the_thread old;
      old_process ← process old;
      switch_out old nsec_last nsec_current;;
      r ← switch_in (th_process th) old_process t;
      mret (true, r)
  end.

(** *** The interrupts *)
Definition SCHED_TIME_NANOS : Z := 10000000.

Definition wake_sleeper (nsec : Z) (a : Z) : SM () :=
  st ← state a;
  match st with
  | Sleep n => if n <=? nsec then move_to a Ready else mret ()
  | _ => lift Panic
  end.

Definition my_last_switch : SM Z := s ← get; mret (default 0 (last_switch s !! prid)).
Definition set_last_switch (n : Z) : SM () := modify (λ s, with_last_switch (<[prid := n]> (last_switch s)) s).

(** The interrupt handler saved the registers in the thread before it calls these two. *)
Definition time_handler `{Build} (regs : Registers) (nsec : Z) : SM (bool * Registers) :=
  (if (prid =? 0)%nat then '(_, q) ← tl_index (Sleep 0); each q (wake_sleeper nsec) else mret ());;
  n ← my_last_switch;
  d ← lift (usub nsec n);
  if SCHED_TIME_NANOS <? d then
    out ← schedule regs n nsec; set_last_switch nsec;; mret out
  else mret (false, regs).

(** [thread_list[ThreadState::Running].g(0)]: panics when the list is empty. *)
Definition thread_c : SM Z :=
  '(_, q) ← tl_index Running; lift (unwrap (head q)).

Definition int_handler (regs : Registers) (nsec : Z) : SM (bool * Registers) :=
  a ← thread_c; t ← the_thread a;
  o ← tl_get (Waiting (th_tuid t));
  (match o with Some (_, q) => each q (λ b, move_to b Ready) | None => mret () end);;
  n ← my_last_switch;
  set_last_switch nsec;;
  schedule regs n nsec.

(** *** Starting a processor, in [init] and [ap_init]: its idle thread [t], at [a], is what runs *)
Definition cpu_start (a : Z) (t : Thread) : SM () :=
  modify (λ s, with_threads (<[a := th_with_state Running t]> (threads s)) s);;
  ensure_running prid;;
  '(k, q) ← tl_index Running; push a k q.

(** *** Blocking: what [block] does before [int_sched] *)
Definition block_mark (st : ThreadState) : SM () := a ← thread_c; set_state a st.

(** Nobody comes between the two parts. *)
Definition block (st : ThreadState) : SM bool :=
  match st with
  | Running => mret false
  | _ => ensure st;; block_mark st;; mret true
  end.

Definition sleep_until (nsec : Z) : SM bool := block (Sleep nsec).

(** ** Processes *)
Definition the_process (pid : Z) : SM Process := s ← get; lift (match procs s !! pid with Some p => Ret p | None => UB end).
Definition proc_put (pid : Z) (p : Process) : SM () := modify (λ s, with_procs (<[pid := p]> (procs s)) s).

(** [Process::new]; [pid] is what [NEXT_PID] gave. *)
Definition process_new (pid : Z) (uid : PrivLevel) : SM () :=
  proc_put pid (mkProc true marker_new uid 0 ∅ 1).

(** [proc_list.lock().insert(pid, process.clone())]. *)
Definition list_process (pid : Z) : SM () :=
  p ← the_process pid;
  proc_put pid (mkProc (p_alive p) (p_cpus p) (p_uid p) (p_next_tid p) (p_threads p) (S (p_arcs p)));;
  modify (λ s, with_proc_list ({[pid]} ∪ proc_list s) s).

Definition next_tid (pid : Z) : SM Z :=
  p ← the_process pid;
  proc_put pid (mkProc (p_alive p) (p_cpus p) (p_uid p) ((p_next_tid p + 1) mod U64) (p_threads p) (p_arcs p));;
  mret (p_next_tid p).

Definition p_with_threads (m : gmap Z Z) (p : Process) : Process :=
  mkProc (p_alive p) (p_cpus p) (p_uid p) (p_next_tid p) m (p_arcs p).

Definition insert_thread (pid : Z) (a : Z) : SM bool :=
  p ← the_process pid; t ← the_thread a;
  let tid := tuid_tid (th_tuid t) in
  if p_next_tid p <=? tid then mret false else
  match p_threads p !! tid with
  | Some _ => mret false
  | None => proc_put pid (p_with_threads (<[tid := a]> (p_threads p)) p);; mret true
  end.

(** [build] is [Thread::new] for a tid: an error, or a thread at a fresh address. *)
Definition new_thread_regs (pid : Z) (build : Z → Err + (Z * Thread)) : SM (Err + Z) :=
  tid ← next_tid pid;
  match build tid with
  | inl e => mret (inl e)
  | inr (a, t) =>
      modify (λ s, with_threads (<[a := t]> (threads s)) s);;
      ok ← insert_thread pid a;
      if ok : bool then '(k, q) ← tl_index Ready; push a k q;; mret (inr tid)
      else mret (inl (mkErr "could not insert thread into process thread list"%string))
  end.

(** The thread goes from its process, and under the lock of the list whoever waits for
    it becomes ready; the state whose queue has to go is returned. *)
Definition remove_wake (pid tid : Z) : SM (option (Z * option ThreadState)) :=
  p ← the_process pid;
  match p_threads p !! tid with
  | None => mret None
  | Some a =>
      proc_put pid (p_with_threads (delete tid (p_threads p)) p);;
      t ← the_thread a;
      o ← tl_get (Join (th_tuid t));
      match o with
      | Some (_, q) => each q (λ b, move_to b Ready);; mret (Some (a, Some (Join (th_tuid t))))
      | None => mret (Some (a, None))
      end
  end.

(** The lock is given up before the queue is taken out of its tree. *)
Definition remove_thread (pid tid : Z) : SM (option Z) :=
  o ← remove_wake pid tid;
  match o with
  | None => mret None
  | Some (a, Some st) => dealloc_state st;; mret (Some a)
  | Some (a, None) => mret (Some a)
  end.

(** [Thread::dealloc]; what [Drop] frees is in [Thread.thread_drop]. *)
Definition thread_dealloc (a : Z) : SM () :=
  t ← the_thread a;
  p ← process a;
  (match p with
   | Some _ => o ← remove_thread (th_process t) (tuid_tid (th_tuid t)); _ ← lift (unwrap o); mret ()
   | None => mret ()
   end);;
  modify (λ s, with_threads (delete a (threads s)) s).

Definition collect_dead (a : Z) : SM (list Z) :=
  t ← the_thread a;
  if th_ref_count t =? 0 then '(k, q) ← tl_index Destroy; remove_node a k q;; mret [a] else mret [].

Fixpoint collect_all (l : list Z) : SM (list Z) :=
  match l with
  | [] => mret []
  | a :: l => xs ← collect_dead a; ys ← collect_all l; mret (xs ++ ys)
  end.

(** One round of [thread_cleaner]: under the lock, and after it. *)
Definition cleaner_collect : SM (list Z) := '(_, q) ← tl_index Destroy; collect_all q.
Definition cleaner_free (l : list Z) : SM () := each l thread_dealloc.

(** [ThreadRef]: the count of references that keep a thread from being freed. *)
Definition get_thread (pid tid : Z) : SM (option Z) :=
  p ← the_process pid;
  match p_threads p !! tid with
  | Some a => thread_put a (λ t, th_with_refs ((th_ref_count t + 1) mod U64) t);; mret (Some a)
  | None => mret None
  end.
Definition drop_ref (a : Z) : SM () := thread_put a (λ t, th_with_refs ((th_ref_count t - 1) mod U64) t).

(** [Arc::drop]. *)
Definition drop_arc (pid : Z) : SM () :=
  p ← the_process pid;
  match p_arcs p with
  | S (S n) => proc_put pid (mkProc (p_alive p) (p_cpus p) (p_uid p) (p_next_tid p) (p_threads p) (S n))
  | _ => modify (λ s, with_procs (delete pid (procs s)) s)
  end.

(** [plist.remove(&pid)]: the list drops its [Arc]. *)
Definition unlist_process (pid : Z) : SM () :=
  s ← get;
  modify (λ s, with_proc_list (proc_list s ∖ {[pid]}) s);;
  if decide (pid ∈ proc_list s) then drop_arc pid else mret ().

(** [proc_get] and [thread_get]: the process is kept by the [Arc] that is returned. *)
Definition proc_get (pid : Z) : SM (option Process) :=
  s ← get;
  if decide (pid ∈ proc_list s) then
    p ← the_process pid;
    proc_put pid (mkProc (p_alive p) (p_cpus p) (p_uid p) (p_next_tid p) (p_threads p) (S (p_arcs p)));;
    mret (Some p)
  else mret None.

Definition thread_get (t : Tuid) : SM (option Z) :=
  o ← proc_get (tuid_pid t);
  match o with
  | None => mret None
  | Some _ => r ← get_thread (tuid_pid t) (tuid_tid t); drop_arc (tuid_pid t);; mret r
  end.

(** Interrupts to send, and whether the processor itself has to switch. *)
Fixpoint exit_ipis (fuel : nat) (it : CpuMarkerIter) : res (list nat * bool) :=
  match fuel with
  | O => NoFuel
  | S fuel =>
      '(o, it) ← marker_next it;
      match o with
      | None => Ret ([], false)
      | Some c =>
          if (c =? prid)%nat then Ret ([], true)
          else '(l, b) ← exit_ipis fuel it; Ret (c :: l, b)
      end
  end.

Definition terminate (fuel : nat) (pid : Z) : SM (list nat * bool) :=
  s ← get;
  modify (λ s, with_proc_list (proc_list s ∖ {[pid]}) s);;
  (if decide (pid ∈ proc_list s) then drop_arc pid else mret ());;
  p ← the_process pid;
  proc_put pid (mkProc false (p_cpus p) (p_uid p) (p_next_tid p) (p_threads p) (p_arcs p));;
  lift (exit_ipis fuel (fst (iter_clear (p_cpus p)))).

(** Whether the handler calls [int_sched]. *)
Definition ipi_process_exit_handler : SM bool :=
  a ← thread_c; p ← process a;
  match p with Some p => mret (negb (p_alive p)) | None => mret true end.

(** ** Kernel futexes *)

(** [as isize], [fetch_add] and [fetch_sub] on [isize]. *)
Definition as_isize (n : Z) : Z := (n + 2 ^ 63) mod U64 - 2 ^ 63.

Definition kf_put (p : Z) (f : KFutex) : SM () := modify (λ s, with_kfutexes (<[p := f]> (kfutexes s)) s).
Definition kf (p : Z) : SM KFutex := s ← get; lift (the_futex p s).

(** [KFutex::new], at a fresh address, with the next id. *)
Definition kfutex_new (p id : Z) : SM () :=
  kf_put p (mkKF id 0 true false 0);; ensure (FutexBlock p).

(** The parts of [block]: the count, the lock (no answer while it is taken), and the
    mark, after which the interrupt switches and unlocks. *)
Definition kf_count (p : Z) : SM bool :=
  f ← kf p;
  kf_put p (mkKF (kf_id f) (as_isize (kf_wait_count f + 1)) (kf_alive f) (kf_block_lock f) (kf_ref_count f));;
  mret (0 <=? kf_wait_count f).

Definition kf_lock (p : Z) : SM (option bool) :=
  f ← kf p;
  if negb (kf_alive f) then mret (Some false) else
  if kf_block_lock f then mret None else
  kf_put p (mkKF (kf_id f) (kf_wait_count f) (kf_alive f) true (kf_ref_count f));; mret (Some true).

Definition kf_block (p : Z) : SM bool := block (FutexBlock p).

(** [unblock], once it has the lock. *)
Definition kf_unblock (fuel : nat) (p n : Z) : SM Z :=
  f ← kf p;
  kf_put p (mkKF (kf_id f) (as_isize (kf_wait_count f - as_isize n)) (kf_alive f) (kf_block_lock f) (kf_ref_count f));;
  inner_state_move fuel (FutexBlock p) Ready n.

(** The lock stays taken, so that nobody blocks any more. *)
Definition kf_destroy (fuel : nat) (p : Z) : SM Z :=
  f ← kf p;
  kf_put p (mkKF (kf_id f) (kf_wait_count f) false true (kf_ref_count f));;
  n ← state_move fuel (FutexBlock p) Ready usize_max;
  dealloc_state (FutexBlock p);;
  mret n.

Definition kf_inc_ref (p : Z) : SM () :=
  f ← kf p;
  kf_put p (mkKF (kf_id f) (kf_wait_count f) (kf_alive f) (kf_block_lock f) ((kf_ref_count f + 1) mod U64)).

Definition kf_dec_ref (fuel : nat) (p : Z) : SM () :=
  f ← kf p;
  kf_put p (mkKF (kf_id f) (kf_wait_count f) (kf_alive f) (kf_block_lock f) ((kf_ref_count f - 1) mod U64));;
  (if kf_ref_count f =? 0 then _ ← kf_destroy fuel p; mret () else mret ()).
End cpu.

(** ** Facts on the queues *)

Lemma qget_put_eq k q q0 l : qget k l = Some q0 → qget k (qput k q l) = Some q.
Proof.
  destruct k; simpl; intros H; try done; try apply lookup_insert_eq;
    apply list_lookup_insert_eq; by eapply lookup_lt_Some.
Qed.

Lemma qget_put_ne k k' q l : k ≠ k' → qget k' (qput k q l) = qget k' l.
Proof.
  intros Hne. destruct k, k'; simpl; try done;
    first [apply list_lookup_insert_ne; congruence | apply lookup_insert_ne; congruence].
Qed.

Lemma qget_put_tree k q l : per_cpu k = false → qget k (qput k q l) = Some q.
Proof. by destruct k; simpl; intros; rewrite ?lookup_insert_eq. Qed.

Lemma qget_drop_ne k k' l : k ≠ k' → qget k' (qdrop k l) = qget k' l.
Proof. intros Hne. destruct k, k'; simpl; try done; apply lookup_delete_ne; congruence. Qed.

Lemma qget_drop k k' q l : qget k' (qdrop k l) = Some q → qget k' l = Some q.
Proof.
  destruct (decide (k = k')) as [<-|Hne]; [|by rewrite qget_drop_ne].
  destruct k; simpl; try done; by rewrite lookup_delete_eq.
Qed.

Lemma elem_concat {A} (x : A) (ls : list (list A)) : x ∈ concat ls ↔ ∃ i l, ls !! i = Some l ∧ x ∈ l.
Proof.
  rewrite list_elem_of_In, in_concat. split.
  - intros (l & Hl%list_elem_of_In & Hx%list_elem_of_In). apply list_elem_of_lookup in Hl as [i Hi]. eauto.
  - intros (i & l & Hi & Hx). exists l. rewrite <- !list_elem_of_In.
    split; [by eapply list_elem_of_lookup_2|done].
Qed.

Lemma elem_tree_queues `{Countable K} (m : gmap K (list Z)) a :
  a ∈ tree_queues m ↔ ∃ k q, m !! k = Some q ∧ a ∈ q.
Proof.
  unfold tree_queues. rewrite elem_concat. split.
  - intros (i & q & Hi%list_elem_of_lookup_2 & Ha). apply list_elem_of_fmap in Hi as ([k q'] & -> & Hk).
    apply elem_of_map_to_list in Hk. eauto.
  - intros (k & q & Hk & Ha). apply elem_of_map_to_list in Hk.
    assert (q ∈ (map_to_list m).*2) as Hq by (apply list_elem_of_fmap; by exists (k, q)).
    apply list_elem_of_lookup in Hq as [i Hi]. eauto.
Qed.

(** On which queue a thread is. *)
Definition on (l : ThreadList) (k : qkey) (a : Z) : Prop := ∃ q, qget k l = Some q ∧ a ∈ q.

Lemma all_queued_on l a : a ∈ all_queued l ↔ ∃ k, on l k a.
Proof.
  unfold all_queued. rewrite !elem_of_app, !elem_concat, !elem_tree_queues. split.
  - intros [(c & q & ? & ?)|[?|[(c & q & ? & ?)|[?|[?|[(c & q & ? & ?)|[(c & q & ? & ?)|[(c & q & ? & ?)|(c & q & ? & ?)]]]]]]]].
    + by exists (KRunning c), q.
    + by exists KReady, (ready l).
    + by exists (KIdle c), q.
    + by exists KDestroy, (destroy l).
    + by exists KSleep, (sleep l).
    + by exists (KJoin c), q.
    + by exists (KWait c), q.
    + by exists (KConn c), q.
    + by exists (KFutexQ c), q.
  - intros ([] & q & Hq & Ha); simpl in Hq; simplify_eq/=; eauto 12.
Qed.

Lemma on_put k q q0 l k' a :
  qget k l = Some q0 → on (qput k q l) k' a ↔ (k' = k ∧ a ∈ q) ∨ (k' ≠ k ∧ on l k' a).
Proof.
  intros H. unfold on. destruct (decide (k = k')) as [<-|Hne].
  - rewrite (qget_put_eq _ _ _ _ H). naive_solver.
  - rewrite qget_put_ne by done. naive_solver.
Qed.

(** ** Steps: what a computation does, and whether it may panic *)

(** [run pk m s Q]: from [s], [m] returns with [Q], or panics if [pk] allows it; it is never
    undefined and does not run out of fuel. *)
Definition run (pk : Prop) {A} (m : SM A) (s : Sched) (Q : A → Sched → Prop) : Prop :=
  match m s with
  | Ret (x, s') => Q x s'
  | Panic => pk
  | _ => False
  end.

Section rules.
Context (pk : Prop).

Lemma run_ret {A} (x : A) s Q : Q x s → run pk (mret x) s Q.
Proof. done. Qed.

Lemma run_bind {A B} (m : SM A) (f : A → SM B) s Q :
  run pk m s (λ x s', run pk (f x) s' Q) → run pk (m ≫= f) s Q.
Proof. unfold run, mbind, M_bind. by destruct (m s) as [[]| | |]. Qed.

Lemma run_mono {A} (m : SM A) s (Q Q' : A → Sched → Prop) :
  run pk m s Q → (∀ x s', Q x s' → Q' x s') → run pk m s Q'.
Proof. unfold run. destruct (m s) as [[]| | |]; eauto. Qed.

Lemma run_lift {A} (m : res A) x s (Q : A → Sched → Prop) : m = Ret x → Q x s → run pk (lift m) s Q.
Proof. intros -> H. exact H. Qed.

Lemma run_panic {A} s (Q : A → Sched → Prop) : pk → run pk (lift Panic) s Q.
Proof. done. Qed.

Lemma run_unwrap {A} (o : option A) s (Q : A → Sched → Prop) :
  (∀ x, o = Some x → Q x s) → (o = None → pk) → run pk (lift (unwrap o)) s Q.
Proof. destruct o; unfold run, lift; simpl; auto. Qed.

Lemma run_get s (Q : Sched → Sched → Prop) : Q s s → run pk get s Q.
Proof. done. Qed.

Lemma run_modify f s (Q : () → Sched → Prop) : Q () (f s) → run pk (modify f) s Q.
Proof. done. Qed.

Lemma run_thread a t s (Q : Thread → Sched → Prop) :
  threads s !! a = Some t → Q t s → run pk (the_thread a) s Q.
Proof. unfold run, the_thread. by intros ->. Qed.

Lemma run_state a t s (Q : ThreadState → Sched → Prop) :
  threads s !! a = Some t → Q (th_state t) s → run pk (state a) s Q.
Proof. intros H HQ. apply run_bind, (run_thread _ t); [done|exact HQ]. Qed.

Lemma run_put a f t s (Q : () → Sched → Prop) :
  threads s !! a = Some t → Q () (with_threads (<[a := f t]> (threads s)) s) → run pk (thread_put a f) s Q.
Proof. intros H HQ. apply run_bind, (run_thread _ t); [done|exact HQ]. Qed.
End rules.
