(* ===== verification/SchedInv.v ===== *)
(** * Invariants of the scheduler

    Every thread is on one queue at most, the one its state names, whatever the
    processors do: [sched_safe] follows the steps of [Sched] in any order. *)

From Stdlib Require Import String.
From S2P Require Import Prelude Sys Thread CpuMarker Sched.

(** ** Where the threads are *)

(** The thread that runs may have any state: it carries the next one until the switch. *)
Definition in_state (fs : gmap Z KFutex) (st : ThreadState) (k : qkey) : Prop :=
  match k with
  | KRunning _ => True
  | KReady => st = Ready
  | KIdle _ => st = Idle
  | KDestroy => st = Destroy
  | KSleep => ∃ n, st = Sleep n
  | KJoin t => st = Join t
  | KWait t => st = Waiting t
  | KConn i => st = Listening i
  | KFutexQ i => ∃ p f, st = FutexBlock p ∧ fs !! p = Some f ∧ kf_id f = i ∧ p ≠ 0
  end.

Definition valid_state (fs : gmap Z KFutex) (st : ThreadState) : Prop :=
  match st with FutexBlock p => p ≠ 0 ∧ is_Some (fs !! p) | _ => True end.

Record queues_ok (s : Sched) : Prop := {
  ok_nodup : ∀ k q, qget k (tlist s) = Some q → NoDup q;
  ok_one : ∀ k k' a, on (tlist s) k a → on (tlist s) k' a → k = k';
  ok_state : ∀ k a, on (tlist s) k a → ∃ t, threads s !! a = Some t ∧ in_state (kfutexes s) (th_state t) k;
  ok_running : ∀ c q, qget (KRunning c) (tlist s) = Some q → (length q <= 1)%nat;
  ok_valid : ∀ a t, threads s !! a = Some t → valid_state (kfutexes s) (th_state t);
}.

Definition off (s : Sched) (a : Z) : Prop := ∀ k, ¬ on (tlist s) k a.

Lemma off_all s a : off s a ↔ a ∉ all_queued (tlist s).
Proof. rewrite all_queued_on. unfold off. naive_solver. Qed.

(** Adding a thread at the end of the queue of its state. *)
Lemma queues_push s k q a t :
  queues_ok s → qget k (tlist s) = Some q → off s a → threads s !! a = Some t →
  in_state (kfutexes s) (th_state t) k → (∀ c, k = KRunning c → q = []) →
  queues_ok (with_tlist (qput k (q ++ [a]) (tlist s)) s).
Proof.
  intros [Hn H1 Hs Hr Hv] Hq Hoff Ht Hin Hrun. constructor; cbn [with_tlist tlist threads kfutexes].
  - intros k' q'. destruct (decide (k = k')) as [<-|Hne].
    + rewrite (qget_put_eq _ _ _ _ Hq). intros [= <-]. apply NoDup_snoc.
      split; [intros Ha; by apply (Hoff k); exists q|by eapply Hn].
    + rewrite qget_put_ne by done. apply Hn.
  - intros k1 k2 b. rewrite !(on_put _ _ _ _ _ _ Hq).
    assert (∀ k', b ∈ q ++ [a] → k' ≠ k → on (tlist s) k' b → False) as Hx.
    { intros k' [Hb|Hb%list_elem_of_singleton]%elem_of_app Hk Hon.
      - apply Hk. apply (H1 _ _ b); [done|by exists q].
      - subst b. by apply (Hoff k'). }
    naive_solver.
  - intros k' b. rewrite (on_put _ _ _ _ _ _ Hq). intros [[-> [Hb|Hb]%elem_of_app]|[_ Hb]].
    + apply Hs. by exists q.
    + apply list_elem_of_singleton in Hb. subst b. by exists t.
    + by apply Hs.
  - intros c q'. destruct (decide (k = KRunning c)) as [->|Hne].
    + rewrite (qget_put_eq _ _ _ _ Hq). intros [= <-]. by rewrite (Hrun c).
    + rewrite qget_put_ne by done. apply Hr.
  - exact Hv.
Qed.

(** Taking threads out of a queue. *)
Lemma queues_take s k q q' :
  queues_ok s → qget k (tlist s) = Some q → q' `sublist_of` q →
  queues_ok (with_tlist (qput k q' (tlist s)) s).
Proof.
  intros [Hn H1 Hs Hr Hv] Hq Hsub.
  assert (∀ k' b, on (qput k q' (tlist s)) k' b → on (tlist s) k' b) as Hon.
  { intros k' b. rewrite (on_put _ _ _ _ _ _ Hq). intros [[-> Hb]|[_ Hb]]; [|done].
    exists q. split; [done|]. by eapply elem_of_sublist. }
  constructor; cbn [with_tlist tlist threads kfutexes].
  - intros k' q''. destruct (decide (k = k')) as [<-|Hne].
    + rewrite (qget_put_eq _ _ _ _ Hq). intros [= <-]. apply (sublist_NoDup _ q); [by eapply Hn|done].
    + rewrite qget_put_ne by done. apply Hn.
  - eauto.
  - eauto.
  - intros c q''. destruct (decide (k = KRunning c)) as [->|Hne].
    + rewrite (qget_put_eq _ _ _ _ Hq). intros [= <-]. apply sublist_length in Hsub.
      specialize (Hr _ _ Hq). lia.
    + rewrite qget_put_ne by done. apply Hr.
  - exact Hv.
Qed.

(** Changing the state of a thread that is on no queue, or on that of the new state. *)
Lemma queues_state s a t t' :
  queues_ok s → threads s !! a = Some t → valid_state (kfutexes s) (th_state t') →
  (∀ k, on (tlist s) k a → in_state (kfutexes s) (th_state t') k) →
  queues_ok (with_threads (<[a := t']> (threads s)) s).
Proof.
  intros [Hn H1 Hs Hr Hv] Ht Hval Hin.
  constructor; try done; cbn [with_threads tlist threads kfutexes]; [intros k b Hb|intros b u];
    (destruct (decide (a = b)) as [<-|Hne];
     [rewrite lookup_insert_eq|rewrite lookup_insert_ne by done; eauto]).
  - exists t'. auto.
  - by intros [= <-].
Qed.

(** Parts of the state the queues do not depend on. *)
Lemma queues_same s s' :
  queues_ok s → tlist s' = tlist s → threads s' = threads s → kfutexes s' = kfutexes s → queues_ok s'.
Proof. intros [Hn H1 Hs Hr Hv] E1 E2 E3. constructor; rewrite ?E1, ?E2, ?E3; done. Qed.

(** Kernel futexes keep their ids. *)
Lemma queues_futex s fs :
  queues_ok s → (∀ p f, kfutexes s !! p = Some f → ∃ f', fs !! p = Some f' ∧ kf_id f' = kf_id f) →
  queues_ok (with_kfutexes fs s).
Proof.
  intros [Hn H1 Hs Hr Hv] Hf. constructor; try done; cbn [with_kfutexes tlist threads kfutexes].
  2: { intros a t Ht. specialize (Hv _ _ Ht). destruct (th_state t); try done. destruct Hv as [? [g Hp]].
    split; [done|]. destruct (Hf _ _ Hp) as (f' & -> & _). by exists f'. }
  intros k a Ha. destruct (Hs _ _ Ha) as (t & Ht & Hin). exists t. split; [done|].
  destruct k; try done. destruct Hin as (p & g & E & Hp & <- & H0). destruct (Hf _ _ Hp) as (f' & ? & ?).
  by exists p, f'.
Qed.

(** ** Filters *)

Lemma filter_true {A} (R : A → Prop) `{∀ x, Decision (R x)} (l : list A) :
  (∀ x, x ∈ l → R x) → filter R l = l.
Proof.
  induction l as [|x l IH]; intros Hx; [done|]. rewrite filter_cons, decide_True by (apply Hx; left).
  f_equal. apply IH. intros y Hy. apply Hx. by right.
Qed.

(** Without its front part a list is the rest. *)
Lemma filter_rest {A} `{EqDecision A} (l1 l2 : list A) : NoDup (l1 ++ l2) → filter (λ b, b ∉ l1) (l1 ++ l2) = l2.
Proof.
  intros (_ & Hnd & _)%NoDup_app. rewrite filter_app, (filter_true _ l2) by (intros x Hx Hx'; by apply (Hnd x)).
  replace (filter _ l1) with (@nil A); [done|]. symmetry. apply elem_of_nil_inv.
  by intros x [Hx ?]%list_elem_of_filter.
Qed.

Lemma filter_ext_in {A} (R S : A → Prop) `{∀ x, Decision (R x)} `{∀ x, Decision (S x)} (l : list A) :
  (∀ x, x ∈ l → R x ↔ S x) → filter R l = filter S l.
Proof.
  induction l as [|x l IH]; intros Hx; [done|]. rewrite !filter_cons, IH by (intros y Hy; apply Hx; by right).
  specialize (Hx x ltac:(left)). destruct (decide (R x)), (decide (S x)); tauto.
Qed.

Lemma filter_twice {A} (R S T : A → Prop) `{∀ x, Decision (R x)} `{∀ x, Decision (S x)} `{∀ x, Decision (T x)}
    (l : list A) :
  (∀ x, T x ↔ R x ∧ S x) → filter S (filter R l) = filter T l.
Proof.
  intros Hx. induction l as [|x l IH]; [done|]. rewrite !filter_cons. destruct (decide (R x)) as [HR|HR].
  - rewrite filter_cons, IH. destruct (decide (S x)), (decide (T x)); naive_solver.
  - rewrite IH, (decide_False (P := T x)); [done|]. naive_solver.
Qed.

(** ** The rules of the operations *)

Section ops.
Context {P : Cpu} (pk : Prop).
Implicit Types (s : Sched) (st : ThreadState).

Lemma key_valid st s :
  valid_state (kfutexes s) st →
  ∃ k, key st s = Ret k ∧ in_state (kfutexes s) st k ∧
    (∀ c, k = KRunning c → st = Running ∧ c = prid).
Proof.
  destruct st; simpl; intros H;
    try (by eexists; split_and!; [done|first [done|by eexists]|by intros c [= <-]]).
  - destruct H as [H0 [g Hg]]. unfold the_futex. destruct (Z.eqb_spec f 0); [done|].
    rewrite Hg. eexists. split_and!; [done| |done]. by exists f, g.
Qed.

(** A thread on a queue that is not that of a processor names it. *)
Lemma key_on st k s : in_state (kfutexes s) st k → per_cpu k = false → key st s = Ret k.
Proof.
  destruct k; simpl; intros H; try done; try by subst.
  - by destruct H as [n ->].
  - destruct H as (p & g & -> & Hp & <- & H0). simpl. unfold the_futex.
    destruct (Z.eqb_spec p 0); [done|]. by rewrite Hp.
Qed.

Lemma run_tl_get st k s (Q : option (qkey * list Z) → Sched → Prop) :
  key st s = Ret k →
  (∀ q, qget k (tlist s) = Some q → Q (Some (k, q)) s) →
  (qget k (tlist s) = None → if per_cpu k then pk else Q None s) →
  run pk (tl_get st) s Q.
Proof.
  unfold run, tl_get. intros -> H1 H2. cbn [mbind res_bind]. destruct (qget k (tlist s)); [by apply H1|].
  destruct (per_cpu k); by apply H2.
Qed.

Lemma run_index st k s (Q : qkey * list Z → Sched → Prop) :
  key st s = Ret k →
  (∀ q, qget k (tlist s) = Some q → Q (k, q) s) → (qget k (tlist s) = None → pk) →
  run pk (tl_index st) s Q.
Proof.
  intros Hk H1 H2. apply run_bind, (run_tl_get _ k); [done|exact H1|].
  intros HN. by destruct (per_cpu k); apply H2.
Qed.

Lemma run_push a k q s (Q : () → Sched → Prop) :
  off s a → Q () (with_tlist (qput k (q ++ [a]) (tlist s)) s) → run pk (push a k q) s Q.
Proof. intros H%off_all HQ. unfold run, push. by rewrite decide_False. Qed.

Lemma run_insert a t k s (Q : () → Sched → Prop) :
  threads s !! a = Some t → key (th_state t) s = Ret k → off s a →
  (∀ q, qget k (tlist s) = Some q → Q () (with_tlist (qput k (q ++ [a]) (tlist s)) s)) →
  (qget k (tlist s) = None → pk) →
  run pk (insert_into a) s Q.
Proof.
  intros Ht Hk Hoff H1 H2. apply run_bind, (run_state _ _ t); [done|].
  apply run_bind, (run_index _ k); [done| |done]. intros q Hq. apply run_push; auto.
Qed.

Lemma run_remove a t k s (Q : () → Sched → Prop) :
  threads s !! a = Some t → key (th_state t) s = Ret k → on (tlist s) k a →
  (∀ q, qget k (tlist s) = Some q → Q () (with_tlist (qput k (filter (λ b, b ≠ a) q) (tlist s)) s)) →
  run pk (remove_from_current a) s Q.
Proof.
  intros Ht Hk (q & Hq & Ha) H1. apply run_bind, (run_state _ _ t); [done|].
  apply run_bind, (run_index _ k); [done| |by rewrite Hq].
  intros q' Hq'. simplify_eq. unfold remove_node. rewrite decide_True by done. by apply H1.
Qed.

(** The rest of the state stays. *)
Definition same_rest s s' : Prop :=
  procs s' = procs s ∧ proc_list s' = proc_list s ∧ kfutexes s' = kfutexes s ∧
  last_switch s' = last_switch s ∧ loaded s' = loaded s.

Lemma same_rest_trans s1 s2 s3 : same_rest s1 s2 → same_rest s2 s3 → same_rest s1 s3.
Proof. unfold same_rest. intuition congruence. Qed.

(** A queue that is always there, and its state. *)
Record fixed_queue (kt : qkey) st : Prop := {
  fq_key s : key st s = Ret kt;
  fq_is l : is_Some (qget kt l);
  fq_cpu : per_cpu kt = false;
  fq_state fs : valid_state fs st ∧ in_state fs st kt;
}.

Lemma fixed_ready : fixed_queue KReady Ready.
Proof. by constructor. Qed.
Lemma fixed_destroy : fixed_queue KDestroy Destroy.
Proof. by constructor. Qed.

Lemma off_taken s k q q' a :
  queues_ok s → qget k (tlist s) = Some q → a ∈ q → (a ∉ q') →
  off (with_tlist (qput k q' (tlist s)) s) a.
Proof.
  intros Hok Hq Ha Hn k' Hk'. apply (on_put _ _ _ _ _ _ Hq) in Hk' as [[-> Hf]|[Hk' Hon]]; [done|].
  apply Hk'. apply (ok_one _ Hok _ _ a); [done|by exists q].
Qed.

Section moves.
Context (kt : qkey) (st : ThreadState) (Hfix : fixed_queue kt st).

(** A thread on no queue goes to the end of that one. *)
Lemma run_enqueue a t s (Q : () → Sched → Prop) :
  queues_ok s → off s a → threads s !! a = Some t →
  (∀ q s', queues_ok s' → same_rest s s' → qget kt (tlist s) = Some q →
     tlist s' = qput kt (q ++ [a]) (tlist s) →
     threads s' = <[a := th_with_state st t]> (threads s) → Q () s') →
  run pk (set_state a st;; insert_into a) s Q.
Proof.
  intros Hok Hoff Ht HQ. apply run_bind, (run_put _ _ _ t); [done|]. set (s1 := with_threads _ s).
  destruct (fq_state _ _ Hfix (kfutexes s)) as [Hv Hin].
  assert (queues_ok s1) as Hok1.
  { by apply (queues_state _ _ t); [done..|]; intros k' Ha; destruct (Hoff k'). }
  apply (run_insert _ (th_with_state st t) kt);
    [by apply lookup_insert_eq|apply (fq_key _ _ Hfix)|done| |].
  - intros q Hq. apply (HQ q); try done.
    apply (queues_push s1 kt q a (th_with_state st t)); try done; [by apply lookup_insert_eq|].
    intros c ->. pose proof (fq_cpu _ _ Hfix). done.
  - intros HN. destruct (fq_is _ _ Hfix (tlist s1)) as [q Hq]. congruence.
Qed.

(** The threads [l] of queue [k] went there, in order. *)
Record moved (k : qkey) (l : list Z) s s' : Prop := {
  mv_ok : queues_ok s';
  mv_rest : same_rest s s';
  mv_to q : qget kt (tlist s) = Some q → qget kt (tlist s') = Some (q ++ l);
  mv_from q : qget k (tlist s) = Some q → qget k (tlist s') = Some (filter (λ b, b ∉ l) q);
  mv_others k' : k' ≠ k → k' ≠ kt → qget k' (tlist s') = qget k' (tlist s);
  mv_threads a : threads s' !! a =
    if decide (a ∈ l) then th_with_state st <$> threads s !! a else threads s !! a;
}.

(** One thread: it is taken out of its queue, whatever the way, and enqueued. *)
Lemma run_move_one a k q t s (Q : () → Sched → Prop) :
  queues_ok s → qget k (tlist s) = Some q → a ∈ q → k ≠ kt → threads s !! a = Some t →
  (∀ s', moved k [a] s s' → Q () s') →
  run pk (set_state a st;; insert_into a) (with_tlist (qput k (filter (λ b, b ≠ a) q) (tlist s)) s) Q.
Proof.
  intros Hok Hq Ha Hne Ht HQ. set (s1 := with_tlist _ s).
  assert (queues_ok s1) as Hok1 by (by eapply queues_take; [done..|apply sublist_filter]).
  apply (run_enqueue a t); [done| |done|].
  { apply (off_taken _ _ q); try done. by intros [? _]%list_elem_of_filter. }
  intros q' s' Hok' Hrest Hq' Htl Hth. cbn [s1 with_tlist tlist threads] in *.
  rewrite qget_put_ne in Hq' by done. apply HQ. constructor; try done.
  - intros q2 Hq2. simplify_eq. rewrite Htl. eapply qget_put_eq. by rewrite qget_put_ne.
  - intros q2 Hq2. simplify_eq. rewrite Htl, qget_put_ne, (qget_put_eq _ _ _ _ Hq) by done.
    f_equal. apply list_filter_iff. intros x. by rewrite list_elem_of_singleton.
  - intros k' Hne1 Hne2. by rewrite Htl, !qget_put_ne by done.
  - intros b. rewrite Hth. destruct (decide (b = a)) as [->|Hb].
    + by rewrite lookup_insert_eq, decide_True, Ht by left.
    + by rewrite lookup_insert_ne, decide_False by (done || by rewrite list_elem_of_singleton).
Qed.

Lemma moved_nil k s : queues_ok s → moved k [] s s.
Proof.
  intros Hok. constructor; try done.
  - intros q ->. by rewrite app_nil_r.
  - intros q ->. by rewrite filter_true by (intros x _; apply not_elem_of_nil).
Qed.

Lemma moved_cons k a l s s1 s' : k ≠ kt → moved k [a] s s1 → moved k l s1 s' → moved k (a :: l) s s'.
Proof.
  intros Hk H1 H2. constructor.
  - exact (mv_ok _ _ _ _ H2).
  - exact (same_rest_trans _ _ _ (mv_rest _ _ _ _ H1) (mv_rest _ _ _ _ H2)).
  - intros q Hq. apply (mv_to _ _ _ _ H1) in Hq. apply (mv_to _ _ _ _ H2) in Hq. rewrite Hq.
    by rewrite <- app_assoc.
  - intros q Hq. apply (mv_from _ _ _ _ H1) in Hq. apply (mv_from _ _ _ _ H2) in Hq. rewrite Hq.
    f_equal. apply filter_twice. intros x. rewrite list_elem_of_singleton, not_elem_of_cons. done.
  - intros k' Hne Hr. by rewrite (mv_others _ _ _ _ H2), (mv_others _ _ _ _ H1).
  - intros b. rewrite (mv_threads _ _ _ _ H2), (mv_threads _ _ _ _ H1).
    destruct (decide (b = a)) as [->|Hne].
    + rewrite (decide_True (P := a ∈ [a])), (decide_True (P := a ∈ a :: l)) by left.
      destruct (decide _), (threads s !! a); done.
    + rewrite (decide_False (P := b ∈ [a])) by (by rewrite list_elem_of_singleton).
      destruct (decide (b ∈ l)) as [Hb|Hb].
      * by rewrite (decide_True (P := b ∈ a :: l)) by (by right).
      * by rewrite (decide_False (P := b ∈ a :: l)) by (by apply not_elem_of_cons).
Qed.

Lemma moved_on k l s s' b :
  moved k l s s' → (b ∉ l) → on (tlist s) k b → on (tlist s') k b.
Proof.
  intros Hw Hb (q & Hq & Hin). apply (mv_from _ _ _ _ Hw) in Hq. eexists. split; [done|].
  by apply list_elem_of_filter.
Qed.

Lemma run_move_to a k s (Q : () → Sched → Prop) :
  queues_ok s → on (tlist s) k a → per_cpu k = false → k ≠ kt →
  (∀ s', moved k [a] s s' → Q () s') → run pk (move_to a st) s Q.
Proof.
  intros Hok Hon Hk Hne HQ. destruct (ok_state _ Hok _ _ Hon) as (t & Ht & Hin).
  apply run_bind, (run_remove _ t k); [done|by apply key_on|done|]. intros q Hq.
  destruct Hon as (q0 & Hq0 & Ha). rewrite Hq in Hq0. injection Hq0 as <-. by apply (run_move_one a k q t).
Qed.

(** Moving the threads [f] says of those of a queue, in order. *)
Lemma run_move_some k (g : Z → SM ()) (f : Z → bool) l s (Q : () → Sched → Prop) :
  per_cpu k = false → k ≠ kt → queues_ok s → NoDup l → (∀ a, a ∈ l → on (tlist s) k a) →
  (∀ a s1, a ∈ l → queues_ok s1 → on (tlist s1) k a → threads s1 !! a = threads s !! a →
     ∀ Q : () → Sched → Prop, (if f a then ∀ s2, moved k [a] s1 s2 → Q () s2 else Q () s1) → run pk (g a) s1 Q) →
  (∀ s', moved k (filter (λ a, f a = true) l) s s' → Q () s') →
  run pk (each l g) s Q.
Proof.
  intros Hk Hne. revert s. induction l as [|a l IH]; intros s Hok Hnd Hon Hg HQ.
  { by apply HQ, moved_nil. }
  apply NoDup_cons in Hnd as [Ha Hnd]. cbn [each]. apply run_bind.
  apply (Hg a s); [left|done|apply Hon; left|done|]. rewrite filter_cons in HQ. destruct (f a) eqn:Ef.
  - rewrite (decide_True (P := true = true)) in HQ by done. intros s1 Hw. apply (IH s1); [|done| | |].
    + exact (mv_ok _ _ _ _ Hw).
    + intros b Hb. eapply (moved_on k [a] s); [done| |apply Hon; by right].
      rewrite list_elem_of_singleton. by intros ->.
    + intros b s2 Hb Hok2 Hon2 Ht2. apply Hg; [by right|done..|]. rewrite Ht2, (mv_threads _ _ _ _ Hw).
      rewrite decide_False; [done|]. rewrite list_elem_of_singleton. by intros ->.
    + intros s' Hw'. by apply HQ, (moved_cons k a _ s s1 s').
  - rewrite (decide_False (P := false = true)) in HQ by done. apply (IH s); [done|done| | |done].
    + intros b Hb. apply Hon. by right.
    + intros b s2 Hb. apply Hg. by right.
Qed.

Lemma run_move_all k l s (Q : () → Sched → Prop) :
  per_cpu k = false → k ≠ kt → queues_ok s → NoDup l → (∀ a, a ∈ l → on (tlist s) k a) →
  (∀ s', moved k l s s' → Q () s') → run pk (each l (λ b, move_to b st)) s Q.
Proof.
  intros Hk Hne Hok Hnd Hon HQ. apply (run_move_some k _ (λ _, true)); try done.
  - intros a s1 Ha Hok1 Hon1 _ Q' HQ'. by apply (run_move_to a k).
  - intros s' Hw. apply HQ. by rewrite filter_true in Hw.
Qed.

(** The front of a queue. *)
Lemma run_pop_move a k q t s (Q : () → Sched → Prop) :
  queues_ok s → qget k (tlist s) = Some (a :: q) → k ≠ kt → threads s !! a = Some t →
  (∀ s', moved k [a] s s' → Q () s') →
  run pk (set_state a st;; insert_into a) (with_tlist (qput k q (tlist s)) s) Q.
Proof.
  intros Hok Hq Hne Ht HQ. pose proof (ok_nodup _ Hok _ _ Hq) as [Ha _]%NoDup_cons.
  pose proof (run_move_one a k (a :: q) t s Q Hok Hq ltac:(left) Hne Ht HQ) as Hr.
  rewrite filter_cons, decide_False in Hr by (intros X; by apply X).
  rewrite filter_true in Hr; [done|]. by intros x Hx ->.
Qed.
End moves.

(** Asleep until [nsec] or before. *)
Definition due (s : Sched) (nsec : Z) (a : Z) : bool :=
  match threads s !! a with
  | Some t => match th_state t with Sleep n => n <=? nsec | _ => false end
  | None => false
  end.

Lemma run_sleepers nsec q s (Q : () → Sched → Prop) :
  queues_ok s → sleep (tlist s) = q →
  (∀ s', moved KReady Ready KSleep (filter (λ a, due s nsec a = true) q) s s' → Q () s') →
  run pk (each q (wake_sleeper nsec)) s Q.
Proof.
  intros Hok <- HQ. apply (run_move_some KReady Ready KSleep _ (due s nsec)); try done.
  - by apply (ok_nodup _ Hok KSleep).
  - intros a Ha. by exists (sleep (tlist s)).
  - intros a s1 Ha Hok1 Hon1 Ht1 Q' HQ'. destruct (ok_state _ Hok1 _ _ Hon1) as (t & Ht & [n Hn]).
    apply run_bind, (run_state _ _ t); [done|]. unfold due in HQ'. rewrite <- Ht1, Ht in HQ'. rewrite Hn in *.
    destruct (n <=? nsec); [|done]. by apply (run_move_to _ _ fixed_ready a KSleep).
Qed.

(** *** Picking *)

(** Its process is there and has not exited. *)
Definition alive s (a : Z) : bool :=
  match threads s !! a with
  | Some t => match procs s !! th_process t with Some p => p_alive p | None => false end
  | None => false
  end.

Lemma run_alive a t s (Q : bool → Sched → Prop) :
  threads s !! a = Some t → Q (alive s a) s → run pk (is_alive a) s Q.
Proof.
  intros Ht HQ. apply run_bind, run_bind, (run_thread _ _ t); [done|]. apply run_bind, run_get, run_ret.
  unfold alive in HQ. rewrite Ht in HQ. destruct (procs s !! th_process t); by apply run_ret.
Qed.

Lemma moved_alive kt st k l s s' a : moved kt st k l s s' → alive s' a = alive s a.
Proof.
  intros Hm. unfold alive. rewrite (mv_threads _ _ _ _ _ _ Hm). destruct (mv_rest _ _ _ _ _ _ Hm) as [-> _].
  destruct (decide (a ∈ l)), (threads s !! a); done.
Qed.

(** The ready threads before the first whose process lives go to be destroyed. *)
Definition first_alive s (d r : list Z) : Prop :=
  ready (tlist s) = d ++ r ∧ (∀ a, a ∈ d → alive s a = false) ∧
  match r with [] => True | t :: _ => alive s t = true end.

Lemma first_alive_ex s : ∃ d r, first_alive s d r.
Proof.
  unfold first_alive. generalize (ready (tlist s)). intros q.
  induction q as [|a q (d & r & -> & Hd & Hr)].
  - exists [], []. split_and!; try done. by intros a ?%not_elem_of_nil.
  - destruct (alive s a) eqn:Ea.
    + exists [], (a :: d ++ r). split_and!; try done. by intros b ?%not_elem_of_nil.
    + exists (a :: d), r. split_and!; try done. intros b [->|Hb]%elem_of_cons; [done|by apply Hd].
Qed.

(** What [pick] finds once [d] is out of the way. *)
Definition picked (d r : list Z) s (Q : option Z → Sched → Prop) : Prop :=
  ∀ s1, moved KDestroy Destroy KReady d s s1 →
  match r with
  | t :: r' => Q (Some t) (with_tlist (qput KReady r' (tlist s1)) s1)
  | [] => ∀ q, qget (KIdle prid) (tlist s1) = Some q →
      match last q with
      | Some t => Q (Some t) (with_tlist (qput (KIdle prid) (removelast q) (tlist s1)) s1)
      | None => Q None s1
      end
  end.

Lemma moved_ready_cons a d r s s1 :
  queues_ok s → ready (tlist s) = a :: d ++ r → moved KDestroy Destroy KReady [a] s s1 → ready (tlist s1) = d ++ r.
Proof.
  intros Hok Hr Hm. pose proof (ok_nodup _ Hok KReady _ eq_refl) as Hnd. rewrite Hr in Hnd.
  apply NoDup_cons in Hnd as [Ha _].
  pose proof (mv_from _ _ _ _ _ _ Hm (a :: d ++ r)) as Hf. simpl in Hf. rewrite Hr in Hf.
  specialize (Hf eq_refl). injection Hf as ->. rewrite filter_cons, decide_False by (intros X; apply X; left).
  apply filter_true. intros x Hx. rewrite list_elem_of_singleton. by intros ->.
Qed.

Lemma run_pick fuel d r s Q :
  queues_ok s → first_alive s d r → (length d < fuel)%nat →
  (r = [] → qget (KIdle prid) (tlist s) = None → pk) →
  picked d r s Q → run pk (pick fuel) s Q.
Proof.
  revert s d. induction fuel as [|fuel IH]; intros s d Hok (Hr & Hd & Hl) Hlen Hidle HQ; [lia|].
  cbn [pick]. apply run_bind, run_bind, (run_index _ KReady); [done| |done]. intros q [= <-].
  destruct d as [|a d]; cbn [app] in Hr.
  - pose proof (HQ s (moved_nil _ _ _ _ Hok)) as HQ'. destruct r as [|t r]; rewrite Hr.
    + apply run_ret, run_bind, (run_index _ (KIdle prid)); [done| |by apply Hidle]. intros q Hq.
      specialize (HQ' q Hq). destruct (last q); [|done]. by apply run_bind.
    + apply run_bind. cbn [run tl_set modify]. apply run_ret, run_bind.
      destruct (ok_state _ Hok KReady t) as (tt & Htt & _); [exists (ready (tlist s)); split; [done|rewrite Hr; left]|].
      apply (run_alive _ tt); [done|]. unfold alive in *. cbn [with_tlist threads procs]. rewrite Hl. by apply run_ret.
  - rewrite Hr. apply run_bind. cbn [run tl_set modify]. apply run_ret, run_bind.
    destruct (ok_state _ Hok KReady a) as (ta & Hta & _); [exists (ready (tlist s)); split; [done|rewrite Hr; left]|].
    apply (run_alive _ ta); [done|]. replace (alive (with_tlist _ s) a) with (alive s a) by done.
    rewrite (Hd a) by left. cbn [length] in Hlen.
    assert (run pk (set_state a Destroy;; insert_into a)
      (with_tlist (qput KReady (d ++ r) (tlist s)) s) (λ _ s', run pk (pick fuel) s' Q)) as Hrun.
    2: { revert Hrun. unfold run, mbind, M_bind. destruct (set_state a Destroy _) as [[[] s1]| | |]; [|done..].
         by destruct (insert_into a s1) as [[[] s2]| | |]. }
    apply (run_pop_move _ _ fixed_destroy a KReady (d ++ r) ta); try done; [by simpl; rewrite Hr|].
    intros s1 Hm. apply (IH s1 d).
    + exact (mv_ok _ _ _ _ _ _ Hm).
    + split_and!.
      * by apply (moved_ready_cons a _ _ s).
      * intros b Hb. rewrite (moved_alive _ _ _ _ _ _ _ Hm). apply Hd. by right.
      * destruct r; [done|]. by rewrite (moved_alive _ _ _ _ _ _ _ Hm).
    + lia.
    + intros Hr0 HN. apply Hidle; [done|]. by rewrite <- (mv_others _ _ _ _ _ _ Hm).
    + intros s2 Hm2. apply HQ. by apply (moved_cons _ _ _ a d s s1 s2).
Qed.

(** *** Switching *)

(** What the thread that leaves the processor becomes. *)
Definition left_state (t : Thread) : ThreadState :=
  if is_running (th_state t) then default_state t else th_state t.
Definition timed (prev now : Z) (t : Thread) : Thread :=
  if prev <=? now then th_with_time ((th_run_time t + (now - prev)) mod U64) t else t.
Definition left_thread (prev now : Z) (t : Thread) : Thread := th_with_state (left_state t) (timed prev now t).

(** The futex it was blocking on is unlocked. *)
Definition unlocked (f : KFutex) : KFutex :=
  mkKF (kf_id f) (kf_wait_count f) (kf_alive f) false (kf_ref_count f).
Definition unlock_of st (fs : gmap Z KFutex) : gmap Z KFutex :=
  match st with FutexBlock p => alter unlocked p fs | _ => fs end.

Lemma unlock_keeps st fs p f :
  fs !! p = Some f → ∃ f', unlock_of st fs !! p = Some f' ∧ kf_id f' = kf_id f.
Proof.
  destruct st; simpl; eauto. intros Hp. destruct (decide (f0 = p)) as [->|Hne].
  - rewrite lookup_alter_eq, Hp. by eexists.
  - rewrite lookup_alter_ne by done. eauto.
Qed.

Lemma run_inc_time a t prev now s (Q : () → Sched → Prop) :
  threads s !! a = Some t →
  Q () (with_threads (<[a := timed prev now t]> (threads s)) s) →
  run pk (if prev <=? now then inc_time a (now - prev) else mret ()) s Q.
Proof.
  intros Ht HQ. unfold timed in HQ. destruct (prev <=? now).
  - by apply (run_put _ _ _ t).
  - apply run_ret. rewrite insert_id in HQ by done. by destruct s.
Qed.

Lemma run_atomic st s (Q : () → Sched → Prop) :
  valid_state (kfutexes s) st → Q () (with_kfutexes (unlock_of st (kfutexes s)) s) →
  run pk (atomic_process st) s Q.
Proof.
  intros Hv HQ. destruct st; try (apply run_ret; by destruct s).
  destruct Hv as [H0 [g Hg]]. cbn [atomic_process force_unlock]. apply run_bind, run_get, run_bind.
  apply (run_lift _ _ g). { unfold the_futex. destruct (Z.eqb_spec f 0); [done|]. by rewrite Hg. }
  apply run_modify. simpl in HQ. by rewrite (alter_alt_Some _ _ _ g) in HQ.
Qed.

(** A thread that is not running, or no longer. *)
Lemma run_settle a t s (Q : () → Sched → Prop) :
  threads s !! a = Some t →
  Q () (with_threads (<[a := th_with_state (left_state t) t]> (threads s)) s) →
  run pk (if is_running (th_state t) then u ← the_thread a; set_state a (default_state u) else mret ()) s Q.
Proof.
  intros Ht HQ. unfold left_state in HQ. destruct (is_running (th_state t)).
  - apply run_bind, (run_thread _ _ t); [done|]. by apply (run_put _ _ _ t).
  - apply run_ret. rewrite insert_id in HQ; [by destruct s|]. rewrite Ht. by destruct t.
Qed.

Lemma key_unlock st st' s s' :
  valid_state (kfutexes s) st → kfutexes s' = unlock_of st' (kfutexes s) → key st s' = key st s.
Proof.
  destruct st; simpl; try done. intros [H0 [g Hg]] E. unfold the_futex. rewrite E.
  destruct (unlock_keeps st' _ _ _ Hg) as (g' & -> & Hid). rewrite Hg. destruct (f =? 0); [done|].
  simpl. by rewrite Hid.
Qed.

Lemma left_valid t fs : valid_state fs (th_state t) → valid_state fs (left_state t).
Proof. unfold left_state, default_state. destruct (is_running _); [by destruct (th_idle t)|done]. Qed.

Lemma left_not_running t : left_state t ≠ Running.
Proof. unfold left_state, default_state. destruct (th_state t) eqn:E; simpl; try done. by destruct (th_idle t). Qed.

Lemma left_timed prev now t : left_state (timed prev now t) = left_state t.
Proof. unfold timed. by destruct (prev <=? now). Qed.

Lemma state_timed prev now t : th_state (timed prev now t) = th_state t.
Proof. unfold timed. by destruct (prev <=? now). Qed.

(** The rest of the state after the old thread left. *)
Record left_off (old : Z) (t : Thread) (prev now : Z) (k : qkey) (q : list Z) s s' : Prop := {
  lo_ok : queues_ok s';
  lo_tlist : tlist s' = qput k (q ++ [old]) (tlist s);
  lo_threads : threads s' = <[old := left_thread prev now t]> (threads s);
  lo_procs : procs s' = procs s;
  lo_list : proc_list s' = proc_list s;
  lo_futex : kfutexes s' = unlock_of (th_state t) (kfutexes s);
  lo_switch : last_switch s' = last_switch s;
  lo_loaded : loaded s' = loaded s;
}.

Lemma run_switch_out old t prev now k s (Q : () → Sched → Prop) :
  queues_ok s → off s old → threads s !! old = Some t → key (left_state t) s = Ret k →
  (∀ q s', qget k (tlist s) = Some q → left_off old t prev now k q s s' → Q () s') →
  (qget k (tlist s) = None → pk) →
  run pk (switch_out old prev now) s Q.
Proof.
  intros Hok Hoff Ht Hk HQ HN. pose proof (ok_valid _ Hok _ _ Ht) as Hv.
  apply run_bind, (run_inc_time _ t); [done|]. set (t1 := timed prev now t). set (s1 := with_threads _ s).
  assert (threads s1 !! old = Some t1) as Ht1 by apply lookup_insert_eq.
  apply run_bind, (run_state _ _ t1); [done|]. unfold t1 at 1 2. rewrite state_timed.
  apply run_bind, run_atomic; [done|]. set (s2 := with_kfutexes _ s1).
  apply run_bind. rewrite <- (state_timed prev now t). fold t1. apply (run_settle _ t1); [done|].
  unfold t1 at 1. rewrite left_timed. set (s3 := with_threads _ s2).
  assert (valid_state (kfutexes s3) (left_state t)) as Hv3.
  { apply left_valid in Hv. cbn. destruct (left_state t); try done. destruct Hv as [H0 [g Hg]]. split; [done|].
    destruct (unlock_keeps (th_state t) _ _ _ Hg) as (g' & -> & _). by exists g'. }
  assert (threads s3 = <[old := left_thread prev now t]> (threads s)) as Hth.
  { cbn. by rewrite insert_insert_eq. }
  assert (queues_ok s3) as Hok3.
  { assert (queues_ok (with_kfutexes (unlock_of (th_state t) (kfutexes s)) s)) as Hokf.
    { apply queues_futex; [done|]. apply unlock_keeps. }
    pose proof (queues_state _ old t (left_thread prev now t) Hokf Ht Hv3) as Hx.
    refine (queues_same _ s3 (Hx _) _ _ _); try done. intros k' Hk'. by destruct (Hoff k'). }
  assert (key (left_state t) s3 = Ret k) as Hk3.
  { rewrite <- Hk. apply (key_unlock _ (th_state t)); [by apply left_valid|done]. }
  apply (run_insert _ (left_thread prev now t) k); [by rewrite Hth, lookup_insert_eq|done|done| |done].
  intros q Hq. apply (HQ q); [done|]. constructor; try done.
  apply (queues_push s3 k q old (left_thread prev now t)); try done; [by rewrite Hth, lookup_insert_eq| |].
  - destruct (key_valid _ _ Hv3) as (k' & Hk' & Hin & _). rewrite Hk3 in Hk'. by injection Hk' as <-.
  - intros c ->. destruct (key_valid _ _ Hv3) as (k' & Hk' & _ & Hr). rewrite Hk3 in Hk'. injection Hk' as <-.
    by destruct (Hr c eq_refl) as [?%left_not_running _].
Qed.

Definition set_mark (b : bool) (p : Process) : Process :=
  mkProc (p_alive p) (mkMarker (<[prid := b]> (marks (p_cpus p)))) (p_uid p) (p_next_tid p) (p_threads p) (p_arcs p).

Definition marks_ok s : Prop := ∀ pid p, procs s !! pid = Some p → (prid < length (marks (p_cpus p)))%nat.

Lemma run_set_running pid p b s (Q : () → Sched → Prop) :
  procs s !! pid = Some p → pk ∨ (prid < length (marks (p_cpus p)))%nat →
  Q () (with_procs (alter (set_mark b) pid (procs s)) s) → run pk (set_running pid p b) s Q.
Proof.
  intros Hp Hm HQ. unfold set_running, marker_set.
  destruct (marks (p_cpus p) !! prid) eqn:E.
  - apply run_bind. cbn. rewrite (alter_alt_Some _ _ _ p) in HQ by done. exact HQ.
  - destruct Hm as [Hm|Hm%lookup_lt_is_Some_2]; [done|]. rewrite E in Hm. by destruct Hm.
Qed.

(** The rest of the state after the new thread arrived. *)
Record arrived (old_pid : Z) (t : Z) (tt : Thread) s s' : Prop := {
  ar_ok : queues_ok s';
  ar_tlist : tlist s' = qput (KRunning prid) [t] (tlist s);
  ar_threads : threads s' = <[t := th_with_state Running tt]> (threads s);
  ar_procs : procs s' = alter (set_mark true) (th_process tt) (alter (set_mark false) old_pid (procs s));
  ar_list : proc_list s' = proc_list s;
  ar_futex : kfutexes s' = kfutexes s;
  ar_switch : last_switch s' = last_switch s;
  ar_loaded : loaded s' = match procs s !! old_pid with
    | Some _ => if old_pid =? th_process tt then loaded s else <[prid := th_process tt]> (loaded s)
    | None => <[prid := th_process tt]> (loaded s)
    end;
}.

Definition may_arrive (tt : Thread) s : Prop := is_Some (procs s !! th_process tt) ∧ marks_ok s.

Lemma run_switch_in old_pid t tt s (Q : Registers → Sched → Prop) :
  queues_ok s → off s t → threads s !! t = Some tt → qget (KRunning prid) (tlist s) = Some [] →
  pk ∨ may_arrive tt s →
  (∀ s', arrived old_pid t tt s s' → Q (th_regs tt) s') →
  run pk (switch_in old_pid (procs s !! old_pid) t) s Q.
Proof.
  intros Hok Hoff Ht Hrun Hgood HQ. set (tt' := th_with_state Running tt).
  apply run_bind, (run_put _ _ _ tt); [done|]. set (s1 := with_threads _ s).
  assert (queues_ok s1) as Hok1.
  { apply (queues_state _ _ tt); [done..|]. intros k' Hk'. by destruct (Hoff k'). }
  apply run_bind, (run_insert _ tt' (KRunning prid)); [by apply lookup_insert_eq|done|done| |].
  2: { change (tlist s1) with (tlist s). by rewrite Hrun. }
  cbn [s1 with_threads tlist]. intros q Hq. rewrite Hrun in Hq. injection Hq as <-. cbn [app].
  set (s2 := with_tlist _ _).
  assert (queues_ok s2) as Hok2.
  { apply (queues_push s1 (KRunning prid) [] t tt'); try done. by apply lookup_insert_eq. }
  assert (threads s2 !! t = Some tt') as Ht2 by apply lookup_insert_eq.
  apply run_bind, (run_thread _ _ tt'); [done|]. apply run_bind, run_bind, (run_thread _ _ tt'); [done|].
  apply run_bind, run_get, run_ret. change (procs s2) with (procs s). change (th_process tt') with (th_process tt).
  apply run_bind, run_unwrap.
  2: { intros HN. destruct Hgood as [?|[[? Hp] _]]; [done|]. congruence. }
  intros pn Hpn.
  assert (∀ s3, procs s3 = alter (set_mark false) old_pid (procs s) →
    ∃ pn', procs s3 !! th_process tt = Some pn' ∧ (pk ∨ (prid < length (marks (p_cpus pn')))%nat)) as Hpn'.
  { intros s3 ->. assert (pk ∨ (prid < length (marks (p_cpus pn)))%nat) as Hm.
    { destruct Hgood as [?|[_ Hm]]; [by left|right]. by eapply Hm. }
    destruct (decide (old_pid = th_process tt)) as [->|Hne].
    - rewrite lookup_alter_eq, Hpn. eexists. split; [done|]. simpl. by rewrite length_insert.
    - rewrite lookup_alter_ne by done. eauto. }
  apply run_bind.
  assert (∀ R : () → Sched → Prop, R () (with_procs (alter (set_mark false) old_pid (procs s)) s2) →
    run pk (match procs s !! old_pid with
      | Some _ => x ← get; q ← lift (unwrap (procs x !! old_pid)); set_running old_pid q false
      | None => mret () end) s2 R) as Hold.
  { intros R HR. destruct (procs s !! old_pid) as [po|] eqn:Eo.
    - apply run_bind, run_get, run_bind, (run_lift _ _ po); [cbn; by rewrite Eo|].
      apply run_set_running; [done| |done]. destruct Hgood as [?|[_ Hm]]; [by left|right]. by eapply Hm.
    - apply run_ret. assert (alter (set_mark false) old_pid (procs s) = procs s) as E0.
      { apply map_eq. intros i. destruct (decide (old_pid = i)) as [<-|Hne].
        - by rewrite lookup_alter_eq, Eo.
        - by rewrite lookup_alter_ne. }
      by rewrite E0 in HR. }
  apply Hold. clear Hold. set (s3 := with_procs _ s2).
  destruct (Hpn' s3 eq_refl) as (pn' & Hp3 & Hm3).
  apply run_bind, run_get, run_bind, (run_lift _ _ pn'); [by rewrite Hp3|].
  apply run_bind, run_set_running; [done..|]. set (s4 := with_procs _ s3). apply run_bind.
  assert (queues_ok s4) as Hok4 by (by apply (queues_same s2)).
  destruct (procs s !! old_pid) eqn:Eo; [destruct (old_pid =? th_process tt) eqn:Ep|]; cbn [negb];
    [apply run_ret, run_ret|apply run_modify, run_ret|apply run_modify, run_ret];
    (apply HQ; constructor; first [done|by apply (queues_same s2)|cbn; by rewrite Eo, ?Ep]).
Qed.

(** The thread [pick] takes, off its queue. *)
Inductive taken (r : list Z) s : Z → Sched → Prop :=
  | taken_ready t r' : r = t :: r' → taken r s t (with_tlist (qput KReady r' (tlist s)) s)
  | taken_idle q t : r = [] → qget (KIdle prid) (tlist s) = Some q → last q = Some t →
      taken r s t (with_tlist (qput (KIdle prid) (removelast q) (tlist s)) s).

Definition stop_running s : Sched := with_tlist (qput (KRunning prid) [] (tlist s)) s.

(** A switch from [old] to [t]: the dead threads go, [t] is taken, [old] leaves, [t] arrives. *)
Record switch (prev now : Z) (old t : Z) (to tt : Thread) s s' (s1 s2 s3 : Sched) (d r q : list Z) (k : qkey) : Prop := {
  sw_first : first_alive s d r;
  sw_moved : moved KDestroy Destroy KReady d s s1;
  sw_taken : taken r s1 t s2;
  sw_old : qget (KRunning prid) (tlist s2) = Some [old];
  sw_to : threads s2 !! old = Some to;
  sw_tt : threads s2 !! t = Some tt;
  sw_key : key (left_state to) s = Ret k;
  sw_q : qget k (tlist (stop_running s2)) = Some q;
  sw_left : left_off old to prev now k q (stop_running s2) s3;
  sw_arrived : arrived (th_process to) t tt s3 s';
}.

(** What a switch needs: a running thread whose next queue is there, and processes to run. *)
Record can_switch s : Prop := {
  cs_idle : is_Some (qget (KIdle prid) (tlist s));
  cs_running : ∃ old to k, qget (KRunning prid) (tlist s) = Some [old] ∧ threads s !! old = Some to ∧
    key (left_state to) s = Ret k ∧ is_Some (qget k (tlist s));
  cs_marks : marks_ok s;
  cs_kernel : ∀ a t, on (tlist s) (KIdle prid) a → threads s !! a = Some t → is_Some (procs s !! th_process t);
}.

Lemma removelast_sublist {A} (l : list A) : removelast l `sublist_of` l.
Proof.
  induction l as [|x [|y l] IH]; [done|apply sublist_cons, sublist_nil_l|].
  change (x :: removelast (y :: l) `sublist_of` x :: y :: l). by apply sublist_skip.
Qed.

Lemma last_split {A} (l : list A) x : last l = Some x → l = removelast l ++ [x].
Proof.
  destruct l as [|a l _] using rev_ind; [done|]. rewrite last_snoc. intros [= ->]. by rewrite removelast_last.
Qed.

Lemma taken_ok r s t s2 :
  queues_ok s → ready (tlist s) = r → taken r s t s2 →
  queues_ok s2 ∧ off s2 t ∧ threads s2 = threads s ∧ same_rest s s2 ∧
  (∀ k, k ≠ KReady → k ≠ KIdle prid → qget k (tlist s2) = qget k (tlist s)) ∧
  (∀ k, is_Some (qget k (tlist s)) → is_Some (qget k (tlist s2))) ∧
  (on (tlist s) KReady t ∨ on (tlist s) (KIdle prid) t).
Proof.
  intros Hok <- Ht.
  assert (∀ k q' q, qget k (tlist s) = Some q → ∀ k', is_Some (qget k' (tlist s)) →
    is_Some (qget k' (qput k q' (tlist s)))) as Hsome.
  { intros k q' q Hq k' Hk'. destruct (decide (k = k')) as [<-|Hne].
    - rewrite (qget_put_eq _ _ _ _ Hq). eauto.
    - by rewrite qget_put_ne. }
  destruct Ht as [t r' Hr|q t Hr Hq Hl].
  - pose proof (ok_nodup _ Hok KReady _ eq_refl) as Hnd. rewrite Hr in Hnd. apply NoDup_cons in Hnd as [Hn _].
    split_and!; try done.
    + apply (queues_take _ KReady (ready (tlist s))); [done..|]. rewrite Hr. by apply sublist_cons.
    + eapply off_taken; [done..| |done]. rewrite Hr. left.
    + intros k H1 H2. cbn [with_tlist tlist]. by rewrite qget_put_ne.
    + intros k. by eapply Hsome.
    + left. exists (ready (tlist s)). split; [done|]. rewrite Hr. left.
  - pose proof (ok_nodup _ Hok _ _ Hq) as Hnd. apply last_split in Hl as Hl'.
    rewrite Hl' in Hnd. apply NoDup_snoc in Hnd as [Hn _].
    split_and!; try done.
    + eapply queues_take; [done..|apply removelast_sublist].
    + eapply off_taken; [done..| |done]. rewrite Hl'. apply elem_of_app. right. left.
    + intros k H1 H2. cbn [with_tlist tlist]. by rewrite qget_put_ne.
    + intros k. by eapply Hsome.
    + right. exists q. split; [done|]. rewrite Hl'. apply elem_of_app. right. left.
Qed.

Lemma moved_some kt st k0 l s s' k :
  moved kt st k0 l s s' → is_Some (qget k (tlist s)) → is_Some (qget k (tlist s')).
Proof.
  intros Hm [q Hq]. destruct (decide (k = k0)) as [->|H1].
  { rewrite (mv_from _ _ _ _ _ _ Hm q Hq). eauto. }
  destruct (decide (k = kt)) as [->|H2].
  { rewrite (mv_to _ _ _ _ _ _ Hm q Hq). eauto. }
  rewrite (mv_others _ _ _ _ _ _ Hm) by done. eauto.
Qed.

(** A thread that is picked has a process to run. *)
Lemma taken_process d r s s1 t s2 tt :
  can_switch s → first_alive s d r → moved KDestroy Destroy KReady d s s1 → taken r s1 t s2 →
  threads s1 !! t = Some tt → is_Some (procs s !! th_process tt).
Proof.
  intros Hc (_ & _ & Hr) Hm Ht Htt. destruct (mv_rest _ _ _ _ _ _ Hm) as [Rp _].
  destruct Ht as [t r' ->|q t -> Hq Hl].
  - rewrite <- (moved_alive _ _ _ _ _ _ _ Hm) in Hr. unfold alive in Hr. rewrite Htt, Rp in Hr.
    destruct (procs s !! th_process tt); [eauto|done].
  - rewrite (mv_others _ _ _ _ _ _ Hm) in Hq by done. rewrite (mv_threads _ _ _ _ _ _ Hm) in Htt.
    assert (on (tlist s) (KIdle prid) t) as Hon.
    { exists q. split; [done|]. rewrite (last_split _ _ Hl). apply elem_of_app. right. left. }
    destruct (threads s !! t) as [tt0|] eqn:E; [|by destruct (decide (t ∈ d))].
    replace (th_process tt) with (th_process tt0); [by apply (cs_kernel _ Hc t)|].
    destruct (decide (t ∈ d)); by injection Htt as <-.
Qed.

Lemma key_same st s s' : kfutexes s' = kfutexes s → key st s' = key st s.
Proof. intros E. destruct st; try done. simpl. unfold the_futex. by rewrite E. Qed.

Lemma moved_ready_rest d r s s1 :
  queues_ok s → ready (tlist s) = d ++ r → moved KDestroy Destroy KReady d s s1 → ready (tlist s1) = r.
Proof.
  intros Hok Hr Hm. pose proof (mv_from _ _ _ _ _ _ Hm _ eq_refl) as H. injection H as ->. rewrite Hr.
  apply filter_rest. rewrite <- Hr. by apply (ok_nodup _ Hok KReady).
Qed.

(** A thread never leaves for the queue of the running one. *)
Lemma left_key t s k : key (left_state t) s = Ret k → k ≠ KRunning prid.
Proof.
  intros Hk ->. destruct (left_state t) eqn:E; try done.
  - by apply left_not_running in E.
  - simpl in Hk. by destruct (the_futex f s).
Qed.

(** Once a thread is picked the switch goes through. *)
Lemma run_switch prev now t s s1 s2 d r (Q : bool * Registers → Sched → Prop) :
  queues_ok s → pk ∨ can_switch s → first_alive s d r → moved KDestroy Destroy KReady d s s1 → taken r s1 t s2 →
  (∀ old to tt s' s3 q k, queues_ok s' → switch prev now old t to tt s s' s1 s2 s3 d r q k →
     Q (true, th_regs tt) s') →
  run pk (o ← pop Running; old ← lift (unwrap o); th ← the_thread old; old_process ← process old;
    switch_out old prev now;; g ← switch_in (th_process th) old_process t; mret (true, g)) s2 Q.
Proof.
  intros Hok Hcan Hfirst Hmoved Htaken HQ. destruct Hfirst as (Hr & Hd & Halive) eqn:E0. clear E0.
  pose proof (mv_ok _ _ _ _ _ _ Hmoved) as Hok1. destruct (mv_rest _ _ _ _ _ _ Hmoved) as (Rp & Rl & Rf & _ & _).
  pose proof (moved_ready_rest _ _ _ _ Hok Hr Hmoved) as Hr1.
  destruct (taken_ok _ _ _ _ Hok1 Hr1 Htaken) as (Hok2 & Hoff & Hth2 & (R2p & R2l & R2f & _) & Hq2 & Hsome2 & Hfrom).
  assert (qget (KRunning prid) (tlist s2) = qget (KRunning prid) (tlist s)) as Hrun2.
  { rewrite Hq2 by done. by apply (mv_others _ _ _ _ _ _ Hmoved). }
  apply run_bind, run_bind, (run_index _ (KRunning prid)); [done| |].
  2: { rewrite Hrun2. intros HN. destruct Hcan as [?|[_ (o & ? & ? & Hc & _) _ _]]; [done|]. congruence. }
  intros qr Hqr. pose proof (ok_running _ Hok2 _ _ Hqr) as Hlen.
  destruct qr as [|old [|? ?]]; [| |by cbn [length] in Hlen; lia]; cbn [last].
  { apply run_ret, run_bind, run_unwrap; [done|]. intros _.
    destruct Hcan as [?|[_ (o & ? & ? & Hc & _) _ _]]; [done|]. rewrite Hrun2 in Hqr. congruence. }
  apply run_bind. cbn [run tl_set modify removelast]. apply run_ret.
  apply run_bind, (run_lift _ _ old); [done|]. change (with_tlist _ s2) with (stop_running s2).
  assert (queues_ok (stop_running s2)) as Hok3.
  { apply (queues_take _ _ [old]); [done..|apply sublist_nil_l]. }
  assert (on (tlist s2) (KRunning prid) old) as Hon by (exists [old]; split; [done|left]).
  destruct (ok_state _ Hok2 _ _ Hon) as (to & Hto & _).
  assert (off (stop_running s2) old) as Hoffold.
  { apply (off_taken _ _ [old]); [done..|left|apply not_elem_of_nil]. }
  assert (t ≠ old) as Hne by (intros ->; by apply (Hoff (KRunning prid))).
  assert (off (stop_running s2) t) as Hofft.
  { intros k Hk. apply (on_put _ _ _ _ _ _ Hqr) in Hk as [[-> Hx]|[_ Hx]]; [by apply elem_of_nil in Hx|].
    by apply (Hoff k). }
  assert (∃ tt, threads s2 !! t = Some tt) as (tt & Htt).
  { rewrite Hth2. destruct Hfrom as [Hf|Hf]; destruct (ok_state _ Hok1 _ _ Hf) as (tt & ? & _); eauto. }
  destruct (key_valid _ _ (left_valid _ _ (ok_valid _ Hok2 _ _ Hto))) as (k & Hk & _).
  assert (key (left_state to) s = Ret k) as Hks.
  { rewrite <- Hk. apply key_same. by rewrite R2f, Rf. }
  apply run_bind, (run_thread _ _ to); [done|]. apply run_bind, run_bind, (run_thread _ _ to); [done|].
  apply run_bind, run_get, run_ret, run_bind. change (procs (stop_running s2)) with (procs s2).
  apply (run_switch_out _ to _ _ k); [done|done|done|by rewrite (key_same _ s2)| |].
  2: { intros HN. destruct Hcan as [?|[_ (o & to' & k' & Hc & Hto' & Hk' & [q' Hq']) _ _]]; [done|exfalso].
    rewrite Hrun2, Hc in Hqr. injection Hqr as ->.
    assert (on (tlist s) (KRunning prid) old) as Hono by (exists [old]; split; [done|left]).
    assert (threads s2 !! old = Some to') as Hx.
    { rewrite Hth2, (mv_threads _ _ _ _ _ _ Hmoved), decide_False; [done|]. intros Hod.
      assert (KRunning prid = KReady) as [=]. apply (ok_one _ Hok _ _ old); [done|].
      exists (ready (tlist s)). split; [done|]. rewrite Hr. apply elem_of_app. by left. }
    rewrite Hto in Hx. injection Hx as ->. rewrite Hks in Hk'. injection Hk' as <-.
    destruct (Hsome2 k) as [x Hx]; [apply (moved_some _ _ _ _ _ _ _ Hmoved); eauto|].
    unfold stop_running in HN. cbn [with_tlist tlist] in HN. destruct (decide (KRunning prid = k)) as [<-|Hnk].
    - rewrite (qget_put_eq _ _ _ _ Hx) in HN. done.
    - rewrite qget_put_ne, Hx in HN by done. done. }
  intros q s3 Hq Hleft. apply run_bind.
  destruct Hleft as [L1 L2 L3 L4 L5 L6 L7 L8] eqn:EL. clear EL.
  pose proof (left_key _ _ _ Hks) as Hnk.
  assert (threads s3 !! t = Some tt) as Htt3 by (rewrite L3, lookup_insert_ne by done; exact Htt).
  change (procs s2) with (procs (stop_running s2)). rewrite <- L4.
  apply (run_switch_in _ t tt s3); [done| |done| | |].
  - intros k' Hk'. rewrite L2 in Hk'. apply (on_put _ _ _ _ _ _ Hq) in Hk' as [[-> Hx]|[_ Hx]]; [|by apply (Hofft k')].
    apply elem_of_app in Hx as [Hx|Hx%list_elem_of_singleton]; [|done]. apply (Hofft k). by exists q.
  - rewrite L2, qget_put_ne by done. unfold stop_running. cbn [with_tlist tlist]. by rewrite (qget_put_eq _ _ _ _ Hqr).
  - destruct Hcan as [?|Hcan]; [by left|right].
    assert (procs s3 = procs s) as Ep by (rewrite L4; change (procs s2 = procs s); congruence).
    split; rewrite ?Ep.
    + apply (taken_process d r s s1 t s2); try done. by rewrite <- Hth2.
    + unfold marks_ok. rewrite Ep. apply (cs_marks _ Hcan).
  - intros s' Harr. apply run_ret, (HQ old to tt s' s3 q k); [exact (ar_ok _ _ _ _ _ Harr)|].
    by constructor.
Qed.

(** [schedule]: either nothing is left to run but the current thread, or a switch is made. *)
Lemma run_schedule regs prev now s (Q : bool * Registers → Sched → Prop) :
  queues_ok s → pk ∨ can_switch s →
  (∀ d s', first_alive s d [] → moved KDestroy Destroy KReady d s s' →
     qget (KIdle prid) (tlist s) = Some [] → Q (false, regs) s') →
  (∀ old t to tt s' s1 s2 s3 d r q k, queues_ok s' → switch prev now old t to tt s s' s1 s2 s3 d r q k →
     Q (true, th_regs tt) s') →
  run pk (schedule regs prev now) s Q.
Proof.
  intros Hok Hcan HQ1 HQ2. destruct (first_alive_ex s) as (d & r & Hf).
  apply run_bind, run_get, run_bind, (run_pick _ d r); [done|done| | |].
  - destruct Hf as (-> & _). rewrite length_app. lia.
  - intros _ HN. destruct Hcan as [?|[[? Hi] _ _ _]]; [done|]. congruence.
  - intros s1 Hm. destruct r as [|t r].
    + intros q Hq. destruct (last q) as [t|] eqn:El.
      * apply (run_switch prev now t s s1 _ d []); try done; [by apply (taken_idle _ _ q)|].
        intros. by eapply HQ2.
      * apply run_ret, (HQ1 d); [done|done|]. apply last_None in El as ->.
        by rewrite <- (mv_others _ _ _ _ _ _ Hm).
    + apply (run_switch prev now t s s1 _ d (t :: r)); try done; [by apply taken_ready|].
      intros. by eapply HQ2.
Qed.
End ops.
