(* ===== verification/SchedSafe.v ===== *)
(** * Safety of the scheduler

    Processors, interrupts and system calls interleave their steps on the list of
    threads.  [sched_safe] shows that no order of steps loses a thread, puts one on two
    queues or follows a pointer to one that was freed. *)

From Stdlib Require Import String.
From S2P Require Import Prelude Sys Ranges Thread CpuMarker Sched SchedInv.

(** ** The invariant *)

(** [held] are the threads [thread_cleaner] has taken off the list, to free them. *)
Record sched_inv (s : Sched) (held : list Z) : Prop := {
  iv_queues : queues_ok s;
  iv_procs : ∀ pid p tid a, procs s !! pid = Some p → p_threads p !! tid = Some a →
    ∃ t, threads s !! a = Some t ∧ th_tuid t = (pid, tid);
  iv_tuid : ∀ a t, threads s !! a = Some t → th_process t = (th_tuid t).1;
  iv_where : ∀ a, is_Some (threads s !! a) → (∃ k, on (tlist s) k a) ∨ a ∈ held;
  iv_held : NoDup held;
  iv_off : ∀ a, a ∈ held → off s a ∧ is_Some (threads s !! a);
}.

Definition identity (t : Thread) : Z * Tuid := (th_process t, th_tuid t).

(** The same threads, of the same processes, on the list. *)
Record same_shape (s s' : Sched) : Prop := {
  ss_queues : queues_ok s';
  ss_on a : (∃ k, on (tlist s') k a) ↔ (∃ k, on (tlist s) k a);
  ss_threads a : identity <$> threads s' !! a = identity <$> threads s !! a;
  ss_procs pid : p_threads <$> procs s' !! pid = p_threads <$> procs s !! pid;
}.

Lemma shape_refl s : queues_ok s → same_shape s s.
Proof. by constructor. Qed.

Lemma shape_trans s1 s2 s3 : same_shape s1 s2 → same_shape s2 s3 → same_shape s1 s3.
Proof.
  intros H1 H2. constructor; intros.
  - apply H2.
  - by rewrite (ss_on _ _ H2), (ss_on _ _ H1).
  - by rewrite (ss_threads _ _ H2), (ss_threads _ _ H1).
  - by rewrite (ss_procs _ _ H2), (ss_procs _ _ H1).
Qed.

Lemma fmap_eq_some {A B} (f : A → B) (x y : option A) a :
  f <$> x = f <$> y → y = Some a → ∃ b, x = Some b ∧ f b = f a.
Proof. intros H ->. destruct x as [b|]; simplify_eq/=. eauto. Qed.

Lemma fmap_is_some {A B} (f : A → B) (x y : option A) : f <$> x = f <$> y → is_Some x → is_Some y.
Proof. intros H [a ->]. destruct y; [eauto|done]. Qed.

Lemma inv_shape s s' held : sched_inv s held → same_shape s s' → sched_inv s' held.
Proof.
  intros [I1 I2 I3 I4 I5 I6] [S1 S2 S3 S4]. constructor; try done.
  - intros pid p tid a Hp Ha. specialize (S4 pid). rewrite Hp in S4. symmetry in S4.
    destruct (procs s !! pid) as [p0|] eqn:E; simplify_eq/=. rewrite <- S4 in Ha.
    destruct (I2 _ _ _ _ E Ha) as (t & Ht & Hid).
    destruct (fmap_eq_some _ _ _ _ (S3 a) Ht) as (t' & Ht' & Eid). exists t'. split; [done|].
    unfold identity in Eid. congruence.
  - intros a t Ht. destruct (fmap_eq_some _ _ _ _ (eq_sym (S3 a)) Ht) as (t' & Ht' & Eid).
    specialize (I3 _ _ Ht'). unfold identity in Eid. congruence.
  - intros a Ha. rewrite S2. apply I4. by apply (fmap_is_some _ _ _ (S3 a)).
  - intros a Ha. destruct (I6 a Ha) as [Ho Hs]. split.
    + intros k Hk. destruct (proj1 (S2 a)) as [k' Hk']; [eauto|]. by apply (Ho k').
    + by apply (fmap_is_some _ _ _ (eq_sym (S3 a))).
Qed.

(** ** What the operations do to the shape *)

(** A change of the fields of threads, processes and futexes that the list does not see. *)
Lemma shape_thread s a t t' :
  queues_ok s → threads s !! a = Some t → identity t' = identity t → valid_state (kfutexes s) (th_state t') →
  (∀ k, on (tlist s) k a → in_state (kfutexes s) (th_state t') k) →
  same_shape s (with_threads (<[a := t']> (threads s)) s).
Proof.
  intros Hok Ht Hid Hv Hin. constructor; try done.
  - by apply (queues_state _ _ t).
  - intros b. cbn. destruct (decide (a = b)) as [<-|Hne]; [|by rewrite lookup_insert_ne].
    rewrite lookup_insert_eq, Ht. simpl. by rewrite Hid.
Qed.

Lemma shape_same_state s a t t' :
  queues_ok s → threads s !! a = Some t → identity t' = identity t → th_state t' = th_state t →
  same_shape s (with_threads (<[a := t']> (threads s)) s).
Proof.
  intros Hok Ht Hid Hst. apply (shape_thread s a t); try done; rewrite Hst.
  - by apply (ok_valid _ Hok a).
  - intros k Hk. destruct (ok_state _ Hok _ _ Hk) as (t0 & Ht0 & Hin). by simplify_eq.
Qed.

Lemma shape_futex s fs :
  queues_ok s → (∀ p f, kfutexes s !! p = Some f → ∃ f', fs !! p = Some f' ∧ kf_id f' = kf_id f) →
  same_shape s (with_kfutexes fs s).
Proof. intros Hok Hf. constructor; try done. by apply queues_futex. Qed.

Lemma shape_kf_put s p f f' :
  queues_ok s → kfutexes s !! p = Some f → kf_id f' = kf_id f →
  same_shape s (with_kfutexes (<[p := f']> (kfutexes s)) s).
Proof.
  intros Hok Hp Hid. apply shape_futex; [done|]. intros p' g Hg. destruct (decide (p = p')) as [<-|Hne].
  - rewrite lookup_insert_eq. simplify_eq. by eexists.
  - rewrite lookup_insert_ne by done. eauto.
Qed.

(** Making an empty queue, and taking one away. *)
Lemma shape_queue s k : 
  queues_ok s → per_cpu k = false → qget k (tlist s) = None → same_shape s (with_tlist (qput k [] (tlist s)) s).
Proof.
  intros Hok Hk HN. pose proof (qget_put_tree k [] (tlist s) Hk) as Hp.
  assert (∀ k' a, on (qput k [] (tlist s)) k' a ↔ on (tlist s) k' a) as Hon.
  { intros k' a. unfold on. destruct (decide (k = k')) as [<-|Hne].
    - rewrite Hp, HN. split; [|by intros (? & ? & ?)]. intros (q & [= <-] & Hx). by apply elem_of_nil in Hx.
    - by rewrite qget_put_ne. }
  constructor; try done.
  - constructor; cbn [with_tlist tlist threads kfutexes].
    + intros k' q. destruct (decide (k = k')) as [<-|Hne].
      * rewrite Hp. intros [= <-]. constructor.
      * rewrite qget_put_ne by done. apply (ok_nodup _ Hok).
    + intros k1 k2 a. rewrite !Hon. apply (ok_one _ Hok).
    + intros k' a. rewrite Hon. apply (ok_state _ Hok).
    + intros c q. destruct (decide (k = KRunning c)) as [->|Hne]; [done|].
      rewrite qget_put_ne by done. apply (ok_running _ Hok).
    + apply (ok_valid _ Hok).
  - intros a. cbn [with_tlist tlist]. split; intros [k' Hk']; exists k'; by apply Hon.
Qed.

Lemma shape_drop s k :
  queues_ok s → qget k (tlist s) = Some [] → same_shape s (with_tlist (qdrop k (tlist s)) s).
Proof.
  intros Hok Hq.
  assert (∀ k' a, on (qdrop k (tlist s)) k' a ↔ on (tlist s) k' a) as Hon.
  { intros k' a. split.
    - intros (q & H1 & H2). exists q. split; [by eapply qget_drop|done].
    - intros (q & H1 & H2). exists q. split; [|done]. rewrite qget_drop_ne; [done|]. intros ->.
      rewrite Hq in H1. injection H1 as <-. by apply elem_of_nil in H2. }
  constructor; try done.
  - constructor; cbn [with_tlist tlist threads kfutexes].
    + intros k' q Hk'. apply (ok_nodup _ Hok k'). by eapply qget_drop.
    + intros k1 k2 a. rewrite !Hon. apply (ok_one _ Hok).
    + intros k' a. rewrite Hon. apply (ok_state _ Hok).
    + intros c q Hk'. apply (ok_running _ Hok c). by eapply qget_drop.
    + apply (ok_valid _ Hok).
  - intros a. cbn [with_tlist tlist]. split; intros [k' Hk']; exists k'; by apply Hon.
Qed.

Section ops.
Context {P : Cpu} (pk : Prop).

Lemma shape_moved kt st k l s s' :
  fixed_queue kt st → is_Some (qget k (tlist s)) → (∀ a, a ∈ l → on (tlist s) k a) →
  moved kt st k l s s' → same_shape s s'.
Proof.
  intros Hfix Hsome Hl Hm. constructor.
  - exact (mv_ok _ _ _ _ _ _ Hm).
  - destruct (fq_is _ _ Hfix (tlist s)) as [qt Hqt]. pose proof (mv_to _ _ _ _ _ _ Hm _ Hqt) as Hqt'.
    intros a. split.
    + intros (k' & q' & Hq' & Ha). destruct (decide (k' = kt)) as [->|H1].
      { rewrite Hqt' in Hq'. injection Hq' as <-. apply elem_of_app in Ha as [Ha|Ha].
        - by exists kt, qt.
        - exists k. by apply Hl. }
      destruct (decide (k' = k)) as [->|H2].
      { destruct (qget k (tlist s)) as [q|] eqn:Eq.
        - rewrite (mv_from _ _ _ _ _ _ Hm q Eq) in Hq'. injection Hq' as <-.
          apply list_elem_of_filter in Ha as [_ Ha]. by exists k, q.
        - by destruct Hsome. }
      rewrite (mv_others _ _ _ _ _ _ Hm) in Hq' by done. by exists k', q'.
    + intros (k' & q' & Hq' & Ha). destruct (decide (a ∈ l)) as [Hal|Hal].
      { exists kt. eexists. split; [exact Hqt'|]. apply elem_of_app. by right. }
      destruct (decide (k' = kt)) as [->|H1].
      { rewrite Hqt in Hq'. injection Hq' as <-. exists kt. eexists. split; [exact Hqt'|]. apply elem_of_app. by left. }
      destruct (decide (k' = k)) as [->|H2].
      { exists k. eexists. split; [by apply (mv_from _ _ _ _ _ _ Hm)|]. by apply list_elem_of_filter. }
      exists k', q'. by rewrite (mv_others _ _ _ _ _ _ Hm).
  - intros a. rewrite (mv_threads _ _ _ _ _ _ Hm). destruct (decide (a ∈ l)); [|done]. by destruct (threads s !! a).
  - intros pid. by destruct (mv_rest _ _ _ _ _ _ Hm) as [-> _].
Qed.

(** One thread less, and one more, on the list. *)
Lemma any_take k q q' x l a :
  qget k l = Some q → q ≡ₚ x :: q' →
  (∃ k', on l k' a) ↔ a = x ∨ ∃ k', on (qput k q' l) k' a.
Proof.
  intros Hq Hp. setoid_rewrite (on_put k q' q l); [|done]. split.
  - intros (k' & q1 & Hq1 & Ha). destruct (decide (k' = k)) as [->|Hne].
    + rewrite Hq in Hq1. injection Hq1 as <-. rewrite Hp in Ha. apply elem_of_cons in Ha as [->|Ha]; eauto 6.
    + right. exists k'. right. split; [done|]. by exists q1.
  - intros [->|(k' & [[-> Ha]|[_ Ha]])]; [exists k|exists k|by exists k'];
      (exists q; split; [done|]; rewrite Hp; by constructor).
Qed.

Lemma any_push k q x l a :
  qget k l = Some q → (∃ k', on (qput k (q ++ [x]) l) k' a) ↔ a = x ∨ ∃ k', on l k' a.
Proof.
  intros Hq. setoid_rewrite (on_put k (q ++ [x]) q l); [|done]. split.
  - intros (k' & [[-> [Ha|Ha%list_elem_of_singleton]%elem_of_app]|[_ Ha]]); [|by left|by eauto].
    right. exists k, q. done.
  - intros [->|(k' & q1 & Hq1 & Ha)].
    + exists k. left. split; [done|]. apply elem_of_app. right. left.
    + destruct (decide (k' = k)) as [->|Hne].
      * exists k. left. split; [done|]. rewrite Hq in Hq1. injection Hq1 as <-. apply elem_of_app. by left.
      * exists k'. right. split; [done|]. by exists q1.
Qed.

Lemma any_taken r s t s2 a :
  ready (tlist s) = r → taken r s t s2 →
  (∃ k, on (tlist s) k a) ↔ a = t ∨ ∃ k, on (tlist s2) k a.
Proof.
  intros <- [u r' Hr|q u Hr Hq Hl]; cbn [with_tlist tlist].
  - apply (any_take KReady (ready (tlist s))); [done|]. by rewrite Hr.
  - apply (any_take (KIdle prid) q); [done|]. rewrite (last_split _ _ Hl) at 1. by rewrite Permutation_app_comm.
Qed.

Lemma shape_switch prev now old t to tt s s' s1 s2 s3 d r q k :
  queues_ok s → queues_ok s' → switch prev now old t to tt s s' s1 s2 s3 d r q k → same_shape s s'.
Proof.
  intros Hok Hok' [W1 W2 W3 W4 W5 W6 W7 W8 W9 W10].
  pose proof (moved_ready_rest _ _ _ _ Hok (proj1 W1) W2) as Hr1.
  apply (shape_trans _ s1).
  { apply (shape_moved KDestroy Destroy KReady d); [apply fixed_destroy|by eexists| |done].
    intros a Ha. exists (ready (tlist s)). split; [done|]. destruct W1 as (-> & _). apply elem_of_app. by left. }
  destruct (taken_ok _ _ _ _ (mv_ok _ _ _ _ _ _ W2) Hr1 W3) as (Hok2 & Hoff & Hth2 & (Rp & _) & Hq2 & _ & _).
  destruct W9 as [_ L2 L3 L4 _ _ _ _], W10 as [_ A2 A3 A4 _ _ _ _].
  pose proof (left_key _ _ _ W7) as Hk.
  assert (t ≠ old) as Hne.
  { intros ->. apply (Hoff (KRunning prid)). exists [old]. split; [done|left]. }
  constructor; [done| | |].
  - intros a. rewrite (any_taken _ _ _ _ a Hr1 W3), (any_take (KRunning prid) [old] [] old (tlist s2) a W4) by done.
    rewrite A2. change [t] with ([] ++ [t]). rewrite (any_push (KRunning prid) []), L2, (any_push k q); [done|done|].
    rewrite L2, qget_put_ne by done. cbn [stop_running with_tlist tlist]. by rewrite (qget_put_eq _ _ _ _ W4).
  - intros a. rewrite A3, L3. cbn [stop_running with_tlist threads]. rewrite <- Hth2.
    destruct (decide (a = t)) as [->|H1]; [by rewrite lookup_insert_eq, W6|].
    rewrite lookup_insert_ne by done. destruct (decide (a = old)) as [->|H2].
    + rewrite lookup_insert_eq, W5. unfold left_thread, timed. by destruct (prev <=? now).
    + by rewrite lookup_insert_ne.
  - intros pid. rewrite A4, L4. cbn [stop_running with_tlist procs]. rewrite Rp.
    assert (∀ b i (m : gmap Z Process), p_threads <$> alter (set_mark b) i m !! pid = p_threads <$> m !! pid) as Halt.
    { intros b i m. destruct (decide (i = pid)) as [->|Hi].
      - rewrite lookup_alter_eq. by destruct (m !! pid).
      - by rewrite lookup_alter_ne. }
    by rewrite !Halt.
Qed.

(** ** The steps keep the shape *)

Lemma shape_each kt st k l s (Q : () → Sched → Prop) :
  fixed_queue kt st → per_cpu k = false → k ≠ kt → queues_ok s → qget k (tlist s) = Some l →
  (∀ s', moved kt st k l s s' → same_shape s s' → Q () s') → run pk (each l (λ b, move_to b st)) s Q.
Proof.
  intros Hfix Hk Hne Hok Hq HQ. apply (run_move_all pk kt st Hfix k); try done.
  - by apply (ok_nodup _ Hok k).
  - intros a Ha. by exists l.
  - intros s' Hm. apply HQ; [done|]. apply (shape_moved kt st k l); [done|by eexists| |done].
    intros a Ha. by exists l.
Qed.

Lemma shape_schedule regs prev now s (Q : bool * Registers → Sched → Prop) :
  queues_ok s → pk ∨ can_switch s → (∀ x s', same_shape s s' → Q x s') → run pk (schedule regs prev now) s Q.
Proof.
  intros Hok Hcan HQ. apply run_schedule; [done|done| |].
  - intros d s' (Hr & _) Hm _. apply HQ. apply (shape_moved KDestroy Destroy KReady d); [apply fixed_destroy|by eexists| |done].
    intros a Ha. exists (ready (tlist s)). split; [done|]. rewrite Hr. apply elem_of_app. by left.
  - intros old t to tt s' s1 s2 s3 d r q k Hok' Hs. apply HQ. by eapply shape_switch.
Qed.

Lemma shape_last n s s' : same_shape s s' → same_shape s (with_last_switch n s').
Proof. intros [S1 S2 S3 S4]. constructor; try done. by apply (queues_same s'). Qed.

Lemma shape_time `{Build} regs nsec s (Q : bool * Registers → Sched → Prop) :
  pk → queues_ok s → (∀ x s', same_shape s s' → Q x s') → run pk (time_handler regs nsec) s Q.
Proof.
  intros Hpk Hok HQ. apply run_bind.
  assert (∀ R : () → Sched → Prop, (∀ s', same_shape s s' → R () s') →
    run pk (if (prid =? 0)%nat then '(_, q) ← tl_index (Sleep 0); each q (wake_sleeper nsec) else mret ()) s R) as Hwake.
  { intros R HR. destruct (prid =? 0)%nat; [|by apply run_ret, HR, shape_refl].
    apply run_bind, (run_index _ _ KSleep); [done| |done]. intros q [= <-].
    apply run_sleepers; [done|done|]. intros s' Hm. apply HR.
    apply (shape_moved KReady Ready KSleep (filter (λ a, due s nsec a = true) (sleep (tlist s)))); [apply fixed_ready|by eexists| |done].
    intros a [_ Ha]%list_elem_of_filter. by exists (sleep (tlist s)). }
  apply Hwake. intros s1 H1. apply run_bind, run_bind, run_get, run_ret, run_bind.
  unfold usub, checked.
  assert (∀ x, run pk (if SCHED_TIME_NANOS <? x then out ← schedule regs (default 0 (last_switch s1 !! prid)) nsec; set_last_switch nsec;; mret out
    else mret (false, regs)) s1 Q) as Hrest.
  { intros x. destruct (SCHED_TIME_NANOS <? x); [|by apply run_ret, HQ].
    apply run_bind, shape_schedule; [apply H1|by left|]. intros out s2 H2.
    apply run_bind, run_modify, run_ret, HQ, shape_last. by apply (shape_trans _ s1). }
  destruct (_ && _); [by eapply run_lift|]. destruct overflow_checks; [done|by eapply run_lift].
Qed.

Lemma run_thread_c s (Q : Z → Sched → Prop) :
  pk → queues_ok s →
  (∀ a t, qget (KRunning prid) (tlist s) = Some [a] → threads s !! a = Some t → Q a s) →
  run pk thread_c s Q.
Proof.
  intros Hpk Hok HQ. apply run_bind, (run_index _ _ (KRunning prid)); [done| |done]. intros q Hq.
  apply run_unwrap; [|done]. intros a Ha. pose proof (ok_running _ Hok _ _ Hq) as Hlen.
  destruct q as [|b [|]]; [done| |by cbn [length] in Hlen; lia]. injection Ha as ->.
  destruct (ok_state _ Hok (KRunning prid) a) as (t & Ht & _); [exists [a]; split; [done|left]|]. by apply (HQ a t).
Qed.

Lemma shape_int regs nsec s (Q : bool * Registers → Sched → Prop) :
  pk → queues_ok s → (∀ x s', same_shape s s' → Q x s') → run pk (int_handler regs nsec) s Q.
Proof.
  intros Hpk Hok HQ. apply run_bind, run_thread_c; [done|done|]. intros a t Hq Ht.
  apply run_bind, (run_thread _ _ t); [done|]. apply run_bind.
  assert (∀ s1, same_shape s s1 → run pk (n ← my_last_switch; set_last_switch nsec;; schedule regs n nsec) s1 Q) as Hrest.
  { intros s1 H1. apply run_bind, run_bind, run_get, run_ret, run_bind, run_modify.
    apply shape_schedule; [|by left|].
    - by apply (queues_same s1); [apply H1|..].
    - intros x s' H2. apply HQ, (shape_trans _ (with_last_switch (<[prid:=nsec]> (last_switch s1)) s1)); [|done].
      by apply shape_last. }
  apply (run_tl_get _ _ (KWait (th_tuid t))); [done| |].
  - intros q' Hq'. apply run_bind, (shape_each KReady Ready (KWait (th_tuid t))); [apply fixed_ready|done..|].
    intros s1 _ H1. by apply Hrest.
  - intros _. apply run_bind, run_ret, Hrest, shape_refl, Hok.
Qed.

Lemma shape_ensure st s (Q : () → Sched → Prop) :
  queues_ok s → valid_state (kfutexes s) st → (∀ s', same_shape s s' → Q () s') → run pk (ensure st) s Q.
Proof.
  intros Hok Hv HQ. destruct (key_valid _ _ Hv) as (k & Hk & _ & Hr).
  destruct st; try (by apply run_ret, HQ, shape_refl);
    (apply run_bind, (run_tl_get _ _ k); [done| |];
     [intros q Hq; apply run_bind, run_get, run_bind, (run_lift _ _ k); [done|]; by apply run_ret, HQ, shape_refl|
      intros HN; assert (per_cpu k = false) as Hc by
        (simpl in Hk; first [by injection Hk as <-|destruct (the_futex _ _); simpl in Hk; by simplify_eq]);
      rewrite Hc; apply run_bind, run_get, run_bind, (run_lift _ _ k); [done|];
      by apply run_modify, HQ, shape_queue]).
Qed.

Lemma shape_dealloc st s (Q : () → Sched → Prop) :
  pk → queues_ok s → valid_state (kfutexes s) st → (∀ s', same_shape s s' → Q () s') → run pk (dealloc_state st) s Q.
Proof.
  intros Hpk Hok Hv HQ. destruct (key_valid _ _ Hv) as (k & Hk & _ & Hr).
  destruct st; try (by apply run_ret, HQ, shape_refl);
    (apply run_bind, (run_tl_get _ _ k); [done| |];
     [intros q Hq; apply run_bind, run_modify; destruct q as [|? ?]; [|exact Hpk];
      by eapply run_lift; [|apply HQ, shape_drop]|
      intros HN; assert (per_cpu k = false) as Hc by
        (simpl in Hk; first [by injection Hk as <-|destruct (the_futex _ _); simpl in Hk; by simplify_eq]);
      rewrite Hc; by apply run_ret, HQ, shape_refl]).
Qed.

Lemma shape_mark st s (Q : () → Sched → Prop) :
  pk → queues_ok s → valid_state (kfutexes s) st → (∀ s', same_shape s s' → Q () s') → run pk (block_mark st) s Q.
Proof.
  intros Hpk Hok Hv HQ. apply run_bind, run_thread_c; [done|done|]. intros a t Hq Ht.
  apply (run_put _ _ _ t); [done|]. apply HQ, (shape_thread _ _ t); try done. intros k Hk.
  replace k with (KRunning prid); [done|]. apply (ok_one _ Hok _ _ a); [|done]. exists [a]. split; [done|left].
Qed.

(** *** Futexes *)

(** [move_loop] moves the first threads of the queue, [count] of them if there are as many. *)
Lemma run_move_loop fuel kt st old k i count q s (Q : Z → Sched → Prop) :
  fixed_queue kt st → per_cpu k = false → k ≠ kt → queues_ok s → valid_state (kfutexes s) old →
  key old s = Ret k → qget k (tlist s) = Some q → (length q < fuel)%nat → 0 <= i <= count →
  (∀ s', let l := take (Z.to_nat (count - i)) q in
     moved kt st k l s s' → same_shape s s' → Q (i + Z.of_nat (length l)) s') →
  run pk (move_loop fuel old st i count) s Q.
Proof.
  intros Hfix Hc Hne. revert i q s. induction fuel as [|fuel IH]; intros i q s Hok Hv Hk Hq Hlen Hi HQ; [lia|].
  cbn [move_loop]. destruct (Z.leb_spec count i) as [Hle|Hlt].
  { apply run_ret. replace (count - i) with 0 in HQ by lia. cbn in HQ.
    replace count with (i + 0) by lia. apply HQ; [by apply moved_nil|by apply shape_refl]. }
  replace (Z.to_nat (count - i)) with (S (Z.to_nat (count - (i + 1)))) in HQ by lia.
  apply run_bind, run_bind, (run_index _ _ k); [done| |by rewrite Hq]. intros q' Hq'. rewrite Hq in Hq'.
  injection Hq' as <-. destruct q as [|a q].
  { apply run_ret, run_ret. cbn in HQ. replace i with (i + 0) by lia. apply HQ; [by apply moved_nil|by apply shape_refl]. }
  apply run_bind, run_modify, run_ret.
  assert (on (tlist s) k a) as Hon by (exists (a :: q); split; [done|left]).
  destruct (ok_state _ Hok _ _ Hon) as (ta & Hta & _). cbn [length] in Hlen.
  assert (run pk (set_state a st;; insert_into a) (with_tlist (qput k q (tlist s)) s)
    (λ _ s', run pk (move_loop fuel old st (i + 1) count) s' Q)) as Hrun.
  2: { revert Hrun. unfold run, mbind, M_bind. destruct (set_state a st _) as [[[] s1]| | |]; [|done..].
       by destruct (insert_into a s1) as [[[] s2]| | |]. }
  apply (run_pop_move _ _ _ Hfix a k q ta); [done..|]. intros s1 Hm.
  pose proof (ok_nodup _ Hok _ _ Hq) as [Ha Hnd]%NoDup_cons.
  assert (same_shape s s1) as H1.
  { apply (shape_moved kt st k [a]); [done|by eexists| |done]. intros b ->%list_elem_of_singleton. done. }
  destruct (mv_rest _ _ _ _ _ _ Hm) as (_ & _ & Rf & _).
  apply (IH (i + 1) q s1).
  - apply H1.
  - by rewrite Rf.
  - rewrite <- Hk. by apply key_same.
  - rewrite (mv_from _ _ _ _ _ _ Hm _ Hq), filter_cons, decide_False by (intros X; apply X; left).
    f_equal. apply filter_true. intros x Hx. rewrite list_elem_of_singleton. by intros ->.
  - lia.
  - lia.
  - intros s' l Hm' H2. replace (i + 1 + Z.of_nat (length l)) with (i + Z.of_nat (length (a :: l))) by (cbn [length]; lia).
    apply HQ; [by apply (moved_cons _ _ k a l s s1 s')|by apply (shape_trans _ s1)].
Qed.

Lemma run_kf p f s (Q : KFutex → Sched → Prop) :
  p ≠ 0 → kfutexes s !! p = Some f → Q f s → run pk (kf p) s Q.
Proof.
  intros H0 Hf HQ. apply run_bind, run_get, (run_lift _ _ f); [|done].
  unfold the_futex. destruct (Z.eqb_spec p 0); [done|]. by rewrite Hf.
Qed.

Lemma key_futex p f s : p ≠ 0 → kfutexes s !! p = Some f → key (FutexBlock p) s = Ret (KFutexQ (kf_id f)).
Proof. intros H0 Hf. simpl. unfold the_futex. destruct (Z.eqb_spec p 0); [done|]. by rewrite Hf. Qed.

Definition put_futex (p : Z) (f : KFutex) (s : Sched) : Sched := with_kfutexes (<[p := f]> (kfutexes s)) s.

(** Moving to the ready queue all or some of the sleepers of a futex. *)
Lemma shape_inner_move fuel p f n s (Q : Z → Sched → Prop) :
  queues_ok s → p ≠ 0 → kfutexes s !! p = Some f → 0 <= n →
  (∀ q, qget (KFutexQ (kf_id f)) (tlist s) = Some q → (length q < fuel)%nat) →
  (∀ x s', same_shape s s' → kfutexes s' = kfutexes s → Q x s') →
  run pk (inner_state_move fuel (FutexBlock p) Ready n) s Q.
Proof.
  intros Hok H0 Hf Hn Hfuel HQ. unfold inner_state_move. cbn [is_running].
  pose proof (key_futex _ _ _ H0 Hf) as Hk.
  apply run_bind, (run_tl_get _ _ (KFutexQ (kf_id f))); [done| |]; [intros q Hq|intros HN; cbn [per_cpu]];
    (apply run_bind, (run_tl_get _ _ KReady); [done| |done]); intros q' Hq'.
  - apply (run_move_loop _ KReady Ready _ (KFutexQ (kf_id f)) 0 n q); try done; try apply fixed_ready; try (split; [done|by eexists]); try by apply Hfuel.
    intros s' l Hm H1. apply HQ; [done|]. by destruct (mv_rest _ _ _ _ _ _ Hm) as (_ & _ & -> & _).
  - by apply run_ret, HQ; [apply shape_refl|].
Qed.

Lemma queue_length s k q :
  queues_ok s → qget k (tlist s) = Some q → (length q < S (length (all_queued (tlist s))))%nat.
Proof.
  intros Hok Hq. apply Nat.lt_succ_r, submseteq_length, NoDup_submseteq; [by apply (ok_nodup _ Hok k)|].
  intros a Ha. apply all_queued_on. by exists k, q.
Qed.

Lemma shape_unblock p f n s (Q : Z → Sched → Prop) :
  queues_ok s → p ≠ 0 → kfutexes s !! p = Some f → 0 <= n →
  (∀ x s', same_shape s s' → Q x s') →
  run pk (kf_unblock (S (length (all_queued (tlist s)))) p n) s Q.
Proof.
  intros Hok H0 Hf Hn HQ. apply run_bind, (run_kf p f); [done|done|]. apply run_bind, run_modify.
  set (f' := mkKF _ _ _ _ _). assert (same_shape s (put_futex p f' s)) as H1 by by apply (shape_kf_put s p f).
  apply (shape_inner_move _ p f'); [apply H1|done|by apply lookup_insert_eq|done| |].
  - intros q Hq. by apply (queue_length s (KFutexQ (kf_id f))).
  - intros x s' H2 _. apply HQ. by apply (shape_trans _ (put_futex p f' s)).
Qed.

Lemma shape_destroy p f s (Q : Z → Sched → Prop) :
  pk → queues_ok s → p ≠ 0 → kfutexes s !! p = Some f →
  (∀ x s', same_shape s s' → Q x s') →
  run pk (kf_destroy (S (length (all_queued (tlist s)))) p) s Q.
Proof.
  intros Hpk Hok H0 Hf HQ. apply run_bind, (run_kf p f); [done|done|]. apply run_bind, run_modify.
  set (f' := mkKF _ _ _ _ _). assert (same_shape s (put_futex p f' s)) as H1 by by apply (shape_kf_put s p f).
  apply run_bind, run_bind, run_ret, (shape_inner_move _ p f'); [apply H1|done|by apply lookup_insert_eq|done| |].
  { intros q Hq. by apply (queue_length s (KFutexQ (kf_id f))). }
  intros x s2 H2 Hk2. apply run_bind, shape_dealloc; [done|apply H2| |].
  { split; [done|]. rewrite Hk2. exists f'. by apply lookup_insert_eq. }
  intros s3 H3. apply run_ret, HQ. apply (shape_trans _ (put_futex p f' s)); [done|]. by apply (shape_trans _ s2).
Qed.

Lemma shape_dec_ref p f s (Q : () → Sched → Prop) :
  pk → queues_ok s → p ≠ 0 → kfutexes s !! p = Some f →
  (∀ x s', same_shape s s' → Q x s') →
  run pk (kf_dec_ref (S (length (all_queued (tlist s)))) p) s Q.
Proof.
  intros Hpk Hok H0 Hf HQ. apply run_bind, (run_kf p f); [done|done|]. apply run_bind, run_modify.
  set (f' := mkKF _ _ _ _ _). assert (same_shape s (put_futex p f' s)) as H1 by by apply (shape_kf_put s p f).
  destruct (kf_ref_count f =? 0); [|by apply run_ret, HQ].
  apply run_bind. change (tlist s) with (tlist (put_futex p f' s)).
  apply (shape_destroy p f'); [done|apply H1|done|by apply lookup_insert_eq|].
  intros x s' H2. apply run_ret, HQ. by apply (shape_trans _ (put_futex p f' s)).
Qed.

(** *** Threads of a process *)

Lemma inv_procs_sub m s held :
  sched_inv s held →
  (∀ pid p', m !! pid = Some p' → ∃ p, procs s !! pid = Some p ∧ p_threads p' ⊆ p_threads p) →
  sched_inv (with_procs m s) held.
Proof.
  intros [I1 I2 I3 I4 I5 I6] Hm. constructor; try done.
  - by apply (queues_same s).
  - intros pid p tid a Hp Ha. destruct (Hm _ _ Hp) as (p0 & Hp0 & Hsub). apply (I2 pid p0 tid a); [done|].
    by eapply lookup_weaken.
Qed.

Lemma inv_proc_put pid p p' s held :
  sched_inv s held → procs s !! pid = Some p → p_threads p' ⊆ p_threads p →
  sched_inv (with_procs (<[pid := p']> (procs s)) s) held.
Proof.
  intros Hi Hp Hsub. apply inv_procs_sub; [done|]. intros pid' q Hq.
  destruct (decide (pid = pid')) as [<-|Hne].
  - rewrite lookup_insert_eq in Hq. injection Hq as <-. eauto.
  - rewrite lookup_insert_ne in Hq by done. eauto.
Qed.

Lemma run_process pid p s (Q : Process → Sched → Prop) :
  procs s !! pid = Some p → Q p s → run pk (the_process pid) s Q.
Proof. intros Hp HQ. apply run_bind, run_get, (run_lift _ _ p); [by rewrite Hp|done]. Qed.

(** The state after thread [tid] left its process. *)
Definition left_process (pid tid : Z) (p : Process) (s : Sched) : Sched :=
  with_procs (<[pid := p_with_threads (delete tid (p_threads p)) p]> (procs s)) s.

Lemma inv_left_process pid tid p s held :
  sched_inv s held → procs s !! pid = Some p → sched_inv (left_process pid tid p s) held.
Proof. intros Hi Hp. eapply inv_proc_put; [done..|]. apply delete_subseteq. Qed.

Lemma run_remove_wake pid tid p s held (Q : option (Z * option ThreadState) → Sched → Prop) :
  sched_inv s held → procs s !! pid = Some p →
  (p_threads p !! tid = None → Q None s) →
  (∀ a st s', p_threads p !! tid = Some a → same_shape (left_process pid tid p s) s' →
     match st with Some st => ∃ u, st = Join u | None => True end → Q (Some (a, st)) s') →
  run pk (remove_wake pid tid) s Q.
Proof.
  intros Hi Hp HQ1 HQ2. apply run_bind, (run_process pid p); [done|].
  destruct (p_threads p !! tid) as [a|] eqn:Ea; [|by apply run_ret, HQ1].
  pose proof (inv_left_process _ tid _ _ _ Hi Hp) as Hi1. pose proof (iv_queues _ _ Hi1) as Hok1.
  apply run_bind, run_modify. change (with_procs _ s) with (left_process pid tid p s).
  destruct (iv_procs _ _ Hi _ _ _ _ Hp Ea) as (t & Ht & _).
  apply run_bind, (run_thread _ _ t); [done|]. apply run_bind, (run_tl_get _ _ (KJoin (th_tuid t))); [done| |].
  - intros q Hq. apply run_bind, (shape_each KReady Ready (KJoin (th_tuid t))); [apply fixed_ready|done..|].
    intros s' _ Hs. apply run_ret, HQ2; [done|done|]. by eexists.
  - intros _. apply run_ret, HQ2; [done| |done]. by apply shape_refl.
Qed.

Lemma run_remove_thread pid tid p s held (Q : option Z → Sched → Prop) :
  pk → sched_inv s held → procs s !! pid = Some p →
  (p_threads p !! tid = None → Q None s) →
  (∀ a s', p_threads p !! tid = Some a → same_shape (left_process pid tid p s) s' → Q (Some a) s') →
  run pk (remove_thread pid tid) s Q.
Proof.
  intros Hpk Hi Hp HQ1 HQ2. apply run_bind, (run_remove_wake pid tid p s held); [done|done|by intros; apply run_ret, HQ1|].
  intros a [st|] s' Ha Hs Hst; [|by apply run_ret, HQ2]. destruct Hst as [u ->].
  apply run_bind, shape_dealloc; [done|apply Hs|done|]. intros s2 H2. apply run_ret, HQ2; [done|].
  by apply (shape_trans _ s').
Qed.

Lemma queues_forget a s : queues_ok s → off s a → queues_ok (with_threads (delete a (threads s)) s).
Proof.
  intros [Hn H1 Hs Hr Hv] Hoff. constructor; try done; cbn [with_threads tlist threads kfutexes].
  - intros k b Hb. rewrite lookup_delete_ne; [by apply Hs|]. intros ->. by apply (Hoff k).
  - intros b t Hb. apply (Hv b). by apply lookup_delete_Some in Hb as [_ ?].
Qed.

(** A thread nothing points to any more is forgotten. *)
Lemma inv_forget a s held :
  sched_inv s (a :: held) →
  (∀ pid p tid, procs s !! pid = Some p → p_threads p !! tid ≠ Some a) →
  sched_inv (with_threads (delete a (threads s)) s) held.
Proof.
  intros [I1 I2 I3 I4 I5 I6] Hno. apply NoDup_cons in I5 as [Ha I5].
  destruct (I6 a) as [Hoff _]; [left|]. constructor; cbn [with_threads tlist threads procs]; try done.
  - by apply queues_forget.
  - intros pid p tid b Hp Hb. destruct (I2 _ _ _ _ Hp Hb) as (t & Ht & Hid). exists t.
    rewrite lookup_delete_ne; [done|]. intros ->. by apply (Hno _ _ tid Hp).
  - intros b t Hb. apply lookup_delete_Some in Hb as [_ Hb]. by apply (I3 b).
  - intros b [t Hb]. apply lookup_delete_Some in Hb as [Hne Hb]. destruct (I4 b) as [?|Hin]; [eauto|by left|].
    right. apply elem_of_cons in Hin as [?|?]; [congruence|done].
  - intros b Hb. destruct (I6 b) as [Ho Hs]; [by right|]. split; [done|].
    rewrite lookup_delete_ne; [done|]. by intros ->.
Qed.

Lemma run_thread_dealloc a s held (Q : () → Sched → Prop) :
  pk → sched_inv s (a :: held) → (∀ s', sched_inv s' held → Q () s') → run pk (thread_dealloc a) s Q.
Proof.
  intros Hpk Hi HQ. destruct (iv_off _ _ Hi a) as [_ [t Ht]]; [left|]. pose proof (iv_tuid _ _ Hi _ _ Ht) as Hpid.
  apply run_bind, (run_thread _ _ t); [done|]. apply run_bind, run_bind, (run_thread _ _ t); [done|].
  apply run_bind, run_get, run_ret, run_bind.
  destruct (procs s !! th_process t) as [p|] eqn:Ep.
  - apply run_bind, (run_remove_thread (th_process t) (tuid_tid (th_tuid t)) p s (a :: held)); [done|done|done| |].
    { intros _. by apply run_bind, run_unwrap. }
    intros b s2 Hb H2. apply run_bind, run_unwrap; [|done]. intros _ _. apply run_ret, run_modify, HQ.
    pose proof (inv_shape _ _ _ (inv_left_process _ (tuid_tid (th_tuid t)) _ _ _ Hi Ep) H2) as Hi2.
    apply inv_forget; [done|]. intros pid p2 tid Hp2 Ha.
    destruct (iv_procs _ _ Hi2 _ _ _ _ Hp2 Ha) as (t2 & Ht2 & Hid2).
    destruct (fmap_eq_some _ _ _ _ (ss_threads _ _ H2 a) Ht) as (t3 & Ht3 & Eid). rewrite Ht2 in Ht3.
    injection Ht3 as <-. unfold identity in Eid. injection Eid as _ Eid.
    pose proof (ss_procs _ _ H2 pid) as Epr. rewrite Hp2 in Epr. cbn [left_process with_procs procs] in Epr.
    replace pid with (th_process t) in Epr by (rewrite Hpid, <- Eid, Hid2; done).
    rewrite lookup_insert_eq in Epr. injection Epr as Epr. rewrite Epr in Ha. cbn [p_with_threads p_threads] in Ha.
    unfold tuid_tid in Ha. rewrite <- Eid, Hid2 in Ha. cbn [snd] in Ha. by rewrite lookup_delete_eq in Ha.
  - apply run_ret, run_modify, HQ, inv_forget; [done|]. intros pid p2 tid Hp2 Ha.
    destruct (iv_procs _ _ Hi _ _ _ _ Hp2 Ha) as (t2 & Ht2 & Hid2). simplify_eq.
    rewrite Hid2 in Hpid. cbn in Hpid. congruence.
Qed.

(** The cleaner takes a thread off the list. *)
Lemma inv_collect a q s held :
  sched_inv s held → destroy (tlist s) = q → a ∈ q →
  sched_inv (with_tlist (qput KDestroy (filter (λ b, b ≠ a) q) (tlist s)) s) (held ++ [a]).
Proof.
  intros [I1 I2 I3 I4 I5 I6] <- Ha. pose proof (ok_nodup _ I1 KDestroy _ eq_refl) as Hnd.
  assert (∃ q', destroy (tlist s) ≡ₚ a :: q' ∧ filter (λ b, b ≠ a) (destroy (tlist s)) ≡ₚ q') as (q' & Hp & Hf).
  { apply list_elem_of_split in Ha as (l1 & l2 & E). exists (l1 ++ l2). rewrite E in *.
    apply NoDup_mid in Hnd as (H1 & H2 & _). split; [by rewrite Permutation_middle|].
    rewrite filter_app, filter_cons, decide_False by (intros X; by apply X).
    rewrite !filter_true; [done| |]; intros x Hx ->; done. }
  assert (∀ b, (∃ k, on (tlist s) k b) ↔ b = a ∨ ∃ k, on (qput KDestroy (filter (λ b, b ≠ a) (destroy (tlist s))) (tlist s)) k b) as Hany.
  { intros b. apply (any_take KDestroy (destroy (tlist s))); [done|]. by rewrite Hf. }
  constructor; cbn [with_tlist tlist threads procs]; try done.
  - by eapply queues_take; [|done|apply sublist_filter].
  - intros b Hb. destruct (I4 b Hb) as [Hon|Hin].
    + apply Hany in Hon as [->|Hon]; [|by left]. right. apply elem_of_app. right. left.
    + right. apply elem_of_app. by left.
  - apply NoDup_snoc. split; [|done]. intros Hin. destruct (I6 a Hin) as [Ho _]. apply (Ho KDestroy).
    by exists (destroy (tlist s)).
  - intros b [Hb|Hb%list_elem_of_singleton]%elem_of_app.
    + destruct (I6 b Hb) as [Ho Hs]. split; [|done]. intros k Hk.
      destruct (proj2 (Hany b)) as [k' Hk']; [eauto|]. by apply (Ho k').
    + subst b. split.
      * eapply (off_taken s KDestroy); [done..|]. by intros [X _]%list_elem_of_filter.
      * destruct (ok_state _ I1 KDestroy a) as (t & -> & _); [|by eexists]. by exists (destroy (tlist s)).
Qed.

Lemma run_collect l s held (Q : list Z → Sched → Prop) :
  sched_inv s held → NoDup l → (∀ a, a ∈ l → a ∈ destroy (tlist s)) →
  (∀ xs s', sched_inv s' (held ++ xs) → Q xs s') → run pk (collect_all l) s Q.
Proof.
  revert s held Q. induction l as [|a l IH]; intros s held Q Hi Hnd Hl HQ.
  { apply run_ret, HQ. by rewrite app_nil_r. }
  apply NoDup_cons in Hnd as [Ha Hnd]. pose proof (Hl a ltac:(left)) as Hin.
  destruct (ok_state _ (iv_queues _ _ Hi) KDestroy a) as (t & Ht & _); [by exists (destroy (tlist s))|].
  cbn [collect_all]. apply run_bind, run_bind, (run_thread _ _ t); [done|]. destruct (th_ref_count t =? 0).
  - apply run_bind, (run_index _ _ KDestroy); [done| |done]. intros q [= <-]. apply run_bind.
    unfold remove_node. rewrite decide_True by done. apply run_modify, run_ret, run_bind.
    apply (IH _ (held ++ [a])); [by apply inv_collect|done| |].
    + intros b Hb. cbn. apply list_elem_of_filter. split; [by intros ->|]. apply Hl. by right.
    + intros xs s' Hs'. apply run_ret, HQ. by rewrite <- app_assoc in Hs'.
  - apply run_ret, run_bind, (IH s held); [done|done| |].
    + intros b Hb. apply Hl. by right.
    + intros xs s' Hs'. by apply run_ret, HQ.
Qed.

(** A new thread, put on a queue of the list. *)
Lemma inv_new s held a t k q m tl :
  sched_inv s held → threads s !! a = None → th_process t = (th_tuid t).1 →
  in_state (kfutexes s) (th_state t) k → valid_state (kfutexes s) (th_state t) →
  (∀ c, k = KRunning c → q = []) →
  qget k tl = Some q →
  queues_ok (with_tlist tl s) → (∀ b, (∃ k, on tl k b) ↔ (∃ k, on (tlist s) k b)) →
  (∀ pid p' tid b, m !! pid = Some p' → p_threads p' !! tid = Some b →
     (b = a ∧ (pid, tid) = th_tuid t) ∨ ∃ p, procs s !! pid = Some p ∧ p_threads p !! tid = Some b) →
  sched_inv (with_tlist (qput k (q ++ [a]) tl) (with_procs m (with_threads (<[a := t]> (threads s)) s))) held.
Proof.
  intros [I1 I2 I3 I4 I5 I6] Ha Htu Hst Hv Hrun Hq Hok Hon Hm.
  assert (off s a) as Hoff.
  { intros k' Hk'. destruct (ok_state _ I1 _ _ Hk') as (t' & Ht' & _). congruence. }
  assert (off (with_tlist tl s) a) as Hoff'.
  { intros k' Hk'. destruct (proj1 (Hon a)) as [k'' Hk'']; [by exists k'|]. by apply (Hoff k''). }
  assert (queues_ok (with_threads (<[a := t]> (threads s)) (with_tlist tl s))) as Hok2.
  { destruct Hok as [Hn H1 Hs Hr Hvv]. constructor; try done; cbn [with_threads with_tlist tlist threads kfutexes] in *.
    - intros k' b Hb. rewrite lookup_insert_ne; [by apply Hs|]. intros ->. by apply (Hoff' k').
    - intros b u. destruct (decide (a = b)) as [<-|Hne].
      + rewrite lookup_insert_eq. by intros [= <-].
      + rewrite lookup_insert_ne by done. apply Hvv. }
  assert (∀ b, is_Some (<[a := t]> (threads s) !! b) ↔ b = a ∨ is_Some (threads s !! b)) as Hdom.
  { intros b. destruct (decide (a = b)) as [<-|Hne].
    - rewrite lookup_insert_eq. split; [by left|by eexists].
    - rewrite lookup_insert_ne by done. split; [by right|by intros [?|?]]. }
  constructor; cbn [with_tlist with_procs with_threads tlist threads procs]; try done.
  - pose proof (queues_push _ k q a t Hok2 Hq Hoff' (lookup_insert_eq _ _ _) Hst Hrun) as Hx.
    by apply (queues_same _ _ Hx).
  - intros pid p tid b Hp Hb. destruct (Hm _ _ _ _ Hp Hb) as [[-> Hid]|(p0 & Hp0 & Hb0)].
    + exists t. by rewrite lookup_insert_eq.
    + destruct (I2 _ _ _ _ Hp0 Hb0) as (u & Hu & Hid). exists u. rewrite lookup_insert_ne; [done|]. congruence.
  - intros b u. destruct (decide (a = b)) as [<-|Hne].
    + rewrite lookup_insert_eq. by intros [= <-].
    + rewrite lookup_insert_ne by done. apply I3.
  - intros b Hb. rewrite (any_push k q a tl b Hq), Hon. apply Hdom in Hb as [->|Hb]; [by left; left|].
    destruct (I4 b Hb); [left; by right|by right].
  - intros b Hb. destruct (I6 b Hb) as [Ho Hs]. split; [|apply Hdom; by right]. intros k' Hk'.
    assert (b = a ∨ ∃ k, on (tlist s) k b) as [->|[k'' Hk'']].
    { rewrite <- Hon, <- (any_push k q a tl b Hq). by exists k'. }
    + rewrite Ha in Hs. by destruct Hs.
    + by apply (Ho k'').
Qed.

(** What [Thread::new] gives for a process, at a fresh address. *)
Definition can_spawn (pid : Z) (build : Z → Err + (Z * Thread)) (s : Sched) : Prop :=
  ∃ p, procs s !! pid = Some p ∧ 0 <= p_next_tid p ∧ p_next_tid p + 1 < U64 ∧
    p_threads p !! p_next_tid p = None ∧
    ∀ a t, build (p_next_tid p) = inr (a, t) →
      threads s !! a = None ∧ th_process t = pid ∧ th_tuid t = (pid, p_next_tid p) ∧ th_state t = Ready.

Lemma run_new_thread pid build s held (Q : Err + Z → Sched → Prop) :
  sched_inv s held → can_spawn pid build s → (∀ x s', sched_inv s' held → Q x s') →
  run pk (new_thread_regs pid build) s Q.
Proof.
  intros Hi (p & Hp & H0 & Hlt & Hn & Hb) HQ. apply run_bind, run_bind, (run_process pid p); [done|].
  apply run_bind, run_modify, run_ret. set (p1 := mkProc _ _ _ _ _ _).
  destruct (build (p_next_tid p)) as [e|[a t]] eqn:Eb.
  { apply run_ret, HQ. by apply (inv_proc_put pid p). }
  destruct (Hb a t eq_refl) as (Ha & Hpr & Hid & Hst). apply run_bind, run_modify, run_bind.
  set (s1 := with_threads _ _).
  assert (procs s1 !! pid = Some p1) as Hp1 by apply lookup_insert_eq.
  apply run_bind, (run_process pid p1); [done|]. apply run_bind, (run_thread _ _ t); [by apply lookup_insert_eq|].
  unfold tuid_tid. rewrite Hid. cbn [snd p1 p_next_tid p_threads].
  rewrite (proj2 (Z.leb_gt _ _)) by (rewrite Z.mod_small by lia; lia). rewrite Hn.
  apply run_bind, run_modify, run_ret. apply run_bind, (run_index _ _ KReady); [done| |done]. intros q [= <-].
  apply run_bind. set (p2 := p_with_threads _ p1). set (s2 := with_procs _ s1).
  assert (off s2 a) as Hoff.
  { intros k Hk. destruct (ok_state _ (iv_queues _ _ Hi) _ _ Hk) as (t' & Ht' & _). congruence. }
  apply run_push; [done|]. apply run_ret, HQ.
  pose proof (inv_new s held a t KReady (ready (tlist s)) (<[pid := p2]> (procs s)) (tlist s)) as Hx.
  match goal with |- sched_inv ?x _ => assert (x =
    with_tlist (qput KReady (ready (tlist s) ++ [a]) (tlist s))
      (with_procs (<[pid := p2]> (procs s)) (with_threads (<[a := t]> (threads s)) s))) as -> end.
  { unfold s2, s1. cbn. by rewrite insert_insert_eq. }
  apply Hx; try done.
  - by rewrite Hpr, Hid.
  - by rewrite Hst.
  - by apply (queues_same s); [apply Hi|..].
  - intros pid' p' tid b Hp' Hb'. destruct (decide (pid = pid')) as [<-|Hne].
    + rewrite lookup_insert_eq in Hp'. injection Hp' as <-. cbn [p2 p_with_threads p_threads p1] in Hb'.
      destruct (decide (p_next_tid p = tid)) as [<-|Hne'].
      * rewrite lookup_insert_eq in Hb'. injection Hb' as <-. left. by rewrite Hid.
      * rewrite lookup_insert_ne in Hb' by done. right. eauto.
    + rewrite lookup_insert_ne in Hp' by done. right. eauto.
Qed.

Lemma ext_lookup (l : list (list Z)) n c q :
  (l ++ replicate n []) !! c = Some q → l !! c = Some q ∨ q = [] ∧ l !! c = None.
Proof.
  intros H. apply lookup_app_Some in H as [H|[Hlen H]]; [by left|right].
  apply lookup_replicate in H as [-> _]. split; [done|]. by apply lookup_ge_None.
Qed.

(** More processors on the list. *)
Definition more_cpus (n : nat) (l : ThreadList) : ThreadList :=
  mkTL (running l ++ replicate n []) (ready l) (idle l ++ replicate n []) (destroy l)
    (sleep l) (join l) (wait l) (conn_wait l) (futexq l).

Lemma more_cpus_get n l k q :
  qget k (more_cpus n l) = Some q → qget k l = Some q ∨ q = [] ∧ qget k l = None.
Proof. destruct k; simpl; try by left. all: apply ext_lookup. Qed.

Lemma more_cpus_on n l k a : on (more_cpus n l) k a ↔ on l k a.
Proof.
  split.
  - intros (q & Hq & Ha). apply more_cpus_get in Hq as [Hq|[-> _]]; [by exists q|by apply elem_of_nil in Ha].
  - intros (q & Hq & Ha). exists q. split; [|done]. destruct k; simpl in *; try done; by apply lookup_app_l_Some.
Qed.

Lemma more_cpus_ok n s : queues_ok s → queues_ok (with_tlist (more_cpus n (tlist s)) s).
Proof.
  intros [Hn H1 Hs Hr Hv]. constructor; cbn [with_tlist tlist threads kfutexes].
  - intros k q [Hq|[-> _]]%more_cpus_get; [by apply (Hn k)|constructor].
  - intros k k' a. rewrite !more_cpus_on. apply H1.
  - intros k a. rewrite more_cpus_on. apply Hs.
  - intros c q [Hq|[-> _]]%more_cpus_get; [by apply (Hr c)|simpl; lia].
  - done.
Qed.

(** A processor that does not run anything yet, and its idle thread. *)
Definition can_start (a : Z) (t : Thread) (s : Sched) : Prop :=
  threads s !! a = None ∧ th_process t = (th_tuid t).1 ∧
  match running (tlist s) !! prid with Some q => q = [] | None => True end.

Lemma run_cpu_start a t s held (Q : () → Sched → Prop) :
  sched_inv s held → can_start a t s → (∀ s', sched_inv s' held → Q () s') → run pk (cpu_start a t) s Q.
Proof.
  intros Hi (Ha & Htu & Hr) HQ. apply run_bind, run_modify, run_bind, run_modify.
  set (n := (S prid - length (running (tlist s)))%nat). set (s1 := with_tlist _ _).
  change (tlist s1) with (more_cpus n (tlist s)).
  assert (qget (KRunning prid) (more_cpus n (tlist s)) = Some []) as Hq.
  { simpl. destruct (running (tlist s) !! prid) as [q|] eqn:E.
    - subst q. by apply lookup_app_l_Some.
    - apply lookup_ge_None in E. rewrite lookup_app_r by done. apply lookup_replicate. split; [done|].
      unfold n. lia. }
  apply run_bind, (run_index _ _ (KRunning prid)); [done| |].
  2: { change (tlist s1) with (more_cpus n (tlist s)). by rewrite Hq. }
  change (tlist s1) with (more_cpus n (tlist s)). intros q Hq'. rewrite Hq in Hq'. injection Hq' as <-.
  assert (off s1 a) as Hoff.
  { intros k Hk. apply more_cpus_on in Hk. destruct (ok_state _ (iv_queues _ _ Hi) _ _ Hk) as (t' & Ht' & _). congruence. }
  apply run_push; [done|]. apply HQ.
  pose proof (inv_new s held a (th_with_state Running t) (KRunning prid) [] (procs s) (more_cpus n (tlist s))) as Hx.
  apply Hx; try done.
  - by apply more_cpus_ok; apply Hi.
  - intros b. split; intros [k Hk]; exists k; by apply more_cpus_on in Hk || apply more_cpus_on.
  - intros pid p tid b Hp Hb. right. eauto.
Qed.
End ops.

(** ** The machine *)

(** What a processor does under the lock of the list, or between two uses of it. *)
Inductive event :=
  | ETimer (c : nat) (regs : Registers) (nsec : Z)
  | EInt (c : nat) (regs : Registers) (nsec : Z)
  | EEnsure (st : ThreadState)
  | EMark (c : nat) (st : ThreadState)
  | ERemoveWake (pid tid : Z)
  | EDeallocState (st : ThreadState)
  | ENewThread (pid : Z) (build : Z → Err + (Z * Thread))
  | ECollect
  | EFree
  | EStart (c : nat) (a : Z) (t : Thread)
  | EInsertThread (pid a : Z)
  | EGetThread (pid tid : Z)
  | EDropRef (a : Z)
  | ENewProcess (pid : Z) (uid : PrivLevel)
  | EListProcess (pid : Z)
  | EUnlist (pid : Z)
  | ENextTid (pid : Z)
  | EProcGet (pid : Z)
  | EAddCpu (c : nat)
  | ETerminate (c fuel : nat) (pid : Z)
  | EDropArc (pid : Z)
  | EFutexNew (p id : Z)
  | EFutexCount (p : Z)
  | EFutexLock (p : Z)
  | EFutexUnblock (p n : Z)
  | EFutexIncRef (p : Z)
  | EFutexDecRef (p : Z).

Section machine.
Context {B : Build}.

Definition keep {A} (m : SM A) (st : Sched * list Z) : res (Sched * list Z) :=
  '(_, s) ← m st.1; Ret (s, st.2).

(** Only the running queue and the marks know the processor: any will do for the others. *)
#[local] Instance some_cpu : Cpu := 0%nat.

Definition exec_event (e : event) (st : Sched * list Z) : res (Sched * list Z) :=
  let fuel := S (length (all_queued (tlist st.1))) in
  match e with
  | ETimer c regs nsec => keep (time_handler (P:=c) regs nsec) st
  | EInt c regs nsec => keep (int_handler (P:=c) regs nsec) st
  | EEnsure u => keep (ensure u) st
  | EMark c u => keep (block_mark (P:=c) u) st
  | ERemoveWake pid tid => keep (remove_wake pid tid) st
  | EDeallocState u => keep (dealloc_state u) st
  | ENewThread pid build => keep (new_thread_regs pid build) st
  | ECollect => '(l, s) ← cleaner_collect st.1; Ret (s, st.2 ++ l)
  | EFree =>
      match st.2 with
      | [] => Ret st
      | a :: held => '(_, s) ← thread_dealloc a st.1; Ret (s, held)
      end
  | EStart c a t => keep (cpu_start (P:=c) a t) st
  | EInsertThread pid a => keep (insert_thread pid a) st
  | EGetThread pid tid => keep (get_thread pid tid) st
  | EDropRef a => keep (drop_ref a) st
  | ENewProcess pid uid => keep (process_new pid uid) st
  | EListProcess pid => keep (list_process pid) st
  | EUnlist pid => keep (unlist_process pid) st
  | ENextTid pid => keep (next_tid pid) st
  | EProcGet pid => keep (proc_get pid) st
  | EAddCpu c => keep (ensure_running c) st
  | ETerminate c n pid => keep (terminate (P:=c) n pid) st
  | EDropArc pid => keep (drop_arc pid) st
  | EFutexNew p id => keep (kfutex_new p id) st
  | EFutexCount p => keep (kf_count p) st
  | EFutexLock p => keep (kf_lock p) st
  | EFutexUnblock p n => keep (kf_unblock fuel p n) st
  | EFutexIncRef p => keep (kf_inc_ref p) st
  | EFutexDecRef p => keep (kf_dec_ref fuel p) st
  end.

(** The pointers an event is given are those of live objects, and what it makes is fresh. *)
Definition allowed (e : event) (s : Sched) : Prop :=
  match e with
  | ETimer _ _ _ | EInt _ _ _ | ECollect | EFree | EAddCpu _ => True
  | EEnsure u | EMark _ u | EDeallocState u => valid_state (kfutexes s) u
  | ERemoveWake pid _ | EGetThread pid _ | EListProcess pid | EUnlist pid | ENextTid pid | EProcGet pid | EDropArc pid => is_Some (procs s !! pid)
  | ENewThread pid build => can_spawn pid build s
  | EStart c a t => can_start (P:=c) a t s
  | EInsertThread pid a => is_Some (procs s !! pid) ∧ ∃ t, threads s !! a = Some t ∧ th_process t = pid
  | EDropRef a => is_Some (threads s !! a)
  | ENewProcess pid _ => procs s !! pid = None
  | ETerminate c n pid => ∃ p, procs s !! pid = Some p ∧ (pid ∈ proc_list s → (2 <= p_arcs p)%nat) ∧
      exit_ipis (P:=c) n (marker_iter (p_cpus p)) ≠ NoFuel
  | EFutexNew p _ => p ≠ 0 ∧ kfutexes s !! p = None
  | EFutexUnblock p n => 0 <= n ∧ p ≠ 0 ∧ is_Some (kfutexes s !! p)
  | EFutexCount p | EFutexLock p | EFutexIncRef p | EFutexDecRef p => p ≠ 0 ∧ is_Some (kfutexes s !! p)
  end.

Definition sched_new : Sched := mkSched ∅ ∅ ∅ ∅ tl_new ∅ ∅.

Inductive reachable : Sched * list Z → Prop :=
  | reach_init : reachable (sched_new, [])
  | reach_step e st st' : reachable st → allowed e st.1 → exec_event e st = Ret st' → reachable st'.

(** An event never goes wrong, and keeps the invariant. *)
Definition goes (m : res (Sched * list Z)) : Prop :=
  match m with
  | Ret st => sched_inv st.1 st.2
  | Panic => True
  | _ => False
  end.

Lemma goes_keep {A} (m : SM A) st :
  run True m st.1 (λ _ s', sched_inv s' st.2) → goes (keep m st).
Proof. unfold run, goes, keep. by destruct (m st.1) as [[]| | |]. Qed.

Lemma goes_shape {A} (m : SM A) st :
  sched_inv st.1 st.2 →
  (∀ Q : A → Sched → Prop, (∀ x s', same_shape st.1 s' → Q x s') → run True m st.1 Q) → goes (keep m st).
Proof. intros Hi H. apply goes_keep, H. intros x s' Hs. by apply (inv_shape st.1). Qed.

Lemma goes_futex {A} (f : KFutex → KFutex) (g : KFutex → A) p st :
  sched_inv st.1 st.2 → p ≠ 0 → is_Some (kfutexes st.1 !! p) → (∀ x, kf_id (f x) = kf_id x) →
  goes (keep (x ← kf p; kf_put p (f x);; mret (g x)) st).
Proof.
  intros Hi H0 [x Hx] Hf. apply goes_shape; [done|]. intros Q HQ.
  apply run_bind, (run_kf True p x); [done|done|]. apply run_bind, run_modify, run_ret, HQ.
  apply (shape_kf_put st.1 p x); [apply Hi|done|apply Hf].
Qed.

Lemma goes_thread f a st :
  sched_inv st.1 st.2 → is_Some (threads st.1 !! a) →
  (∀ t, identity (f t) = identity t ∧ th_state (f t) = th_state t) → goes (keep (thread_put a f) st).
Proof.
  intros Hi [t Ht] Hf. apply goes_shape; [done|]. intros Q HQ. apply (run_put True _ _ t); [done|].
  destruct (Hf t). apply HQ, (shape_same_state st.1 a t); [apply Hi|done..].
Qed.

Lemma inv_insert_thread pid p a t s held :
  sched_inv s held → procs s !! pid = Some p → threads s !! a = Some t → th_process t = pid →
  sched_inv (with_procs (<[pid := p_with_threads (<[(th_tuid t).2 := a]> (p_threads p)) p]> (procs s)) s) held.
Proof.
  intros [I1 I2 I3 I4 I5 I6] Hp Ht Hpid. constructor; try done.
  - by apply (queues_same s).
  - intros pid' p' tid b. cbn [with_procs procs threads]. destruct (decide (pid = pid')) as [<-|Hne].
    + rewrite lookup_insert_eq. intros [= <-]. cbn [p_with_threads p_threads].
      destruct (decide ((th_tuid t).2 = tid)) as [<-|Hne].
      * rewrite lookup_insert_eq. intros [= <-]. exists t. split; [done|]. rewrite <- Hpid, (I3 _ _ Ht).
        by destruct (th_tuid t).
      * rewrite lookup_insert_ne by done. by apply (I2 pid).
    + rewrite lookup_insert_ne by done. by apply I2.
Qed.

Lemma inv_drop_proc pid s held : sched_inv s held → sched_inv (with_procs (delete pid (procs s)) s) held.
Proof. intros Hi. apply inv_procs_sub; [done|]. intros i p [_ Hp]%lookup_delete_Some. by exists p. Qed.

Lemma run_drop_arc pid p s held (Q : () → Sched → Prop) :
  sched_inv s held → procs s !! pid = Some p →
  (∀ s', sched_inv s' held → ((2 <= p_arcs p)%nat → ∃ p', procs s' !! pid = Some p' ∧ p_cpus p' = p_cpus p) → Q () s') →
  run True (drop_arc pid) s Q.
Proof.
  intros Hi Hp HQ. apply run_bind, (run_process True pid p); [done|].
  destruct (p_arcs p) as [|[|n]]; apply run_modify, HQ; try (by apply inv_drop_proc); try lia.
  - by apply (inv_proc_put pid p).
  - intros _. eexists. split; [apply lookup_insert_eq|done].
Qed.

Lemma exit_ipis_goes `{Cpu} n it (s : Sched) (Q : list nat * bool → Sched → Prop) :
  exit_ipis n it ≠ NoFuel → (∀ x, Q x s) → run True (lift (exit_ipis n it)) s Q.
Proof.
  intros Hn HQ. unfold run, lift. destruct (exit_ipis n it) eqn:E; cbn; try done.
  exfalso. revert it E Hn. induction n as [|n IH]; intros it; [done|]. cbn [exit_ipis]. unfold marker_next.
  destruct (_ <? _)%nat; [done|]. destruct (first_mark _) as [c|]; [|done]. cbn [mbind res_bind].
  destruct (c =? prid)%nat; [done|].
  match goal with |- context [exit_ipis n ?it'] => pose proof (IH it'); destruct (exit_ipis n it') as [[]| | |] end;
    cbn; intros; try done. by apply H0.
Qed.

Lemma goes_terminate `{Cpu} n pid p st :
  sched_inv st.1 st.2 → procs st.1 !! pid = Some p → (pid ∈ proc_list st.1 → (2 <= p_arcs p)%nat) →
  exit_ipis n (marker_iter (p_cpus p)) ≠ NoFuel → goes (keep (terminate n pid) st).
Proof.
  intros Hi Hp Harc Hex. apply goes_keep. apply run_bind, run_get, run_bind, run_modify, run_bind.
  set (s1 := with_proc_list _ _).
  assert (∀ pl, sched_inv (with_proc_list pl st.1) st.2) as Hi1.
  { intros pl. destruct Hi as [I1 I2 I3 I4 I5 I6]. constructor; try done. by apply (queues_same st.1). }
  assert (∀ s2 p2, sched_inv s2 st.2 → procs s2 !! pid = Some p2 → p_cpus p2 = p_cpus p →
    run True (q ← the_process pid; proc_put pid (mkProc false (p_cpus q) (p_uid q) (p_next_tid q) (p_threads q) (p_arcs q));;
      lift (exit_ipis n (fst (iter_clear (p_cpus q))))) s2 (λ _ s', sched_inv s' st.2)) as Hrest.
  { intros s2 p2 Hi2 Hp2 Hc. apply run_bind, (run_process True pid p2); [done|]. apply run_bind, run_modify.
    rewrite Hc. apply exit_ipis_goes; [done|]. intros _. by apply (inv_proc_put pid p2). }
  destruct (decide (pid ∈ proc_list st.1)) as [Hin|Hin].
  - apply (run_drop_arc pid p s1 st.2); [apply Hi1|done|]. intros s2 Hi2 Hp2.
    destruct (Hp2 (Harc Hin)) as (p2 & Hp2' & Hc). by apply (Hrest s2 p2).
  - apply run_ret, (Hrest s1 p); [apply Hi1|done..].
Qed.

Definition event_ok (e : event) : Prop :=
  ∀ st, sched_inv st.1 st.2 → allowed e st.1 → goes (exec_event e st).

Lemma ok_interrupts :
  (∀ c regs nsec, event_ok (ETimer c regs nsec)) ∧ (∀ c regs nsec, event_ok (EInt c regs nsec)).
Proof.
  split; intros c regs nsec st Hi _; apply goes_shape; try done; intros Q HQ;
    [apply shape_time|apply shape_int]; by try apply Hi.
Qed.

Lemma ok_queues :
  (∀ u, event_ok (EEnsure u)) ∧ (∀ c u, event_ok (EMark c u)) ∧ (∀ u, event_ok (EDeallocState u)).
Proof.
  split_and!; [intros u|intros c u|intros u]; intros st Hi Ha; apply goes_shape; try done; intros Q HQ;
    [apply shape_ensure|apply shape_mark|apply shape_dealloc]; try done; try apply Hi; by intros; apply HQ.
Qed.

Lemma ok_cleaner : event_ok ECollect ∧ event_ok EFree.
Proof.
  split; intros st Hi _; simpl.
  - assert (run True cleaner_collect st.1 (λ l s', sched_inv s' (st.2 ++ l))) as Hr.
    { apply run_bind, (run_index _ _ KDestroy); [done| |done]. intros q [= <-].
      apply (run_collect True _ _ st.2); [done| |done|done]. by apply (ok_nodup _ (iv_queues _ _ Hi) KDestroy). }
    revert Hr. unfold run, goes. by destruct (cleaner_collect st.1) as [[]| | |].
  - destruct st as [s [|a held]]; [done|]. simpl in *.
    assert (run True (thread_dealloc a) s (λ _ s', sched_inv s' held)) as Hr
      by by apply (run_thread_dealloc True _ _ held).
    revert Hr. unfold run, goes. by destruct (thread_dealloc a s) as [[]| | |].
Qed.

Lemma ok_threads :
  (∀ pid tid, event_ok (ERemoveWake pid tid)) ∧ (∀ pid build, event_ok (ENewThread pid build)) ∧
  (∀ c a t, event_ok (EStart c a t)) ∧ (∀ pid a, event_ok (EInsertThread pid a)) ∧
  (∀ pid tid, event_ok (EGetThread pid tid)) ∧ (∀ a, event_ok (EDropRef a)).
Proof.
  split_and!; [intros pid tid|intros pid build|intros c a t|intros pid a|intros pid tid|intros a]; intros st Hi Ha.
  - destruct Ha as [p Hp]. apply goes_keep, (run_remove_wake True pid tid p _ st.2); [done|done|done|].
    intros b u s' Hb Hs _. by apply (inv_shape (left_process pid tid p st.1)); [apply inv_left_process|].
  - by apply goes_keep, (run_new_thread True pid build _ st.2).
  - by apply goes_keep, (run_cpu_start True a t _ st.2).
  - destruct Ha as [[p Hp] (u & Hu & Hpid)]. apply goes_keep, run_bind, (run_process True pid p); [done|].
    apply run_bind, (run_thread _ _ u); [done|]. cbv beta zeta. destruct (p_next_tid p <=? tuid_tid (th_tuid u)); [by apply run_ret|].
    destruct (p_threads p !! tuid_tid (th_tuid u)); [by apply run_ret|]. apply run_bind, run_modify, run_ret.
    by apply (inv_insert_thread pid p a u).
  - destruct Ha as [p Hp]. apply goes_shape; [done|]. intros Q HQ. apply run_bind, (run_process True pid p); [done|].
    destruct (p_threads p !! tid) as [b|] eqn:Eb; [|by apply run_ret, HQ, shape_refl, Hi].
    destruct (iv_procs _ _ Hi _ _ _ _ Hp Eb) as (u & Hu & _).
    apply run_bind, (run_put True _ _ u); [done|]. apply run_ret, HQ.
    by apply (shape_same_state st.1 b u); [apply Hi|..].
  - by apply goes_thread.
Qed.

Lemma ok_processes :
  (∀ pid uid, event_ok (ENewProcess pid uid)) ∧ (∀ pid, event_ok (EListProcess pid)) ∧
  (∀ pid, event_ok (ENextTid pid)) ∧ (∀ pid, event_ok (EProcGet pid)) ∧ (∀ c, event_ok (EAddCpu c)) ∧
  (∀ c n pid, event_ok (ETerminate c n pid)) ∧ (∀ pid, event_ok (EDropArc pid)) ∧ (∀ pid, event_ok (EUnlist pid)).
Proof.
  split_and!; [intros pid uid|intros pid|intros pid|intros pid|intros c|intros c n pid|intros pid|intros pid]; intros st Hi Ha.
  - apply goes_keep, run_modify. destruct Hi as [I1 I2 I3 I4 I5 I6]. constructor; try done.
    + by apply (queues_same st.1).
    + intros pid' p tid b. cbn [with_procs procs threads]. destruct (decide (pid = pid')) as [<-|Hne].
      * rewrite lookup_insert_eq. intros [= <-] Hb. done.
      * rewrite lookup_insert_ne by done. apply I2.
  - destruct Ha as [p Hp]. apply goes_keep, run_bind, (run_process True pid p); [done|].
    apply run_bind, run_modify, run_modify. set (s1 := with_procs _ _).
    assert (sched_inv s1 st.2) as [I1 I2 I3 I4 I5 I6] by (by apply (inv_proc_put pid p)).
    constructor; try done. by apply (queues_same s1).
  - destruct Ha as [p Hp]. apply goes_keep, run_bind, (run_process True pid p); [done|].
    apply run_bind, run_modify, run_ret. by apply (inv_proc_put pid p).
  - destruct Ha as [p Hp]. apply goes_keep, run_bind, run_get.
    destruct (decide _); [|by apply run_ret]. apply run_bind, (run_process True pid p); [done|].
    apply run_bind, run_modify, run_ret. by apply (inv_proc_put pid p).
  - apply goes_keep, run_modify. eapply inv_shape; [exact Hi|].
    set (n := (S c - length (running (tlist st.1)))%nat). constructor; try done.
    + by apply (more_cpus_ok n), Hi.
    + intros a. split; intros [k Hk]; exists k; by apply (more_cpus_on n).
  - destruct Ha as (p & Hp & Harc & Hex). by apply (goes_terminate n pid p).
  - destruct Ha as [p Hp]. apply goes_keep, (run_drop_arc pid p _ st.2); [done|done|]. by intros.
  - destruct Ha as [p Hp]. apply goes_keep, run_bind, run_get, run_bind, run_modify. set (s1 := with_proc_list _ _).
    assert (sched_inv s1 st.2) as Hi1.
    { destruct Hi as [I1 I2 I3 I4 I5 I6]. constructor; try done. by apply (queues_same st.1). }
    destruct (decide _); [|by apply run_ret]. apply (run_drop_arc pid p s1 st.2); [done|done|]. by intros.
Qed.

Lemma ok_futexes :
  (∀ p id, event_ok (EFutexNew p id)) ∧ (∀ p, event_ok (EFutexCount p)) ∧ (∀ p, event_ok (EFutexLock p)) ∧
  (∀ p n, event_ok (EFutexUnblock p n)) ∧ (∀ p, event_ok (EFutexIncRef p)) ∧ (∀ p, event_ok (EFutexDecRef p)).
Proof.
  split_and!; [intros p id|intros p|intros p|intros p n|intros p|intros p]; intros st Hi Ha;
    pose proof (iv_queues _ _ Hi) as Hok.
  - destruct Ha as [H0 Hf]. apply goes_shape; [done|]. intros Q HQ. apply run_bind, run_modify.
    set (f := mkKF id 0 true false 0).
    assert (same_shape st.1 (put_futex p f st.1)) as H1.
    { apply shape_futex; [done|]. intros p' g Hg. exists g. rewrite lookup_insert_ne; [done|]. congruence. }
    apply (shape_ensure True (FutexBlock p) (put_futex p f st.1)); [apply H1| |].
    { split; [done|]. exists f. apply lookup_insert_eq. }
    intros s' H2. apply HQ. by apply (shape_trans _ (put_futex p f st.1)).
  - destruct Ha as [H0 Hf].
    by apply (goes_futex (λ f, mkKF (kf_id f) (as_isize (kf_wait_count f + 1)) (kf_alive f) (kf_block_lock f) (kf_ref_count f))
      (λ f, 0 <=? kf_wait_count f) p).
  - destruct Ha as [H0 [f Hf]]. apply goes_shape; [done|]. intros Q HQ.
    apply run_bind, (run_kf True p f); [done|done|]. destruct (negb (kf_alive f)); [by apply run_ret, HQ, shape_refl|].
    destruct (kf_block_lock f); [by apply run_ret, HQ, shape_refl|]. apply run_bind, run_modify, run_ret, HQ.
    by apply (shape_kf_put st.1 p f).
  - destruct Ha as (Hn & H0 & [f Hf]). apply goes_shape; [done|]. intros Q HQ.
    by apply (shape_unblock True p f).
  - destruct Ha as [H0 [f Hf]]. apply goes_shape; [done|]. intros Q HQ.
    apply run_bind, (run_kf True p f); [done|done|]. apply run_modify, HQ. by apply (shape_kf_put st.1 p f).
  - destruct Ha as [H0 [f Hf]]. apply goes_shape; [done|]. intros Q HQ. by apply (shape_dec_ref True p f).
Qed.

Lemma exec_ok e : event_ok e.
Proof.
  destruct e; first [apply ok_interrupts|apply ok_queues|apply ok_cleaner|apply ok_threads|apply ok_processes|apply ok_futexes].
Qed.

Lemma new_inv : sched_inv sched_new [].
Proof.
  assert (∀ k q, qget k tl_new = Some q → q = []) as Hq.
  { intros [] q; simpl; try (rewrite ?lookup_nil, ?lookup_empty; done); by intros [= <-]. }
  assert (∀ k a, ¬ on tl_new k a) as Hon.
  { intros k a (q & ->%Hq & Ha). by apply elem_of_nil in Ha. }
  constructor; cbn [sched_new tlist threads procs kfutexes].
  - constructor; cbn [sched_new tlist threads procs kfutexes].
    + intros k q ->%Hq. constructor.
    + intros k k' a Ha. by apply Hon in Ha.
    + intros k a Ha. by apply Hon in Ha.
    + intros c q ->%Hq. simpl. lia.
    + intros a t. by rewrite lookup_empty.
  - intros pid p tid a. by rewrite lookup_empty.
  - intros a t. by rewrite lookup_empty.
  - intros a [t Ht]. by rewrite lookup_empty in Ht.
  - constructor.
  - intros a Ha. by apply elem_of_nil in Ha.
Qed.

Lemma reachable_inv st : reachable st → sched_inv st.1 st.2.
Proof.
  induction 1 as [|e st st' Hr IH Ha He]; [apply new_inv|].
  pose proof (exec_ok e st IH Ha) as Hg. by rewrite He in Hg.
Qed.

(** C1: However the processors interleave timer and software interrupts, wake-ups, the parts of
    blocking, the creation, exit and cleaning of threads and processes, and futex calls: no
    step is undefined behaviour or loops; every thread that is not freed is on exactly one
    queue of the list, or in the hands of the cleaner; the queue is the one its state names,
    unless a processor runs it; a processor runs at most one thread; and a process only
    points to its own threads. *)
Theorem sched_safe st e :
  reachable st → allowed e st.1 →
  exec_event e st ≠ UB ∧ exec_event e st ≠ NoFuel ∧
  (∀ a, is_Some (threads st.1 !! a) ↔ (∃ k, on (tlist st.1) k a) ∨ a ∈ st.2) ∧
  (∀ a k k', on (tlist st.1) k a → on (tlist st.1) k' a → k = k' ∧ a ∉ st.2) ∧
  (∀ k q, qget k (tlist st.1) = Some q → NoDup q) ∧
  (∀ a k t, on (tlist st.1) k a → threads st.1 !! a = Some t → in_state (kfutexes st.1) (th_state t) k) ∧
  (∀ c q, running (tlist st.1) !! c = Some q → (length q <= 1)%nat) ∧
  (∀ pid p tid a, procs st.1 !! pid = Some p → p_threads p !! tid = Some a →
     ∃ t, threads st.1 !! a = Some t ∧ th_tuid t = (pid, tid)).
Proof.
  intros Hr Ha. pose proof (reachable_inv _ Hr) as Hi. pose proof (exec_ok e st Hi Ha) as Hg.
  destruct Hi as [I1 I2 I3 I4 I5 I6]. split_and!.
  - intros E. by rewrite E in Hg.
  - intros E. by rewrite E in Hg.
  - intros a. split; [apply I4|]. intros [[k Hk]|Hh]; [|by apply I6].
    destruct (ok_state _ I1 _ _ Hk) as (t & -> & _). by eexists.
  - intros a k k' Hk Hk'. split; [by apply (ok_one _ I1 _ _ a)|]. intros Hh. destruct (I6 a Hh) as [Ho _].
    by apply (Ho k).
  - apply (ok_nodup _ I1).
  - intros a k t Hk Ht. destruct (ok_state _ I1 _ _ Hk) as (t' & Ht' & Hin). by simplify_eq.
  - intros c q Hq. by apply (ok_running _ I1 c).
  - apply I2.
Qed.
End machine.

(** ** A concrete run *)

#[local] Existing Instance dev.

Definition demo_thread_at (pid tid : Z) (regs : Registers) : Thread :=
  mkThread pid (pid, tid) false 0 Ready 0 regs (SKernelNoAlloc (mkRange 0 0)) None.
Definition demo_build (tid : Z) : Err + (Z * Thread) := inr (4096, demo_thread_at 0 tid (from_rip 0x1000)).
Definition demo_idle : Thread :=
  mkThread 0 (0, 7) true 0 Ready 0 regs_zero (SKernelNoAlloc (mkRange 0 0)) None.

(** A run, event by event. *)
Fixpoint run_of (es : list event) (st : Sched * list Z) : res (Sched * list Z) :=
  match es with
  | [] => Ret st
  | e :: es => st ← exec_event e st; run_of es st
  end.

Definition demo_run (es : list event) : Sched * list Z :=
  match run_of es (sched_new, []) with Ret st => st | _ => (sched_new, []) end.

Lemma run_of_app es es' st : run_of (es ++ es') st = (st ← run_of es st; run_of es' st).
Proof.
  revert st. induction es as [|e es IH]; intros st; [done|]. cbn [app run_of].
  destruct (exec_event e st); [apply IH|done..].
Qed.

Lemma demo_reach es e :
  reachable (demo_run es) → allowed e (demo_run es).1 → returns (run_of (es ++ [e]) (sched_new, [])) = true →
  reachable (demo_run (es ++ [e])).
Proof.
  unfold demo_run. rewrite run_of_app. destruct (run_of es _) as [st| | |]; [|done..]. cbn [mbind res_bind run_of].
  destruct (exec_event e st) as [st'| | |] eqn:E; [|done..]. intros Hr Ha _. by apply (reach_step e st).
Qed.

Lemma demo_reach_all es :
  (∀ n e, es !! n = Some e → allowed e (demo_run (take n es)).1) →
  (∀ n, (n <= length es)%nat → returns (run_of (take n es) (sched_new, [])) = true) → reachable (demo_run es).
Proof.
  intros Ha Hr. rewrite <- (firstn_all es). assert (∀ n, (n <= length es)%nat → reachable (demo_run (take n es))) as H.
  { induction n as [|n IH]; intros Hn; [constructor|]. destruct (es !! n) as [e|] eqn:E.
    - rewrite (take_S_r _ _ _ E). apply demo_reach; [apply IH; lia|by apply Ha|]. rewrite <- (take_S_r _ _ _ E).
      apply Hr. lia.
    - apply lookup_ge_None in E. lia. }
  by apply H.
Qed.

(** The kernel process, its first two threads, and processor 0. *)
Definition demo_build2 (tid : Z) : Err + (Z * Thread) := inr (12288, demo_thread_at 0 tid (from_rip 0x2000)).
Definition demo_boot : list event :=
  [ENewProcess 0 PKernel; EListProcess 0; ENewThread 0 demo_build; ENewThread 0 demo_build2;
   EStart 0 8192 demo_idle; ETimer 0 regs_zero 20000000].

Lemma demo_boot_reachable : reachable (demo_run demo_boot).
Proof.
  apply demo_reach_all; [intros [|[|[|[|[|[|n]]]]]] e [= <-]; cbn [allowed]|].
  - done.
  - by eexists.
  - eexists. split; [by vm_compute|]. split_and!; try done. intros a t [= <- <-]. done.
  - eexists. split; [by vm_compute|]. split_and!; try done. intros a t [= <- <-]. done.
  - split_and!; by vm_compute.
  - done.
  - intros n Hn. do 7 (destruct n as [|n]; [by vm_compute|]). cbn [demo_boot length] in Hn. lia.
Qed.

Lemma sched_safe_witness :
  exec_event (ETimer 0 regs_zero 50000000) (demo_run demo_boot) ≠ UB ∧
  running (tlist (demo_run demo_boot).1) = [[4096]] ∧ ready (tlist (demo_run demo_boot).1) = [12288].
Proof.
  split; [|by vm_compute].
  exact (proj1 (sched_safe (demo_run demo_boot) (ETimer 0 regs_zero 50000000)
    demo_boot_reachable I)).
Defined.
