(* ===== verification/SchedSpec.v ===== *)
(** * What the scheduler does, and where it goes wrong

    [schedule_spec] gives the queues after a switch exactly; [round_robin] follows from
    it.  The rest are runs that fail: a join against the exit of the thread it waits for,
    the end of a process that runs on two processors, the end of a futex. *)

From Stdlib Require Import String.
From S2P Require Import Prelude Sys Ranges Thread CpuMarker Sched SchedInv SchedSafe.

Section spec.
Context {P : Cpu}.
Implicit Types (s : Sched).

(** The thread that will run: the first ready one alive, or the idle one. *)
Definition next_thread (r : list Z) s : option Z :=
  match r with
  | t :: _ => Some t
  | [] => qget (KIdle prid) (tlist s) ≫= last
  end.

(** The queues once it is picked: the dead threads [d] before it are to be destroyed. *)
Definition after_pick (d r : list Z) s (k : qkey) : option (list Z) :=
  match k with
  | KReady => Some (tail r)
  | KDestroy => Some (destroy (tlist s) ++ d)
  | KIdle c => if decide (c = prid ∧ r = []) then (λ q, removelast q) <$> qget k (tlist s) else qget k (tlist s)
  | _ => qget k (tlist s)
  end.

(** And once the thread that ran is back on queue [k]. *)
Definition after_switch (d r : list Z) s (old : Z) (k k' : qkey) : option (list Z) :=
  if decide (k' = k) then (λ q, q ++ [old]) <$> after_pick d r s k' else after_pick d r s k'.

Lemma taken_queues d r s s1 t s2 k :
  queues_ok s → first_alive s d r → moved KDestroy Destroy KReady d s s1 → taken r s1 t s2 →
  qget k (tlist s2) = after_pick d r s k.
Proof.
  intros Hok (Hr & _) Hm Ht. pose proof (moved_ready_rest _ _ _ _ Hok Hr Hm) as Hr1.
  assert (∀ k, k ≠ KReady → k ≠ KDestroy → qget k (tlist s1) = qget k (tlist s)) as Ho.
  { intros. by apply (mv_others _ _ _ _ _ _ Hm). }
  pose proof (mv_to _ _ _ _ _ _ Hm _ eq_refl) as Hd.
  destruct Ht as [t r' ->|q t -> Hq Hl]; cbn [with_tlist tlist].
  - destruct (decide (k = KReady)) as [->|H1]; [done|]. rewrite qget_put_ne by done.
    destruct k; try done; try (by apply Ho). rewrite Ho by done. simpl. by rewrite decide_False by (by intros [_ [=]]).
  - destruct (decide (k = KIdle prid)) as [->|H1].
    + rewrite (qget_put_eq _ _ _ _ Hq). simpl. rewrite decide_True by done. rewrite (Ho (KIdle prid)) in Hq by done.
      simpl in Hq. by rewrite Hq.
    + rewrite qget_put_ne by done. destruct k; try (by apply Ho); try done; [by simpl; rewrite Hr1|].
      rewrite Ho by done. simpl. rewrite decide_False; [done|]. intros [-> _]. done.
Qed.

Lemma taken_next r s t s2 : taken r s t s2 → next_thread r s = Some t.
Proof. intros [t' r' ->|q t' -> Hq Hl]; [done|]. cbn [next_thread]. by rewrite Hq. Qed.

Lemma next_moved d r s s1 : moved KDestroy Destroy KReady d s s1 → next_thread r s1 = next_thread r s.
Proof. intros Hm. destruct r; [|done]. cbn [next_thread]. by rewrite (mv_others _ _ _ _ _ _ Hm). Qed.

(** It is not one of the dead ones. *)
Lemma taken_alive d r s s1 t :
  queues_ok s → ready (tlist s) = d ++ r → moved KDestroy Destroy KReady d s s1 → ready (tlist s1) = r →
  on (tlist s1) KReady t ∨ on (tlist s1) (KIdle prid) t → t ∉ d.
Proof.
  intros Hok Hr Hm Hr1 Hfrom Hd. pose proof (ok_nodup _ Hok KReady _ eq_refl) as Hnd. rewrite Hr in Hnd.
  destruct Hfrom as [(q & [= <-] & Hin)|Hin].
  - rewrite Hr1 in Hin. by apply (NoDup_app_disjoint d r t).
  - unfold on in Hin. rewrite (mv_others _ _ _ _ _ _ Hm) in Hin by done.
    assert (KIdle prid = KReady) as [=]. apply (ok_one _ Hok _ _ t); [done|].
    exists (ready (tlist s)). split; [done|]. rewrite Hr. apply elem_of_app. by left.
Qed.

Lemma first_alive_unique s d r d' r' : first_alive s d r → first_alive s d' r' → d = d' ∧ r = r'.
Proof.
  unfold first_alive. intros (E1 & D1 & R1) (E2 & D2 & R2). rewrite E1 in E2. clear E1.
  revert d' D2 E2. induction d as [|x d IH]; intros [|y d'] D2 E2; simpl in E2; [done| | |].
  - subst r. specialize (D2 y ltac:(left)). congruence.
  - subst r'. specialize (D1 x ltac:(left)). congruence.
  - injection E2 as <- E2. destruct (IH ltac:(intros; apply D1; by right) d') as [-> ->]; [|done|done].
    intros a Ha. apply D2. by right.
Qed.

(** What a switch leaves behind. *)
Record switched (prev now : Z) (d r : list Z) (old t : Z) (to tt : Thread) s s' : Prop := {
  sd_ok : queues_ok s';
  sd_running : qget (KRunning prid) (tlist s') = Some [t];
  sd_queues : ∃ k, key (left_state to) s = Ret k ∧
    ∀ k', k' ≠ KRunning prid → qget k' (tlist s') = after_switch d r s old k k';
  sd_next : threads s' !! t = Some (th_with_state Running tt);
  sd_old : threads s' !! old = Some (left_thread prev now to);
  sd_threads a : a ≠ t → a ≠ old →
    threads s' !! a = if decide (a ∈ d) then th_with_state Destroy <$> threads s !! a else threads s !! a;
  sd_procs : procs s' = alter (set_mark true) (th_process tt) (alter (set_mark false) (th_process to) (procs s));
  sd_space : loaded s' = match procs s !! th_process to with
    | Some _ => if th_process to =? th_process tt then loaded s else <[prid := th_process tt]> (loaded s)
    | None => <[prid := th_process tt]> (loaded s)
    end;
  sd_futex : kfutexes s' = unlock_of (th_state to) (kfutexes s);
  sd_switch : last_switch s' = last_switch s;
}.

Lemma switch_switched prev now old t to tt s s' s1 s2 s3 d r q k :
  queues_ok s → queues_ok s' → switch prev now old t to tt s s' s1 s2 s3 d r q k →
  qget (KRunning prid) (tlist s) = Some [old] ∧ threads s !! old = Some to ∧
  next_thread r s = Some t ∧ threads s !! t = Some tt ∧
  switched prev now d r old t to tt s s'.
Proof.
  intros Hok Hok' [W1 W2 W3 W4 W5 W6 W7 W8 W9 W10]. pose proof W1 as (Hr & _).
  pose proof (moved_ready_rest _ _ _ _ Hok Hr W2) as Hr1.
  destruct (taken_ok _ _ _ _ (mv_ok _ _ _ _ _ _ W2) Hr1 W3) as (_ & Hoff & Hth2 & (Rp & _ & Rf & Rs & Rl) & _ & _ & Hfrom).
  destruct (mv_rest _ _ _ _ _ _ W2) as (Rp1 & _ & Rf1 & Rs1 & Rl1).
  destruct W9 as [_ L2 L3 L4 _ L6 L7 L8], W10 as [_ A2 A3 A4 _ A6 A7 A8].
  pose proof (left_key _ _ _ W7) as Hk.
  assert (t ≠ old) as Hne.
  { intros ->. apply (Hoff (KRunning prid)). exists [old]. split; [done|left]. }
  pose proof (λ k, taken_queues _ _ _ _ _ _ k Hok W1 W2 W3) as Hq2.
  assert (qget (KRunning prid) (tlist s) = Some [old]) as Hrun by by rewrite <- W4, Hq2.
  assert (old ∉ d) as Hod.
  { intros Hd. assert (KRunning prid = KReady) as [=]. apply (ok_one _ Hok _ _ old).
    - exists [old]. split; [done|left].
    - exists (ready (tlist s)). split; [done|]. rewrite Hr. apply elem_of_app. by left. }
  cbn [stop_running with_tlist tlist threads procs loaded kfutexes last_switch] in *.
  assert (threads s !! old = Some to) as Hto.
  { rewrite <- W5, Hth2, (mv_threads _ _ _ _ _ _ W2), decide_False; done. }
  split_and!; [done..| | |].
  - rewrite <- (next_moved _ _ _ _ W2). by eapply taken_next.
  - rewrite <- W6, Hth2, (mv_threads _ _ _ _ _ _ W2), decide_False; [done|].
    by apply (taken_alive d r s s1).
  - assert (qget (KRunning prid) (tlist s3) = Some []) as Hr3.
    { rewrite L2, qget_put_ne by done. by apply (qget_put_eq _ _ [old]). }
    constructor; [done| | | | | | | | |].
    + rewrite A2. by apply (qget_put_eq _ _ []).
    + exists k. split; [done|]. intros k' Hk'. rewrite A2, qget_put_ne, L2 by done. unfold after_switch.
      destruct (decide (k' = k)) as [->|Hne2].
      * rewrite (qget_put_eq _ _ _ _ W8), <- Hq2. rewrite qget_put_ne in W8 by done. by rewrite W8.
      * by rewrite !qget_put_ne, Hq2 by done.
    + by rewrite A3, lookup_insert_eq.
    + by rewrite A3, lookup_insert_ne, L3, lookup_insert_eq.
    + intros a H1 H2. rewrite A3, lookup_insert_ne, L3, lookup_insert_ne, Hth2 by done. apply (mv_threads _ _ _ _ _ _ W2).
    + by rewrite A4, L4, Rp, Rp1.
    + rewrite A8, L4, L8, Rp, Rp1, Rl, Rl1. done.
    + by rewrite A6, L6, Rf, Rf1.
    + by rewrite A7, L7, Rs, Rs1.
Qed.

(** What a switch comes to. *)
Definition switch_outcome regs prev now s (d r : list Z) (out : bool * Registers) s' : Prop :=
  match next_thread r s with
  | None => out = (false, regs) ∧ moved KDestroy Destroy KReady d s s'
  | Some t => ∃ old to tt, qget (KRunning prid) (tlist s) = Some [old] ∧ threads s !! old = Some to ∧
      threads s !! t = Some tt ∧ out = (true, th_regs tt) ∧ switched prev now d r old t to tt s s'
  end.

Lemma schedule_returns regs prev now s d r :
  queues_ok s → can_switch s → first_alive s d r →
  ∃ out s', schedule regs prev now s = Ret (out, s') ∧ switch_outcome regs prev now s d r out s'.
Proof.
  intros Hok Hcan Hf.
  assert (run False (schedule regs prev now) s (switch_outcome regs prev now s d r)) as Hrun.
  2: { unfold run in Hrun. destruct (schedule regs prev now s) as [[out s']| | |]; [|done..]. by exists out, s'. }
  apply run_schedule; [done|by right| |]; unfold switch_outcome.
  - intros d' s' Hf' Hm Hi. destruct (first_alive_unique _ _ _ _ _ Hf Hf') as [-> ->]. cbn [next_thread].
    by rewrite Hi.
  - intros old t to tt s' s1 s2 s3 d' r' q k Hok' Hs.
    destruct (first_alive_unique _ _ _ _ _ Hf (sw_first _ _ _ _ _ _ _ _ _ _ _ _ _ _ _ Hs)) as [-> ->].
    destruct (switch_switched _ _ _ _ _ _ _ _ _ _ _ _ _ _ _ Hok Hok' Hs) as (H1 & H2 & -> & H3 & H4).
    by exists old, to, tt.
Qed.

(** C18: A switch that is due returns: the ready threads before the first one whose process lives
    go to be destroyed; that one runs, or the idle thread when there is none, or, when the
    processor idles already, the current thread goes on.  The thread that ran goes to the
    end of the queue of its state, charged for its time; no other queue changes, the page
    tables are those of the process that runs, and its registers are given back. *)
Theorem schedule_spec regs prev now s d r :
  queues_ok s → can_switch s → first_alive s d r →
  ∃ out s', schedule regs prev now s = Ret (out, s') ∧
    match next_thread r s with
    | None => out = (false, regs) ∧ moved KDestroy Destroy KReady d s s'
    | Some t => ∃ old to tt, qget (KRunning prid) (tlist s) = Some [old] ∧ threads s !! old = Some to ∧
        threads s !! t = Some tt ∧ out = (true, th_regs tt) ∧ switched prev now d r old t to tt s s'
    end.
Proof. apply schedule_returns. Qed.

(** ** Round robin *)

(** Threads that only compute: [x] runs, [q] are ready, and all of them live. *)
Record rotating s (x : Z) (q : list Z) : Prop := {
  rt_ok : queues_ok s;
  rt_running : qget (KRunning prid) (tlist s) = Some [x];
  rt_ready : ready (tlist s) = q;
  rt_idle : is_Some (qget (KIdle prid) (tlist s));
  rt_marks : marks_ok s;
  rt_kernel : ∀ a t, on (tlist s) (KIdle prid) a → threads s !! a = Some t → is_Some (procs s !! th_process t);
  rt_current : th_state <$> threads s !! x = Some Running;
  rt_all : ∀ a, a ∈ x :: q → th_idle <$> threads s !! a = Some false ∧ alive s a = true;
}.

Lemma rotating_left s x q t : rotating s x q → threads s !! x = Some t → left_state t = Ready.
Proof.
  intros H Ht. destruct (rt_all _ _ _ H x) as [Hi _]; [left|]. pose proof (rt_current _ _ _ H) as Hc.
  rewrite Ht in Hi, Hc. injection Hi as Hi. injection Hc as Hc.
  unfold left_state, default_state. by rewrite Hc, Hi.
Qed.

Lemma rotating_switch s x q : rotating s x q → can_switch s.
Proof.
  intros H. constructor; [apply H| |apply H|apply H].
  pose proof (rt_current _ _ _ H) as Hc. destruct (threads s !! x) as [t|] eqn:E; [|done].
  exists x, t, KReady. split_and!; [apply H|done| |by eexists]. by rewrite (rotating_left _ _ _ _ H E).
Qed.

(** Marks do not matter to who lives. *)
Lemma alter_marks_alive b i (m : gmap Z Process) pid :
  p_alive <$> alter (set_mark b) i m !! pid = p_alive <$> m !! pid.
Proof.
  destruct (decide (i = pid)) as [->|Hi]; [|by rewrite lookup_alter_ne].
  rewrite lookup_alter_eq. by destruct (m !! pid).
Qed.

Lemma alter_marks_length b i (m : gmap Z Process) pid p' :
  alter (set_mark b) i m !! pid = Some p' →
  ∃ p, m !! pid = Some p ∧ length (marks (p_cpus p')) = length (marks (p_cpus p)).
Proof.
  destruct (decide (i = pid)) as [->|Hi].
  - rewrite lookup_alter_eq. destruct (m !! pid) as [p|]; [|done]. intros [= <-]. exists p. simpl. by rewrite length_insert.
  - rewrite lookup_alter_ne by done. eauto.
Qed.

Lemma alive_eq s s' a t t' :
  threads s !! a = Some t → threads s' !! a = Some t' → th_process t' = th_process t →
  p_alive <$> procs s' !! th_process t = p_alive <$> procs s !! th_process t → alive s' a = alive s a.
Proof.
  unfold alive. intros -> -> -> Hp. destruct (procs s !! _), (procs s' !! _); simplify_eq/=; congruence.
Qed.

Lemma rotate_step regs prev now s x y q :
  rotating s x (y :: q) →
  ∃ regs' s', schedule regs prev now s = Ret ((true, regs'), s') ∧ rotating s' y (q ++ [x]).
Proof.
  intros H. pose proof (rt_ok _ _ _ H) as Hok.
  assert (first_alive s [] (y :: q)) as Hf.
  { split_and!; [by apply H|by intros a ?%not_elem_of_nil|]. apply (rt_all _ _ _ H). right. left. }
  destruct (schedule_returns regs prev now s [] (y :: q) Hok (rotating_switch _ _ _ H) Hf) as (out & s' & Hs & Hn).
  unfold switch_outcome in Hn.
  cbn [next_thread] in Hn. destruct Hn as (old & to & tt & Hr & Hto & Htt & -> & Hsw).
  rewrite (rt_running _ _ _ H) in Hr. injection Hr as <-.
  pose proof (rotating_left _ _ _ _ H Hto) as Hleft.
  destruct Hsw as [S1 S2 (k & Hk & S3) S4 S5 S6 S7 _ _ _]. rewrite Hleft in Hk. injection Hk as <-.
  eexists _, s'. split; [exact Hs|].
  assert (∀ pid, p_alive <$> procs s' !! pid = p_alive <$> procs s !! pid) as Hal.
  { intros pid. by rewrite S7, !alter_marks_alive. }
  assert (∀ a t, threads s !! a = Some t → ∃ t', threads s' !! a = Some t' ∧
    th_process t' = th_process t ∧ th_idle t' = th_idle t) as Hth.
  { intros a t Ha. destruct (decide (a = y)) as [->|H1].
    { rewrite Htt in Ha. injection Ha as <-. eauto. }
    destruct (decide (a = x)) as [->|H2].
    { rewrite Hto in Ha. injection Ha as <-. eexists. split; [done|].
      unfold left_thread, timed. by destruct (prev <=? now). }
    exists t. by rewrite S6, decide_False by (done || apply not_elem_of_nil). }
  assert (∀ k, k ≠ KRunning prid → k ≠ KReady → qget k (tlist s') = after_pick [] (y :: q) s k) as Hq.
  { intros k H1 H2. rewrite S3 by done. unfold after_switch. by rewrite decide_False. }
  assert (qget (KIdle prid) (tlist s') = qget (KIdle prid) (tlist s)) as Hidle.
  { rewrite Hq by done. simpl. by rewrite decide_False by (by intros [_ [=]]). }
  constructor; [done..| | | | | |].
  - pose proof (S3 KReady ltac:(done)) as Hx. unfold after_switch in Hx. rewrite decide_True in Hx by done.
    by injection Hx as ->.
  - rewrite Hidle. apply H.
  - intros pid p. rewrite S7. intros (p1 & (p2 & Hp2 & E2)%alter_marks_length & E1)%alter_marks_length.
    rewrite E1, E2. by apply (rt_marks _ _ _ H pid).
  - intros a t' (qi & Hqi & Hin) Ht'. rewrite Hidle in Hqi.
    destruct (ok_state _ Hok (KIdle prid) a) as (t & Ht & _); [by exists qi|].
    destruct (Hth a t Ht) as (t2 & Ht2 & E & _). rewrite Ht' in Ht2. injection Ht2 as <-. rewrite E.
    specialize (Hal (th_process t)). destruct (rt_kernel _ _ _ H a t) as [p Hp]; [by exists qi|done|].
    rewrite Hp in Hal. destruct (procs s' !! th_process t); [by eexists|done].
  - by rewrite S4.
  - intros a Ha. assert (a ∈ x :: y :: q) as Ha'.
    { rewrite app_comm_cons in Ha. apply elem_of_app in Ha as [Ha| ->%list_elem_of_singleton]; [by right|left]. }
    destruct (rt_all _ _ _ H a Ha') as [Hi Hl]. destruct (threads s !! a) as [t|] eqn:E; [|done].
    destruct (Hth a t E) as (t' & Ht' & Ep & Ei). rewrite Ht'. simpl. rewrite Ei. split; [done|].
    rewrite <- Hl. by apply (alive_eq s s' a t t').
Qed.

(** The switches of a processor, at given times. *)
Definition switches (times : list (Z * Z)) : SM () :=
  each times (λ t, out ← schedule regs_zero t.1 t.2; mret ()).

(** C28: Round robin: while threads only compute, the one with [i] others before it in the ready queue
    runs after [i + 1] switches, whatever the times; no ready thread starves. *)
Theorem round_robin s x q i a times :
  rotating s x q → q !! i = Some a → length times = S i →
  ∃ s', switches times s = Ret ((), s') ∧ qget (KRunning prid) (tlist s') = Some [a].
Proof.
  revert s x q i. induction times as [|[prev now] times IH]; intros s x q i H Hi Hlen; [done|].
  destruct q as [|y q]; [done|].
  destruct (rotate_step regs_zero prev now s x y q H) as (regs' & s1 & Hs & H1).
  cbn [switches each fst snd]. unfold mbind at 1, M_bind at 1. unfold mbind at 1, M_bind at 1. rewrite Hs. cbn [mret M_ret].
  injection Hlen as Hlen. destruct i as [|i].
  - destruct times; [|done]. injection Hi as ->. exists s1. split; [done|apply H1].
  - apply (IH s1 y (q ++ [x]) i); [done| |done]. by apply lookup_app_l_Some.
Qed.

(** ** Waking *)

(** The timer interrupt of processor 0 wakes exactly the sleepers whose time has come, in
    the order they went to sleep, behind the threads that are ready already. *)
Theorem sleepers_spec nsec s :
  queues_ok s →
  ∃ s', each (sleep (tlist s)) (wake_sleeper nsec) s = Ret ((), s') ∧ queues_ok s' ∧
    ready (tlist s') = ready (tlist s) ++ filter (λ a, due s nsec a = true) (sleep (tlist s)) ∧
    sleep (tlist s') = filter (λ a, due s nsec a = false) (sleep (tlist s)) ∧
    ∀ k, k ≠ KReady → k ≠ KSleep → qget k (tlist s') = qget k (tlist s).
Proof.
  intros Hok.
  pose proof (run_sleepers False nsec (sleep (tlist s)) s (λ _ s', moved KReady Ready KSleep
    (filter (λ a, due s nsec a = true) (sleep (tlist s))) s s') Hok eq_refl (λ s' H, H)) as Hr.
  unfold run in Hr. destruct (each _ _ s) as [[[] s']| | |]; [|done..]. exists s'.
  pose proof (mv_to _ _ _ _ _ _ Hr _ eq_refl) as Ht. injection Ht as Ht.
  pose proof (mv_from _ _ _ _ _ _ Hr _ eq_refl) as Hf. injection Hf as Hf.
  split_and!; [done|apply Hr|done| |].
  - rewrite Hf. apply filter_ext_in. intros x Hx. rewrite list_elem_of_filter. destruct (due s nsec x); naive_solver.
  - intros k H1 H2. by apply (mv_others _ _ _ _ _ _ Hr).
Qed.

(** Waking up to [n] threads blocked on a futex takes the first [n] of its queue, or all of
    them if there are fewer, to the end of the ready queue, and gives their number. *)
Theorem unblock_spec p f n q s :
  queues_ok s → p ≠ 0 → kfutexes s !! p = Some f → 0 <= n →
  futexq (tlist s) !! kf_id f = Some q →
  ∃ s', kf_unblock (S (length q)) p n s = Ret (Z.of_nat (length (take (Z.to_nat n) q)), s') ∧
    queues_ok s' ∧ ready (tlist s') = ready (tlist s) ++ take (Z.to_nat n) q ∧
    futexq (tlist s') !! kf_id f = Some (drop (Z.to_nat n) q) ∧
    ∀ k, k ≠ KReady → k ≠ KFutexQ (kf_id f) → qget k (tlist s') = qget k (tlist s).
Proof.
  intros Hok H0 Hf Hn Hq.
  set (f' := mkKF (kf_id f) (as_isize (kf_wait_count f - as_isize n)) (kf_alive f) (kf_block_lock f) (kf_ref_count f)).
  assert (same_shape s (put_futex p f' s)) as H1 by by apply (shape_kf_put s p f).
  assert (run False (kf_unblock (S (length q)) p n) s (λ x s', x = Z.of_nat (length (take (Z.to_nat n) q)) ∧
    moved KReady Ready (KFutexQ (kf_id f)) (take (Z.to_nat n) q) (put_futex p f' s) s')) as Hr.
  { apply run_bind, (run_kf False p f); [done|done|]. apply run_bind, run_modify.
    change (with_kfutexes _ s) with (put_futex p f' s). unfold inner_state_move. cbn [is_running].
    assert (key (FutexBlock p) (put_futex p f' s) = Ret (KFutexQ (kf_id f))) as Hk
      by by apply (key_futex p f'), lookup_insert_eq.
    apply run_bind, (run_tl_get _ _ (KFutexQ (kf_id f))); [done| |by simpl; rewrite Hq].
    intros q' Hq'. apply run_bind, (run_tl_get _ _ KReady); [done| |done]. intros qr _.
    simpl in Hq'. rewrite Hq in Hq'. injection Hq' as <-.
    apply (run_move_loop False _ KReady Ready _ (KFutexQ (kf_id f)) 0 n q);
      [apply fixed_ready|done|done|apply H1|split; [done|]|done|done|lia|lia|].
    { exists f'. apply lookup_insert_eq. }
    intros s' l Hm _. subst l. rewrite Z.sub_0_r in *. by rewrite Z.add_0_l. }
  unfold run in Hr. destruct (kf_unblock _ p n s) as [[x s']| | |]; [|done..]. destruct Hr as [-> Hm].
  exists s'. pose proof (mv_to _ _ _ _ _ _ Hm _ eq_refl) as Ht. injection Ht as Ht.
  pose proof (mv_from _ _ _ _ _ _ Hm q Hq) as Hd. cbn [qget] in Hd.
  split_and!; [done|apply Hm|done| |].
  - rewrite Hd. f_equal. pose proof (ok_nodup _ Hok (KFutexQ (kf_id f)) q Hq) as Hnd.
    pose proof (filter_rest (take (Z.to_nat n) q) (drop (Z.to_nat n) q)) as Hx.
    rewrite take_drop in Hx. by apply Hx.
  - intros k H2 H3. by apply (mv_others _ _ _ _ _ _ Hm).
Qed.
End spec.

(** ** Runs that fail *)

Section failures.
Context {P : Cpu}.

(** A process that runs on processors 0 and 1 cannot be ended from any processor but the first:
    [terminate] never leaves its loop, since the iterator over the marks gives 0 for ever. *)
Theorem terminate_hangs n pid p l s :
  prid ≠ 0%nat → procs s !! pid = Some p → marks (p_cpus p) = true :: true :: l →
  (pid ∈ proc_list s → (2 <= p_arcs p)%nat) →
  terminate n pid s = NoFuel.
Proof.
  intros Hc Hp Hm Harc.
  assert (∀ i, (i < 2)%nat → exit_ipis n (mkIter (true :: true :: l) i) = NoFuel) as Hex.
  { induction n as [|m IH]; intros i Hi; [done|]. cbn [exit_ipis]. rewrite next_again by done.
    cbn [mbind res_bind]. rewrite (proj2 (Nat.eqb_neq 0 prid)) by done. by rewrite IH by lia. }
  assert (∀ s2 p2, procs s2 !! pid = Some p2 → p_cpus p2 = p_cpus p →
    (q ← the_process pid; proc_put pid (mkProc false (p_cpus q) (p_uid q) (p_next_tid q) (p_threads q) (p_arcs q));;
      lift (exit_ipis n (fst (iter_clear (p_cpus q))))) s2 = NoFuel) as Hrest.
  { intros s2 p2 Hp2 Hc2. unfold the_process, mbind, M_bind, get, lift. rewrite Hp2. cbn. rewrite Hc2.
    unfold marker_iter. rewrite Hm, Hex by lia. done. }
  unfold terminate, get, modify. unfold mbind at 1, M_bind at 1. unfold mbind at 1, M_bind at 1.
  destruct (decide (pid ∈ proc_list s)) as [Hin|Hin].
  - specialize (Harc Hin). unfold mbind at 1, M_bind at 1. unfold drop_arc, the_process.
    unfold mbind at 1, M_bind at 1. unfold mbind at 1, M_bind at 1. cbn [get with_proc_list procs lift]. rewrite Hp.
    cbn. destruct (p_arcs p) as [|[|k]]; [lia|lia|].
    apply (Hrest _ (mkProc (p_alive p) (p_cpus p) (p_uid p) (p_next_tid p) (p_threads p) (S k))); [|done].
    apply lookup_insert_eq.
  - unfold mbind at 1, M_bind at 1. by apply (Hrest _ p).
Qed.

(** The destructor of a capability looks at the count before its own decrement: dropping the
    last one leaves the futex alive, with its queue. *)
Lemma dec_ref_never_destroys fuel p f s :
  p ≠ 0 → kfutexes s !! p = Some f → 1 <= kf_ref_count f →
  kf_dec_ref fuel p s = Ret ((), put_futex p (mkKF (kf_id f) (kf_wait_count f) (kf_alive f) (kf_block_lock f)
    ((kf_ref_count f - 1) mod U64)) s).
Proof.
  intros H0 Hf Hn. unfold kf_dec_ref, kf, get, mbind, M_bind, lift, the_futex.
  destruct (Z.eqb_spec p 0); [done|]. rewrite Hf. cbn. destruct (Z.eqb_spec (kf_ref_count f) 0); [lia|done].
Qed.
End failures.

(** ** Concrete runs *)

#[local] Existing Instance dev.
#[local] Instance cpu0 : Cpu := 0%nat.

Definition two_marks : Process :=
  mkProc true (mkMarker (true :: true :: replicate 14 false)) (PUser 5) 0 ∅ 2.

Lemma terminate_hangs_witness :
  terminate (P:=1%nat) 1000 3 (with_procs {[ 3 := two_marks ]} sched_new) = NoFuel.
Proof.
  refine (terminate_hangs (P:=1%nat) 1000 3 two_marks (replicate 14 false) _ _ _ _ _); [done|done|done|].
  intros Hin. done.
Defined.

(** The first thread joins the second, which exits on processor 1 in between. *)
Definition demo_idle1 : Thread :=
  mkThread 0 (0, 8) true 0 Ready 0 regs_zero (SKernelNoAlloc (mkRange 0 0)) None.
Definition demo_race : list event := demo_boot ++
  [EStart 1 16384 demo_idle1; ETimer 1 regs_zero 20000000; EMark 1 Destroy; EInt 1 regs_zero 30000000;
   ECollect; EEnsure (Join (0, 1)); EFree; EMark 0 (Join (0, 1))].

Lemma demo_race_reachable : reachable (demo_run demo_race).
Proof.
  apply demo_reach_all; [intros [|[|[|[|[|[|[|[|[|[|[|[|[|[|n]]]]]]]]]]]]]] e [= <-]; cbn [allowed]|].
  - done.
  - by eexists.
  - eexists. split; [by vm_compute|]. split_and!; try done. intros a t [= <- <-]. done.
  - eexists. split; [by vm_compute|]. split_and!; try done. intros a t [= <- <-]. done.
  - split_and!; by vm_compute.
  - done.
  - split_and!; by vm_compute.
  - done.
  - done.
  - done.
  - done.
  - done.
  - done.
  - done.
  - intros n Hn. do 15 (destruct n as [|n]; [by vm_compute|]). cbn [demo_race demo_boot length app] in Hn. lia.
Qed.

(** A thread that joins another while that one is being cleaned up brings the kernel down: the
    queue it asked for is taken away before it is on it, and the switch panics. *)
Theorem join_race :
  ∃ st a t, reachable st ∧ running (tlist st.1) !! 0%nat = Some [a] ∧ threads st.1 !! a = Some t ∧
    th_state t = Join (0, 1) ∧ exec_event (EInt 0 regs_zero 60000000) st = Panic.
Proof.
  exists (demo_run demo_race), 4096, (th_with_state (Join (0, 1)) (demo_thread_at 0 0 (from_rip 0x1000))).
  split; [apply demo_race_reachable|]. by vm_compute.
Qed.

(** The first thread sleeps. *)
Definition demo_sleep : list event :=
  demo_boot ++ [EEnsure (Sleep 40000000); EMark 0 (Sleep 40000000); EInt 0 regs_zero 30000000].

Lemma demo_sleep_reachable : reachable (demo_run demo_sleep).
Proof.
  unfold demo_sleep. change (demo_boot ++ _) with (((demo_boot ++ [EEnsure (Sleep 40000000)]) ++
    [EMark 0 (Sleep 40000000)]) ++ [EInt 0 regs_zero 30000000]).
  do 3 (apply demo_reach; [|exact I|vm_compute; reflexivity]). apply demo_boot_reachable.
Qed.

Lemma sleepers_spec_witness :
  sleep (tlist (demo_run demo_sleep).1) = [4096] ∧
  ∃ s', each (sleep (tlist (demo_run demo_sleep).1)) (wake_sleeper 50000000) (demo_run demo_sleep).1 = Ret ((), s') ∧
    ready (tlist s') = ready (tlist (demo_run demo_sleep).1) ++
      filter (λ a, due (demo_run demo_sleep).1 50000000 a = true) (sleep (tlist (demo_run demo_sleep).1)).
Proof.
  split; [by vm_compute|].
  destruct (sleepers_spec 50000000 (demo_run demo_sleep).1 (iv_queues _ _ (reachable_inv _ demo_sleep_reachable)))
    as (s' & H1 & _ & H2 & _). exact (ex_intro _ s' (conj H1 H2)).
Defined.

(** The first thread blocks on a futex. *)
Definition demo_block : list event :=
  demo_boot ++ [EFutexNew 64 1; EMark 0 (FutexBlock 64); EInt 0 regs_zero 30000000].

Lemma demo_block_reachable : reachable (demo_run demo_block).
Proof.
  unfold demo_block. change (demo_boot ++ _) with (((demo_boot ++ [EFutexNew 64 1]) ++
    [EMark 0 (FutexBlock 64)]) ++ [EInt 0 regs_zero 30000000]).
  apply demo_reach; [|exact I|vm_compute; reflexivity].
  apply demo_reach; [|split; [discriminate|eexists; vm_compute; reflexivity]|vm_compute; reflexivity].
  apply demo_reach; [|split; [discriminate|vm_compute; reflexivity]|vm_compute; reflexivity].
  apply demo_boot_reachable.
Qed.

Lemma unblock_spec_witness :
  ∃ s', kf_unblock 2 64 1 (demo_run demo_block).1 = Ret (1, s') ∧
    ready (tlist s') = ready (tlist (demo_run demo_block).1) ++ [4096].
Proof.
  destruct (unblock_spec 64 (mkKF 1 0 true false 0) 1 [4096] (demo_run demo_block).1
    (iv_queues _ _ (reachable_inv _ demo_block_reachable)) ltac:(done) ltac:(by vm_compute) ltac:(done) ltac:(by vm_compute))
    as (s' & H1 & _ & H2 & _). exact (ex_intro _ s' (conj H1 H2)).
Defined.

Definition demo_proc : Process :=
  mkProc true (mkMarker (true :: replicate 15 false)) PKernel 2 {[ 0 := 4096; 1 := 12288 ]} 2.

Lemma demo_boot_procs : procs (demo_run demo_boot).1 = {[ 0 := demo_proc ]}.
Proof. vm_compute. reflexivity. Qed.

Lemma demo_boot_idle : qget (KIdle prid) (tlist (demo_run demo_boot).1) = Some [8192].
Proof. vm_compute. reflexivity. Qed.

Lemma demo_boot_thread : threads (demo_run demo_boot).1 !! 8192 = Some (th_with_time 20000000 (th_with_state Idle demo_idle)).
Proof. vm_compute. reflexivity. Qed.

Lemma demo_boot_rotating : rotating (demo_run demo_boot).1 4096 [12288].
Proof.
  constructor.
  - apply (iv_queues _ _ (reachable_inv _ demo_boot_reachable)).
  - vm_compute. reflexivity.
  - vm_compute. reflexivity.
  - rewrite demo_boot_idle. by eexists.
  - intros pid p. rewrite demo_boot_procs. intros [<- <-]%lookup_singleton_Some. vm_compute. lia.
  - intros a t (q & Hq & Ha). rewrite demo_boot_idle in Hq. injection Hq as <-.
    apply list_elem_of_singleton in Ha as ->. rewrite demo_boot_thread, demo_boot_procs. intros [= <-]. by eexists.
  - vm_compute. reflexivity.
  - intros a Ha. rewrite !elem_of_cons in Ha.
    destruct Ha as [->|[->|Ha]]; [split; vm_compute; reflexivity..|by apply elem_of_nil in Ha].
Qed.

Lemma round_robin_witness :
  ∃ s', switches [(20000000, 30000000)] (demo_run demo_boot).1 = Ret ((), s') ∧
    qget (KRunning 0) (tlist s') = Some [12288].
Proof. exact (round_robin (demo_run demo_boot).1 4096 [12288] 0 12288 [(20000000, 30000000)]
  demo_boot_rotating eq_refl eq_refl). Defined.

Lemma schedule_spec_witness :
  ∃ s', schedule regs_zero 20000000 30000000 (demo_run demo_boot).1 = Ret ((true, from_rip 0x2000), s') ∧
    qget (KRunning 0) (tlist s') = Some [12288].
Proof.
  destruct (schedule_spec regs_zero 20000000 30000000 (demo_run demo_boot).1 [] [12288]
    (rt_ok _ _ _ demo_boot_rotating) (rotating_switch _ _ _ demo_boot_rotating)) as (out & s' & Hs & Hn).
  { split_and!; [vm_compute; reflexivity|by intros a ?%not_elem_of_nil|vm_compute; reflexivity]. }
  cbn [next_thread] in Hn. destruct Hn as (old & to & tt & _ & _ & Ht & -> & Hsw).
  exists s'. split; [|exact (sd_running _ _ _ _ _ _ _ _ _ _ Hsw)].
  assert (th_regs tt = from_rip 0x2000) as <-; [|exact Hs]. revert Ht. vm_compute. by intros [= <-].
Defined.
