(* ===== verification/Cap.v ===== *)
(** * Capabilities: [kernel/src/cap/mod.rs], [cap/sys.rs], [key.rs], [mem/shared_mem.rs], [FutexMap]

    A process names kernel objects by the ids of its capabilities.  An id is the rank
    of the capability in its map, the type of the object and the rights, in one word.
    The object itself is its address; what a capability does to the counts of an
    object is the class [CapObject]. *)

From Stdlib Require Import String.
From S2P Require Import Prelude Misc Sys Ranges Buddy PageTable VirtLayout VirtMapper CpuMarker Sched.

(** ** Ids *)
Definition CapFlags : list Z := [1; 2].
Definition CF_READ : Z := 1.
Definition CF_WRITE : Z := 2.

Inductive CapObjectType := Channel | FutexCap | SMem | Key | Mmio | Interrupt | Port.

#[export] Instance CapObjectType_eq_dec : EqDecision CapObjectType.
Proof. solve_decision. Defined.

Definition CapObjectType_from (n : Z) : option CapObjectType :=
  match n with
  | 0 => Some Channel | 1 => Some FutexCap | 2 => Some SMem | 3 => Some Key
  | 4 => Some Mmio | 5 => Some Interrupt | 6 => Some Port | _ => None
  end.

Definition type_as_usize (t : CapObjectType) : Z :=
  match t with
  | Channel => 0 | FutexCap => 1 | SMem => 2 | Key => 3 | Mmio => 4 | Interrupt => 5 | Port => 6
  end.

Definition id_flags (id : Z) : Z := from_bits_truncate CapFlags id.
Definition id_type (id : Z) : res CapObjectType := unwrap (CapObjectType_from (get_bits id (2, 5))).

(** ** Capabilities *)

(** What the counts of an object see. *)
Class CapObject (W : Type) := {
  cap_object_type : CapObjectType;
  inc_ref : Z → W → res W;
  dec_ref : Z → W → res W;
}.

Record Capability := mkCap { c_object : Z; c_flags : Z; c_id : Z }.

(** [CapMap], and [FutexMap], which has the same map under another lock. *)
Record CapMap := mkCapMap { cm_data : gmap Z Capability; cm_next : Z }.

Definition capmap_new : CapMap := mkCapMap ∅ 0.

Section caps.
Context {W : Type} {CO : CapObject W}.

Definition CM := M (CapMap * W).

Definition on_obj (f : W → res W) : CM () := λ s, w ← f s.2; Ret ((), (s.1, w)).

Definition cap_new (object flags : Z) : CM Capability :=
  on_obj (inc_ref object);; mret (mkCap object flags 0).

Definition cap_clone (c : Capability) : CM Capability :=
  on_obj (inc_ref (c_object c));; mret (mkCap (c_object c) (c_flags c) 0).

Definition and_from_flags (c : Capability) (flags : Z) : CM Capability :=
  c ← cap_clone c; mret (mkCap (c_object c) (Z.land (c_flags c) flags) (c_id c)).

(** [id < (1 << 59)]; the shifts lose no bits then. *)
Definition set_base_id (c : Capability) (id : Z) : res (Z * Capability) :=
  assert_ (id <? Z.shiftl 1 59);;
  let id := Z.lor (Z.lor (Z.shiftl id 5) (Z.shiftl (type_as_usize cap_object_type) 2)) (c_flags c) in
  Ret (id, mkCap (c_object c) (c_flags c) id).

(** [Drop]. *)
Definition cap_drop (c : Capability) : CM () := on_obj (dec_ref (c_object c)).

(** The capability that was there is dropped. *)
Definition cm_put (id : Z) (c : Capability) : CM () := λ s,
  let old := cm_data s.1 !! id in
  match old with
  | Some o => cap_drop o (mkCapMap (<[id := c]> (cm_data s.1)) (cm_next s.1), s.2)
  | None => Ret ((), (mkCapMap (<[id := c]> (cm_data s.1)) (cm_next s.1), s.2))
  end.

Definition cm_insert (c : Capability) : CM Z :=
  s ← get;
  let id := cm_next s.1 in
  put (mkCapMap (cm_data s.1) ((id + 1) mod U64), s.2);;
  '(id, c) ← lift (set_base_id c id);
  cm_put id c;; mret id.

Definition cm_remove (id : Z) : CM (option Capability) := λ s,
  Ret (cm_data s.1 !! id, (mkCapMap (delete id (cm_data s.1)) (cm_next s.1), s.2)).

Definition cm_call {U} (id : Z) (f : Z → Z → U) : CM (option U) := λ s,
  Ret ((λ c, f (c_object c) (c_flags c)) <$> cm_data s.1 !! id, s).

Definition cm_clone_from (id : Z) : CM (option Capability) :=
  s ← get;
  match cm_data s.1 !! id with
  | None => mret None
  | Some c => c ← cap_clone c; mret (Some c)
  end.

Definition cm_destroy (id : Z) : CM bool :=
  o ← cm_remove id;
  match o with Some c => cap_drop c;; mret true | None => mret false end.

Definition cm_clone_cap (id : Z) (flags : Z) : CM (option Z) :=
  s ← get;
  match cm_data s.1 !! id with
  | None => mret None
  | Some c => n ← and_from_flags c flags; id ← cm_insert n; mret (Some id)
  end.
End caps.

(** ** The objects *)

(** Channels, shared memory and keys keep no count of their own. *)
Definition plain_object {W} (t : CapObjectType) : CapObject W := {|
  cap_object_type := t;
  inc_ref _ w := Ret w;
  dec_ref _ w := Ret w;
|}.
Definition channel_object {W} : CapObject W := plain_object Channel.
Definition smem_object {W} : CapObject W := plain_object SMem.
Definition key_object {W} : CapObject W := plain_object Key.

Definition futex_object `{Cpu} (fuel : nat) : CapObject Sched := {|
  cap_object_type := FutexCap;
  inc_ref p s := '(_, s) ← kf_inc_ref p s; Ret s;
  dec_ref p s := '(_, s) ← kf_dec_ref fuel p s; Ret s;
|}.

(** [Key::new]: keys have no rights. *)
Definition key_new {W} (object : Z) : CM (W:=W) Capability := cap_new (CO:=key_object) object 0.

Definition on_world {W U} (m : M W U) : CM (W:=W) U := λ s, '(x, w) ← m s.2; Ret (x, (s.1, w)).

(** [FutexMap]: the operations of a [CapMap] over again, its data behind a spin lock. *)
Definition fm_new : CapMap := capmap_new.

Section futex_map.
Context {W : Type} {CO : CapObject W}.

Definition fm_insert (c : Capability) : CM (W:=W) Z :=
  s ← get;
  let id := cm_next s.1 in
  put (mkCapMap (cm_data s.1) ((id + 1) mod U64), s.2);;
  '(id, c) ← lift (set_base_id c id);
  cm_put id c;; mret id.

Definition fm_remove (id : Z) : CM (W:=W) (option Capability) := λ s,
  Ret (cm_data s.1 !! id, (mkCapMap (delete id (cm_data s.1)) (cm_next s.1), s.2)).

Definition fm_clone_from (id : Z) : CM (W:=W) (option Capability) :=
  s ← get;
  match cm_data s.1 !! id with
  | None => mret None
  | Some c => c ← cap_clone c; mret (Some c)
  end.

Definition fm_destroy (id : Z) : CM (W:=W) bool :=
  o ← fm_remove id;
  match o with Some c => cap_drop c;; mret true | None => mret false end.

Definition fm_clone_cap (id : Z) (flags : Z) : CM (W:=W) (option Z) :=
  s ← get;
  match cm_data s.1 !! id with
  | None => mret None
  | Some c => n ← and_from_flags c flags; id ← fm_insert n; mret (Some id)
  end.

(** The map of futexes is used through the operations of [CapMap]. *)
Lemma futex_map_capmap c id flags :
  fm_insert c = cm_insert c ∧ fm_remove id = cm_remove id ∧ fm_clone_from id = cm_clone_from id ∧
  fm_destroy id = cm_destroy id ∧ fm_clone_cap id flags = cm_clone_cap id flags.
Proof. done. Qed.
End futex_map.

(** [FutexMap::block], up to the block itself: the futex, if the capability allows it. *)
Definition fm_target {W} (cid : Z) : CM (W:=W) (SysErr + Z) := λ s,
  Ret (match cm_data s.1 !! cid with
       | None => inl InvlId
       | Some c => if flag_contains (c_flags c) CF_READ then inr (c_object c) else inl InvlPerm
       end, s).

Definition fm_unblock `{Cpu} (fuel : nat) (cid n : Z) : CM (W:=Sched) (SysErr + Z) :=
  t ← fm_target cid;
  match t with
  | inl e => mret (inl e)
  | inr p => x ← on_world (kf_unblock fuel p n); mret (inr x)
  end.

(** ** The capabilities of a process, and the system calls *)
Record ProcCaps := mkPCaps { pc_futex : CapMap; pc_smem : CapMap; pc_channels : CapMap; pc_keys : CapMap }.

Section syscalls.
Context {W : Type} (KF : CapObject W).

Definition PCM := M (ProcCaps * W).

(** [Process::get_capmap]: the map of a type and what its objects do; the rest is [todo!()]. *)
Definition with_capmap {U} (t : CapObjectType) (f : ∀ CO : CapObject W, CM (W:=W) U) : PCM U := λ s,
  let '(p, w) := s in
  match t with
  | Channel => '(x, (m, w)) ← f channel_object (pc_channels p, w); Ret (x, (mkPCaps (pc_futex p) (pc_smem p) m (pc_keys p), w))
  | FutexCap => '(x, (m, w)) ← f KF (pc_futex p, w); Ret (x, (mkPCaps m (pc_smem p) (pc_channels p) (pc_keys p), w))
  | SMem => '(x, (m, w)) ← f smem_object (pc_smem p, w); Ret (x, (mkPCaps (pc_futex p) m (pc_channels p) (pc_keys p), w))
  | Key => '(x, (m, w)) ← f key_object (pc_keys p, w); Ret (x, (mkPCaps (pc_futex p) (pc_smem p) (pc_channels p) m, w))
  | Mmio | Interrupt | Port => Panic
  end.

(** The results are what [sysret!] puts in the registers. *)
Definition sys_cap_destroy (a1 : Z) : PCM Z :=
  t ← lift (id_type a1);
  ok ← with_capmap t (λ CO, cm_destroy a1);
  mret (if ok : bool then num Ok else num InvlId).

Definition sys_cap_clone (a1 options : Z) : PCM (Z * Z) :=
  let flags := from_bits_truncate CapFlags options in
  t ← lift (id_type a1);
  o ← with_capmap t (λ CO, cm_clone_cap a1 flags);
  mret (match o with Some id => (num Ok, id) | None => (num InvlId, 0) end).
End syscalls.


Definition rights (f : Z) : Prop := 0 <= f < 4.

(** ** Ids as numbers *)

Lemma id_flags_mod id : id_flags id = id mod 4.
Proof. unfold id_flags, from_bits_truncate. change (flags_all CapFlags) with (Z.ones 2). by rewrite Z.land_ones. Qed.

Lemma type_range t : 0 <= type_as_usize t < 8.
Proof. destruct t; simpl; lia. Qed.

Lemma type_from t : CapObjectType_from (type_as_usize t) = Some t.
Proof. by destruct t. Qed.

Lemma id_number base t f :
  rights f → Z.lor (Z.lor (Z.shiftl base 5) (Z.shiftl (type_as_usize t) 2)) f = base * 32 + type_as_usize t * 4 + f.
Proof.
  intros Hf. pose proof (type_range t) as Ht. unfold rights in Hf.
  rewrite (lor_shiftl_add base) by (rewrite ?Z.shiftl_mul_pow2 by lia; lia).
  replace (base * 2 ^ 5 + Z.shiftl (type_as_usize t) 2) with (Z.shiftl (base * 8 + type_as_usize t) 2)
    by (rewrite !Z.shiftl_mul_pow2 by lia; lia).
  rewrite lor_shiftl_add by (simpl; lia). lia.
Qed.

Section maps.
Context {W : Type} {CO : CapObject W}.

(** The fields of an id. *)
Lemma id_fields base t f :
  rights f → 0 <= base < 2 ^ 59 →
  is_usize (base * 32 + type_as_usize t * 4 + f) ∧
  Z.shiftr (base * 32 + type_as_usize t * 4 + f) 5 = base ∧
  id_type (base * 32 + type_as_usize t * 4 + f) = Ret t ∧
  id_flags (base * 32 + type_as_usize t * 4 + f) = f.
Proof.
  unfold rights. intros Hf Hb. pose proof (type_range t) as Ht. pose proof (type_from t) as Hft.
  set (n := type_as_usize t) in *.
  assert (is_usize (base * 32 + n * 4 + f)) as Hid by (unfold is_usize; lia).
  split; [done|]. split; [|split].
  - rewrite Z.shiftr_div_pow2 by lia. change (2 ^ 5) with 32. symmetry. apply (Z.div_unique _ _ _ (n * 4 + f)); lia.
  - unfold id_type. rewrite get_bits_val by (done || lia). change (2 ^ 2) with 4. change (2 ^ (5 - 2)) with 8.
    replace ((base * 32 + n * 4 + f) / 4) with (n + base * 8) by (apply (Z.div_unique _ _ _ f); lia).
    rewrite Z.mod_add, Z.mod_small by lia. by rewrite Hft.
  - rewrite id_flags_mod. symmetry. apply (Z.mod_unique _ _ (base * 8 + n)); lia.
Qed.

Lemma set_base_id_eq c base :
  rights (c_flags c) →
  set_base_id c base =
    if base <? 2 ^ 59 then
      let id := base * 32 + type_as_usize cap_object_type * 4 + c_flags c in
      Ret (id, mkCap (c_object c) (c_flags c) id)
    else Panic.
Proof.
  intros Hf. unfold set_base_id. change (Z.shiftl 1 59) with (2 ^ 59).
  destruct (base <? 2 ^ 59); [|done]. cbn [assert_ mbind res_bind]. by rewrite id_number by done.
Qed.

(** The id of a capability is a word from which its rank in the map, the type of its object
    and its rights can be read back; there is one for every rank below 2^59, and none
    beyond: [set_base_id] panics rather than give an id twice. *)
Theorem cap_id_roundtrip c base :
  rights (c_flags c) → 0 <= base →
  if base <? 2 ^ 59 then
    ∃ id, set_base_id c base = Ret (id, mkCap (c_object c) (c_flags c) id) ∧ is_usize id ∧
      Z.shiftr id 5 = base ∧ id_type id = Ret cap_object_type ∧ id_flags id = c_flags c
  else set_base_id c base = Panic.
Proof.
  intros Hf Hb. rewrite set_base_id_eq by done. destruct (Z.ltb_spec base (2 ^ 59)) as [Hlt|]; [|done].
  eexists. split; [done|]. by apply id_fields.
Qed.

(** ** Well-formed maps *)

(** The key of a capability says its type, its rights and its rank, below the next one. *)
Record cm_wf (m : CapMap) : Prop := {
  wf_next : 0 <= cm_next m < U64;
  wf_cap id c : cm_data m !! id = Some c →
    c_id c = id ∧ id_flags id = c_flags c ∧ rights (c_flags c) ∧ id_type id = Ret cap_object_type ∧
    Z.shiftr id 5 < cm_next m;
}.

Lemma capmap_new_wf : cm_wf capmap_new.
Proof. constructor; [done|]. intros id c. simpl. by rewrite lookup_empty. Qed.

Lemma rights_land f g : rights f → rights (Z.land f g).
Proof.
  unfold rights. intros Hf. split; [apply Z.land_nonneg; lia|].
  replace f with (Z.land f 3) by (change 3 with (Z.ones 2); rewrite Z.land_ones by lia; apply Z.mod_small; simpl; lia).
  rewrite <- Z.land_assoc, (Z.land_comm 3), Z.land_assoc. change 3 with (Z.ones 2). rewrite Z.land_ones by lia.
  apply Z.mod_pos_bound. simpl. lia.
Qed.

(** Inserting gives a new id, and drops nothing. *)
Lemma cm_insert_ok c m w :
  cm_wf m → rights (c_flags c) →
  (cm_next m < 2 ^ 59 ∧ ∃ id, cm_data m !! id = None ∧ Z.shiftr id 5 = cm_next m ∧
     cm_insert c (m, w) = Ret (id, (mkCapMap (<[id := mkCap (c_object c) (c_flags c) id]> (cm_data m)) (cm_next m + 1), w)) ∧
     cm_wf (mkCapMap (<[id := mkCap (c_object c) (c_flags c) id]> (cm_data m)) (cm_next m + 1))) ∨
  (2 ^ 59 <= cm_next m ∧ cm_insert c (m, w) = Panic).
Proof.
  intros [Hn Hc] Hf. pose proof (set_base_id_eq c (cm_next m) Hf) as Hid.
  unfold cm_insert, get, put, mbind, M_bind, lift. cbn [fst snd].
  destruct (Z.ltb_spec (cm_next m) (2 ^ 59)); [|by right; rewrite Hid].
  left. split; [done|]. cbv zeta in Hid. rewrite Hid.
  destruct (id_fields (cm_next m) cap_object_type (c_flags c) Hf ltac:(lia)) as (Hu & Hs & Ht & Hfl).
  set (id := cm_next m * 32 + _ + _) in *. exists id.
  assert (cm_data m !! id = None) as Hno.
  { destruct (cm_data m !! id) as [c'|] eqn:E; [|done]. destruct (Hc _ _ E) as (_ & _ & _ & _ & ?). lia. }
  do 2 (split; [done|]). cbn. unfold cm_put. cbn. rewrite Hno, Z.mod_small by lia. split; [done|].
  constructor; cbn; [lia|]. intros id' c'. destruct (decide (id = id')) as [<-|Hne].
  - rewrite lookup_insert_eq. intros [= <-]. cbn. split_and!; try done; try apply Hf. lia.
  - rewrite lookup_insert_ne by done. intros E. destruct (Hc _ _ E) as (? & ? & ? & ? & ?). split_and!; try done; lia.
Qed.

(** What a process does to one of its maps: [CapMap::insert] of a capability it was given,
    and the calls of [CapSys]. *)
Inductive cap_op := CInsert (object flags : Z) | CRemove (id : Z) | CDestroy (id : Z) | CClone (id flags : Z).

Definition cap_exec (o : cap_op) : CM (W:=W) () :=
  match o with
  | CInsert object flags => c ← cap_new object flags; _ ← cm_insert c; mret ()
  | CRemove id => _ ← cm_remove id; mret ()
  | CDestroy id => _ ← cm_destroy id; mret ()
  | CClone id flags => _ ← cm_clone_cap id flags; mret ()
  end.

(** One call that returns. *)
Definition cap_step (s s' : CapMap * W) : Prop :=
  ∃ o, match o with CInsert _ f => rights f | _ => True end ∧ cap_exec o s = Ret ((), s').

(** A call that does not bring in a capability from elsewhere. *)
Definition cap_derive (s s' : CapMap * W) : Prop :=
  ∃ o, match o with CInsert _ _ => False | _ => True end ∧ cap_exec o s = Ret ((), s').

Lemma on_obj_inv f (s s' : CapMap * W) x : on_obj f s = Ret (x, s') → s'.1 = s.1.
Proof. unfold on_obj. intros H. dret H. by injection H as _ <-. Qed.

Lemma cap_new_inv o f (s : CapMap * W) c s' : cap_new o f s = Ret (c, s') → c = mkCap o f 0 ∧ s'.1 = s.1.
Proof.
  unfold cap_new, on_obj, mbind, M_bind. destruct (inc_ref o s.2); cbn; [|done..]. by intros [= <- <-].
Qed.

Lemma and_from_flags_inv c f (s : CapMap * W) c' s' :
  and_from_flags c f s = Ret (c', s') → c' = mkCap (c_object c) (Z.land (c_flags c) f) 0 ∧ s'.1 = s.1.
Proof.
  unfold and_from_flags, cap_clone, on_obj, mbind, M_bind. destruct (inc_ref (c_object c) s.2); cbn; [|done..].
  by intros [= <- <-].
Qed.

Lemma insert_inv c m w id s' :
  cm_wf m → rights (c_flags c) → cm_insert c (m, w) = Ret (id, s') →
  (cm_data m !! id = None ∧ Z.shiftr id 5 = cm_next m) ∧ cm_wf s'.1 ∧ s'.1 = mkCapMap (<[id := mkCap (c_object c) (c_flags c) id]> (cm_data m)) (cm_next m + 1).
Proof.
  intros Hm Hf H. destruct (cm_insert_ok c m w Hm Hf) as [(_ & id' & Hno & Hs & E & Hw)|[_ E]]; rewrite E in H; [|done].
  by injection H as <- <-.
Qed.

Lemma remove_wf id m : cm_wf m → cm_wf (mkCapMap (delete id (cm_data m)) (cm_next m)).
Proof.
  intros [Hn Hc]. constructor; [done|]. cbn. intros id' c [_ H]%lookup_delete_Some. by apply Hc.
Qed.

(** What a call can do to the map: give a new id to a capability with no more rights than
    one that is there, or than the one inserted; or take one out. *)
Lemma cap_exec_inv o m w s' :
  cm_wf m → match o with CInsert _ f => rights f | _ => True end → cap_exec o (m, w) = Ret ((), s') →
  cm_wf s'.1 ∧
  ∀ id' c', cm_data s'.1 !! id' = Some c' → cm_data m !! id' = Some c' ∨
    match o with
    | CInsert object f => c_object c' = object ∧ c_flags c' = f
    | CClone id f => ∃ c, cm_data m !! id = Some c ∧ c_object c' = c_object c ∧ c_flags c' = Z.land (c_flags c) f
    | _ => False
    end.
Proof.
  intros Hm Ho H. destruct o as [object f|id|id|id f]; cbn [cap_exec] in H.
  - dret H. dret H. injection H as <-. apply cap_new_inv in E as [-> E]. destruct s as [m1 w1]. cbn in E. subst m1.
    apply (insert_inv (mkCap object f 0)) in E0 as (Hno & Hw & E); [|done|done]. split; [done|].
    intros id' c'. rewrite E. cbn. destruct (decide (a0 = id')) as [<-|Hne].
    + rewrite lookup_insert_eq. intros [= <-]. by right.
    + rewrite lookup_insert_ne by done. by left.
  - dret H. injection H as <-. unfold cm_remove in E. injection E as <- <-. cbn. split; [by apply remove_wf|].
    intros id' c' [_ H]%lookup_delete_Some. by left.
  - dret H. injection H as <-. unfold cm_destroy in E. dret E. unfold cm_remove in E0. injection E0 as <- <-. cbn in E.
    assert (s.1 = mkCapMap (delete id (cm_data m)) (cm_next m)) as ->.
    { destruct (cm_data m !! id); [|by injection E as _ <-]. dret E. injection E as _ <-. by apply on_obj_inv in E0. }
    split; [by apply remove_wf|]. cbn. intros id' c' [_ H]%lookup_delete_Some. by left.
  - dret H. injection H as <-. unfold cm_clone_cap in E. dret E. injection E0 as <- <-. cbn in E.
    destruct (cm_data m !! id) as [c|] eqn:Ec; [|injection E as _ <-; split; [done|by left]].
    dret E. dret E. injection E as _ <-. apply and_from_flags_inv in E0 as [-> E0].
    destruct s0 as [m1 w1]. cbn in E0. subst m1.
    apply (insert_inv (mkCap _ _ 0)) in E1 as (Hno & Hw & E); [|done|apply rights_land, (wf_cap _ Hm _ _ Ec)].
    split; [done|]. intros id' c'. rewrite E. cbn. destruct (decide (a1 = id')) as [<-|Hne].
    + rewrite lookup_insert_eq. intros [= <-]. right. by exists c.
    + rewrite lookup_insert_ne by done. by left.
Qed.


(** C20: Capabilities only lose rights: whatever calls a process makes on the ones it has, each it
    ends up with is to an object one of the first ones was to, with no right that one did
    not have. *)
Theorem cap_attenuates s s' :
  cm_wf s.1 → rtc cap_derive s s' →
  ∀ id' c', cm_data s'.1 !! id' = Some c' →
    ∃ id c, cm_data s.1 !! id = Some c ∧ c_object c' = c_object c ∧
      Z.land (c_flags c') (c_flags c) = c_flags c'.
Proof.
  intros Hm H. induction H as [s|s1 s2 s3 (o & Ho & E) _ IH].
  - intros id c Hc. exists id, c. by rewrite Z.land_diag.
  - destruct s1 as [m w]. destruct (cap_exec_inv o m w s2 Hm) as [Hw Hd]; [by destruct o|done|].
    intros id' c' Hc'. destruct (IH Hw id' c' Hc') as (id & c & Hc & Ho' & Hf).
    destruct (Hd _ _ Hc) as [Hc0|Hc0]; [by exists id, c|]. destruct o as [| | |id0 f]; try done.
    destruct Hc0 as (c0 & Hc0 & Ho0 & Hf0). exists id0, c0. split; [done|]. split; [congruence|].
    rewrite <- Hf, Hf0, <- Z.land_assoc. f_equal. rewrite <- Z.land_assoc, (Z.land_comm f), Z.land_assoc.
    by rewrite Z.land_diag.
Qed.
End maps.

(** ** System calls on capabilities *)

Section syscalls_spec.
Context {W : Type} (KF : CapObject W).

(** The map of the objects of a type. *)
Definition capmap_of (p : ProcCaps) (n : Z) : option CapMap :=
  match n with
  | 0 => Some (pc_channels p) | 1 => Some (pc_futex p) | 2 => Some (pc_smem p) | 3 => Some (pc_keys p)
  | _ => None
  end.

Lemma destroy_ok `{CO : CapObject W} id m w :
  (∀ o w, returns (dec_ref o w) = true) →
  ∃ w', cm_destroy id (m, w) =
    Ret (match cm_data m !! id with Some _ => true | None => false end, (mkCapMap (delete id (cm_data m)) (cm_next m), w')).
Proof.
  intros Hd. unfold cm_destroy, cm_remove, cap_drop, on_obj, mbind, M_bind. cbn.
  destruct (cm_data m !! id) as [c|]; [|by exists w]. specialize (Hd (c_object c) w). cbn [snd].
  destruct (dec_ref (c_object c) w) as [w'| | |]; [|done..]. by exists w'.
Qed.

(** [cap_destroy] takes the capability out of the map its id names, and says whether it was
    there; but it trusts the three type bits of the word it is given: with one of the four
    values that have no map any process brings the kernel down, and the same holds for
    [cap_clone]. *)
Theorem sys_cap_spec a1 options p w :
  is_usize a1 → (∀ o w, returns (dec_ref (CapObject:=KF) o w) = true) →
  match capmap_of p (get_bits a1 (2, 5)) with
  | Some m => ∃ p' w', sys_cap_destroy KF a1 (p, w) =
        Ret (num (match cm_data m !! a1 with Some _ => Ok | None => InvlId end), (p', w')) ∧
        capmap_of p' (get_bits a1 (2, 5)) = Some (mkCapMap (delete a1 (cm_data m)) (cm_next m))
  | None => sys_cap_destroy KF a1 (p, w) = Panic ∧ sys_cap_clone KF a1 options (p, w) = Panic
  end.
Proof.
  intros Ha Hd. pose proof (get_bits_range a1 2 5 Ha ltac:(lia) ltac:(lia) ltac:(lia)) as Hr. change (2 ^ (5 - 2)) with 8 in Hr.
  unfold sys_cap_destroy, sys_cap_clone, id_type, lift, mbind, M_bind.
  assert (∀ n, 0 <= n < 8 → n = 0 ∨ n = 1 ∨ n = 2 ∨ n = 3 ∨ n = 4 ∨ n = 5 ∨ n = 6 ∨ n = 7) as Hn by lia.
  destruct (Hn _ Hr) as [E|[E|[E|[E|[E|[E|[E|E]]]]]]]; rewrite E; cbn [capmap_of CapObjectType_from unwrap]; try done;
    cbn [mbind res_bind with_capmap].
  - destruct (destroy_ok (CO:=channel_object) a1 (pc_channels p) w) as (w' & ->); [done|]. cbn.
    destruct (cm_data (pc_channels p) !! a1); by eexists _, _.
  - destruct (destroy_ok (CO:=KF) a1 (pc_futex p) w Hd) as (w' & ->). cbn.
    destruct (cm_data (pc_futex p) !! a1); by eexists _, _.
  - destruct (destroy_ok (CO:=smem_object) a1 (pc_smem p) w) as (w' & ->); [done|]. cbn.
    destruct (cm_data (pc_smem p) !! a1); by eexists _, _.
  - destruct (destroy_ok (CO:=key_object) a1 (pc_keys p) w) as (w' & ->); [done|]. cbn.
    destruct (cm_data (pc_keys p) !! a1); by eexists _, _.
Qed.
End syscalls_spec.

(** ** Concrete runs *)

Definition demo_caps : CapMap * () :=
  match (c ← cap_new (CO:=smem_object) 4096 3; cm_insert (CO:=smem_object) c) (capmap_new, ()) with
  | Ret (_, s) => s
  | _ => (capmap_new, ())
  end.

Example demo_caps_id : cap_exec (CO:=smem_object) (CInsert 4096 3) (capmap_new, ()) = Ret ((), demo_caps) ∧
  c_id <$> (cm_data demo_caps.1 !! 11) = Some 11.
Proof. split; vm_compute; reflexivity. Qed.

Lemma cap_id_roundtrip_witness :
  rights 2 ∧ ∃ id, set_base_id (CO:=smem_object (W:=())) (mkCap 4096 2 0) 7 = Ret (id, mkCap 4096 2 id) ∧ is_usize id ∧
    Z.shiftr id 5 = 7 ∧ id_type id = Ret SMem ∧ id_flags id = 2.
Proof.
  split; [unfold rights; lia|].
  exact (cap_id_roundtrip (CO:=smem_object (W:=())) (mkCap 4096 2 0) 7 ltac:(unfold rights; simpl; lia) ltac:(lia)).
Defined.

Lemma demo_cap_step : cap_step (CO:=smem_object) (capmap_new, ()) demo_caps.
Proof. exists (CInsert 4096 3). split; [unfold rights; lia|vm_compute; reflexivity]. Qed.


(** The shared memory at hand is cloned for reading only. *)
Definition demo_clone : CapMap * () :=
  match cap_exec (CO:=smem_object) (CClone 11 CF_READ) demo_caps with Ret (_, s) => s | _ => demo_caps end.

Lemma demo_derive : rtc (cap_derive (CO:=smem_object)) demo_caps demo_clone.
Proof. apply rtc_once. exists (CClone 11 CF_READ). split; [done|vm_compute; reflexivity]. Qed.

Lemma demo_caps_wf : cm_wf (CO:=smem_object (W:=())) demo_caps.1.
Proof.
  destruct (cap_exec_inv (CO:=smem_object) (CInsert 4096 3) capmap_new () demo_caps) as [H _];
    [apply capmap_new_wf|cbn; unfold rights; lia|vm_compute; reflexivity|exact H].
Qed.

Lemma cap_attenuates_witness :
  cm_data demo_clone.1 !! 41 = Some (mkCap 4096 1 41) ∧
  ∃ id c, cm_data demo_caps.1 !! id = Some c ∧ c_object c = 4096 ∧ Z.land 1 (c_flags c) = 1.
Proof.
  split; [vm_compute; reflexivity|].
  destruct (cap_attenuates (CO:=smem_object) demo_caps demo_clone demo_caps_wf demo_derive 41 (mkCap 4096 1 41)
    ltac:(vm_compute; reflexivity)) as (id & c & H1 & H2 & H3).
  exists id, c. split_and!; [exact H1|symmetry; exact H2|exact H3].
Defined.

Lemma sys_cap_spec_witness :
  sys_cap_destroy (key_object (W:=())) 16 (mkPCaps capmap_new capmap_new capmap_new capmap_new, ()) = Panic.
Proof.
  exact (proj1 (sys_cap_spec (key_object (W:=())) 16 0 (mkPCaps capmap_new capmap_new capmap_new capmap_new) ()
    ltac:(unfold is_usize; lia) (λ _ _, eq_refl))).
Defined.
