(* ===== verification/MemSys.v ===== *)
(** * The memory system calls: [kernel/src/mem/sys.rs], [mem/shared_mem.rs], the [Map] trait

    [realloc] gives, takes and resizes the memory of the calling process;
    [smem_new], [cap_map] and [cap_unmap] make, map and unmap shared memory.  Each runs on
    the address space of [VirtMapper.v]; the second group also on the capabilities of
    [Cap.v].  Words that go back to the caller are tuples. *)

From Stdlib Require Import String.
From S2P Require Import Prelude Misc Sys Ranges Buddy PageTable VirtLayout VirtMapper CpuMarker Sched Cap.

Section realloc.
Context {B : Build} {AD : Addresses} {W : Type} {PM : PhysMem W} {FA : FrameAllocator W}.
Context (MAX_MAP_ADDR : Z).

(** [VirtAddr::new_truncate] of the x86_64 crate. *)
Context (new_truncate : Z → Z).

(** ** [realloc] *)

(** The loop that takes pieces off a layout, [fuel] times at most. *)
Fixpoint shrink_pieces (fuel : nat) (diff : Z) (phys_zones : VirtLayout) : res VirtLayout :=
  match fuel with
  | O => NoFuel
  | S fuel =>
      c ← clean_slice phys_zones;
      match last c with
      | None => Ret phys_zones
      | Some a =>
          if elem_size a <? diff
          then diff ← usub diff (elem_size a); shrink_pieces fuel diff (vl_pop_delete phys_zones)
          else shrink_pieces fuel diff phys_zones
      end
  end.

Definition realloc_func (fuel : nat) (flags size : Z) : AllocFunc (W:=W) := λ phys_zones,
  psize ← lift (vl_size phys_zones);
  f ← lift (unwrap (vl_flags phys_zones));
  let new_flags := if flag_contains flags MF_EXACT_SIZE then Z.lor f MF_EXACT_SIZE else f in
  if psize <? size then
    n ← lift (usub size psize);
    elem ← elem_new n new_flags;
    match elem with
    | None => mret (inl (MemOutOfMem "out of memory"%string), phys_zones)
    | Some elem => mret (inr (), vl_push elem phys_zones)
    end
  else if size <? psize then
    diff ← lift (usub psize size);
    phys_zones ← lift (shrink_pieces fuel diff phys_zones);
    mret (inr (), phys_zones)
  else mret (inr (), phys_zones).

Definition reply (r : MemErr + range) : Z * Z * Z :=
  match r with
  | inr v => (num Ok, r_addr v, r_size v / PAGE_SIZE)
  | inl _ => (num OutOfMem, 0, 0)
  end.

Definition realloc_alloc (fuel : nat) (flags size at_addr : Z) : VM (W:=W) (Z * Z * Z) :=
  if size =? 0 then mret (num Ok, 0, 0)
  else
    elem ← on_w (elem_new size flags);
    match elem with
    | None => mret (num OutOfMem, 0, 0)
    | Some elem =>
        let layout := vl_from [elem] VirtMem in
        if at_addr =? 0 then r ← map MAX_MAP_ADDR fuel layout; mret (reply r)
        else
          n ← lift (vl_size layout);
          v ← lift (range_new (A:=VA) (new_truncate at_addr) n);
          r ← map_at MAX_MAP_ADDR fuel layout v;
          mret (reply r)
    end.

(** The layout is freed, and then dropped. *)
Definition realloc_free (fuel : nat) (addr : Z) : VM (W:=W) (Z * Z * Z) :=
  t ← get_map;
  v ← lift (get_mapped_range t (new_truncate addr));
  match v with
  | None => mret (num InvlPtr, 0, 0)
  | Some v =>
      r ← unmap fuel v VirtMem;
      match r with
      | inl _ => mret (num Unknown, 0, 0)
      | inr layout =>
          on_w (vl_dealloc layout);;
          on_w (vl_drop layout);;
          mret (num Ok, 0, 0)
      end
  end.

Definition realloc_resize (fuel : nat) (flags addr size at_addr at_vaddr : Z) : VM (W:=W) (Z * Z * Z) :=
  t ← get_map;
  v ← lift (get_mapped_range t (new_truncate addr));
  match v with
  | None => mret (num InvlPtr, 0, 0)
  | Some v =>
      r ← (if at_addr =? 0
           then remap MAX_MAP_ADDR fuel v VirtMem (realloc_func fuel flags size)
           else remap_at MAX_MAP_ADDR fuel v at_vaddr VirtMem (realloc_func fuel flags size));
      mret (reply r)
  end.

Definition sys_realloc (fuel : nat) (options a1 a2 a3 : Z) : VM (W:=W) (Z * Z * Z) :=
  size ← lift (umul a2 PAGE_SIZE);
  if (align_of a1 <? PAGE_SIZE) || (align_of a3 <? PAGE_SIZE) then mret (num InvlPtr, 0, 0)
  else
    match a_try_new (AddrOps:=VA) a3 with
    | None => mret (num InvlVirtAddr, 0, 0)
    | Some at_vaddr =>
        let flags := Z.lor (from_bits_truncate PageMappingFlags options) MF_USER in
        if a1 =? 0 then realloc_alloc fuel flags size a3
        else if size =? 0 then realloc_free fuel a1
        else realloc_resize fuel flags a1 size a3 at_vaddr
    end.
End realloc.

(** ** Shared memory *)

Record SharedMem := mkSMem { sm_mem : Allocation; sm_cap_data : gmap Z range }.

Section smem.
Context {B : Build} {AD : Addresses} {W : Type} {PM : PhysMem W} {FA : FrameAllocator W}.
Context (MAX_MAP_ADDR : Z).

(** The calling process: its capabilities to shared memory, its address space; and the
    shared memory there is, by the address of its [Arc]. *)
Record MemProc := mkMemProc {
  mp_smem : CapMap;
  mp_space : VirtMapper (W:=W);
  mp_objects : gmap Z SharedMem;
}.

Definition MP := M MemProc.

Definition on_space {T} (m : VM (W:=W) T) : MP T := λ s,
  '(x, v) ← m (mp_space s); Ret (x, mkMemProc (mp_smem s) v (mp_objects s)).

Definition smem_obj (p : Z) : MP SharedMem := λ s,
  match mp_objects s !! p with Some o => Ret (o, s) | None => UB end.

(** [cap_map_data] and [set_cap_map_data]. *)
Definition cap_map_data (p id : Z) : MP (option range) :=
  o ← smem_obj p; mret (sm_cap_data o !! id).

Definition set_cap_map_data (p id : Z) (d : option range) : MP () := λ s,
  Ret ((), mkMemProc (mp_smem s) (mp_space s)
    (alter (λ o, mkSMem (sm_mem o) (match d with
                                    | Some v => <[id := v]> (sm_cap_data o)
                                    | None => delete id (sm_cap_data o)
                                    end)) p (mp_objects s))).

Definition smem_virt_layout (o : SharedMem) (flags : Z) : res VirtLayout :=
  r ← prange_from (sm_mem o);
  elem ← elem_from_range r (from_cap_flags flags);
  Ret (vl_from [elem] Shared).

Definition from_mem_res {T} (r : MemErr + T) : SysErr + T :=
  match r with inl e => inl (SysErr_from_MemErr e) | inr x => inr x end.

(** Where [Map::map] puts the layout. *)
Definition map_layout (fuel : nat) (l : VirtLayout) (at_addr : option Z) : VM (W:=W) (SysErr + range) :=
  match at_addr with
  | Some a =>
      if negb (page_aligned a) then on_w (vl_drop l);; mret (inl InvlAlign)
      else
        match a_try_new (AddrOps:=VA) a with
        | None => on_w (vl_drop l);; mret (inl InvlVirtAddr)
        | Some a =>
            n ← lift (vl_size l);
            v ← lift (range_new (A:=VA) a n);
            r ← map_at MAX_MAP_ADDR fuel l v;
            mret (from_mem_res r)
        end
  | None => r ← map MAX_MAP_ADDR fuel l; mret (from_mem_res r)
  end.

Definition smem_map (fuel : nat) (p id : Z) (at_addr : option Z) : MP (SysErr + range) :=
  d ← cap_map_data p id;
  match d with
  | Some _ => mret (inl InvlOp)
  | None =>
      o ← smem_obj p;
      l ← lift (smem_virt_layout o (id_flags id));
      r ← on_space (map_layout fuel l at_addr);
      match r with
      | inl e => mret (inl e)
      | inr v => set_cap_map_data p id (Some v);; mret (inr v)
      end
  end.

(** The layout that [unmap] gives back is dropped. *)
Definition smem_unmap (fuel : nat) (p id : Z) : MP (SysErr + ()) :=
  d ← cap_map_data p id;
  match d with
  | None => mret (inl InvlOp)
  | Some v =>
      r ← on_space (unmap fuel v Shared);
      match r with
      | inl _ => lift Panic
      | inr l =>
          on_space (on_w (vl_drop l));;
          set_cap_map_data p id None;;
          mret (inr ())
      end
  end.

(** [CapMap::map] and [CapMap::unmap]. *)
Definition cm_map (fuel : nat) (id : Z) (at_addr : option Z) : MP (SysErr + range) :=
  s ← get;
  match cm_data (mp_smem s) !! id with
  | Some c => smem_map fuel (c_object c) id at_addr
  | None => mret (inl InvlId)
  end.

Definition cm_unmap (fuel : nat) (id : Z) : MP (SysErr + ()) :=
  s ← get;
  match cm_data (mp_smem s) !! id with
  | Some c => smem_unmap fuel (c_object c) id
  | None => mret (inl InvlId)
  end.

(** *** The system calls *)
Definition sys_cap_map (fuel : nat) (a1 a2 : Z) : MP (Z * Z * Z) :=
  let at_addr := if a2 =? 0 then None else Some a2 in
  t ← lift (id_type a1);
  out ← match t with
        | SMem => cm_map fuel a1 at_addr
        | Mmio => lift Panic
        | _ => mret (inl InvlId)
        end;
  mret match out with
       | inr v => (num Ok, r_addr v, r_size v / PAGE_SIZE)
       | inl e => (num e, 0, 0)
       end.

Definition sys_cap_unmap (fuel : nat) (a1 : Z) : MP Z :=
  t ← lift (id_type a1);
  out ← match t with
        | SMem => cm_unmap fuel a1
        | Mmio => lift Panic
        | _ => mret (inl InvlId)
        end;
  mret match out with inr _ => num Ok | inl e => num e end.

(** [SharedMem::new] puts the new object where the heap has room. *)
Context (new_arc : gmap Z SharedMem → Z).

Definition smem_new (size : Z) : MP (option Z) := λ s,
  '(m, v) ← on_w (zm_alloc size) (mp_space s);
  match m with
  | None => Ret (None, mkMemProc (mp_smem s) v (mp_objects s))
  | Some m =>
      let p := new_arc (mp_objects s) in
      Ret (Some p, mkMemProc (mp_smem s) v (<[p := mkSMem m ∅]> (mp_objects s)))
  end.

Definition insert_smem (p flags : Z) : MP Z := λ s,
  '(id, (m, _)) ← (c ← cap_new (CO:=smem_object) p flags; cm_insert (CO:=smem_object) c) (mp_smem s, ());
  Ret (id, mkMemProc m (mp_space s) (mp_objects s)).

Definition sys_smem_new (options a1 : Z) : MP (Z * Z) :=
  size ← lift (umul a1 PAGE_SIZE);
  let options := from_bits_truncate CapFlags options in
  o ← smem_new size;
  match o with
  | None => mret (num OutOfMem, 0)
  | Some p => cid ← insert_smem p options; mret (num Ok, cid)
  end.
End smem.

(** ** What [realloc] does *)

Section realloc_facts.
Context {B : Build} {AD : Addresses} {VL : AddrLaws (A:=VA)} {W : Type} {PM : PhysMem W} {FA : FrameAllocator W}.
Context (MAX_MAP_ADDR : Z) (new_truncate : Z → Z).

Lemma pop_clean l e d :
  data l = d ++ [e] → dirty_index l = length (data l) →
  data (vl_pop_delete l) = d ∧ dirty_index (vl_pop_delete l) = length d.
Proof.
  intros E Hd. unfold vl_pop_delete. rewrite E, last_snoc. rewrite E in Hd. rewrite length_app in *. cbn [length] in *.
  rewrite Nat.add_sub, take_app_length. by destruct (Nat.ltb_spec (length d) (dirty_index l)); [|lia].
Qed.

(** Taking off less than the whole of a mapped layout, the loop comes to a piece longer than
    what is left to take, and stays there. *)
Lemma shrink_pieces_spins fuel : ∀ l diff,
  dirty_index l = length (data l) → Forall (λ e, 0 <= elem_size e) (data l) →
  0 < diff < total_size (data l) → diff < U64 → shrink_pieces fuel diff l = NoFuel.
Proof.
  induction fuel as [|fuel IH]; intros l diff Hd Hs Hr Hu; [done|]. cbn [shrink_pieces].
  unfold clean_slice. rewrite Hd, Nat.leb_refl, firstn_all. cbn [mbind res_bind].
  destruct (last (data l)) as [a|] eqn:El.
  - apply last_Some in El as [d El]. destruct (Z.ltb_spec (elem_size a) diff); [|by apply IH].
    destruct (pop_clean l a d El Hd) as [E1 E2]. rewrite El in Hs, Hr. apply Forall_app in Hs as [Hs [Ha _]%Forall_cons].
    assert (total_size (d ++ [a]) = total_size d + elem_size a) as Et.
    { clear. unfold elem_size. induction d as [|b d IH]; cbn [total_size app]; lia. }
    unfold usub. rewrite (checked_ok (diff - elem_size a)) by lia. cbn [mbind res_bind].
    apply IH; rewrite ?E1; done || lia.
  - apply last_None in El. rewrite El in Hr. cbn in Hr. lia.
Qed.

(** A sum that wraps is smaller than the pieces. *)
Lemma sum_sizes_le es : ∀ m n,
  Forall (λ e, 0 <= elem_size e) es → sum_sizes m es = Ret n → is_usize m → is_usize n ∧ n <= m + total_size es.
Proof.
  unfold elem_size. induction es as [|e es IH]; cbn [sum_sizes total_size]; intros m n Hs H Hm.
  - injection H as <-. split; [done|lia].
  - apply Forall_cons in Hs as [He Hs]. dret H. pose proof (checked_range _ _ E) as Ha.
    destruct (IH _ _ Hs H Ha) as [? Hn]. split; [done|].
    unfold uadd, elem_size, checked in E. destruct Hm as [Hm _].
    assert (a <= m + map_size e); [|lia].
    destruct (_ && _); [by injection E as <-|]. destruct overflow_checks; [done|]. injection E as <-.
    apply Z.mod_le; lia.
Qed.

Lemma realloc_func_spins fuel flags size l n (w : W) :
  vl_size l = Ret n → dirty_index l = length (data l) → data l ≠ [] →
  Forall (λ e, 0 <= elem_size e) (data l) → 0 < size < n →
  realloc_func fuel flags size l w = NoFuel.
Proof.
  intros Hn Hd He Hs Hz. unfold realloc_func, mbind, M_bind, lift. rewrite Hn. cbn [mbind res_bind].
  unfold vl_flags. destruct (data l) as [|e es] eqn:E; [done|]. cbn [unwrap mbind res_bind].
  rewrite (proj2 (Z.ltb_ge _ _)), (proj2 (Z.ltb_lt _ _)) by lia.
  rewrite <- E in *. assert (is_usize n ∧ n <= total_size (data l)) as [Hu Ht].
  { destruct (sum_sizes_le (data l) 0 n Hs); [done|split; [lia|done]|done]. }
  unfold is_usize in Hu. unfold usub. rewrite checked_ok by lia. cbn [mbind res_bind].
  rewrite shrink_pieces_spins; [done..|lia|lia].
Qed.

(** Asking [realloc] to make a mapping smaller, but not to free it, hangs the kernel: once
    the loop that takes pieces off comes to one that is longer than what is left to take it
    changes nothing any more, and the call finishes for no number of iterations. *)
Theorem realloc_shrink_hangs fuel options a1 a2 a3 b v l (s : VirtMapper (W:=W)) :
  space_ok (virt_map s) → bt_get v (virt_map s) = Some l → alloc_type l = VirtMem →
  Forall (λ e, 0 <= elem_size e) (data l) →
  page_aligned a1 = true → a1 ≠ 0 → page_aligned a3 = true → a_try_new (AddrOps:=VA) a3 = Some b → 0 <= b <= LOW →
  get_mapped_range (virt_map s) (new_truncate a1) = Ret (Some v) →
  0 < a2 → a2 * PAGE_SIZE < r_size v →
  sys_realloc MAX_MAP_ADDR new_truncate fuel options a1 a2 a3 s = NoFuel.
Proof.
  intros Ht Hg Hat Hs Ha1 Hn1 Ha3 Hb Hbl Hr H0 Hlt.
  pose proof (map_ok_elem _ _ _ _ _ _ Ht (bt_get_elem _ _ _ Hg)) as (V1 & V2 & V3 & V4 & V5 & Hsz & Hdi & _).
  assert (page_range v) as Hv by (unfold page_range, r_end, LOW, PAGE_SIZE in *; split_and!; done || lia).
  assert (data l ≠ []) as Hne.
  { intros E. unfold vl_size in Hsz. rewrite E in Hsz. injection Hsz as Hsz. lia. }
  set (f := Z.lor (from_bits_truncate PageMappingFlags options) MF_USER).
  assert (remap_edit v VirtMem (realloc_func fuel f (a2 * PAGE_SIZE)) s = NoFuel) as He.
  { unfold remap_edit, mbind, M_bind, get_map. rewrite Hg, Hat, bool_decide_true by done. cbn [negb].
    unfold on_w. rewrite (realloc_func_spins fuel f (a2 * PAGE_SIZE) l (r_size v)) by (done || (unfold PAGE_SIZE in *; lia)).
    done. }
  unfold sys_realloc, page_aligned in *. unfold lift at 1, mbind at 1, M_bind at 1.
  rewrite umul_ok by (unfold r_end, LOW, PAGE_SIZE in *; lia). cbn [mbind res_bind].
  rewrite (proj2 (Z.ltb_ge _ _)), (proj2 (Z.ltb_ge _ _)) by (by apply Z.leb_le). cbn [orb]. rewrite Hb.
  rewrite (proj2 (Z.eqb_neq _ _) Hn1), (proj2 (Z.eqb_neq (a2 * PAGE_SIZE) 0)) by (unfold PAGE_SIZE; lia).
  unfold realloc_resize, mbind, M_bind, get_map, lift. rewrite Hr. cbn [mbind res_bind]. fold f.
  destruct (a3 =? 0).
  - unfold remap, mbind, M_bind, lift. rewrite (aligned_page v Hv V5). cbn [mbind res_bind]. by rewrite He.
  - unfold remap_at, mbind, M_bind, lift. rewrite (aligned_page v Hv V5). cbn [mbind res_bind].
    rewrite a_down_ok by first [apply canon_low; unfold LOW, PAGE_SIZE in *; lia | by exists 12 | done].
    cbn [mbind res_bind]. by rewrite He.
Qed.

(** ** Freeing *)

(** A memory manager that keeps a record of what it is given back. *)
Context (log : W → list Allocation).
Hypothesis zm_dealloc_log : ∀ m w w', zm_dealloc m w = Ret w' → log w' = m :: log w.

(** The allocations behind pieces. *)
Definition allocs (es : list VirtLayoutElement) : list Allocation :=
  omap (λ e, match phys_data e with AllocedMem m => Some m | _ => None end) es.

Lemma elems_dealloc_log es : ∀ w w', elems_dealloc es w = Ret ((), w') → log w' = rev (allocs es) ++ log w.
Proof.
  induction es as [|e es IH]; cbn [elems_dealloc]; intros w w' H; [by injection H as <-|].
  dret H. destruct a. apply IH in H. unfold elem_dealloc in E. unfold allocs in *. cbn [omap list_omap].
  destruct (phys_data e); [by injection E as <-| |by injection E as <-].
  cbv beta in E. dret E. injection E as <-. apply zm_dealloc_log in E0. cbn [rev]. by rewrite H, E0, <- app_assoc.
Qed.

Lemma vl_dealloc_log l w x w' :
  dealloc_que l = [] → vl_dealloc l w = Ret (x, w') → log w' = rev (allocs (data l)) ++ log w.
Proof.
  intros Hq H. unfold vl_dealloc in H. dret H. rewrite Hq in H. injection H as _ <-. destruct a.
  by apply elems_dealloc_log.
Qed.

(** Freeing memory with [realloc] frees it twice: the layout taken out of the address space
    is given back by the call, and once more when it is dropped. *)
Theorem realloc_frees_twice fuel options a1 a3 b v l (s s' : VirtMapper (W:=W)) x :
  space_ok (virt_map s) → bt_get v (virt_map s) = Some l → alloc_type l = VirtMem →
  page_aligned a1 = true → a1 ≠ 0 → page_aligned a3 = true → a_try_new (AddrOps:=VA) a3 = Some b →
  get_mapped_range (virt_map s) (new_truncate a1) = Ret (Some v) →
  sys_realloc MAX_MAP_ADDR new_truncate fuel options a1 0 a3 s = Ret (x, s') →
  x = (num Ok, 0, 0) ∧ virt_map s' = bt_remove v (virt_map s) ∧
  ∃ rest, log (frames (pt s')) = rev (allocs (data l)) ++ rev (allocs (data l)) ++ rest.
Proof.
  intros Ht Hg Hat Ha1 Hn1 Ha3 Hb Hr H.
  pose proof (map_ok_elem _ _ _ _ _ _ Ht (bt_get_elem _ _ _ Hg)) as (_ & _ & _ & _ & _ & _ & Hdi & Hq).
  unfold sys_realloc, page_aligned in *. step H. simplify_eq.
  rewrite (proj2 (Z.ltb_ge _ _)), (proj2 (Z.ltb_ge _ _)) in H by (by apply Z.leb_le). cbn [orb] in H. rewrite Hb in H.
  rewrite (proj2 (Z.eqb_neq _ _) Hn1), umul_ok in * by done. simplify_eq. change (0 * PAGE_SIZE =? 0) with true in H. cbv iota in H.
  unfold realloc_free in H. do 2 (step H).
  match goal with E : get_mapped_range _ _ = Ret ?o |- _ => rewrite Hr in E; injection E as <- end.
  dret H. rename E into Eu.
  unfold unmap in Eu. step Eu. rewrite Hg, Hat, bool_decide_true in Eu by done. cbn [negb] in Eu.
  do 3 (step Eu). apply VM_ret_inv in Eu as [-> ->]. do 2 (step H). apply VM_ret_inv in H as [-> ->].
  split; [done|]. split; [congruence|].
  repeat match goal with
  | E : mark_unmapped l _ = Ret (?l', _) |- _ =>
      unfold mark_unmapped in E; dret E; injection E as <- _
  | E : vl_drop _ _ = _ |- _ => apply vl_dealloc_log in E; [|done]
  | E : vl_dealloc _ _ = _ |- _ => apply vl_dealloc_log in E; [|done]
  end.
  cbn [data] in *. eexists. etrans; [eassumption|]. f_equal. eassumption.
Qed.
End realloc_facts.

(** ** What mapping shared memory does *)

Section btree_facts.
Context {V : Type}.
Implicit Types (t : list (range * V)).

Lemma bt_get_insert k v t : bt_get k (bt_insert k v t) = Some v.
Proof.
  unfold bt_get. induction t as [|[k' v'] t IH]; cbn [bt_insert]; [cbn; by rewrite bool_decide_true|].
  destruct (bool_decide_reflect (k = k')); [cbn; by rewrite bool_decide_true|].
  destruct (range_ltb k k'); cbn [List.find fst]; [by rewrite bool_decide_true|].
  by rewrite bool_decide_false.
Qed.

Lemma bt_remove_absent k t : bt_get k t = None → bt_remove k t = t.
Proof.
  unfold bt_get, bt_remove. induction t as [|[k' v'] t IH]; [done|]. cbn [List.find fst]. rewrite filter_cons. cbn [fst].
  destruct (bool_decide_reflect (k' = k)) as [->|Hne]; [done|]. intros H. rewrite decide_True by done. by rewrite IH.
Qed.

Lemma bt_remove_insert k v t : bt_get k t = None → bt_remove k (bt_insert k v t) = t.
Proof.
  intros H. induction t as [|[k' v'] t IH]; cbn [bt_insert].
  - unfold bt_remove. rewrite filter_cons. by rewrite decide_False by (by intros []).
  - assert (k' ≠ k ∧ bt_get k t = None) as [Hne Ht].
    { unfold bt_get in *. cbn [List.find fst] in H. by destruct (bool_decide_reflect (k' = k)). }
    rewrite bool_decide_false by done. destruct (range_ltb k k').
    + unfold bt_remove. rewrite filter_cons. rewrite decide_False by (by intros []). by apply (bt_remove_absent k ((k', v') :: t)).
    + unfold bt_remove in *. rewrite filter_cons, decide_True by done. by rewrite IH.
Qed.
End btree_facts.

Section smem_facts.
Context {B : Build} {AD : Addresses} {VL : AddrLaws (A:=VA)} {W : Type} {PM : PhysMem W} {FA : FrameAllocator W}.
Context (MAX_MAP_ADDR : Z).
Hypothesis Hmax : LOW <= MAX_MAP_ADDR < U64.

Lemma install_type fuel l v (s : VirtMapper (W:=W)) r s' :
  install fuel l v s = Ret (r, s') →
  r = inr v ∧ ∃ l', virt_map s' = bt_insert v l' (virt_map s) ∧ alloc_type l' = alloc_type l.
Proof.
  unfold install. intros H. do 4 (step H). apply VM_ret_inv in H as [-> ->]. split; [done|].
  match goal with E : sync_mem _ _ = Ret (?l', _) |- _ => exists l'; unfold sync_mem in E; do 3 (dret E); injection E as <- _ end.
  split; [congruence|done].
Qed.

(** A caller that asks for room there is. *)
Definition asked_room (t : list (range * VirtLayout)) (at_addr : option Z) (n : Z) : Prop :=
  match at_addr with
  | None => room_for t n
  | Some a => ∀ b, a_try_new (AddrOps:=VA) a = Some b → page_range (mkRange b n) ∧ b + n <= LOW
  end.

Lemma clear_absent t v : 0 < r_size v → clear_of t (r_addr v) (r_size v) → bt_get v t = None.
Proof.
  intros Hn Hc. destruct (bt_get v t) as [x|] eqn:E; [|done]. apply bt_get_elem in E.
  specialize (Hc _ _ E). unfold r_apart, r_end in Hc. cbn in Hc. lia.
Qed.

(** The layout goes to a range that was free, or nothing is mapped. *)
Lemma map_layout_inv fuel l n at_addr (s : VirtMapper (W:=W)) r s' :
  space_ok (virt_map s) → vl_size l = Ret n → asked_room (virt_map s) at_addr n →
  map_layout MAX_MAP_ADDR fuel l at_addr s = Ret (r, s') →
  match r with
  | inl _ => virt_map s' = virt_map s
  | inr v => bt_get v (virt_map s) = None ∧ r_size v = n ∧
      ∃ l', virt_map s' = bt_insert v l' (virt_map s) ∧ alloc_type l' = alloc_type l
  end.
Proof.
  intros Ht Hn Hr H. destruct at_addr as [a|]; cbn [map_layout asked_room] in *.
  - destruct (negb _); [step H; by apply VM_ret_inv in H as [-> ->]|].
    destruct (a_try_new a) as [b|]; [|step H; by apply VM_ret_inv in H as [-> ->]].
    destruct (Hr b eq_refl) as [Hv Hl]. pose proof Hv as (V1 & V2 & V3 & V4 & V5). cbn in V1, V2, V3, V4, V5.
    step H. rewrite Hn in *. simplify_eq. step H.
    rewrite range_new_page in * by first [done | unfold LOW, PAGE_SIZE in *; lia]. simplify_eq.
    dret H. rename E into Em. apply VM_ret_inv in H as [-> ->].
    unfold map_at in Em. rewrite (aligned_page _ Hv Hl), Hn in Em. do 2 (step Em). simplify_eq. cbn [r_size] in Em.
    rewrite Z.eqb_refl, (proj2 (Z.eqb_neq _ _)) in Em by lia. cbn [negb] in Em. do 2 (step Em).
    match goal with E : free_space_around _ _ _ _ = Ret ?o |- _ => rename E into Ef; destruct o as [d|] end.
    + destruct (free_space_clear MAX_MAP_ADDR synced _ (mkRange b _) None d Ht V4 V3 Hl Ef) as [_ Hc].
      destruct (install_type _ _ _ _ _ _ Em) as (-> & l' & ? & ?). cbn.
      split; [|split; [done|by exists l']]. apply clear_absent; [done|]. intros r' x Hin. by eapply Hc.
    + apply drop_err_inv in Em as [-> ->]. done.
  - dret H. rename E into Em. apply VM_ret_inv in H as [-> ->]. unfold map in Em. rewrite Hn in Em. step Em. simplify_eq.
    pose proof Hr as (Hpos & _). rewrite (proj2 (Z.eqb_neq _ _)) in Em by lia. do 2 (step Em).
    match goal with E : find_range _ _ _ = Ret _ |- _ => rename E into Ef end.
    destruct (find_range_low _ Hmax _ _ _ _ Ht Hr Ef) as (v & -> & H1 & H2 & H3 & H4 & H5).
    destruct (install_type _ _ _ _ _ _ Em) as (-> & l' & ? & ?). cbn.
    split; [|split; [done|by exists l']]. apply clear_absent; rewrite H1; [lia|done].
Qed.

Lemma on_space_inv {T} (m : VM (W:=W) T) (s : MemProc (W:=W)) x s' :
  on_space m s = Ret (x, s') →
  m (mp_space s) = Ret (x, mp_space s') ∧ mp_smem s' = mp_smem s ∧ mp_objects s' = mp_objects s.
Proof. unfold on_space. intros H. dret H. destruct a. by injection H as <- <-. Qed.

(** A map that succeeds: the object and the address space after it. *)
Lemma smem_map_inv fuel p id at_addr o l n (s s1 : MemProc (W:=W)) v :
  space_ok (virt_map (mp_space s)) → mp_objects s !! p = Some o →
  smem_virt_layout o (id_flags id) = Ret l → vl_size l = Ret n →
  asked_room (virt_map (mp_space s)) at_addr n →
  smem_map MAX_MAP_ADDR fuel p id at_addr s = Ret (inr v, s1) →
  sm_cap_data o !! id = None ∧ bt_get v (virt_map (mp_space s)) = None ∧
  mp_smem s1 = mp_smem s ∧ mp_objects s1 = <[p := mkSMem (sm_mem o) (<[id := v]> (sm_cap_data o))]> (mp_objects s) ∧
  ∃ l', virt_map (mp_space s1) = bt_insert v l' (virt_map (mp_space s)) ∧ alloc_type l' = Shared.
Proof.
  intros Ht Ho Hl Hn Hr H. unfold smem_map in H. dret H. unfold cap_map_data, smem_obj in E.
  unfold mbind at 1, M_bind at 1 in E. rewrite Ho in E. injection E as <- <-.
  destruct (sm_cap_data o !! id) as [d|] eqn:Ed; [done|]. split; [done|].
  dret H. unfold smem_obj in E. rewrite Ho in E. injection E as <- <-.
  dret H. unfold lift in E. rewrite Hl in E. injection E as <- <-.
  dret H. apply on_space_inv in E as (Em & E1 & E2). destruct a as [e|v']; [done|].
  dret H. injection H as <- <-. unfold set_cap_map_data in E. injection E as _ <-. cbn.
  destruct (map_layout_inv _ _ _ _ _ _ _ Ht Hn Hr Em) as (Hg & _ & l' & Hv & Ha).
  split; [done|]. split; [done|]. split.
  - rewrite E2. by rewrite (alter_alt_Some _ _ _ o).
  - exists l'. split; [done|]. rewrite Ha. unfold smem_virt_layout in Hl. dret Hl. dret Hl. by injection Hl as <-.
Qed.


(** Where shared memory is mapped is recorded by the id of the capability, and every process
    counts its ids from zero: when one process has mapped an object, a process with the
    same id for it cannot map it, and brings the kernel down if it unmaps it. *)
Theorem smem_ids_clash fuel fuel' p id at_addr o l n (s s1 s' : MemProc (W:=W)) v c :
  space_ok (virt_map (mp_space s)) → mp_objects s !! p = Some o →
  smem_virt_layout o (id_flags id) = Ret l → vl_size l = Ret n →
  asked_room (virt_map (mp_space s)) at_addr n →
  smem_map MAX_MAP_ADDR fuel p id at_addr s = Ret (inr v, s1) →
  mp_objects s' = mp_objects s1 → id_type id = Ret SMem →
  cm_data (mp_smem s') !! id = Some c → c_object c = p → bt_get v (virt_map (mp_space s')) = None →
  (∀ a2, sys_cap_map MAX_MAP_ADDR fuel' id a2 s' = Ret ((num InvlOp, 0, 0), s')) ∧
  sys_cap_unmap fuel' id s' = Panic.
Proof.
  intros Ht Ho Hl Hn Hr H Es Hid Hc Hp Hv.
  destruct (smem_map_inv _ _ _ _ _ _ _ _ _ _ Ht Ho Hl Hn Hr H) as (Hd & Hg & Em & Eo & _).
  assert (cap_map_data p id s' = Ret (Some v, s')) as Hcd.
  { unfold cap_map_data, smem_obj, mbind, M_bind. rewrite Es, Eo, lookup_insert_eq. cbn. by rewrite lookup_insert_eq. }
  split.
  - intros a2. unfold sys_cap_map, lift, mbind, M_bind. rewrite Hid. cbn [mbind res_bind].
    unfold cm_map, get, mbind, M_bind. rewrite Hc, Hp. unfold smem_map, mbind, M_bind. by rewrite Hcd.
  - unfold sys_cap_unmap, lift, mbind, M_bind. rewrite Hid. cbn [mbind res_bind].
    unfold cm_unmap, get, mbind, M_bind. rewrite Hc, Hp. unfold smem_unmap, mbind, M_bind. rewrite Hcd.
    unfold on_space, unmap, get_map, mbind, M_bind. by rewrite Hv.
Qed.
End smem_facts.

(** ** Concrete runs *)

#[local] Existing Instance dev.

(** Memory and frames handed out in order; what comes back is recorded. *)
Record LogWorld := mkLog { lw_mem : Z; lw_frame : Z; lw_log : list Allocation }.

#[export] Instance LogMem : PhysMem LogWorld := {
  zm_alloc n w := Ret (Some (mkAlloc (lw_mem w) n 0), mkLog (lw_mem w + n) (lw_frame w) (lw_log w));
  zm_dealloc m w := Ret (mkLog (lw_mem w) (lw_frame w) (m :: lw_log w));
}.

#[export] Instance LogFrames : FrameAllocator LogWorld := {
  alloc_frame w := Ret (lw_frame w, mkLog (lw_mem w) (lw_frame w + PAGE_SIZE) (lw_log w));
  dealloc_frame _ w := Ret w;
}.

Lemma log_dealloc m (w w' : LogWorld) : zm_dealloc m w = Ret w' → lw_log w' = m :: lw_log w.
Proof. by intros [= <-]. Qed.

Definition demo_space : VirtMapper (W:=LogWorld) :=
  match mapper_new 0x9001 (mkPT ∅ (mkLog 0x400000 0x1000 [])) with
  | Ret (s, _) => s
  | _ => mkMapper [] 0 (mkPT ∅ (mkLog 0 0 []))
  end.

(** Two pages asked for. *)
Definition demo_two : VirtMapper (W:=LogWorld) :=
  match sys_realloc (B:=dev) demo_max id 10 3 0 2 0 demo_space with Ret (_, s) => s | _ => demo_space end.

Example demo_two_reply :
  fst <$> sys_realloc (B:=dev) demo_max id 10 3 0 2 0 demo_space = Ret (num Ok, 0x1000, 2).
Proof. vm_compute. reflexivity. Qed.

Definition demo_two_layout : VirtLayout :=
  match virt_map demo_two with (_, l) :: _ => l | [] => vl_new VirtMem end.

Lemma demo_two_ok : space_ok (virt_map demo_two).
Proof. vm_compute virt_map. split_and!; try done; try (by exists 1); try (by exists 2). Qed.

Lemma realloc_shrink_hangs_witness :
  0 < 1 ∧ ∀ fuel, sys_realloc (B:=dev) demo_max id fuel 3 0x1000 1 0 demo_two = NoFuel.
Proof.
  split; [lia|]. intros fuel.
  apply (realloc_shrink_hangs (B:=dev) demo_max id fuel 3 0x1000 1 0 0 demo_key demo_two_layout demo_two demo_two_ok);
    try (vm_compute; reflexivity); try lia.
  - vm_compute data. repeat constructor. vm_compute. discriminate.
  - vm_compute. split; discriminate.
Defined.

Lemma realloc_frees_twice_witness :
  ∃ s, sys_realloc (B:=dev) demo_max id 10 0 0x1000 0 0 demo_two = Ret ((num Ok, 0, 0), s) ∧
    ∃ rest, lw_log (frames (pt s)) = mkAlloc 0x400000 0x2000 0 :: mkAlloc 0x400000 0x2000 0 :: rest.
Proof.
  destruct (sys_realloc (B:=dev) demo_max id 10 0 0x1000 0 0 demo_two) as [[x s]| | |] eqn:E;
    [|vm_compute in E; discriminate E..].
  destruct (realloc_frees_twice (B:=dev) demo_max id lw_log log_dealloc
    10 0 0x1000 0 0 demo_key demo_two_layout demo_two s x demo_two_ok) as (-> & _ & rest & Hr);
    try (vm_compute; reflexivity); try lia; [exact E|].
  exists s. split; [done|]. exists rest. exact Hr.
Defined.

(** Two pages of shared memory, with an id, mapped anywhere. *)
Definition demo_smem : MemProc (W:=LogWorld) :=
  match sys_smem_new (B:=dev) (λ _, 0x7000) 3 2 (mkMemProc capmap_new demo_space ∅) with
  | Ret (_, s) => s
  | _ => mkMemProc capmap_new demo_space ∅
  end.
Definition demo_smem_o : SharedMem := mkSMem (mkAlloc 0x400000 0x2000 0) ∅.
Definition demo_smem_l : VirtLayout :=
  match smem_virt_layout (B:=dev) demo_smem_o 3 with Ret l => l | _ => vl_new Shared end.
Definition demo_smem_mapped : MemProc (W:=LogWorld) :=
  match smem_map (B:=dev) demo_max 10 0x7000 11 None demo_smem with Ret (_, s) => s | _ => demo_smem end.

Example demo_smem_id :
  fst <$> sys_smem_new (B:=dev) (λ _, 0x7000) 3 2 (mkMemProc capmap_new demo_space ∅) = Ret (num Ok, 11).
Proof. vm_compute. reflexivity. Qed.

Lemma demo_smem_room : asked_room (virt_map (mp_space demo_smem)) None 0x2000.
Proof.
  split; [lia|]. split; [by exists 2|]. exists PAGE_SIZE. split; [done|split; [done|]].
  intros r v Hin. vm_compute virt_map in Hin. by apply elem_of_nil in Hin.
Qed.

Lemma demo_smem_ok : space_ok (virt_map (mp_space demo_smem)).
Proof. vm_compute. exact I. Qed.

Lemma demo_smem_object : mp_objects demo_smem !! 0x7000 = Some demo_smem_o.
Proof. vm_compute. reflexivity. Qed.

Lemma demo_smem_layout : smem_virt_layout (B:=dev) demo_smem_o (id_flags 11) = Ret demo_smem_l.
Proof. vm_compute. reflexivity. Qed.

Lemma demo_smem_size : vl_size (B:=dev) demo_smem_l = Ret 0x2000.
Proof. vm_compute. reflexivity. Qed.

Lemma demo_smem_map :
  smem_map (B:=dev) demo_max 10 0x7000 11 None demo_smem = Ret (inr demo_key, demo_smem_mapped).
Proof. vm_compute. reflexivity. Qed.

Definition demo_smem_unmapped : MemProc (W:=LogWorld) :=
  match smem_unmap (B:=dev) 10 0x7000 11 demo_smem_mapped with Ret (_, s) => s | _ => demo_smem end.


(** Another process, with an empty address space. *)
Definition demo_other : MemProc (W:=LogWorld) :=
  mkMemProc (mp_smem demo_smem) demo_space (mp_objects demo_smem_mapped).

Lemma smem_ids_clash_witness : sys_cap_unmap (B:=dev) 10 11 demo_other = Panic.
Proof.
  refine (proj2 (smem_ids_clash (B:=dev) demo_max demo_max_ok 10 10 0x7000 11 None demo_smem_o demo_smem_l 0x2000
    demo_smem demo_smem_mapped demo_other demo_key (mkCap 0x7000 3 11) demo_smem_ok demo_smem_object
    demo_smem_layout demo_smem_size demo_smem_room demo_smem_map eq_refl eq_refl _ eq_refl _));
    vm_compute; reflexivity.
Defined.
