(* ===== verification/Syscall.v ===== *)
(** * System calls: [kernel/src/syscall/mod.rs], [sched/sys.rs], and [Calls] of [util/mod.rs]

    Every component under one roof: the state of the kernel as the calling process sees
    it, the handlers of the table [syscalls], each with its guards and what [sysret!]
    writes, and the dispatch by number.  The other half of [sched/sys.rs] and the calls
    the kernel's own locks make ([UtilCalls]) are here too.

    [syscall_frame]: whatever a process calls, it returns to where it came from with an
    error code of [SysErr].  [syscall_isolation]: it leaves the capabilities and the address
    spaces of other processes alone, and the tables of every process well formed.
    [abi_roundtrip]: the words a program puts in registers are the words a handler gets, and back.
    [sysnums_spec] compares the table with the
    numbers programs are given ([sys_consts]); [foreign_lock_panics] shows what becomes
    of a kernel lock two processes wait for. *)

From Stdlib Require Import String.
From S2P Require Import Prelude Misc Sys Ranges Buddy PageTable VirtLayout VirtMapper Boot UData.
From S2P Require Import CpuMarker Thread Int Time Console Sched Cap MemSys.

(** ** The values of a call *)
Record SyscallVals := mkVals {
  sv_options : Z; sv_unused : Z;
  sv_a1 : Z; sv_a2 : Z; sv_a3 : Z; sv_a4 : Z; sv_a5 : Z; sv_a6 : Z; sv_a7 : Z; sv_a8 : Z; sv_a9 : Z; sv_a10 : Z;
  sv_rip : Z; sv_rsp : Z; sv_rflags : Z;
}.

Definition sv_args (v : SyscallVals) : list Z :=
  [sv_a1 v; sv_a2 v; sv_a3 v; sv_a4 v; sv_a5 v; sv_a6 v; sv_a7 v; sv_a8 v; sv_a9 v; sv_a10 v].

(** [sysret!(vals, r1, ...)]: up to ten results, in [a1] and the following. *)
Definition sysret (r : list Z) (v : SyscallVals) : SyscallVals :=
  let arg i := default 0 ((r ++ drop (length r) (sv_args v)) !! i)%list in
  mkVals (sv_options v) (sv_unused v)
    (arg 0%nat) (arg 1%nat) (arg 2%nat) (arg 3%nat) (arg 4%nat) (arg 5%nat) (arg 6%nat) (arg 7%nat) (arg 8%nat) (arg 9%nat)
    (sv_rip v) (sv_rsp v) (sv_rflags v).

(** ** The table *)
Inductive SyscallFunc :=
  | f_print_debug | f_spawn | f_nop | f_thread_new | f_thread_block | f_realloc | f_mprotect
  | f_cap_destroy | f_cap_clone | f_cap_map | f_cap_unmap | f_cap_info | f_smem_new
  | f_futex_new | f_futex_block | f_futex_unblock.

#[export] Instance SyscallFunc_dec : EqDecision SyscallFunc.
Proof. solve_decision. Defined.

Definition syscalls : list SyscallFunc := [
  f_print_debug; f_spawn; f_nop; f_nop; f_nop; f_thread_new; f_thread_block; f_nop; f_nop; f_realloc; f_mprotect;
  f_cap_destroy; f_cap_clone; f_cap_map; f_cap_unmap; f_cap_info; f_nop; f_nop; f_nop; f_nop; f_nop; f_nop; f_nop;
  f_smem_new; f_futex_new; f_futex_block; f_futex_unblock; f_nop; f_nop; f_nop; f_nop; f_nop; f_nop; f_nop; f_nop;
  f_nop; f_nop; f_nop; f_nop; f_nop; f_nop; f_nop].

(** [SysNums] of [sys_consts]: the numbers count the variants from 0. *)
Inductive SysNums :=
  | PrintDebug
  | ProcessNew | ProcessExit | ThreadNew | ThreadBlock | ProcessBindExcept
  | CapClone | CapMove | CapDestroy | WeakIsAlive
  | MemMap | MemUnmap | MemReserve | MemUnreserve | MemNew | MmioNew | MemSize
  | EventNew | EventArgc | EventSend | EventListen | EventNblisten | EventAlisten | EventAabort | Eret
  | ChannelNew | ChannelMsgProps | ChannelSend | ChannelRecv | ChannelNbsend | ChannelNbrecv
  | ChannelAsend | ChannelArecv | ChannelReplyRecv | ChannelCall | ChannelAcall
  | KeyNew | KeyId
  | IntNew | IntVector | IntBind | IntEoi
  | PortNew | PortNum | PortMap | PortUnmap
  | SpawnerNew | SpawnerKillAll
  | AllocatorNew | AllocatorCapacity | AllocatorPrealloc | AllocatorBindOomHandler | AllocatorSetMaxPages
  | RootOomListen | RootOomPanic.

#[export] Instance SysNums_dec : EqDecision SysNums.
Proof. solve_decision. Defined.

Definition all_sysnums : list SysNums := [
  PrintDebug; ProcessNew; ProcessExit; ThreadNew; ThreadBlock; ProcessBindExcept;
  CapClone; CapMove; CapDestroy; WeakIsAlive;
  MemMap; MemUnmap; MemReserve; MemUnreserve; MemNew; MmioNew; MemSize;
  EventNew; EventArgc; EventSend; EventListen; EventNblisten; EventAlisten; EventAabort; Eret;
  ChannelNew; ChannelMsgProps; ChannelSend; ChannelRecv; ChannelNbsend; ChannelNbrecv;
  ChannelAsend; ChannelArecv; ChannelReplyRecv; ChannelCall; ChannelAcall;
  KeyNew; KeyId; IntNew; IntVector; IntBind; IntEoi; PortNew; PortNum; PortMap; PortUnmap;
  SpawnerNew; SpawnerKillAll;
  AllocatorNew; AllocatorCapacity; AllocatorPrealloc; AllocatorBindOomHandler; AllocatorSetMaxPages;
  RootOomListen; RootOomPanic].

Definition sysnum (n : SysNums) : nat := default 0%nat (fst <$> list_find (λ m, m = n) all_sysnums).

(** The constants of module [thread] of [sys_consts]. *)
Definition YIELD : Z := 0.
Definition DESTROY : Z := 1.
Definition SLEEP : Z := 2.
Definition JOIN : Z := 3.

(** ** From a program to the handler and back

    [syscall!] of [sys/src/lib.rs] puts the number and the options in [rax] and the
    arguments in these registers, in this order; the entry code
    [arch/x64/syscall/syscall.asm] lays the same registers out as [SyscallVals], and
    loads them back from there. *)
Definition abi_regs (r : Registers) : list Z :=
  [rbx r; rdx r; rsi r; rdi r; r8 r; r9 r; r12 r; r13 r; r14 r; r15 r].

Definition with_abi (a c : Z) (l : list Z) (r : Registers) : Registers :=
  let arg i old := default old (l !! i) in
  mkRegs a (arg 0%nat (rbx r)) c (arg 1%nat (rdx r)) (rbp r) (rsp r) (call_rsp r) (call_save_rsp r)
    (arg 3%nat (rdi r)) (arg 2%nat (rsi r)) (arg 4%nat (r8 r)) (arg 5%nat (r9 r)) (r10 r) (r11 r)
    (arg 6%nat (r12 r)) (arg 7%nat (r13 r)) (arg 8%nat (r14 r)) (arg 9%nat (r15 r))
    (rflags r) (rip r) (cs r) (ss r).

(** The registers when [syscall!(num, opt, args...)] executes its instruction, which puts
    the address after it in [rcx]. *)
Definition syscall_in (num opt : Z) (args : list Z) (r : Registers) : Registers :=
  with_abi (Z.lor (Z.shiftl opt 32 mod U64) num) (rip r) args r.

(** What the macro gives back, one value for each argument. *)
Definition syscall_out (n : nat) (r : Registers) : list Z := take n (abi_regs r).

(** The entry code: the number, and the values on the stack. *)
Definition syscall_entry (r : Registers) : Z * SyscallVals :=
  (Z.shiftr (Z.shiftl (rax r) 32 mod U64) 32,
   mkVals (Z.shiftr (rax r) 32) 0 (rbx r) (rdx r) (rsi r) (rdi r) (r8 r) (r9 r) (r12 r) (r13 r) (r14 r) (r15 r)
     (rcx r) (rsp r) (rflags r)).

(** [rax] is popped where the options were; [r10] and [r11] hold the stack and the flags. *)
Definition syscall_leave (v : SyscallVals) (r : Registers) : Registers :=
  let r := with_abi (sv_options v) (sv_rip v) (sv_args v) r in
  mkRegs (rax r) (rbx r) (rcx r) (rdx r) (rbp r) (rsp r) (call_rsp r) (call_save_rsp r)
    (rdi r) (rsi r) (r8 r) (r9 r) (sv_rsp v) (sv_rflags v)
    (r12 r) (r13 r) (r14 r) (r15 r) (sv_rflags v) (sv_rip v) (cs r) (ss r).

(** [ThreadState] of [sys/src/lib.rs], and [get_vals]. *)
Inductive UThreadState := UYield | UDestroy | USleep (n : Z) | UJoin (n : Z).

Definition get_vals (s : UThreadState) : Z * Z :=
  match s with
  | UYield => (YIELD, 0)
  | UDestroy => (DESTROY, 0)
  | USleep n => (SLEEP, n)
  | UJoin n => (JOIN, n)
  end.

(** ** The kernel *)
Section kernel.
Context {B : Build} {AD : Addresses} {W : Type} {PM : PhysMem W} {FA : FrameAllocator W}.
Context {P : Cpu} {DV : Devices}.
Context (MAX_MAP_ADDR : Z) (KERNEL_VMA : Z).
(** [VirtAddr::new_truncate]. *)
Context (new_truncate : Z → Z).
(** Where the heap puts a new object, and whether it has room for a vector. *)
Context (new_arc : gmap Z SharedMem → Z) (new_kfutex : gmap Z KFutex → Z) (new_thread_at : gmap Z Thread → Z).
Context (heap_room : Z → bool).

(** Every process has its capabilities and its address space (the map of ranges and the
    address of the top table); page tables and frames are shared. *)
Record Kernel := mkKernel {
  k_sched : Sched;
  k_caps : gmap Z ProcCaps;
  k_spaces : gmap Z (list (range * VirtLayout) * Z);
  k_pt : PT W;
  k_objects : gmap Z SharedMem;
  k_next_fuid : Z;
  k_cpu : CpuState;
  k_dev : Dev;
  k_user_mem : Z → option Z;      (* memory as the calling process sees it *)
}.

Abbreviation KN := (M Kernel).

Definition kw_sched (v : Sched) (k : Kernel) : Kernel :=
  mkKernel v (k_caps k) (k_spaces k) (k_pt k) (k_objects k) (k_next_fuid k) (k_cpu k) (k_dev k) (k_user_mem k).
Definition kw_caps (v : gmap Z ProcCaps) (k : Kernel) : Kernel :=
  mkKernel (k_sched k) v (k_spaces k) (k_pt k) (k_objects k) (k_next_fuid k) (k_cpu k) (k_dev k) (k_user_mem k).
Definition kw_space (pid : Z) (v : VirtMapper (W:=W)) (k : Kernel) : Kernel :=
  mkKernel (k_sched k) (k_caps k) (<[pid := (virt_map v, cr3 v)]> (k_spaces k)) (pt v) (k_objects k) (k_next_fuid k)
    (k_cpu k) (k_dev k) (k_user_mem k).
Definition kw_objects (v : gmap Z SharedMem) (k : Kernel) : Kernel :=
  mkKernel (k_sched k) (k_caps k) (k_spaces k) (k_pt k) v (k_next_fuid k) (k_cpu k) (k_dev k) (k_user_mem k).
Definition kw_fuid (v : Z) (k : Kernel) : Kernel :=
  mkKernel (k_sched k) (k_caps k) (k_spaces k) (k_pt k) (k_objects k) v (k_cpu k) (k_dev k) (k_user_mem k).
Definition kw_dev (c : CpuState) (d : Dev) (k : Kernel) : Kernel :=
  mkKernel (k_sched k) (k_caps k) (k_spaces k) (k_pt k) (k_objects k) (k_next_fuid k) c d (k_user_mem k).

Definition kw_frames (w : W) (k : Kernel) : Kernel :=
  mkKernel (k_sched k) (k_caps k) (k_spaces k) (mkPT (tables (k_pt k)) w) (k_objects k) (k_next_fuid k)
    (k_cpu k) (k_dev k) (k_user_mem k).

(** The operations of a component, on its part of the kernel. *)
Definition on_sched {T} (m : SM T) : KN T := λ k, '(x, s) ← m (k_sched k); Ret (x, kw_sched s k).
Definition on_devs {T} (m : KM T) : KN T := λ k, '(x, (c, d)) ← m (k_cpu k, k_dev k); Ret (x, kw_dev c d k).

Definition the_space (pid : Z) (k : Kernel) : res VirtMapper :=
  '(t, c) ← unwrap (k_spaces k !! pid); Ret (mkMapper t c (k_pt k)).
Definition on_vm {T} (pid : Z) (m : VM (W:=W) T) : KN T := λ k,
  v ← the_space pid k; '(x, v) ← m v; Ret (x, kw_space pid v k).

Definition on_caps {T} (pid : Z) (m : PCM (W:=Sched) T) : KN T := λ k,
  c ← unwrap (k_caps k !! pid);
  '(x, (c, s)) ← m (c, k_sched k);
  Ret (x, kw_sched s (kw_caps (<[pid := c]> (k_caps k)) k)).

(** A process, its shared memory and its address space. *)
Definition on_mp {T} (pid : Z) (m : MP (W:=W) T) : KN T := λ k,
  c ← unwrap (k_caps k !! pid);
  v ← the_space pid k;
  '(x, s) ← m (mkMemProc (pc_smem c) v (k_objects k));
  Ret (x, kw_objects (mp_objects s) (kw_space pid (mp_space s)
            (kw_caps (<[pid := mkPCaps (pc_futex c) (mp_smem s) (pc_channels c) (pc_keys c)]> (k_caps k)) k))).

(** [FutexMap] of a process, over the futexes of the scheduler. *)
Definition on_futexes {T} (pid : Z) (m : CM (W:=Sched) T) : KN T :=
  on_caps pid (λ '(p, w), '(x, (f, w)) ← m (pc_futex p, w);
    Ret (x, (mkPCaps f (pc_smem p) (pc_channels p) (pc_keys p), w))).

(** [proc_c()]: the pid and uid of the process that calls. *)
Definition proc_c : KN (Z * PrivLevel) :=
  on_sched (a ← thread_c; t ← the_thread a; p ← process a; p ← lift (unwrap p); mret (th_process t, p_uid p)).

(** A queue is walked once from end to end, so its length bounds the loops of a futex. *)
Definition qfuel (k : Kernel) : nat := S (length (all_queued (tlist (k_sched k)))).
Definition futexes : KN (CapObject Sched) := λ k, Ret (futex_object (qfuel k), k).

(** ** [sched/sys.rs] *)

(** A handler answers whether it raised the scheduler interrupt before it returned, and
    the values it returns with. *)
Abbreviation Handler := (SyscallVals → KN (bool * SyscallVals)).

Definition answer (r : list Z) (v : SyscallVals) : KN (bool * SyscallVals) := mret (false, sysret r v).

(** [fetch_data] and [UserString::try_fetch] in the memory of the caller. *)
Definition k_fetch {T} (pid : Z) (U : UserData T) (ptr : Z) : KN (option T) := λ k,
  v ← the_space pid k; o ← fetch_data KERNEL_VMA (k_user_mem k) U (virt_map v) ptr; Ret (o, k).
Definition k_string (pid : Z) (s : UserString) : KN (option (list Z)) := λ k,
  v ← the_space pid k; o ← string_fetch KERNEL_VMA (k_user_mem k) heap_room s (virt_map v); Ret (o, k).

(** [Process::spawn] is a [todo!()]. *)
Definition sys_spawn : Handler := λ v,
  p ← proc_c;
  let '(pid, uid) := p : Z * PrivLevel in
  if (match uid with PSuperUser => false | _ => true end) then answer [num InvlPerm; 0] v
  else
    st ← k_fetch pid ud_spawn (sv_a6 v);
    match st with
    | None => answer [num InvlPtr; 0] v
    | Some _ =>
        name ← k_string pid (mkUArr (sv_a1 v) (sv_a2 v));
        match name with
        | None => answer [num InvlPtr; 0] v
        | Some _ =>
            path ← k_string pid (mkUArr (sv_a3 v) (sv_a4 v));
            match path with
            | None => answer [num InvlPtr; 0] v
            | Some _ => lift Panic
            end
        end
    end.

(** The thread is made with its stacks, then listed; [fuel] is for the page tables. *)
Definition k_new_thread (fuel : nat) (pid : Z) (uid : PrivLevel) (regs : Registers) : KN (Err + Z) :=
  k ← get;
  pr ← on_sched (the_process pid);
  t ← on_vm pid (Thread.thread_new MAX_MAP_ADDR fuel pid uid (p_next_tid pr) regs);
  on_sched (new_thread_regs pid (λ _, match t with
                                      | inl e => inl e
                                      | inr t => inr (new_thread_at (threads (k_sched k)), t)
                                      end)).

Definition sys_thread_new (fuel : nat) : Handler := λ v,
  p ← proc_c;
  r ← k_new_thread fuel p.1 p.2 (from_rip (sv_a1 v));
  match r with
  | inr tid => answer [num Ok; tid] v
  | inl _ => answer [num Unknown; 0] v
  end.

(** The state a reason and its argument ask for. *)
Definition block_state (pid reason arg : Z) : option ThreadState :=
  if reason =? 0 then Some Running
  else if reason =? 1 then Some Destroy
  else if reason =? 2 then Some (Sleep arg)
  else if reason =? 3 then Some (Join (tuid_new pid arg))
  else None.

(** [proc_c] is asked here for every reason; the code needs it for [Join] only, and it
    answers whenever a thread runs. *)
Definition sys_thread_block : Handler := λ v,
  p ← proc_c;
  match block_state p.1 (sv_a1 v) (sv_a2 v) with
  | Some st => b ← on_sched (block st); mret (b, sysret [num Ok] v)
  | None => answer [num InvlArgs] v
  end.

(** [KFutex::new()], with the right to read, in the map of the process. *)
Definition k_futex_new (pid : Z) : KN Z :=
  k ← get;
  let p := new_kfutex (kfutexes (k_sched k)) in
  put (kw_fuid ((k_next_fuid k + 1) mod U64) k);;
  on_sched (kfutex_new p (k_next_fuid k));;
  KF ← futexes;
  on_futexes pid (c ← cap_new (CO:=KF) p CF_READ; cm_insert (CO:=KF) c).

Definition sys_futex_new : Handler := λ v,
  p ← proc_c;
  id ← k_futex_new p.1;
  answer [num Ok; id] v.

(** [FutexMap::block]: an error, or whether the thread was marked.  A lock that is taken
    is waited for: that is not a step of this processor. *)
Definition k_futex_block (pid cid : Z) : KN (SysErr + bool) :=
  t ← on_futexes pid (fm_target cid);
  match t with
  | inl e => mret (inl e)
  | inr p =>
      c ← on_sched (kf_count p);
      if c : bool then
        l ← on_sched (kf_lock p);
        match l with
        | None => lift NoFuel
        | Some false => mret (inl InvlId)
        | Some true => b ← on_sched (kf_block p); mret (inr b)
        end
      else mret (inr false)
  end.

Definition sys_futex_block : Handler := λ v,
  p ← proc_c;
  r ← k_futex_block p.1 (sv_a1 v);
  match r with
  | inr b => mret (b, sysret [num Ok] v)
  | inl e => answer [num e] v
  end.

Definition k_futex_unblock (pid cid n : Z) : KN (SysErr + Z) :=
  k ← get; on_futexes pid (fm_unblock (qfuel k) cid n).

Definition sys_futex_unblock : Handler := λ v,
  p ← proc_c;
  r ← k_futex_unblock p.1 (sv_a1 v) (sv_a3 v);
  match r with
  | inr n => answer [num Ok; n] v
  | inl e => answer [num e; 0] v
  end.

(** ** The other handlers, with what they put in the registers *)
Definition sys_nop : Handler := λ v, mret (false, v).
Definition sys_todo : Handler := λ _, lift Panic.

Definition k_print_debug : Handler := λ v,
  on_devs (sys_print_debug (sv_options v) (sv_args v));; mret (false, v).

Definition k_realloc (fuel : nat) : Handler := λ v,
  p ← proc_c;
  r ← on_vm p.1 (sys_realloc MAX_MAP_ADDR new_truncate fuel (sv_options v) (sv_a1 v) (sv_a2 v) (sv_a3 v));
  answer [r.1.1; r.1.2; r.2] v.

Definition k_cap_destroy : Handler := λ v,
  p ← proc_c; KF ← futexes; r ← on_caps p.1 (sys_cap_destroy KF (sv_a1 v)); answer [r] v.
Definition k_cap_clone : Handler := λ v,
  p ← proc_c; KF ← futexes; r ← on_caps p.1 (sys_cap_clone KF (sv_a1 v) (sv_options v)); answer [r.1; r.2] v.
Definition k_cap_map (fuel : nat) : Handler := λ v,
  p ← proc_c; r ← on_mp p.1 (sys_cap_map MAX_MAP_ADDR fuel (sv_a1 v) (sv_a2 v)); answer [r.1.1; r.1.2; r.2] v.
Definition k_cap_unmap (fuel : nat) : Handler := λ v,
  p ← proc_c; r ← on_mp p.1 (sys_cap_unmap fuel (sv_a1 v)); answer [r] v.
Definition k_smem_new : Handler := λ v,
  p ← proc_c; r ← on_mp p.1 (sys_smem_new new_arc (sv_options v) (sv_a1 v)); answer [r.1; r.2] v.

Definition run_syscall (fuel : nat) (f : SyscallFunc) : Handler :=
  match f with
  | f_print_debug => k_print_debug
  | f_spawn => sys_spawn
  | f_nop => sys_nop
  | f_thread_new => sys_thread_new fuel
  | f_thread_block => sys_thread_block
  | f_realloc => k_realloc fuel
  | f_mprotect | f_cap_info => sys_todo
  | f_cap_destroy => k_cap_destroy
  | f_cap_clone => k_cap_clone
  | f_cap_map => k_cap_map fuel
  | f_cap_unmap => k_cap_unmap fuel
  | f_smem_new => k_smem_new
  | f_futex_new => sys_futex_new
  | f_futex_block => sys_futex_block
  | f_futex_unblock => sys_futex_unblock
  end.

(** A number past the table is refused by the entry code, which calls nothing and returns
    with -1 in [rax]. *)
Definition dispatch (fuel : nat) (n : Z) : Handler := λ v,
  match syscalls !! Z.to_nat n with
  | Some f => run_syscall fuel f v
  | None => mret (false, v)
  end.

(** ** [Calls] of [util/mod.rs]: what the locks of [libutil] call in the kernel *)
Definition util_futex_new : KN Z := p ← proc_c; k_futex_new p.1.
Definition util_futex_destroy (id : Z) : KN () :=
  p ← proc_c; KF ← futexes;
  o ← on_futexes p.1 (cm_remove id);
  c ← lift (unwrap o);
  on_futexes p.1 (cap_drop (CO:=KF) c).
Definition util_block (id : Z) : KN bool :=
  p ← proc_c;
  r ← k_futex_block p.1 id;
  match r with inr b => mret b | inl _ => lift Panic end.
Definition util_unblock (id : Z) : KN () :=
  p ← proc_c;
  r ← k_futex_unblock p.1 id 1;
  match r with inr _ => mret () | inl _ => lift Panic end.
Definition util_alloc (size : Z) : KN (option Allocation) := λ k,
  '(m, w) ← zm_alloc size (frames (k_pt k)); Ret (m, kw_frames w k).
Definition util_dealloc (m : Allocation) : KN () := λ k, w ← zm_dealloc m (frames (k_pt k)); Ret ((), kw_frames w k).
End kernel.

(** ** Theorems *)

(** *** The call itself *)

Lemma sysret_args r v :
  (length r <= 10)%nat → sv_args (sysret r v) = (r ++ drop (length r) (sv_args v))%list.
Proof.
  intros Hr. unfold sysret, sv_args. cbn [sv_a1 sv_a2 sv_a3 sv_a4 sv_a5 sv_a6 sv_a7 sv_a8 sv_a9 sv_a10].
  do 11 (destruct r as [|? r]; [reflexivity|]). cbn in Hr. lia.
Qed.

Lemma abi_with_abi a c l r :
  (length l <= 10)%nat → abi_regs (with_abi a c l r) = (l ++ drop (length l) (abi_regs r))%list.
Proof.
  intros Hl. unfold with_abi, abi_regs. cbn [rbx rdx rsi rdi r8 r9 r12 r13 r14 r15].
  do 11 (destruct l as [|? l]; [reflexivity|]). cbn in Hl. lia.
Qed.

(** C35: what a program passes to [syscall!] is what the handler finds: the number in the
    low half of [rax], the options in the high half, each argument in its place, and the
    program's own registers in the places it did not name; what the handler answers with
    [sysret!] is what the macro gives back, and every argument that is not a result
    comes back as it was. *)
Theorem abi_roundtrip num opt args res r :
  0 <= num < 2 ^ 32 → 0 <= opt < 2 ^ 32 → (length args <= 10)%nat → (length res <= 10)%nat →
  let '(n, v) := syscall_entry (syscall_in num opt args r) in
  n = num ∧ sv_options v = opt ∧ sv_args v = (args ++ drop (length args) (abi_regs r))%list ∧
  sv_rip v = rip r ∧ sv_rsp v = rsp r ∧
  let r' := syscall_leave (sysret res v) (syscall_in num opt args r) in
  syscall_out (length args) r' = take (length args) (res ++ drop (length res) (sv_args v)) ∧
  rip r' = rip r ∧ rsp r' = rsp r ∧ rbp r' = rbp r ∧ rflags r' = rflags r.
Proof.
  intros Hn Ho Ha Hr. unfold syscall_entry, syscall_in. cbn [rax with_abi].
  assert (Hax : Z.lor (Z.shiftl opt 32 mod U64) num = opt * 2 ^ 32 + num).
  { rewrite Z.mod_small by (rewrite Z.shiftl_mul_pow2 by lia; lia). apply lor_shiftl_add; lia. }
  split_and!.
  - rewrite Hax, Z.shiftl_mul_pow2, Z.shiftr_div_pow2 by lia.
    replace ((opt * 2 ^ 32 + num) * 2 ^ 32) with (num * 2 ^ 32 + opt * U64) by lia.
    rewrite Z.mod_add by lia. rewrite Z.mod_small by lia. apply Z.div_mul. lia.
  - cbn [sv_options]. rewrite Hax, Z.shiftr_div_pow2 by lia. symmetry. apply (Z.div_unique _ _ _ num); lia.
  - by apply (abi_with_abi 0 0).
  - done.
  - done.
  - set (v := mkVals _ _ _ _ _ _ _ _ _ _ _ _ _ _ _). set (r1 := with_abi _ _ args r).
    unfold syscall_out, syscall_leave.
    change (abi_regs _) with (abi_regs (with_abi (sv_options (sysret res v)) (sv_rip (sysret res v)) (sv_args (sysret res v)) r1)).
    rewrite abi_with_abi by (rewrite sysret_args, length_app, length_drop by done; cbn; lia).
    rewrite sysret_args by done. set (l := (res ++ drop (length res) (sv_args v))%list).
    assert (length l = 10%nat) as Hl by (unfold l; rewrite length_app, length_drop; cbn; lia).
    rewrite drop_ge by (rewrite Hl; done). by rewrite app_nil_r.
  - done.
  - done.
  - done.
  - done.
Qed.

Lemma abi_roundtrip_witness :
  syscall_out 2 (syscall_leave (sysret [0; 7] (syscall_entry (syscall_in 5 0 [0x401000; 0] regs_zero)).2)
                  (syscall_in 5 0 [0x401000; 0] regs_zero)) = [0; 7].
Proof.
  exact (proj1 (proj2 (proj2 (proj2 (proj2 (proj2 (abi_roundtrip 5 0 [0x401000; 0] [0; 7] regs_zero
    ltac:(lia) ltac:(lia) ltac:(cbn; lia) ltac:(cbn; lia)))))))).
Defined.

(** *** What a computation may return *)
Definition gives {S A} (Q : A → Prop) (m : M S A) : Prop := ∀ s x s', m s = Ret (x, s') → Q x.

Lemma gives_ret {S A} (Q : A → Prop) (a : A) : Q a → gives Q (mret a : M S A).
Proof. intros H s x s' [= <- <-]. done. Qed.
Lemma gives_bind {S A C} (Q : C → Prop) (m : M S A) (f : A → M S C) : (∀ a, gives Q (f a)) → gives Q (m ≫= f).
Proof. intros H s x s' E. apply M_bind_Ret_inv in E as (a & s1 & _ & E). by eapply H. Qed.
(** Nothing is known of the parts but what the whole needs. *)
Lemma gives_bind_of {S A C} (R : A → Prop) (Q : C → Prop) (m : M S A) (f : A → M S C) :
  gives R m → (∀ a, R a → gives Q (f a)) → gives Q (m ≫= f).
Proof. intros Hm H s x s' E. apply M_bind_Ret_inv in E as (a & s1 & E1 & E). eapply H; [by eapply Hm|done]. Qed.
Lemma gives_panic {S A} (Q : A → Prop) : gives Q (lift Panic : M S A).
Proof. by intros s x s'. Qed.

(** A word that [SysErr] has. *)
Definition is_code (n : Z) : Prop := ∃ e, n = num e.
Lemma code_num e : is_code (num e).
Proof. by exists e. Qed.

(** Step through binds and case distinctions to the values returned. *)
Ltac gives_step :=
  match goal with
  | |- gives _ (match ?x with _ => _ end) => destruct x
  | |- gives _ (if ?b then _ else _) => destruct b
  | |- gives _ (let '(_, _) := ?x in _) => destruct x
  | |- gives _ (_ ≫= _) => apply gives_bind; intros ?
  | |- gives _ (mret _) => apply gives_ret
  | |- gives _ (lift Panic) => apply gives_panic
  end.
Ltac gives_tac := repeat gives_step; cbn [fst snd]; eauto using code_num.

Section codes.
Context {B : Build} {AD : Addresses} {W : Type} {PM : PhysMem W} {FA : FrameAllocator W} {P : Cpu}.
Context (MAX_MAP_ADDR : Z) (new_truncate : Z → Z) (new_arc : gmap Z SharedMem → Z).

Lemma realloc_code fuel o a1 a2 a3 :
  gives (λ r, is_code r.1.1) (sys_realloc (W:=W) MAX_MAP_ADDR new_truncate fuel o a1 a2 a3).
Proof.
  unfold sys_realloc, realloc_alloc, realloc_free, realloc_resize, reply. gives_tac.
  all: repeat match goal with |- context [match ?x with _ => _ end] => destruct x end; cbn [fst snd]; apply code_num.
Qed.

Lemma cap_destroy_code (KF : CapObject Sched) a1 : gives is_code (sys_cap_destroy KF a1).
Proof. unfold sys_cap_destroy. gives_tac. destruct a0; apply code_num. Qed.

Lemma cap_clone_code (KF : CapObject Sched) a1 o : gives (λ r, is_code r.1) (sys_cap_clone KF a1 o).
Proof. unfold sys_cap_clone. gives_tac. destruct a0; apply code_num. Qed.

Lemma cap_map_code fuel a1 a2 : gives (λ r, is_code r.1.1) (sys_cap_map (W:=W) MAX_MAP_ADDR fuel a1 a2).
Proof. unfold sys_cap_map. gives_tac. destruct a0; apply code_num. Qed.

Lemma cap_unmap_code fuel a1 : gives is_code (sys_cap_unmap (W:=W) fuel a1).
Proof. unfold sys_cap_unmap. gives_tac. destruct a0; apply code_num. Qed.

Lemma smem_new_code o a1 : gives (λ r, is_code r.1) (sys_smem_new (W:=W) new_arc o a1).
Proof. unfold sys_smem_new. gives_tac. Qed.
End codes.

(** *** What a system call may do to its caller *)
Section frame.
Context {B : Build} {AD : Addresses} {W : Type} {PM : PhysMem W} {FA : FrameAllocator W} {P : Cpu} {DV : Devices}.
Context (MAX_MAP_ADDR KERNEL_VMA : Z) (new_truncate : Z → Z).
Context (new_arc : gmap Z SharedMem → Z) (new_kfutex : gmap Z KFutex → Z) (new_thread_at : gmap Z Thread → Z).
Context (heap_room : Z → bool).

Abbreviation run := (run_syscall (W:=W) MAX_MAP_ADDR KERNEL_VMA new_truncate new_arc new_kfutex new_thread_at heap_room).
Abbreviation dispatch_ := (dispatch (W:=W) MAX_MAP_ADDR KERNEL_VMA new_truncate new_arc new_kfutex new_thread_at heap_room).

(** A code of [SysErr] and at most two results. *)
Definition replied (v v' : SyscallVals) : Prop :=
  ∃ e rs, (length rs <= 2)%nat ∧ v' = sysret (num e :: rs) v.

Lemma replied_ok v : replied v (sysret [num Ok] v).
Proof. exists Ok, []. split; [cbn; lia|done]. Qed.

Lemma answer_replied e rs v :
  (length rs <= 2)%nat → gives (λ x, replied v x.2) (answer (W:=W) (num e :: rs) v).
Proof. intros Hl. apply gives_ret. by exists e, rs. Qed.

Lemma answer_code n rs v :
  is_code n → (length rs <= 2)%nat → gives (λ x, replied v x.2) (answer (W:=W) (n :: rs) v).
Proof. intros [e ->] Hl. by apply answer_replied. Qed.

Lemma gives_on_vm {T} pid (Q : T → Prop) (m : VM (W:=W) T) : gives Q m → gives Q (on_vm pid m).
Proof.
  intros H k x k' E. unfold on_vm in E. dret E. dret E. destruct a0 as [y v]. injection E as <- _. by eapply H.
Qed.

Lemma gives_on_caps {T} pid (Q : T → Prop) (m : PCM (W:=Sched) T) : gives Q m → gives Q (on_caps (W:=W) pid m).
Proof.
  intros H k x k' E. unfold on_caps in E. dret E. dret E. destruct a0 as [y [c s]]. injection E as <- _. by eapply H.
Qed.

Lemma gives_on_mp {T} pid (Q : T → Prop) (m : MP (W:=W) T) : gives Q m → gives Q (on_mp pid m).
Proof.
  intros H k x k' E. unfold on_mp in E. dret E. dret E. dret E. destruct a1 as [y s]. injection E as <- _. by eapply H.
Qed.

(** A handler that asks a component for a code and some results; [H] is of the code. *)
Ltac via H :=
  repeat first
    [ eapply gives_bind_of;
        [first [apply gives_on_vm, H | apply gives_on_caps, H | apply gives_on_mp, H]|];
        cbn beta; intros ? ?; apply answer_code; [done|cbn; lia]
    | apply gives_bind; intros ? ].

Lemma handlers_reply fuel f v :
  gives (λ x, match f with f_nop | f_print_debug => x.2 = v | _ => replied v x.2 end) (run fuel f v).
Proof.
  destruct f; cbn [run_syscall].
  - unfold k_print_debug. apply gives_bind. intros. by apply gives_ret.
  - unfold sys_spawn, k_fetch, k_string. apply gives_bind. intros [pid uid].
    repeat first [apply gives_panic | apply answer_replied; cbn; lia | progress gives_step].
  - by apply gives_ret.
  - unfold sys_thread_new. do 2 (apply gives_bind; intros ?). destruct a0; apply answer_replied; cbn; lia.
  - unfold sys_thread_block. apply gives_bind. intros p. destruct (block_state _ _ _).
    + apply gives_bind. intros b. apply gives_ret, replied_ok.
    + apply answer_replied. cbn. lia.
  - unfold k_realloc. via realloc_code.
  - apply gives_panic.
  - unfold k_cap_destroy. via cap_destroy_code.
  - unfold k_cap_clone. via cap_clone_code.
  - unfold k_cap_map. via cap_map_code.
  - unfold k_cap_unmap. via cap_unmap_code.
  - apply gives_panic.
  - unfold k_smem_new. via smem_new_code.
  - unfold sys_futex_new. do 2 (apply gives_bind; intros ?). apply answer_replied. cbn. lia.
  - unfold sys_futex_block. do 2 (apply gives_bind; intros ?). destruct a0; [apply answer_replied; cbn; lia|].
    apply gives_ret, replied_ok.
  - unfold sys_futex_unblock. do 2 (apply gives_bind; intros ?). destruct a0; apply answer_replied; cbn; lia.
Qed.

(** C34: a process that calls the kernel with any number and any arguments, if it comes back,
    comes back to the instruction, the stack and the flags it called with, and its
    arguments are as they were except that a call the table serves puts a code of
    [SysErr] in the first and at most two results after it. *)
Theorem syscall_frame fuel n v k sw v' k' :
  dispatch_ fuel n v k = Ret ((sw, v'), k') →
  sv_rip v' = sv_rip v ∧ sv_rsp v' = sv_rsp v ∧ sv_rflags v' = sv_rflags v ∧ sv_options v' = sv_options v ∧
  match syscalls !! Z.to_nat n with
  | None | Some f_nop | Some f_print_debug => sv_args v' = sv_args v
  | Some _ => (∃ e, sv_a1 v' = num e) ∧ drop 3 (sv_args v') = drop 3 (sv_args v)
  end.
Proof.
  unfold dispatch. intros E.
  assert (match syscalls !! Z.to_nat n with None | Some f_nop | Some f_print_debug => v' = v | Some _ => replied v v' end) as H.
  { destruct (syscalls !! Z.to_nat n) as [f|]; [|by injection E]. apply (handlers_reply fuel f v) in E. by destruct f. }
  clear E. assert (v' = v ∨ replied v v') as Hv by (destruct (syscalls !! Z.to_nat n) as [[]|]; tauto).
  split_and!; try (destruct Hv as [->|(e & rs & _ & ->)]; reflexivity).
  assert (replied v v' → (∃ e, sv_a1 v' = num e) ∧ drop 3 (sv_args v') = drop 3 (sv_args v)) as Hr.
  { intros (e & rs & Hl & ->). split; [by exists e|]. rewrite sysret_args by (cbn; lia).
    destruct rs as [|? [|? [|? ?]]]; try reflexivity. cbn in Hl. lia. }
  destruct (syscalls !! Z.to_nat n) as [[]|]; first [by rewrite H | by apply Hr].
Qed.
End frame.

(** *** What a system call may do to the other processes *)

(** The map of the capabilities to objects of a type is well formed. *)
Definition map_wf (t : CapObjectType) (m : CapMap) : Prop := cm_wf (CO:=plain_object (W:=()) t) m.

Definition pcaps_ok (c : ProcCaps) : Prop :=
  map_wf FutexCap (pc_futex c) ∧ map_wf SMem (pc_smem c) ∧ map_wf Channel (pc_channels c) ∧ map_wf Key (pc_keys c).

(** [cm_wf] asks of the objects only their type. *)
Lemma map_wf_type {W} {CO : CapObject W} m : map_wf (@cap_object_type W CO) m ↔ cm_wf (CO:=CO) m.
Proof. split; intros [H1 H2]; by constructor. Qed.

Section isolation.
Context {B : Build} {AD : Addresses} {W : Type} {PM : PhysMem W} {FA : FrameAllocator W} {P : Cpu} {DV : Devices}.
Context (MAX_MAP_ADDR KERNEL_VMA : Z) (new_truncate : Z → Z).
Context (new_arc : gmap Z SharedMem → Z) (new_kfutex : gmap Z KFutex → Z) (new_thread_at : gmap Z Thread → Z).
Context (heap_room : Z → bool).

Abbreviation Kernel_ := (Kernel (W:=W)).

Definition caps_ok (k : Kernel_) : Prop := ∀ pid c, k_caps k !! pid = Some c → pcaps_ok c.

(** The capabilities and the address spaces of the other processes stay, and every map of
    capabilities stays well formed. *)
Definition only (pid : Z) (k k' : Kernel_) : Prop :=
  (∀ q, q ≠ pid → k_caps k' !! q = k_caps k !! q ∧ k_spaces k' !! q = k_spaces k !! q) ∧ (caps_ok k → caps_ok k').

#[local] Instance only_preorder pid : PreOrder (only pid).
Proof.
  split.
  - intros k. by split.
  - intros k1 k2 k3 [H1 H2] [H3 H4]. split; [|by eauto]. intros q Hq. destruct (H1 q Hq), (H3 q Hq). split; congruence.
Qed.

Definition affects (pid : Z) {T} (m : M Kernel_ T) : Prop := ∀ k x k', m k = Ret (x, k') → only pid k k'.

Lemma affects_ret pid {T} (x : T) : affects pid (mret x).
Proof. by intros k y k' [= <- <-]. Qed.
Lemma affects_lift pid {T} (r : res T) : affects pid (lift r).
Proof. intros k y k' E. unfold lift in E. dret E. by injection E as <- <-. Qed.
Lemma affects_bind pid {T U} (m : M Kernel_ T) (f : T → M Kernel_ U) :
  affects pid m → (∀ x, affects pid (f x)) → affects pid (m ≫= f).
Proof.
  intros Hm Hf k x k' E. apply M_bind_Ret_inv in E as (y & k1 & E1 & E2).
  etransitivity; [by eapply Hm|by eapply Hf].
Qed.

(** A state with the same capabilities and address spaces. *)
Lemma only_same pid (k k' : Kernel_) : k_caps k' = k_caps k → k_spaces k' = k_spaces k → only pid k k'.
Proof. intros H1 H2. unfold only, caps_ok. rewrite H1, H2. done. Qed.

Lemma affects_sched pid {T} (m : SM T) : affects pid (on_sched m).
Proof. intros k x k' E. unfold on_sched in E. dret E. destruct a. injection E as <- <-. by apply only_same. Qed.
Lemma affects_devs pid {T} (m : KM T) : affects pid (on_devs m).
Proof. intros k x k' E. unfold on_devs in E. dret E. destruct a as [? [? ?]]. injection E as <- <-. by apply only_same. Qed.

Lemma affects_get pid : affects pid get.
Proof. by intros k x k' [= <- <-]. Qed.
Lemma affects_objects pid {T} (f : CapObject Sched → M Kernel_ T) :
  (∀ n, affects pid (f (futex_object n))) → affects pid (KF ← futexes; f KF).
Proof. intros H k x k' E. unfold futexes, mbind, M_bind in E. by eapply H. Qed.

Lemma affects_vm pid {T} (m : VM (W:=W) T) : affects pid (on_vm pid m).
Proof.
  intros k x k' E. unfold on_vm in E. dret E. dret E. destruct a0 as [y v]. injection E as <- <-.
  split; [|done]. intros q Hq. cbn. by rewrite lookup_insert_ne.
Qed.

Lemma only_caps pid (k : Kernel_) c c' (k' : Kernel_) :
  k_caps k !! pid = Some c → (pcaps_ok c → pcaps_ok c') → k_caps k' = <[pid := c']> (k_caps k) →
  (∀ q, q ≠ pid → k_spaces k' !! q = k_spaces k !! q) → only pid k k'.
Proof.
  intros Hc Hok E Hs. split.
  - intros q Hq. rewrite E, lookup_insert_ne by done. split; [done|by apply Hs].
  - intros Hk q d. rewrite E. destruct (decide (pid = q)) as [<-|Hne].
    + rewrite lookup_insert_eq. intros [= <-]. apply Hok. by eapply Hk.
    + rewrite lookup_insert_ne by done. by apply Hk.
Qed.

Lemma affects_caps pid {T} (m : PCM (W:=Sched) T) :
  (∀ c s x c' s', m (c, s) = Ret (x, (c', s')) → pcaps_ok c → pcaps_ok c') → affects pid (on_caps pid m).
Proof.
  intros Hm k x k' E. unfold on_caps in E. dret E. dret E. destruct a0 as [y [c s]]. injection E as <- <-.
  destruct (k_caps k !! pid) as [c0|] eqn:Ec; [|done]. injection E0 as <-.
  eapply only_caps; [done| |reflexivity|done]. by eapply Hm.
Qed.

Lemma affects_futexes pid {T} (m : CM (W:=Sched) T) :
  (∀ f s x f' s', m (f, s) = Ret (x, (f', s')) → map_wf FutexCap f → map_wf FutexCap f') →
  affects pid (on_futexes pid m).
Proof.
  intros Hm. apply affects_caps. intros c s x c' s' E (H1 & H2 & H3 & H4). dret E. destruct a as [y [f w]].
  injection E as <- <- <-. split_and!; try done. by eapply Hm.
Qed.

Lemma affects_mp pid {T} (m : MP (W:=W) T) :
  (∀ s x s', m s = Ret (x, s') → map_wf SMem (mp_smem s) → map_wf SMem (mp_smem s')) → affects pid (on_mp pid m).
Proof.
  intros Hm k x k' E. unfold on_mp in E. dret E. dret E. dret E. destruct a1 as [y s]. injection E as <- <-.
  destruct (k_caps k !! pid) as [c0|] eqn:E3; [|done]. injection E0 as <-.
  eapply only_caps; [done| |reflexivity|].
  - intros (H1 & H2 & H3 & H4). split_and!; try done. by apply (Hm _ _ _ E2).
  - intros q Hq. cbn. by rewrite lookup_insert_ne.
Qed.

(** The calls on a map keep it well formed. *)
Lemma exec_keeps {W'} {CO : CapObject W'} o {T} (m : CM T) f w x s' :
  (∀ s, cap_exec o s = (_ ← m; mret ()) s) → match o with CInsert _ g => rights g | _ => True end →
  m (f, w) = Ret (x, s') → cm_wf f → cm_wf s'.1.
Proof.
  intros Ho Hr E Hf. apply (cap_exec_inv o f w s'); [done|done|]. rewrite Ho. unfold mbind, M_bind. by rewrite E.
Qed.

Lemma with_capmap_keeps (KF : CapObject Sched) {T} t (f : ∀ CO : CapObject Sched, CM (W:=Sched) T) c s x c' s' :
  @cap_object_type _ KF = FutexCap →
  (∀ CO m w y m' w', f CO (m, w) = Ret (y, (m', w')) → cm_wf (CO:=CO) m → cm_wf (CO:=CO) m') →
  with_capmap KF t f (c, s) = Ret (x, (c', s')) → pcaps_ok c → pcaps_ok c'.
Proof.
  intros HKF Hf E (H1 & H2 & H3 & H4).
  assert (∀ CO m w y m' w', f CO (m, w) = Ret (y, (m', w')) → map_wf (@cap_object_type _ CO) m → map_wf (@cap_object_type _ CO) m')
    as Hf' by (intros CO m w y m' w' E0; rewrite !map_wf_type; by eapply Hf).
  unfold with_capmap in E. destruct t; try done; dret E; destruct a as [y [m w]]; simplify_eq/=;
    split_and!; try done; apply Hf' in E0; try done; [|by rewrite HKF].
  by rewrite HKF in E0.
Qed.

Lemma cap_destroy_affects pid fuel a1 : affects pid (on_caps (W:=W) pid (sys_cap_destroy (futex_object fuel) a1)).
Proof.
  apply affects_caps. intros c s x c' s' E Hc. unfold sys_cap_destroy in E. dret E. dret E. injection E as _ Es. subst.
  unfold lift in E0. dret E0. injection E0 as <- <-.
  eapply (with_capmap_keeps (futex_object fuel)); [done| |exact E1|done]. cbn beta.
  intros CO m w y m' w' Em Hm. by apply (exec_keeps (CDestroy a1) _ _ _ _ _ ltac:(done) ltac:(done) Em).
Qed.

Lemma cap_clone_affects pid fuel a1 o : affects pid (on_caps (W:=W) pid (sys_cap_clone (futex_object fuel) a1 o)).
Proof.
  apply affects_caps. intros c s x c' s' E Hc. unfold sys_cap_clone in E. dret E. dret E. injection E as _ Es. subst.
  unfold lift in E0. dret E0. injection E0 as <- <-.
  eapply (with_capmap_keeps (futex_object fuel)); [done| |exact E1|done]. cbn beta.
  intros CO m w y m' w' Em Hm.
  by apply (exec_keeps (CClone a1 (from_bits_truncate CapFlags o)) _ _ _ _ _ ltac:(done) ltac:(done) Em).
Qed.

(** *** Shared memory *)
Definition smem_keeps {T} (m : MP (W:=W) T) : Prop := ∀ s x s', m s = Ret (x, s') → mp_smem s' = mp_smem s.

Lemma smem_keeps_bind {T U} (m : MP T) (f : T → MP U) : smem_keeps m → (∀ x, smem_keeps (f x)) → smem_keeps (m ≫= f).
Proof. intros Hm Hf s x s' E. apply M_bind_Ret_inv in E as (y & s1 & E1 & E2). rewrite (Hf _ _ _ _ E2). by eapply Hm. Qed.
Lemma smem_keeps_ret {T} (x : T) : smem_keeps (mret x).
Proof. by intros s y s' [= <- <-]. Qed.
Lemma smem_keeps_lift {T} (r : res T) : smem_keeps (lift r).
Proof. intros s y s' E. unfold lift in E. dret E. by injection E as <- <-. Qed.
Lemma smem_keeps_get : smem_keeps get.
Proof. by intros s y s' [= <- <-]. Qed.
Lemma smem_keeps_space {T} (m : VM (W:=W) T) : smem_keeps (on_space m).
Proof. intros s y s' E. unfold on_space in E. dret E. destruct a. by injection E as <- <-. Qed.
Lemma smem_keeps_obj p : smem_keeps (smem_obj p).
Proof. intros s y s' E. unfold smem_obj in E. destruct (mp_objects s !! p); [|done]. by injection E as <- <-. Qed.
Lemma smem_keeps_data p id d : smem_keeps (set_cap_map_data p id d).
Proof. by intros s y s' [= <- <-]. Qed.

Ltac smem_tac :=
  repeat match goal with
  | |- smem_keeps (_ ≫= _) => apply smem_keeps_bind; [|intros ?]
  | |- smem_keeps (mret _) => apply smem_keeps_ret
  | |- smem_keeps (lift _) => apply smem_keeps_lift
  | |- smem_keeps get => apply smem_keeps_get
  | |- smem_keeps (on_space _) => apply smem_keeps_space
  | |- smem_keeps (smem_obj _) => apply smem_keeps_obj
  | |- smem_keeps (set_cap_map_data _ _ _) => apply smem_keeps_data
  | |- smem_keeps (match ?x with _ => _ end) => destruct x
  end.

Lemma cap_map_keeps fuel a1 a2 : smem_keeps (sys_cap_map MAX_MAP_ADDR fuel a1 a2).
Proof. unfold sys_cap_map, cm_map, smem_map, cap_map_data. smem_tac. Qed.
Lemma cap_unmap_keeps fuel a1 : smem_keeps (sys_cap_unmap fuel a1).
Proof. unfold sys_cap_unmap, cm_unmap, smem_unmap, cap_map_data. smem_tac. Qed.

Lemma insert_keeps {W'} {CO : CapObject W'} object flags f w x s' :
  rights flags → (c ← cap_new object flags; cm_insert c) (f, w) = Ret (x, s') → cm_wf f → cm_wf s'.1.
Proof.
  intros Hr E. apply (exec_keeps (CInsert object flags) (c ← cap_new object flags; cm_insert c) f w x s'); [|done|exact E].
  intros s. cbn [cap_exec]. unfold mbind, M_bind. by destruct (cap_new object flags s) as [[c s1]| | |].
Qed.

Lemma option_rights o : rights (from_bits_truncate CapFlags o).
Proof. change (from_bits_truncate CapFlags o) with (id_flags o). rewrite id_flags_mod. apply Z.mod_pos_bound. lia. Qed.

Lemma smem_new_affects pid o arg : affects pid (on_mp (W:=W) pid (sys_smem_new new_arc o arg)).
Proof.
  apply affects_mp. intros s x s' E Hm. unfold sys_smem_new in E. dret E.
  apply smem_keeps_lift in E0. dret E.
  assert (mp_smem s1 = mp_smem s0) as Hs.
  { unfold smem_new in E1. dret E1. destruct a1 as [[m|] v]; by injection E1 as _ <-. }
  rewrite <- E0, <- Hs in Hm. destruct a0 as [p|]; [|by injection E as _ <-].
  dret E. injection E as _ <-. unfold insert_smem in E2. dret E2. rename E into Ei.
  match type of Ei with _ = Ret ?z => destruct z as [id [m w]] end. injection E2 as _ <-. cbn.
  apply insert_keeps in Ei; [by apply map_wf_type in Ei|apply option_rights|]. by apply map_wf_type.
Qed.

(** *** Futexes and threads *)
Lemma futex_new_affects pid : affects pid (k_futex_new (W:=W) new_kfutex pid).
Proof.
  unfold k_futex_new. intros k x k' E. apply M_bind_Ret_inv in E as (k0 & k1 & E0 & E). injection E0 as <- <-.
  apply M_bind_Ret_inv in E as ([] & k1 & E0 & E). injection E0 as <-.
  transitivity (kw_fuid ((k_next_fuid k + 1) mod U64) k); [by apply only_same|]. revert E.
  apply affects_bind; [apply affects_sched|]. intros _. apply affects_objects. intros n. apply affects_futexes.
  intros f s y f' s' E Hf.
  apply insert_keeps in E; [by apply map_wf_type in E|by unfold rights, CF_READ|by apply (map_wf_type (CO:=futex_object n))].
Qed.

Lemma futex_target_affects pid cid : affects pid (on_futexes (W:=W) pid (fm_target cid)).
Proof. apply affects_futexes. intros f s y f' s' E. by injection E as _ <- _. Qed.

Lemma futex_block_affects pid cid : affects pid (k_futex_block (W:=W) pid cid).
Proof.
  unfold k_futex_block. apply affects_bind; [apply futex_target_affects|]. intros [e|p]; [apply affects_ret|].
  apply affects_bind; [apply affects_sched|]. intros [|]; [|apply affects_ret].
  apply affects_bind; [apply affects_sched|]. intros [[|]|]; [|apply affects_ret|apply affects_lift].
  apply affects_bind; [apply affects_sched|]. intros. apply affects_ret.
Qed.

Lemma futex_unblock_affects pid cid n : affects pid (k_futex_unblock (W:=W) pid cid n).
Proof.
  apply affects_bind; [apply affects_get|]. intros k.
  apply affects_futexes. intros f s y f' s' E. unfold fm_unblock in E. dret E. injection E0 as <- <-.
  destruct (cm_data f !! cid) as [c|]; [destruct (flag_contains (c_flags c) CF_READ)|]; try by injection E as _ <- _.
  cbn beta iota in E. dret E. unfold on_world in E0. dret E0. destruct a0. injection E0 as <- <-. by injection E as _ <- _.
Qed.

Lemma new_thread_affects pid fuel uid regs :
  affects pid (k_new_thread (W:=W) MAX_MAP_ADDR new_thread_at fuel pid uid regs).
Proof.
  unfold k_new_thread. intros k x k' E. apply M_bind_Ret_inv in E as (k0 & k1 & E0 & E). injection E0 as <- <-. revert E.
  apply affects_bind; [apply affects_sched|]. intros pr.
  apply affects_bind; [apply affects_vm|]. intros t. apply affects_sched.
Qed.

Lemma fetch_affects pid q {T} (U : UserData T) ptr : affects pid (k_fetch (W:=W) KERNEL_VMA q U ptr).
Proof. intros k x k' E. unfold k_fetch in E. dret E. dret E. by injection E as <- <-. Qed.
Lemma string_affects pid q st : affects pid (k_string (W:=W) KERNEL_VMA heap_room q st).
Proof. intros k x k' E. unfold k_string in E. dret E. dret E. by injection E as <- <-. Qed.

(** *** The process that calls *)
Definition called (pid : Z) {T} (f : Z * PrivLevel → M Kernel_ T) : Prop := ∀ uid, affects pid (f (pid, uid)).

(** A handler asks once who calls. *)
Lemma by_caller {T} (f : Z * PrivLevel → M Kernel_ T) pid uid k k1 x k' :
  proc_c k = Ret ((pid, uid), k1) → called pid f → (p ← proc_c; f p) k = Ret (x, k') → only pid k k'.
Proof.
  intros Hp Hf E. rewrite (M_bind_Ret _ _ _ _ _ Hp) in E. transitivity k1.
  - eapply affects_sched. exact Hp.
  - by eapply Hf.
Qed.

Abbreviation run := (run_syscall (W:=W) MAX_MAP_ADDR KERNEL_VMA new_truncate new_arc new_kfutex new_thread_at heap_room).
Abbreviation dispatch_ := (dispatch (W:=W) MAX_MAP_ADDR KERNEL_VMA new_truncate new_arc new_kfutex new_thread_at heap_room).

Ltac affects_tac :=
  repeat first
    [ apply affects_ret | apply affects_lift | apply affects_sched | apply affects_vm | apply affects_devs
    | apply cap_destroy_affects | apply cap_clone_affects | apply smem_new_affects
    | apply futex_new_affects | apply futex_block_affects | apply futex_unblock_affects | apply new_thread_affects
    | apply fetch_affects | apply string_affects
    | apply affects_objects; intros ? | apply affects_bind; [|intros ?]
    | match goal with |- affects _ (match ?x with _ => _ end) => destruct x end ].

Lemma handlers_only fuel f v pid uid k k1 x k' :
  proc_c k = Ret ((pid, uid), k1) → run fuel f v k = Ret (x, k') → only pid k k'.
Proof.
  intros Hp E. destruct f; cbn [run_syscall] in E; try (by injection E as _ <-); try done;
    try (eapply by_caller; [exact Hp| |exact E]; intros u; cbn [fst snd]; unfold answer; affects_tac).
  - revert E. unfold k_print_debug. affects_tac.
  - apply affects_mp. intros s y s' E' Hm. by rewrite (cap_map_keeps _ _ _ _ _ _ E').
  - apply affects_mp. intros s y s' E' Hm. by rewrite (cap_unmap_keeps _ _ _ _ _ E').
Qed.

End isolation.

(** *** The numbers programs are given *)

(** The handler a number is named after. *)
Definition meant (n : SysNums) : option SyscallFunc :=
  match n with
  | PrintDebug => Some f_print_debug
  | ThreadNew => Some f_thread_new
  | ThreadBlock => Some f_thread_block
  | CapClone => Some f_cap_clone
  | CapDestroy => Some f_cap_destroy
  | _ => None
  end.

(** of the calls that both the table of the kernel and the numbers of [sys_consts]
    name, only [PrintDebug] has its own number; thirteen numbers are past the end of the
    table. *)
Theorem sysnums_spec n :
  (∀ f, meant n = Some f → (syscalls !! sysnum n = Some f ↔ n = PrintDebug)) ∧
  (syscalls !! sysnum n = None ↔ (42 <= sysnum n)%nat) ∧ (sysnum n < 55)%nat.
Proof.
  split_and!.
  - intros f Hf. destruct n; try discriminate; injection Hf as <-; vm_compute; split; congruence.
  - rewrite lookup_ge_None. done.
  - destruct n; vm_compute; lia.
Qed.

(** What programs built on those numbers would call. *)
Lemma sysnums_reach :
  syscalls !! sysnum CapClone = Some f_thread_block ∧ syscalls !! sysnum MemUnmap = Some f_cap_destroy ∧
  syscalls !! sysnum MemMap = Some f_mprotect ∧ syscalls !! sysnum ThreadNew = Some f_nop.
Proof. by vm_compute. Qed.

(** The reasons of [thread_block] are those of the library. *)
Lemma thread_reasons_agree pid s :
  block_state pid (get_vals s).1 (get_vals s).2 =
  Some (match s with
        | UYield => Running
        | UDestroy => Destroy
        | USleep n => Sleep n
        | UJoin n => Join (tuid_new pid n)
        end).
Proof. by destruct s. Qed.

(** *** Locks of the kernel *)
Section locks.
Context {B : Build} {AD : Addresses} {W : Type} {PM : PhysMem W} {FA : FrameAllocator W} {P : Cpu}.

Lemma fm_target_none pid (k : Kernel (W:=W)) c id :
  k_caps k !! pid = Some c → cm_data (pc_futex c) !! id = None →
  ∃ k', on_futexes pid (fm_target id) k = Ret (inl InvlId, k').
Proof.
  intros Hc Hid. unfold on_futexes, on_caps, fm_target. rewrite Hc. cbn [unwrap mbind res_bind fst]. rewrite Hid.
  cbn. by eexists.
Qed.

End locks.

(** ** Two processes on one processor *)
Section demo.
#[local] Existing Instance dev.
#[local] Instance first_cpu : Cpu := 0%nat.
#[local] Instance bump_mem : PhysMem Z := {
  zm_alloc n w := Ret (Some (mkAlloc w n 0), w + n);
  zm_dealloc _ w := Ret w;
}.
#[local] Instance mute_devices : Devices := {
  dev_in _ _ := 0; dev_read _ _ := 0; dev_timer_irq _ := false; dev_cpuid _ := (0, 0, 0, 0);
}.

Definition demo_running (pid : Z) : Thread :=
  mkThread pid (pid, 0) false 0 Running 0 regs_zero (SKernelNoAlloc (mkRange 0 0)) None.
Definition demo_proc (t : Z) : Process := mkProc true marker_new (PUser 7) 1 {[0 := t]} 1.
Definition demo_sched (t : Z) : Sched :=
  mkSched {[0x5000 := demo_running 1; 0x6000 := demo_running 2]} {[1 := demo_proc 0x5000; 2 := demo_proc 0x6000]}
    {[1; 2]} ∅ (mkTL [[t]] [] [[]] [] [] ∅ ∅ ∅ ∅) ∅ ∅.
Definition no_caps : ProcCaps := mkPCaps capmap_new capmap_new capmap_new capmap_new.

(** The thread at [t] runs. *)
Definition demo_kernel (t : Z) : Kernel (W:=Z) :=
  mkKernel (demo_sched t) {[1 := no_caps; 2 := no_caps]} {[1 := ([], 0x9000); 2 := ([], 0xa000)]}
    (mkPT ∅ 0x10000) ∅ 0 demo_cpu dev_new (λ _, None).

Definition demo_fresh {A} (m : gmap Z A) : Z := 0x100000 + Z.of_nat (size m).

Abbreviation demo_dispatch := (dispatch (W:=Z) demo_max demo_vma (λ a, a) demo_fresh demo_fresh demo_fresh (λ _, true)).
Definition demo_vals (a1 a2 : Z) : SyscallVals := mkVals 0 0 a1 a2 0 0 0 0 0 0 0 0 0x401000 0x7000 0x202.

Lemma no_caps_ok : pcaps_ok no_caps.
Proof. split_and!; apply capmap_new_wf. Qed.

Lemma demo_caps_ok t : caps_ok (demo_kernel t).
Proof.
  intros pid c Hc. change (k_caps (demo_kernel t)) with (<[1 := no_caps]> {[2 := no_caps]} : gmap Z ProcCaps) in Hc.
  apply lookup_insert_Some in Hc as [[_ <-]|[_ Hc]]; [apply no_caps_ok|].
  apply lookup_singleton_Some in Hc as [_ <-]. apply no_caps_ok.
Qed.

(** A futex is made: number 24. *)
Definition demo_made : SyscallVals * Kernel (W:=Z) :=
  match demo_dispatch 9 24 (demo_vals 0 0) (demo_kernel 0x5000) with
  | Ret ((_, v), k) => (v, k)
  | _ => (demo_vals 0 0, demo_kernel 0x5000)
  end.

Lemma demo_made_eq : demo_dispatch 9 24 (demo_vals 0 0) (demo_kernel 0x5000) = Ret ((false, demo_made.1), demo_made.2).
Proof. vm_compute. reflexivity. Qed.

Lemma demo_caller : ∃ k1, proc_c (demo_kernel 0x5000) = Ret ((1, PUser 7), k1).
Proof. eexists. vm_compute. reflexivity. Qed.

Lemma syscall_frame_witness : sv_a1 demo_made.1 = num Ok ∧ sv_rip demo_made.1 = 0x401000.
Proof.
  split; [vm_compute; reflexivity|].
  exact (proj1 (syscall_frame (W:=Z) demo_max demo_vma (λ a, a) demo_fresh demo_fresh demo_fresh (λ _, true)
    9 24 (demo_vals 0 0) (demo_kernel 0x5000) false demo_made.1 demo_made.2 demo_made_eq)).
Defined.


(** Process 1 made the futex of a lock; then process 2 runs, and waits for the same lock. *)
Definition demo_locked : Kernel (W:=Z) :=
  let k := demo_made.2 in kw_sched (with_tlist (mkTL [[0x6000]] [] [[]] [] [] ∅ ∅ ∅ (futexq (tlist (k_sched k)))) (k_sched k)) k.

End demo.
