(* ===== verification/Locks.v ===== *)
(** * Guards: [libutil/src/cell.rs], [RWFutex] of [libutil/src/futex.rs], [kernel/src/util/imutex.rs]

    [MemCell] and [RWFutex] keep one count: how many readers there are, or -1 for a
    writer.  Each operation is one atomic update of it, so threads interleave between
    operations; the guards alive are listed beside the state.  [cell_exclusion] and
    [rw_exclusion]: a writer is alone, and what a reader sees does not change under it.

    An [IMutex] is a spin lock taken with interrupts off. [imutex_scope]: a scope that locks
    one runs with the lock held and interrupts off, and leaves both as they were.
    [imutex_never_waits]: no interrupt handler finds a mutex that its own processor holds.

    [RWFutex] sleeps on its own address, which is no id of a futex: a contended one panics
    in the kernel ([rw_contended_panics]); the source says that it does not work. *)

From S2P Require Import Prelude Misc Sys Ranges Buddy PageTable VirtLayout VirtMapper.
From S2P Require Import CpuMarker Thread Int Time Sched Cap Syscall.

(** ** Atomic signed words *)
Definition isize_wrap (r : Z) : Z := (r + 2 ^ 63) mod 2 ^ 64 - 2 ^ 63.

Section count.
Context {B : Build}.

(** [a + b] on [isize]. *)
Definition iadd (a b : Z) : res Z :=
  let r := a + b in
  if (- 2 ^ 63 <=? r) && (r <? 2 ^ 63) then Ret r
  else if overflow_checks then Panic else Ret (isize_wrap r).

(** [fetch_update]: the word afterwards, and the old one, [Ok] when it was updated. *)
Definition fetch_update (f : Z → res (option Z)) (n : Z) : res (Z * (Z + Z)) :=
  o ← f n; Ret (match o with Some n' => (n', inr n) | None => (n, inl n) end).
Definition compare_exchange (current new n : Z) : Z * (Z + Z) :=
  if n =? current then (new, inr n) else (n, inl n).
Definition fetch_sub (k n : Z) : Z := isize_wrap (n - k).

(** The closures of [Reader::new] and [try_read]. *)
Definition one_reader_more (num : Z) : res (option Z) :=
  if num <? 0 then Ret None else n ← iadd num 1; Ret (Some n).
Definition one_more_if_not_writing (n : Z) : res (option Z) :=
  if 0 <=? n then n ← iadd n 1; Ret (Some n) else Ret None.
(** The closure of the drops of the guards of [RWFutex]. *)
Definition one_waiting_less (n : Z) : res (option Z) := if n =? 0 then Ret None else Ret (Some (n - 1)).

(** ** [MemCell] *)
Section cell.
Context {T : Type}.

Record MemCell := mkCell { cell_data : Z; cell_rw : Z }.
Inductive BorrowError := borrow_error.
Record Reader := mkReader { r_data : Z }.
Record Writer := mkWriter { w_data : Z }.

(** The objects in memory, and the cell. *)
Abbreviation CW := (gmap Z T * MemCell)%type.

Definition memcell_new (val : Z) : MemCell := mkCell val 0.

Definition reader_new : M CW (BorrowError + Reader) := λ '(h, c),
  '(n, r) ← fetch_update one_reader_more (cell_rw c);
  Ret (match r with inr _ => inr (mkReader (cell_data c)) | inl _ => inl borrow_error end, (h, mkCell (cell_data c) n)).
Definition reader_drop (self : Reader) : M CW () := λ '(h, c),
  Ret ((), (h, mkCell (cell_data c) (fetch_sub 1 (cell_rw c)))).
Definition writer_new : M CW (BorrowError + Writer) := λ '(h, c),
  let '(n, r) := compare_exchange 0 (-1) (cell_rw c) in
  Ret (match r with inr _ => inr (mkWriter (cell_data c)) | inl _ => inl borrow_error end, (h, mkCell (cell_data c) n)).
Definition writer_drop (self : Writer) : M CW () := λ '(h, c), Ret ((), (h, mkCell (cell_data c) 0)).

Definition on_memory {A} (m : M (gmap Z T) A) : M CW A := λ '(h, c), '(x, h) ← m h; Ret (x, (h, c)).
Definition reader_deref (self : Reader) : M CW T := on_memory (a ← as_ref_unwrap (r_data self); deref a).
Definition writer_deref (self : Writer) : M CW T := on_memory (a ← as_ref_unwrap (w_data self); deref a).
(** A use of [deref_mut]. *)
Definition writer_deref_mut (self : Writer) (f : T → T) : M CW () :=
  on_memory (a ← as_ref_unwrap (w_data self); store a f).

Definition try_borrow : M CW (BorrowError + Reader) := reader_new.
Definition try_borrow_mut : M CW (BorrowError + Writer) := writer_new.
Definition borrow : M CW Reader := r ← try_borrow; match r with inr g => mret g | inl _ => lift Panic end.
Definition borrow_mut : M CW Writer := r ← try_borrow_mut; match r with inr g => mret g | inl _ => lift Panic end.
End cell.

(** ** [RWFutex] *)
Section rw.
Context {T K : Type}.

(** The words of the lock, the data, and the rest of the machine. *)
Record RWFutex := mkRW { rw_count : Z; rw_waiting : Z; rw_data : T }.
Abbreviation RW := (RWFutex * K)%type.

(** [block] and [unblock], which other threads may run during, and the address of the lock. *)
Context (block_ unblock_ : Z → M RW ()) (self : Z).

Definition rw_new (data : T) : RWFutex := mkRW 0 0 data.
Definition with_count (n : Z) (f : RWFutex) : RWFutex := mkRW n (rw_waiting f) (rw_data f).
Definition with_waiting (n : Z) (f : RWFutex) : RWFutex := mkRW (rw_count f) n (rw_data f).

(** The guards are the lock itself. *)
Definition try_read : M RW (() + ()) := λ '(f, k),
  '(n, r) ← fetch_update one_more_if_not_writing (rw_count f);
  Ret (match r with inr _ => inr () | inl _ => inl () end, (with_count n f, k)).
Definition try_write : M RW (() + ()) := λ '(f, k),
  let '(n, r) := compare_exchange 0 (-1) (rw_count f) in
  Ret (match r with inr _ => inr () | inl _ => inl () end, (with_count n f, k)).

(** [self.waiting.fetch_add(1)]. *)
Definition add_waiting : M RW () := λ '(f, k), Ret ((), (with_waiting ((rw_waiting f + 1) mod U64) f, k)).

(** [loop]: [fuel] bounds the times a thread is woken. *)
Fixpoint acquire (try_ : M RW (() + ())) (fuel : nat) : M RW () :=
  match fuel with
  | O => lift NoFuel
  | S fuel =>
      r ← try_;
      match r with
      | inr _ => mret ()
      | inl _ => add_waiting;; block_ self;; acquire try_ fuel
      end
  end.
Definition rw_read : nat → M RW () := acquire try_read.
Definition rw_write : nat → M RW () := acquire try_write.

(** The two parts of the drops: the count, then the waiting threads. *)
Definition read_release : M RW () := λ '(f, k), Ret ((), (with_count (fetch_sub 1 (rw_count f)) f, k)).
Definition write_release : M RW () := λ '(f, k), Ret ((), (with_count 0 f, k)).
Definition wake_waiting : M RW (Z + Z) := λ '(f, k),
  '(n, r) ← fetch_update one_waiting_less (rw_waiting f); Ret (r, (with_waiting n f, k)).
Definition wake : M RW () := r ← wake_waiting; match r with inr _ => unblock_ self | inl _ => mret () end.
Definition read_guard_drop : M RW () := read_release;; wake.
Definition write_guard_drop : M RW () := write_release;; wake.

Definition rw_load : M RW T := λ '(f, k), Ret (rw_data f, (f, k)).
Definition rw_store (g : T → T) : M RW () := λ '(f, k), Ret ((), (mkRW (rw_count f) (rw_waiting f) (g (rw_data f)), k)).
End rw.
End count.

(** ** [IMutex] *)
Section imutex.
Context {T : Type}.

Record IMutex := mkIMutex { im_locked : bool; im_data : T }.
Abbreviation IW := (CpuState * IMutex)%type.

Definition imutex_new (data : T) : IMutex := mkIMutex false data.
Definition on_int {A} (m : M CpuState A) : M IW A := λ '(c, x), '(a, c) ← m c; Ret (a, (c, x)).
Definition set_locked (b : bool) : M IW () := λ '(c, x), Ret ((), (c, mkIMutex b (im_data x))).

(** [spin::Mutex::lock]: this processor waits for another to unlock. *)
Definition spin_lock : M IW () := λ '(c, x), if im_locked x then NoFuel else set_locked true (c, x).
Definition spin_try_lock : M IW bool := λ '(c, x), if im_locked x then Ret (false, (c, x)) else Ret (true, (c, mkIMutex true (im_data x))).

Definition imutex_lock : M IW IntDisable :=
  int_disable ← on_int intd_new; spin_lock;; mret int_disable.
(** The closure of [map], which owns [int_disable], is dropped when there is no guard. *)
Definition imutex_try_lock : M IW (option IntDisable) :=
  int_disable ← on_int intd_new;
  ok ← spin_try_lock;
  if ok : bool then mret (Some int_disable) else on_int (intd_drop int_disable);; mret None.

(** The fields of a guard, [MutexGuard] and [IntDisable], are dropped one after the other. *)
Inductive field := FMutex | FInt.
Definition guard_fields : list field := [FMutex; FInt].
Definition drop_field (g : IntDisable) (f : field) : M IW () :=
  match f with FMutex => set_locked false | FInt => on_int (intd_drop g) end.
Definition drop_fields (g : IntDisable) (fs : list field) : M IW () :=
  foldr (λ f rest, drop_field g f;; rest) (mret ()) fs.
Definition imutex_guard_drop (g : IntDisable) : M IW () := drop_fields g guard_fields.
Definition imutex_force_unlock : M IW () := set_locked false.

(** [let guard = m.lock(); body]. *)
Definition with_imutex {A} (body : M IW A) : M IW A :=
  g ← imutex_lock; a ← body; imutex_guard_drop g;; mret a.
End imutex.

(** ** The count *)
Inductive side := Reading | Writing.

(** The count of the guards alive: readers, or one writer. *)
Definition count_ok (n : Z) (l : list side) : Prop :=
  (n = Z.of_nat (length l) ∧ n < 2 ^ 63 ∧ Forall (eq Reading) l) ∨ (n = -1 ∧ l = [Writing]).

Section counting.
Context {B : Build} (Hdev : overflow_checks = true).

Lemma closures_agree n : one_reader_more n = one_more_if_not_writing n.
Proof. unfold one_reader_more, one_more_if_not_writing. zb; done. Qed.

Lemma readers_only l : Forall (eq Reading) l → Writing ∉ l.
Proof. intros H Hin. rewrite Forall_forall in H. by apply H in Hin. Qed.

Lemma acquire_read n l n' r :
  count_ok n l → fetch_update one_reader_more n = Ret (n', r) →
  match r with inr _ => count_ok n' (Reading :: l) ∧ Writing ∉ l | inl _ => n' = n ∧ l = [Writing] end.
Proof.
  unfold fetch_update, one_reader_more, iadd. rewrite Hdev. intros [(-> & Hlt & Hl)|[-> ->]] E.
  - rewrite (proj2 (Z.ltb_ge _ _)) in E by lia. destruct (Z.ltb_spec (Z.of_nat (length l) + 1) (2 ^ 63)).
    + rewrite (proj2 (Z.leb_le _ _)) in E by lia. injection E as <- <-. split; [|by apply readers_only].
      left. cbn [length]. split; [lia|]. split; [lia|]. by constructor.
    + rewrite andb_false_r in E. done.
  - injection E as <- <-. done.
Qed.

Lemma acquire_write n l :
  count_ok n l →
  compare_exchange 0 (-1) n = match l with [] => (-1, inr n) | _ => (n, inl n) end ∧
  (l = [] → count_ok (-1) [Writing]).
Proof.
  unfold compare_exchange. intros [(-> & Hlt & Hl)|[-> ->]]; (split; [|by right]); [|done].
  destruct l; [done|]. cbn [length]. by rewrite (proj2 (Z.eqb_neq _ _)) by lia.
Qed.

Lemma fetch_sub_ok n : 1 <= n <= 2 ^ 63 → fetch_sub 1 n = n - 1.
Proof. intros H. unfold fetch_sub, isize_wrap. rewrite Z.mod_small by lia. lia. Qed.

Lemma release_read n l1 l2 : count_ok n (l1 ++ Reading :: l2) → count_ok (fetch_sub 1 n) (l1 ++ l2).
Proof.
  intros [(Hn & Hlt & Hl)|[_ H]].
  - left. rewrite length_app in *. cbn [length] in Hn. rewrite fetch_sub_ok by lia.
    split; [lia|]. split; [lia|]. rewrite Forall_app, Forall_cons in Hl. rewrite Forall_app. tauto.
  - destruct l1 as [|a l1]; [done|]. injection H as -> H. by destruct l1.
Qed.

Lemma release_write n l1 l2 : count_ok n (l1 ++ Writing :: l2) → count_ok 0 (l1 ++ l2).
Proof.
  intros [(_ & _ & Hl)|[_ H]].
  - rewrite Forall_app, Forall_cons in Hl. by destruct Hl as (_ & ? & _).
  - destruct l1 as [|a l1]; [injection H as ->; left; by split_and!|]. injection H as -> H. by destruct l1.
Qed.

Lemma writer_alone n l : count_ok n l → Writing ∈ l → l = [Writing].
Proof. intros [(_ & _ & H)|[_ ->]] Hin; [by apply readers_only in H|done]. Qed.
End counting.

(** ** Who holds a [MemCell] *)
Section cell_safety.
Context {B : Build} (Hdev : overflow_checks = true) {T : Type}.

Abbreviation CW := (gmap Z T * MemCell)%type.

Inductive cell_guard := GReader (r : Reader) | GWriter (w : Writer).
Definition side_of (g : cell_guard) : side := match g with GReader _ => Reading | GWriter _ => Writing end.

(** An operation of any thread, with the guards alive before and after. *)
Inductive cell_step : CW * list cell_guard → CW * list cell_guard → Prop :=
  | cell_borrow s l r s' : try_borrow s = Ret (inr r, s') → cell_step (s, l) (s', GReader r :: l)
  | cell_no_borrow s l e s' : try_borrow s = Ret (inl e, s') → cell_step (s, l) (s', l)
  | cell_borrow_mut s l w s' : try_borrow_mut s = Ret (inr w, s') → cell_step (s, l) (s', GWriter w :: l)
  | cell_no_borrow_mut s l e s' : try_borrow_mut s = Ret (inl e, s') → cell_step (s, l) (s', l)
  | cell_read s l r x s' : GReader r ∈ l → reader_deref r s = Ret (x, s') → cell_step (s, l) (s', l)
  | cell_read_mut s l w x s' : GWriter w ∈ l → writer_deref w s = Ret (x, s') → cell_step (s, l) (s', l)
  | cell_write s l w f s' : GWriter w ∈ l → writer_deref_mut w f s = Ret ((), s') → cell_step (s, l) (s', l)
  | cell_drop s l1 r l2 s' : reader_drop r s = Ret ((), s') → cell_step (s, l1 ++ GReader r :: l2) (s', l1 ++ l2)
  | cell_drop_mut s l1 w l2 s' : writer_drop w s = Ret ((), s') → cell_step (s, l1 ++ GWriter w :: l2) (s', l1 ++ l2).

Definition cell_inv (s : CW * list cell_guard) : Prop := count_ok (cell_rw s.1.2) (List.map side_of s.2).

Lemma on_memory_cell {A} (m : M (gmap Z T) A) s x s' : on_memory m s = Ret (x, s') → s'.2 = s.2.
Proof. destruct s as [h c]. intros E. apply res_bind_Ret_inv in E as ([y h'] & _ & E). by injection E as _ <-. Qed.

Lemma cell_step_inv s s' : cell_step s s' → cell_inv s → cell_inv s'.
Proof.
  unfold cell_inv. intros Hs Hc.
  destruct Hs as [s l r s' E|s l e s' E|s l w s' E|s l e s' E|s l r x s' _ E|s l w x s' _ E|s l w f s' _ E|s l1 r l2 s' E|s l1 w l2 s' E];
    cbn [fst snd] in *.
  - destruct s as [h c]. apply res_bind_Ret_inv in E as ([n [o|o]] & Eu & E); [done|]. injection E as _ <-.
    eapply acquire_read in Eu as [H _]; [exact H|done|done].
  - destruct s as [h c]. apply res_bind_Ret_inv in E as ([n [o|o]] & Eu & E); [|done]. injection E as <-.
    eapply acquire_read in Eu as [-> _]; [exact Hc|done|done].
  - destruct s as [h c]. cbn [fst snd] in *. unfold try_borrow_mut, writer_new in E. destruct (acquire_write _ _ Hc) as [Ew Hw]. rewrite Ew in E.
    destruct l; [|done]. injection E as _ <-. by apply Hw.
  - destruct s as [h c]. cbn [fst snd] in *. unfold try_borrow_mut, writer_new in E. destruct (acquire_write _ _ Hc) as [Ew Hw]. rewrite Ew in E.
    destruct l; [done|]. injection E as <-. exact Hc.
  - apply on_memory_cell in E. by rewrite E.
  - apply on_memory_cell in E. by rewrite E.
  - apply on_memory_cell in E. by rewrite E.
  - destruct s as [h c]. injection E as <-. rewrite map_app in *. by apply release_read in Hc.
  - destruct s as [h c]. injection E as <-. rewrite map_app in *. by apply release_write in Hc.
Qed.

Lemma read_memory {A} (m : M (gmap Z T) A) s x s' :
  (∀ h y h', m h = Ret (y, h') → h' = h) → on_memory m s = Ret (x, s') → s'.1 = s.1.
Proof.
  intros Hm E. destruct s as [h c]. apply res_bind_Ret_inv in E as ([y h'] & E1 & E). injection E as _ <-. by apply Hm in E1.
Qed.

Lemma deref_keeps a (h : gmap Z T) x h' : (a ← as_ref_unwrap a; deref a) h = Ret (x, h') → h' = h.
Proof.
  unfold as_ref_unwrap, deref, mbind, M_bind. destruct (a =? 0); [done|]. destruct (h !! a) as [y|] eqn:E; [|done].
  cbn. rewrite E. by intros [= _ <-].
Qed.

Lemma side_elem (l : list cell_guard) w : GWriter w ∈ l → Writing ∈ List.map side_of l.
Proof. intros H. apply list_elem_of_fmap. by exists (GWriter w). Qed.

(** A step taken while a reader lives leaves the objects in memory alone. *)
Lemma reader_stable s s' r : cell_inv s → GReader r ∈ s.2 → cell_step s s' → s'.1.1 = s.1.1.
Proof.
  intros Hc Hr Hs. assert (∀ w, GWriter w ∉ s.2) as Hno.
  { intros w Hw. apply side_elem, (writer_alone _ _ Hc) in Hw.
    assert (Reading ∈ List.map side_of s.2) as H by (apply list_elem_of_fmap; by exists (GReader r)).
    rewrite Hw in H. by apply list_elem_of_singleton in H. }
  destruct Hs as [s l q s' E|s l e s' E|s l w s' E|s l e s' E|s l q x s' _ E|s l w x s' Hw E|s l w f s' Hw E|s l1 q l2 s' E|s l1 w l2 s' E];
    cbn [fst snd] in *; try by apply Hno in Hw.
  - destruct s as [h c]. apply res_bind_Ret_inv in E as ([n o] & _ & E). by injection E as _ <-.
  - destruct s as [h c]. apply res_bind_Ret_inv in E as ([n o] & _ & E). by injection E as _ <-.
  - destruct s as [h c]. unfold try_borrow_mut, writer_new in E. destruct (compare_exchange _ _ _). by injection E as _ <-.
  - destruct s as [h c]. unfold try_borrow_mut, writer_new in E. destruct (compare_exchange _ _ _). by injection E as _ <-.
  - eapply read_memory; [|exact E]. intros. by eapply deref_keeps.
  - destruct s as [h c]. by injection E as <-.
  - destruct s as [h c]. by injection E as <-.
Qed.

(** C13: in any interleaving of operations on a [MemCell], with overflow checks: a writer is
    the only guard alive; a mutable borrow succeeds exactly when no guard is alive, and a
    borrow that returns does so exactly when no writer is; as long as some reader lives,
    no operation of any thread changes the memory. *)
Theorem cell_exclusion (h : gmap Z T) val s l :
  rtc cell_step ((h, memcell_new val), []) (s, l) →
  (∀ w, GWriter w ∈ l → l = [GWriter w]) ∧
  (∃ r s', try_borrow_mut s = Ret (r, s') ∧ (is_Some (match r with inr w => Some w | inl _ => None end) ↔ l = [])) ∧
  (∀ r s', try_borrow s = Ret (r, s') → (is_Some (match r with inr g => Some g | inl _ => None end) ↔ ∀ w, GWriter w ∉ l)) ∧
  (∀ r s' l', GReader r ∈ l → cell_step (s, l) (s', l') → s'.1 = s.1).
Proof.
  intros Hr. assert (cell_inv (s, l)) as Hc.
  { assert (∀ x y, rtc cell_step x y → cell_inv x → cell_inv y) as Hrtc.
    { induction 1 as [x|x y z Hs _ IH]; [done|]. intros Hx. by apply IH, (cell_step_inv x). }
    apply (Hrtc _ _ Hr). left. by split_and!. }
  unfold cell_inv in Hc. cbn [fst snd] in Hc. split_and!.
  - intros w Hw. pose proof (writer_alone _ _ Hc (side_elem l w Hw)) as H.
    destruct l as [|g [|g' l]]; [by apply elem_of_nil in Hw| |done]. apply list_elem_of_singleton in Hw. by subst.
  - destruct s as [h' c]. cbn [fst snd] in *. unfold try_borrow_mut, writer_new. destruct (acquire_write _ _ Hc) as [-> _].
    destruct l; cbn [List.map]; eexists _, _; (split; [reflexivity|]); [split; [done|intros _; by eexists]|split; [by intros []|done]].
  - intros r s' E. destruct s as [h' c]. apply res_bind_Ret_inv in E as ([n o] & Eu & E). injection E as <- <-.
    eapply acquire_read in Eu; [|done|exact Hc]. destruct o as [o|o].
    + destruct Eu as [_ El]. split; [by intros []|]. intros Hno. destruct l as [|[r|w] [|]]; try done.
      exfalso. apply (Hno w). left.
    + destruct Eu as [_ Hno]. split; [|by eexists]. intros _ w Hw. by apply Hno, (side_elem l w).
  - intros r s' l' Hin Hs. exact (reader_stable (s, l) (s', l') r Hc Hin Hs).
Qed.
End cell_safety.

(** ** Who holds an [RWFutex] *)
Section rw_safety.
Context {B : Build} (Hdev : overflow_checks = true) {T K : Type}.
Abbreviation RW := (RWFutex (T:=T) * K)%type.

(** Each rule is one atomic operation of any thread; a guard stops being alive when its
    drop has put the count back, before it wakes anyone. *)
Inductive rw_step : RW * list side → RW * list side → Prop :=
  | rw_read_ok s l s' : try_read s = Ret (inr (), s') → rw_step (s, l) (s', Reading :: l)
  | rw_read_no s l s' : try_read s = Ret (inl (), s') → rw_step (s, l) (s', l)
  | rw_write_ok s l s' : try_write s = Ret (inr (), s') → rw_step (s, l) (s', Writing :: l)
  | rw_write_no s l s' : try_write s = Ret (inl (), s') → rw_step (s, l) (s', l)
  | rw_add_waiting s l s' : add_waiting s = Ret ((), s') → rw_step (s, l) (s', l)
  | rw_wake s l r s' : wake_waiting s = Ret (r, s') → rw_step (s, l) (s', l)
  | rw_see s l x s' : l ≠ [] → rw_load s = Ret (x, s') → rw_step (s, l) (s', l)
  | rw_set s l g s' : Writing ∈ l → rw_store g s = Ret ((), s') → rw_step (s, l) (s', l)
  | rw_read_end s l1 l2 s' : read_release s = Ret ((), s') → rw_step (s, l1 ++ Reading :: l2) (s', l1 ++ l2)
  | rw_write_end s l1 l2 s' : write_release s = Ret ((), s') → rw_step (s, l1 ++ Writing :: l2) (s', l1 ++ l2)
  | rw_others (f : RWFutex (T:=T)) k k' l : rw_step ((f, k), l) ((f, k'), l).

Definition rw_inv (s : RW * list side) : Prop := count_ok (rw_count s.1.1) s.2.

Lemma rw_step_inv s s' : rw_step s s' → rw_inv s → rw_inv s' ∧ (Reading ∈ s.2 → rw_data s'.1.1 = rw_data s.1.1).
Proof.
  unfold rw_inv. intros Hs Hc.
  destruct Hs as [s l s' E|s l s' E|s l s' E|s l s' E|s l s' E|s l r s' E|s l x s' _ E|s l g s' Hw E|s l1 l2 s' E|s l1 l2 s' E|f k k' l];
    try destruct s as [f k]; cbn [fst snd] in *.
  - apply res_bind_Ret_inv in E as ([n [o|o]] & Eu & E); [done|]. injection E as <-. split; [|done].
    unfold fetch_update in Eu. rewrite <- closures_agree in Eu. by eapply acquire_read in Eu as [H _].
  - apply res_bind_Ret_inv in E as ([n [o|o]] & Eu & E); [|done]. injection E as <-. split; [|done].
    unfold fetch_update in Eu. rewrite <- closures_agree in Eu. by eapply acquire_read in Eu as [-> _].
  - unfold try_write in E. destruct (acquire_write _ _ Hc) as [Ew Hw]. rewrite Ew in E.
    destruct l; [|done]. injection E as <-. split; [by apply Hw|done].
  - unfold try_write in E. destruct (acquire_write _ _ Hc) as [Ew Hw]. rewrite Ew in E.
    destruct l; [done|]. injection E as <-. by split.
  - injection E as <-. by split.
  - apply res_bind_Ret_inv in E as ([n o] & _ & E). injection E as _ <-. by split.
  - injection E as _ <-. by split.
  - injection E as <-. split; [done|]. intros Hr. pose proof (writer_alone _ _ Hc Hw) as ->. by apply list_elem_of_singleton in Hr.
  - injection E as <-. split; [by apply release_read in Hc|done].
  - injection E as <-. split; [by apply release_write in Hc|done].
  - by split.
Qed.

(** The same holds of an [RWFutex]: a writer is alone, the tries succeed exactly when they
    may, and the data does not change under a reader. *)
Lemma rw_exclusion (data : T) (k : K) s l :
  rtc rw_step ((rw_new data, k), []) (s, l) →
  (Writing ∈ l → l = [Writing]) ∧
  (∀ r s', try_write s = Ret (r, s') → (r = inr () ↔ l = [])) ∧
  (∀ r s', try_read s = Ret (r, s') → (r = inr () ↔ Writing ∉ l)) ∧
  (∀ s' l', Reading ∈ l → rw_step (s, l) (s', l') → rw_data s'.1 = rw_data s.1).
Proof.
  intros Hr. assert (rw_inv (s, l)) as Hc.
  { assert (∀ x y, rtc rw_step x y → rw_inv x → rw_inv y) as Hrtc.
    { induction 1 as [x|x y z Hs _ IH]; [done|]. intros Hx. by apply IH, (rw_step_inv x). }
    apply (Hrtc _ _ Hr). left. by split_and!. }
  unfold rw_inv in Hc. cbn [fst snd] in Hc. destruct s as [f k']. cbn [fst] in *. split_and!.
  - exact (writer_alone _ _ Hc).
  - intros r s' E. unfold try_write in E. rewrite (proj1 (acquire_write _ _ Hc)) in E.
    destruct l; injection E as <- _; by split.
  - intros r s' E. apply res_bind_Ret_inv in E as ([n o] & Eu & E). injection E as <- _.
    unfold fetch_update in Eu. rewrite <- closures_agree in Eu. eapply acquire_read in Eu; [|done|exact Hc].
    destruct o as [o|o].
    + destruct Eu as [_ ->]. split; [done|]. intros H. exfalso. apply H. left.
    + destruct Eu as [_ Hno]. by split.
  - intros s' l' Hin Hs. exact (proj2 (rw_step_inv _ _ Hs Hc) Hin).
Qed.

(** A contended lock waits through [block]; if that panics, so does the lock. *)
Lemma rw_contended_block block_ self try_ fuel (s s' : RW) :
  try_ s = Ret (inl (), s') →
  acquire block_ self try_ (S fuel) s =
    (block_ self;; acquire block_ self try_ fuel) (with_waiting ((rw_waiting s'.1 + 1) mod U64) s'.1, s'.2).
Proof. intros E. cbn [acquire]. rewrite (M_bind_Ret _ _ _ _ _ E). by destruct s'. Qed.
End rw_safety.

(** ** Mutexes and interrupts *)
Section imutex_safety.
Context {T : Type}.
Abbreviation IM := (IMutex (T:=T)).

Lemma imutex_lock_eq c (x : IM) :
  imutex_lock (c, x) =
    if im_locked x then NoFuel else Ret (mkIntd (int_on c), (mkCpu false (gs c), mkIMutex true (im_data x))).
Proof. destruct c as [on g], x as [[] d]; by destruct on. Qed.

Lemma imutex_try_lock_eq c (x : IM) :
  imutex_try_lock (c, x) =
    Ret (if im_locked x then (None, (c, x)) else (Some (mkIntd (int_on c)), (mkCpu false (gs c), mkIMutex true (im_data x)))).
Proof. destruct c as [on g], x as [[] d]; by destruct on. Qed.

Lemma imutex_drop_eq i c (x : IM) :
  imutex_guard_drop i (c, x) = Ret ((), (mkCpu (old_status i) (gs c), mkIMutex false (im_data x))).
Proof.
  unfold imutex_guard_drop, drop_fields, guard_fields, drop_field, set_locked, on_int, mbind, M_bind. cbn [foldr res_bind].
  rewrite intd_drop_spec. reflexivity.
Qed.

(** A scope that locks a free mutex: the body runs with the mutex held and interrupts off,
    and afterwards both are as they were; locking a mutex that is held waits, trying
    to does nothing, to the interrupts neither. *)
Lemma imutex_scope {A} (body : M (CpuState * IM) A) c x a c' x' :
  im_locked x = false →
  body (mkCpu false (gs c), mkIMutex true (im_data x)) = Ret (a, (c', x')) →
  with_imutex body (c, x) = Ret (a, (mkCpu (int_on c) (gs c'), mkIMutex false (im_data x'))).
Proof.
  intros Hx Hb. unfold with_imutex.
  assert (imutex_lock (c, x) = Ret (mkIntd (int_on c), (mkCpu false (gs c), mkIMutex true (im_data x)))) as El
    by (by rewrite imutex_lock_eq, Hx).
  rewrite (M_bind_Ret _ _ _ _ _ El), (M_bind_Ret _ _ _ _ _ Hb), (M_bind_Ret _ _ _ _ _ (imutex_drop_eq _ c' x')). done.
Qed.

(** What runs on a processor, innermost first: scopes that hold a mutex, with the fields of
    the guard that are still to be dropped, and interrupts. *)
Inductive hold := HMutex (m : Z) (g : IntDisable) (fs : list field) | HIrq.

(** The mutexes that are held. *)
Fixpoint mutexes (l : list hold) : list Z :=
  match l with
  | [] => []
  | HMutex m _ (FMutex :: _) :: l => m :: mutexes l
  | _ :: l => mutexes l
  end.

(** The processor, all mutexes, and the scopes. *)
Abbreviation PW := (CpuState * gmap Z IM * list hold)%type.

Inductive mutex_step : PW → PW → Prop :=
  | mx_lock c ms l m x g c' x' : ms !! m = Some x → imutex_lock (c, x) = Ret (g, (c', x')) →
      mutex_step (c, ms, l) (c', <[m := x']> ms, HMutex m g guard_fields :: l)
  | mx_try c ms l m x g c' x' : ms !! m = Some x → imutex_try_lock (c, x) = Ret (Some g, (c', x')) →
      mutex_step (c, ms, l) (c', <[m := x']> ms, HMutex m g guard_fields :: l)
  | mx_try_no c ms l m x c' x' : ms !! m = Some x → imutex_try_lock (c, x) = Ret (None, (c', x')) →
      mutex_step (c, ms, l) (c', <[m := x']> ms, l)
  (* the end of a scope, one field at a time *)
  | mx_drop c ms l m x g f fs c' x' : ms !! m = Some x → drop_field g f (c, x) = Ret ((), (c', x')) →
      mutex_step (c, ms, HMutex m g (f :: fs) :: l)
        (c', <[m := x']> ms, match fs with [] => l | _ => HMutex m g fs :: l end)
  | mx_write c ms l m x d : m ∈ mutexes l → ms !! m = Some x →
      mutex_step (c, ms, l) (c, <[m := mkIMutex (im_locked x) d]> ms, l)
  | mx_irq c ms l : int_on c = true → mutex_step (c, ms, l) (cpu_with_int false c, ms, HIrq :: l)
  | mx_iret c ms l : mutex_step (c, ms, HIrq :: l) (cpu_with_int true c, ms, l)
  (* what another processor does, with a mutex this one does not hold *)
  | mx_other c ms l m x : m ∉ mutexes l → mutex_step (c, ms, l) (c, <[m := x]> ms, l).

(** What the interrupt flag will be when the scopes have ended; a guard that is partly
    dropped has the flag left. *)
Fixpoint flags_ok (b0 now : bool) (l : list hold) : Prop :=
  match l with
  | [] => now = b0
  | HMutex _ g fs :: l => (fs = [FMutex; FInt] ∨ fs = [FInt]) ∧ now = false ∧ flags_ok b0 (old_status g) l
  | HIrq :: l => now = false ∧ flags_ok b0 true l
  end.

Record mutex_inv (b0 : bool) (s : PW) : Prop := {
  mi_flags : flags_ok b0 (int_on s.1.1) s.2;
  mi_held m : m ∈ mutexes s.2 → im_locked <$> s.1.2 !! m = Some true;
  mi_once : NoDup (mutexes s.2);
}.

Lemma held_insert l (ms : gmap Z IM) m x :
  (∀ n, n ∈ mutexes l → im_locked <$> ms !! n = Some true) → (m ∈ mutexes l → im_locked x = true) →
  ∀ n, n ∈ mutexes l → im_locked <$> <[m := x]> ms !! n = Some true.
Proof.
  intros H Hm n Hn. destruct (decide (m = n)) as [->|Hne].
  - rewrite lookup_insert_eq. cbn. by rewrite Hm.
  - rewrite lookup_insert_ne by done. by apply H.
Qed.

(** Locking a mutex that was free. *)
Lemma locked_inv b0 c ms l m x :
  mutex_inv b0 (c, ms, l) → ms !! m = Some x → im_locked x = false →
  mutex_inv b0 (mkCpu false (gs c), <[m := mkIMutex true (im_data x)]> ms, HMutex m (mkIntd (int_on c)) guard_fields :: l).
Proof.
  intros [Hf Hh Hn] Hm Hx. cbn [fst snd] in *. constructor; cbn [fst snd mutexes guard_fields].
  - split; [by left|]. by split.
  - intros n [->|Hin]%elem_of_cons; [by rewrite lookup_insert_eq|]. by apply (held_insert l).
  - apply NoDup_cons. split; [|done]. intros Hin. apply Hh in Hin. rewrite Hm in Hin. cbn in Hin. congruence.
Qed.

Lemma mutex_step_inv b0 s s' : mutex_step s s' → mutex_inv b0 s → mutex_inv b0 s'.
Proof.
  intros Hs Hi. pose proof Hi as [Hf Hh Hn].
  destruct Hs as [c ms l m x g c' x' Hm E|c ms l m x g c' x' Hm E|c ms l m x c' x' Hm E|c ms l m x g f fs c' x' Hm E|c ms l m x d Hin Hm
    |c ms l Hon|c ms l|c ms l m x Hno]; cbn [fst snd] in *.
  - rewrite imutex_lock_eq in E. destruct (im_locked x) eqn:Ex; [done|]. injection E as <- <- <-. by apply locked_inv.
  - rewrite imutex_try_lock_eq in E. destruct (im_locked x) eqn:Ex; [done|]. injection E as <- <- <-. by apply locked_inv.
  - rewrite imutex_try_lock_eq in E. destruct (im_locked x) eqn:Ex; [|done]. injection E as <- <-. by rewrite insert_id.
  - destruct Hf as ([[= -> ->]|[= -> ->]] & Hoff & Hf); cbn [mutexes] in *.
    + injection E as <- <-. apply NoDup_cons in Hn as [Hm' Hn].
      constructor; cbn [fst snd mutexes flags_ok]; [split; [by right|by split]| |done].
      apply held_insert; [|done]. intros n H. apply Hh. by right.
    + unfold drop_field, on_int in E. rewrite intd_drop_spec in E. injection E as <- <-.
      rewrite insert_id by done. by constructor.
  - constructor; cbn [fst snd]; [done| |done]. apply held_insert; [done|]. intros Hl. apply Hh in Hl. rewrite Hm in Hl. by injection Hl.
  - rewrite Hon in Hf. constructor; cbn [fst snd mutexes]; [by split|done|done].
  - cbn [mutexes flags_ok] in *. constructor; cbn [fst snd]; [apply Hf|done|done].
  - constructor; cbn [fst snd]; [done| |done]. by apply held_insert.
Qed.

Lemma flags_off b0 l : ∀ now, flags_ok b0 now l → now = true → mutexes l = [].
Proof.
  induction l as [|[m g fs|] l IH]; intros now H Hn; cbn [flags_ok mutexes] in *; [done| |].
  - destruct H as (_ & -> & _). done.
  - destruct H as [-> _]. done.
Qed.

Lemma irq_outermost b0 l1 l2 : ∀ now, flags_ok b0 now (l1 ++ HIrq :: l2) → mutexes l2 = [].
Proof.
  induction l1 as [|[m g fs|] l1 IH]; intros now H; cbn [app flags_ok] in H.
  - destruct H as [_ H]. by eapply flags_off.
  - destruct H as (_ & _ & H). by eapply IH.
  - destruct H as [_ H]. by eapply IH.
Qed.

(** C12: a processor that locks mutexes in scopes, takes interrupts when they are on, and
    runs beside others: every mutex it holds is locked, each once, and interrupts are off
    while there is one, also while its guard is dropped; so an interrupt handler never
    interrupts code that holds a mutex, and never waits for one that its own processor
    holds; when the scopes have ended interrupts are as they were. *)
Theorem imutex_never_waits c ms c' ms' l :
  rtc mutex_step (c, ms, []) (c', ms', l) →
  (∀ m, m ∈ mutexes l → im_locked <$> ms' !! m = Some true ∧ int_on c' = false) ∧
  NoDup (mutexes l) ∧
  (∀ l1 l2, l = l1 ++ HIrq :: l2 → mutexes l2 = []) ∧
  (l = [] → int_on c' = int_on c).
Proof.
  intros Hr. assert (mutex_inv (int_on c) (c', ms', l)) as [Hf Hh Hn].
  { assert (∀ x y, rtc mutex_step x y → mutex_inv (int_on c) x → mutex_inv (int_on c) y) as Hrtc.
    { induction 1 as [x|x y z Hs _ IH]; [done|]. intros Hx. by apply IH, (mutex_step_inv _ x). }
    apply (Hrtc _ _ Hr). constructor; cbn [fst snd mutexes]; [done|by intros m ?%elem_of_nil|constructor]. }
  cbn [fst snd] in *. split_and!; [|done| |].
  - intros m Hm. split; [by apply Hh|].
    destruct (int_on c') eqn:E; [|done]. rewrite (flags_off _ _ _ Hf eq_refl) in Hm. by apply elem_of_nil in Hm.
  - intros l1 l2 ->. by eapply irq_outermost.
  - intros ->. exact Hf.
Qed.

(** Guards that are not dropped in the order of scopes turn interrupts on too early: the
    guard of [a], dropped before that of [b], does. *)
Lemma drop_order g (a b : IM) :
  im_locked a = false → im_locked b = false →
  ∃ ga gb ca cb b' c', imutex_lock (mkCpu true g, a) = Ret (ga, ca) ∧ imutex_lock (ca.1, b) = Ret (gb, cb) ∧
    imutex_guard_drop ga (cb.1, ca.2) = Ret ((), (c', b')) ∧ im_locked cb.2 = true ∧ int_on c' = true.
Proof.
  destruct a as [[] da], b as [[] db]; intros Ha Hb; try done. do 6 eexists. split_and!; reflexivity.
Qed.
End imutex_safety.

(** ** A contended [RWFutex] in the kernel *)
Section kernel_locks.
Context {B : Build} {AD : Addresses} {W : Type} {PM : PhysMem W} {FA : FrameAllocator W} {P : Cpu} {T : Type}.

(** [crate::block]: the kernel's own lookup of the id. *)
Definition kernel_block (id : Z) : M (RWFutex (T:=T) * Kernel (W:=W)) () := λ '(f, k), '(_, k) ← util_block id k; Ret ((), (f, k)).

(** A lock that has to wait, of a process that has no futex whose id is the address of the
    lock, panics. *)
Lemma rw_contended_panics self fuel (f : RWFutex (T:=T)) (k k1 : Kernel (W:=W)) pid uid c :
  rw_count f = -1 → proc_c k = Ret ((pid, uid), k1) → k_caps k1 !! pid = Some c → cm_data (pc_futex c) !! self = None →
  rw_read kernel_block self (S fuel) (f, k) = Panic ∧ rw_write kernel_block self (S fuel) (f, k) = Panic.
Proof.
  intros Hf Hp Hc Hid.
  assert (∀ g : RWFutex (T:=T), kernel_block self (g, k) = Panic) as Hb.
  { intros g. unfold kernel_block, util_block. rewrite (M_bind_Ret _ _ _ _ _ Hp). cbn [fst].
    destruct (fm_target_none pid k1 c self Hc Hid) as [k' E]. unfold k_futex_block, mbind, M_bind. by rewrite E. }
  split; unfold rw_read, rw_write; erewrite rw_contended_block by
    (unfold try_read, try_write, fetch_update, one_more_if_not_writing, compare_exchange; rewrite Hf; reflexivity);
    cbn [fst snd]; unfold mbind, M_bind; by rewrite Hb.
Qed.
End kernel_locks.

(** ** Small runs *)
Section demo.
#[local] Existing Instance dev.

(** Two borrows of a cell, a third that wants to write. *)
Lemma cell_exclusion_witness :
  ∃ s l, rtc cell_step (({[8 := 5]} : gmap Z Z, memcell_new 8), []) (s, l) ∧ length l = 2%nat ∧
    (∀ w, GWriter w ∉ l) ∧ (∀ r s' l', GReader r ∈ l → cell_step (s, l) (s', l') → s'.1 = s.1).
Proof.
  exists (({[8 := 5]} : gmap Z Z), mkCell 8 2), [GReader (mkReader 8); GReader (mkReader 8)].
  assert (rtc cell_step (({[8 := 5]} : gmap Z Z, memcell_new 8), [])
    ((({[8 := 5]} : gmap Z Z), mkCell 8 2), [GReader (mkReader 8); GReader (mkReader 8)])) as Hr.
  { eapply rtc_l; [by apply cell_borrow|]. eapply rtc_l; [by apply cell_borrow|].
    eapply rtc_l; [by eapply cell_no_borrow_mut|]. apply rtc_refl. }
  split; [exact Hr|]. split; [reflexivity|].
  destruct (cell_exclusion eq_refl ({[8 := 5]} : gmap Z Z) 8 _ _ Hr) as (H1 & _ & _ & H4). split; [|exact H4].
  intros w Hw. discriminate (H1 w Hw).
Defined.

(** A mutex locked in an interrupt. *)
Lemma imutex_never_waits_witness :
  ∃ c' ms' g, rtc mutex_step (demo_cpu, {[1 := imutex_new 7]}, []) (c', ms', [HMutex 1 g guard_fields; HIrq]) ∧
    im_locked <$> ms' !! 1 = Some true ∧ int_on c' = false.
Proof.
  assert (∃ c' ms' g, rtc mutex_step (demo_cpu, {[1 := imutex_new 7]}, []) (c', ms', [HMutex 1 g guard_fields; HIrq])) as (c' & ms' & g & Hr).
  { eexists _, _, _. eapply rtc_l; [by apply mx_irq|]. eapply rtc_l; [|apply rtc_refl].
    eapply mx_lock; [by apply lookup_singleton_eq|]. reflexivity. }
  exists c', ms', g. split; [exact Hr|].
  exact (proj1 (imutex_never_waits _ _ _ _ _ Hr) 1 ltac:(left)).
Defined.

(** Without overflow checks, a reader too many makes the count that of a writer. *)
Example reader_overflow : fetch_update (one_reader_more (B:=release)) (2 ^ 63 - 1) = Ret (- 2 ^ 63, inr (2 ^ 63 - 1)).
Proof. reflexivity. Qed.
End demo.
