(* ===== verification/SyscallSafe.v ===== *)
(** * System calls and the scheduler

    [Syscall] runs the handlers on the whole kernel; [SchedSafe] shows that the scheduler
    survives any order of its events.  Here the two meet: what a system call does to the
    list of threads and to the futexes is a sequence of those events, so that
    [SchedSafe.sched_safe] speaks of every state the system calls lead to
    ([syscalls_keep_sched]). *)

From Stdlib Require Import String.
From S2P Require Import Prelude Misc Sys Ranges Buddy PageTable VirtLayout VirtMapper UData CpuMarker.
From S2P Require Import Thread Int Time Console Sched SchedInv SchedSafe Cap MemSys Syscall.

(** ** Futexes stay *)
Definition grows {T} (m : SM T) : Prop :=
  ∀ s x s', m s = Ret (x, s') → ∀ p, is_Some (kfutexes s !! p) → is_Some (kfutexes s' !! p).

Lemma grows_ret {T} (x : T) : grows (mret x).
Proof. by intros s y s' [= <- <-]. Qed.
Lemma grows_lift {T} (r : res T) : grows (lift r).
Proof. intros s y s' E. unfold lift in E. dret E. by injection E as <- <-. Qed.
Lemma grows_get : grows get.
Proof. by intros s y s' [= <- <-]. Qed.
Lemma grows_bind {T U} (m : SM T) (f : T → SM U) : grows m → (∀ x, grows (f x)) → grows (m ≫= f).
Proof.
  intros Hm Hf s x s' E p Hp. apply M_bind_Ret_inv in E as (y & s1 & E1 & E2). eapply Hf; [done|]. by eapply Hm.
Qed.
Lemma grows_modify f : (∀ s p, is_Some (kfutexes s !! p) → is_Some (kfutexes (f s) !! p)) → grows (modify f).
Proof. intros H s y s' [= <- <-]. by apply H. Qed.
Lemma grows_put p f : grows (kf_put p f).
Proof.
  apply grows_modify. intros s q Hq. cbn. destruct (decide (p = q)) as [<-|Hne].
  - rewrite lookup_insert_eq. by eexists.
  - by rewrite lookup_insert_ne.
Qed.
Lemma grows_thread a : grows (the_thread a).
Proof. intros s y s' E. unfold the_thread in E. destruct (threads s !! a); [|done]. by injection E as <- <-. Qed.
Lemma grows_push a k q : grows (push a k q).
Proof. intros s y s' E. unfold push in E. destruct (decide _); [done|]. by injection E as <- <-. Qed.
Lemma grows_tl_get {P : Cpu} st : grows (tl_get st).
Proof.
  intros s y s' E. unfold tl_get in E. dret E. destruct (qget a (tlist s)); [by injection E as <- <-|].
  destruct (per_cpu a); [done|]. by injection E as <- <-.
Qed.

Ltac grows_tac :=
  repeat first
    [ apply grows_ret | apply grows_lift | apply grows_get | apply grows_put | apply grows_thread | apply grows_push
    | apply grows_tl_get | apply grows_modify; done
    | apply grows_bind; [|intros ?]
    | match goal with |- grows (match ?x with _ => _ end) => destruct x end ].

Section grows.
Context {P : Cpu}.

Lemma grows_ensure st : grows (ensure st).
Proof. destruct st; cbn [ensure]; unfold tl_set; grows_tac. Qed.
Lemma grows_set_state a st : grows (set_state a st).
Proof. unfold set_state, thread_put. grows_tac. Qed.
Lemma grows_block st : grows (block st).
Proof.
  destruct st; cbn [block]; try apply grows_ret; (apply grows_bind; [apply grows_ensure|intros _]);
    unfold block_mark, thread_c, tl_index; grows_tac; apply grows_set_state.
Qed.
Lemma grows_new_thread pid build : grows (new_thread_regs pid build).
Proof. unfold new_thread_regs, next_tid, insert_thread, proc_put, the_process, tl_index. grows_tac. Qed.
Lemma grows_insert_into a : grows (insert_into a).
Proof. unfold insert_into, state, tl_index. grows_tac. Qed.

Lemma grows_move_loop fuel old new count : ∀ i, grows (move_loop fuel old new i count).
Proof.
  induction fuel as [|fuel IH]; intros i; cbn [move_loop]; [apply grows_lift|].
  destruct (count <=? i); [apply grows_ret|]. unfold pop_front, tl_index, tl_set. grows_tac;
    first [apply grows_set_state | apply grows_insert_into | apply IH].
Qed.
Lemma grows_state_move fuel old new n : grows (inner_state_move fuel old new n).
Proof.
  unfold inner_state_move. destruct (is_running new), (is_running old); try apply grows_lift.
  apply grows_bind; [apply grows_tl_get|]. intros [?|]; (apply grows_bind; [apply grows_tl_get|]); intros [?|];
    first [apply grows_ret | apply grows_move_loop].
Qed.
Lemma grows_dealloc st : grows (dealloc_state st).
Proof. destruct st; cbn [dealloc_state]; grows_tac. Qed.
Lemma grows_destroy fuel p : grows (kf_destroy fuel p).
Proof.
  unfold kf_destroy, state_move, kf.
  apply grows_bind; [grows_tac|intros f]. apply grows_bind; [apply grows_put|intros _].
  apply grows_bind; [apply grows_bind; [apply grows_ensure|intros _; apply grows_state_move]|intros n].
  apply grows_bind; [apply grows_dealloc|intros _; apply grows_ret].
Qed.
Lemma grows_dec_ref fuel p : grows (kf_dec_ref fuel p).
Proof.
  unfold kf_dec_ref, kf. apply grows_bind; [grows_tac|intros f]. apply grows_bind; [apply grows_put|intros _].
  destruct (kf_ref_count f =? 0); [|apply grows_ret]. apply grows_bind; [apply grows_destroy|intros _; apply grows_ret].
Qed.
End grows.

(** ** The processor that wakes does not matter *)
Lemma wake_cpu (c c' : Cpu) a {T} (m m' : SM T) s :
  (∀ s, m s = m' s) →
  (set_state a Ready;; insert_into (P:=c) a;; m) s = (set_state a Ready;; insert_into (P:=c') a;; m') s.
Proof.
  intros Hm. unfold set_state, thread_put, insert_into, state, the_thread, modify, mbind, M_bind.
  destruct (threads s !! a) as [t|]; [|done]. cbn [with_threads threads]. rewrite lookup_insert_eq.
  cbn [mret M_ret th_with_state th_state].
  change (tl_index (P:=c) Ready) with (tl_index (P:=c') Ready).
  destruct (tl_index Ready _) as [[[k q] s1]| | |]; [|done..]. destruct (push a k q s1) as [[[] s2]| | |]; [|done..].
  apply Hm.
Qed.

Lemma move_loop_cpu (c c' : Cpu) fuel p count : ∀ i s,
  move_loop (P:=c) fuel (FutexBlock p) Ready i count s = move_loop (P:=c') fuel (FutexBlock p) Ready i count s.
Proof.
  induction fuel as [|fuel IH]; intros i s; cbn [move_loop]; [done|]. destruct (count <=? i); [done|].
  change (pop_front (P:=c) (FutexBlock p)) with (pop_front (P:=c') (FutexBlock p)).
  unfold mbind at 1 4, M_bind at 1 4. destruct (pop_front (FutexBlock p) s) as [[[a|] s1]| | |]; [|done..].
  apply wake_cpu, IH.
Qed.

Lemma state_move_cpu (c c' : Cpu) fuel p n s :
  inner_state_move (P:=c) fuel (FutexBlock p) Ready n s = inner_state_move (P:=c') fuel (FutexBlock p) Ready n s.
Proof.
  unfold inner_state_move. cbn [is_running].
  change (tl_get (P:=c)) with (@tl_get c). unfold mbind, M_bind.
  change (tl_get (P:=c) (FutexBlock p)) with (tl_get (P:=c') (FutexBlock p)).
  change (tl_get (P:=c) Ready) with (tl_get (P:=c') Ready).
  destruct (tl_get (FutexBlock p) s) as [[o s1]| | |]; [|done..]. destruct (tl_get Ready s1) as [[o' s2]| | |]; [|done..].
  destruct o, o'; try done. apply move_loop_cpu.
Qed.

Lemma kf_unblock_cpu (c c' : Cpu) fuel p n s : kf_unblock (P:=c) fuel p n s = kf_unblock (P:=c') fuel p n s.
Proof.
  unfold kf_unblock, mbind, M_bind. destruct (kf p s) as [[f s1]| | |]; [|done..].
  destruct (kf_put _ _ s1) as [[[] s2]| | |]; [|done..]. apply state_move_cpu.
Qed.

Lemma kf_dec_ref_cpu (c c' : Cpu) fuel p s : kf_dec_ref (P:=c) fuel p s = kf_dec_ref (P:=c') fuel p s.
Proof.
  unfold kf_dec_ref, mbind, M_bind. destruct (kf p s) as [[f s1]| | |]; [|done..].
  destruct (kf_put _ _ s1) as [[[] s2]| | |]; [|done..]. destruct (kf_ref_count f =? 0); [|done].
  unfold kf_destroy, state_move, mbind, M_bind. destruct (kf p s2) as [[f' s3]| | |]; [|done..].
  destruct (kf_put _ _ s3) as [[[] s4]| | |]; [|done..]. cbn [ensure]. cbn [mret M_ret].
  rewrite (state_move_cpu c c'). destruct (inner_state_move _ _ _ _ s4) as [[x s5]| | |]; [|done..]. done.
Qed.

(** ** Calls as events *)
Section kernel_safe.
Context {B : Build} {AD : Addresses} {W : Type} {PM : PhysMem W} {FA : FrameAllocator W} {P : Cpu} {DV : Devices}.
Context (MAX_MAP_ADDR KERNEL_VMA : Z) (new_truncate : Z → Z).
Context (new_arc : gmap Z SharedMem → Z) (new_kfutex : gmap Z KFutex → Z) (new_thread_at : gmap Z Thread → Z).
Context (heap_room : Z → bool).

(** The heap gives addresses that are not in use. *)
Hypothesis Hfutex : ∀ m, new_kfutex m ≠ 0 ∧ m !! new_kfutex m = None.
Hypothesis Hthread : ∀ m, m !! new_thread_at m = None.

Abbreviation Kernel_ := (Kernel (W:=W)).

(** The futexes that capabilities name exist. *)
Definition caps_live (caps : gmap Z ProcCaps) (fs : gmap Z KFutex) : Prop :=
  ∀ pid c id cap, caps !! pid = Some c → cm_data (pc_futex c) !! id = Some cap →
    c_object cap ≠ 0 ∧ is_Some (fs !! c_object cap).

(** No process has run out of thread ids. *)
Definition tids_left (s : Sched) : Prop :=
  ∀ pid p, procs s !! pid = Some p →
    0 <= p_next_tid p ∧ p_next_tid p + 1 < U64 ∧ p_threads p !! p_next_tid p = None.

Definition kernel_ok (held : list Z) (k : Kernel_) : Prop :=
  reachable (k_sched k, held) ∧ caps_live (k_caps k) (kfutexes (k_sched k)) ∧ caps_ok k.

Lemma event_reach e s held {T} (m : SM T) x s' :
  exec_event e (s, held) = keep m (s, held) → reachable (s, held) → allowed e s → m s = Ret (x, s') → reachable (s', held).
Proof.
  intros He Hr Ha E. apply (reach_step e (s, held)); [done|done|]. rewrite He. unfold keep. cbn [fst snd]. by rewrite E.
Qed.

(** *** The parts of the calls *)

Lemma block_reach st s held x s' :
  reachable (s, held) → valid_state (kfutexes s) st → block st s = Ret (x, s') → reachable (s', held).
Proof.
  intros Hr Hv E. assert (st = Running ∧ s' = s ∨ (ensure st;; block_mark st;; mret true) s = Ret (x, s')) as [[_ ->]|E'].
  { destruct st; cbn [block] in E; [|by right..]. left. by injection E as _ <-. }
  { done. }
  clear E. apply M_bind_Ret_inv in E' as ([] & s1 & E1 & E). apply M_bind_Ret_inv in E as ([] & s2 & E2 & E). injection E as _ <-.
  assert (reachable (s1, held)) as Hr1.
  { apply (event_reach (EEnsure st) s held (ensure st) () s1); [|done|done|done]. by destruct st. }
  apply (event_reach (EMark prid st) s1 held (block_mark st) () s2); [done|done| |done].
  cbn [allowed]. pose proof (grows_ensure st s () s1 E1) as Hg. destruct st; try done. destruct Hv as [? ?]. split; [done|by apply Hg].
Qed.

Lemma unblock_reach p n s held x s' :
  reachable (s, held) → 0 <= n → p ≠ 0 → is_Some (kfutexes s !! p) →
  kf_unblock (S (length (all_queued (tlist s)))) p n s = Ret (x, s') → reachable (s', held).
Proof.
  intros Hr Hn Hp Hf E. rewrite (kf_unblock_cpu P 0%nat) in E.
  by apply (event_reach (EFutexUnblock p n) s held (kf_unblock (P:=0%nat) (S (length (all_queued (tlist s)))) p n) x s').
Qed.

Lemma dec_ref_reach p s held s' :
  reachable (s, held) → p ≠ 0 → is_Some (kfutexes s !! p) →
  kf_dec_ref (S (length (all_queued (tlist s)))) p s = Ret ((), s') → reachable (s', held).
Proof.
  intros Hr Hp Hf E. rewrite (kf_dec_ref_cpu P 0%nat) in E.
  by apply (event_reach (EFutexDecRef p) s held (kf_dec_ref (P:=0%nat) (S (length (all_queued (tlist s)))) p) () s').
Qed.

Lemma inc_ref_reach p s held s' :
  reachable (s, held) → p ≠ 0 → is_Some (kfutexes s !! p) → kf_inc_ref p s = Ret ((), s') → reachable (s', held).
Proof. intros Hr Hp Hf E. by apply (event_reach (EFutexIncRef p) s held (kf_inc_ref p) () s'). Qed.

(** *** The process that calls, unchanged *)
Lemma reads_thread a s t s' : the_thread a s = Ret (t, s') → s' = s ∧ threads s !! a = Some t.
Proof. unfold the_thread. destruct (threads s !! a) eqn:E; [|done]. by intros [= <- <-]. Qed.

Lemma reads_thread_c s a s' : thread_c s = Ret (a, s') → s' = s.
Proof.
  unfold thread_c, tl_index. intros E. apply M_bind_Ret_inv in E as ([kk q] & s1 & E & E1).
  apply M_bind_Ret_inv in E as (o & s2 & E2 & E).
  assert (∀ T (r : res T) s x s', (lift r : SM T) s = Ret (x, s') → s' = s) as Hl
    by (intros T r s0 x s0' H; unfold lift in H; destruct r; [|done..]; by injection H).
  apply Hl in E, E1. subst s' s1. unfold tl_get in E2. apply res_bind_Ret_inv in E2 as (kq & _ & E2).
  destruct (qget kq (tlist s)); [by injection E2|]. destruct (per_cpu kq); [done|]. by injection E2.
Qed.

Lemma proc_c_inv (k : Kernel_) r k1 : proc_c k = Ret (r, k1) → k1 = k ∧ is_Some (procs (k_sched k) !! r.1).
Proof.
  unfold proc_c, on_sched. intros E. apply res_bind_Ret_inv in E as ([y s] & E & Ey). injection Ey as <- <-.
  apply M_bind_Ret_inv in E as (a & s1 & E1 & E). apply reads_thread_c in E1 as ->.
  apply M_bind_Ret_inv in E as (t & s2 & E2 & E). apply reads_thread in E2 as [-> Ht].
  apply M_bind_Ret_inv in E as (o & s3 & E3 & E). unfold process in E3.
  apply M_bind_Ret_inv in E3 as (t' & s4 & E4 & E3). apply reads_thread in E4 as [-> Ht']. injection E3 as <- <-.
  apply M_bind_Ret_inv in E as (p & s5 & E5 & E). injection E as <- <-. simplify_eq.
  unfold lift in E5. apply res_bind_Ret_inv in E5 as (p' & E5 & E6). injection E6 as <- <-.
  split; [by destruct k|]. cbn. by destruct (procs (k_sched k) !! th_process t).
Qed.

(** *** Capabilities to futexes *)
Lemma inc_ref_inv n p (f : CapMap) s x s' :
  on_obj (inc_ref (CapObject:=futex_object n) p) (f, s) = Ret (x, s') → s'.1 = f ∧ kf_inc_ref p s = Ret ((), s'.2).
Proof.
  unfold on_obj. intros E. apply res_bind_Ret_inv in E as (w & E & Es). injection Es as _ <-. cbn [fst snd] in *.
  split; [done|]. cbn [inc_ref futex_object] in E. apply res_bind_Ret_inv in E as ([[] s1] & E & Es). by injection Es as <-.
Qed.

Lemma destroy_futex n id f s b f' s' :
  cm_destroy (CO:=futex_object n) id (f, s) = Ret (b, (f', s')) →
  cm_data f' = delete id (cm_data f) ∧
  match cm_data f !! id with None => s' = s | Some c => kf_dec_ref n (c_object c) s = Ret ((), s') end.
Proof.
  unfold cm_destroy, cm_remove, mbind, M_bind. cbn [fst snd]. destruct (cm_data f !! id) as [c|]; [|by intros [= _ <- <-]].
  unfold cap_drop, on_obj. cbn [fst snd dec_ref futex_object].
  destruct (kf_dec_ref n (c_object c) s) as [[[] s1]| | |]; [|done..]. by intros [= _ <- <-].
Qed.

Lemma insert_futex n c f s id f' s' :
  map_wf FutexCap f → rights (c_flags c) → cm_insert (CO:=futex_object n) c (f, s) = Ret (id, (f', s')) →
  s' = s ∧ cm_data f' = <[id := mkCap (c_object c) (c_flags c) id]> (cm_data f).
Proof.
  intros Hf Hr E. apply (map_wf_type (CO:=futex_object n)) in Hf.
  destruct (cm_insert_ok c f s Hf Hr) as [(_ & id' & _ & _ & E' & _)|[_ E']]; rewrite E' in E; [|done].
  by injection E as <- <- <-.
Qed.

Lemma clone_futex n id fl f s o f' s' :
  map_wf FutexCap f → cm_clone_cap (CO:=futex_object n) id fl (f, s) = Ret (o, (f', s')) →
  match cm_data f !! id with
  | None => f' = f ∧ s' = s
  | Some c => kf_inc_ref (c_object c) s = Ret ((), s') ∧
      ∃ i d, cm_data f' = <[i := d]> (cm_data f) ∧ c_object d = c_object c
  end.
Proof.
  intros Hf E. unfold cm_clone_cap in E. apply M_bind_Ret_inv in E as (st & s1 & E1 & E). injection E1 as <- <-. cbn [fst] in E.
  destruct (cm_data f !! id) as [c|] eqn:Ec; [|by injection E as _ <- <-].
  apply M_bind_Ret_inv in E as (c1 & [f1 s1] & E1 & E). apply M_bind_Ret_inv in E as (i & [f2 s2] & E2 & E).
  injection E as _ <- <-. apply and_from_flags_inv in E1 as Hc. destruct Hc as [-> Hf1]. cbn [fst] in Hf1. subst f1.
  apply insert_futex in E2 as [-> Ed]; [|done|apply rights_land; apply (wf_cap _ Hf _ _ Ec)].
  split; [|by eexists i, _].
  unfold and_from_flags, cap_clone in E1. apply M_bind_Ret_inv in E1 as (c2 & s3 & E1 & E3). unfold mret, M_ret in E3.
  assert (s3 = (f, s1)) as -> by congruence. apply M_bind_Ret_inv in E1 as ([] & s4 & E1 & E4). unfold mret, M_ret in E4.
  assert (s4 = (f, s1)) as -> by congruence. by apply inc_ref_inv in E1 as [_ E1].
Qed.

Lemma live_delete pid c id f' (caps : gmap Z ProcCaps) fs :
  caps_live caps fs → caps !! pid = Some c → cm_data f' = delete id (cm_data (pc_futex c)) →
  caps_live (<[pid := mkPCaps f' (pc_smem c) (pc_channels c) (pc_keys c)]> caps) fs.
Proof.
  intros Hl Hc Ef q d i cap. destruct (decide (pid = q)) as [<-|Hne].
  - rewrite lookup_insert_eq. intros [= <-]. cbn. rewrite Ef. intros [_ Hi]%lookup_delete_Some. by eapply Hl.
  - rewrite lookup_insert_ne by done. apply Hl.
Qed.

Lemma live_insert pid c id d f' (caps : gmap Z ProcCaps) fs :
  caps_live caps fs → caps !! pid = Some c → cm_data f' = <[id := d]> (cm_data (pc_futex c)) →
  c_object d ≠ 0 → is_Some (fs !! c_object d) →
  caps_live (<[pid := mkPCaps f' (pc_smem c) (pc_channels c) (pc_keys c)]> caps) fs.
Proof.
  intros Hl Hc Ef H0 Hd q e i cap. destruct (decide (pid = q)) as [<-|Hne].
  - rewrite lookup_insert_eq. intros [= <-]. cbn. rewrite Ef. intros [[<- <-]|[_ Hi]]%lookup_insert_Some; [done|by eapply Hl].
  - rewrite lookup_insert_ne by done. apply Hl.
Qed.

Lemma live_grows caps fs fs' : caps_live caps fs → (∀ p, is_Some (fs !! p) → is_Some (fs' !! p)) → caps_live caps fs'.
Proof. intros Hl Hg q c i cap Hc Hi. destruct (Hl q c i cap Hc Hi). split; [done|by apply Hg]. Qed.

Lemma live_same pid c c' (caps : gmap Z ProcCaps) fs :
  caps_live caps fs → caps !! pid = Some c → pc_futex c' = pc_futex c → caps_live (<[pid := c']> caps) fs.
Proof.
  intros Hl Hc Ef q d i cap. destruct (decide (pid = q)) as [<-|Hne].
  - rewrite lookup_insert_eq. intros [= <-]. rewrite Ef. by eapply Hl.
  - rewrite lookup_insert_ne by done. apply Hl.
Qed.

(** *** The calls *)
Definition core (held : list Z) (k : Kernel_) : Prop :=
  reachable (k_sched k, held) ∧ caps_live (k_caps k) (kfutexes (k_sched k)).

Definition safe (held : list Z) {T} (m : M Kernel_ T) : Prop :=
  ∀ k x k', core held k → caps_ok k → m k = Ret (x, k') → core held k'.

Lemma core_sched held {T} (m : SM T) k x k' :
  (∀ x s', m (k_sched k) = Ret (x, s') → reachable (s', held)) → grows m →
  core held k → on_sched m k = Ret (x, k') → core held k'.
Proof.
  intros Hm Hg [Hr Hl] E. unfold on_sched in E. dret E. destruct a as [y s]. injection E as _ <-.
  split; [by eapply Hm|]. cbn. eapply live_grows; [done|]. by eapply Hg.
Qed.

Lemma core_same held (k k' : Kernel_) : k_sched k' = k_sched k → k_caps k' = k_caps k → core held k → core held k'.
Proof. unfold core. by intros -> ->. Qed.

Lemma safe_vm held pid {T} (m : VM (W:=W) T) : safe held (on_vm pid m).
Proof.
  intros k x k' Hc _ E. unfold on_vm in E. dret E. dret E. destruct a0 as [y v]. injection E as <- <-. by apply (core_same held k).
Qed.

Lemma safe_devs held {T} (m : KM T) : safe held (on_devs (W:=W) m).
Proof. intros k x k' Hc _ E. unfold on_devs in E. dret E. destruct a as [? [? ?]]. injection E as <- <-. by apply (core_same held k). Qed.

Lemma safe_mp held pid {T} (m : MP (W:=W) T) : safe held (on_mp pid m).
Proof.
  intros k x k' [Hr Hl] _ E. unfold on_mp in E. dret E. dret E. dret E. destruct a1 as [y s]. injection E as <- <-.
  destruct (k_caps k !! pid) as [c|] eqn:Ec; [|done]. injection E0 as <-. split; [done|]. cbn. by eapply live_same.
Qed.

(** The futex of a capability, which exists. *)
Lemma fm_target_inv held pid cid (k : Kernel_) t k1 :
  core held k → on_futexes pid (fm_target cid) k = Ret (t, k1) →
  k1 = k ∧ ∀ p, t = inr p → p ≠ 0 ∧ is_Some (kfutexes (k_sched k) !! p).
Proof.
  intros [_ Hl] E. unfold on_futexes, on_caps, fm_target in E. destruct (k_caps k !! pid) as [c|] eqn:Ec; [|done].
  cbn in E. injection E as <- <-. split.
  - destruct k as [ks kc]. cbn in *. unfold kw_caps, kw_sched. cbn. f_equal. apply insert_id. rewrite Ec. by destruct c.
  - intros p. destruct (cm_data (pc_futex c) !! cid) as [cap|] eqn:Ecap; [|done].
    destruct (flag_contains _ _); [|done]. intros [= <-]. by eapply Hl.
Qed.

Lemma core_futex held p {T} (m : SM T) e k x k' :
  core held k → p ≠ 0 → is_Some (kfutexes (k_sched k) !! p) → grows m →
  (∀ s, exec_event e (s, held) = keep m (s, held)) →
  (∀ s, p ≠ 0 → is_Some (kfutexes s !! p) → allowed e s) →
  on_sched m k = Ret (x, k') → core held k' ∧ is_Some (kfutexes (k_sched k') !! p).
Proof.
  intros Hc H0 Hp Hg He Ha E. pose proof E as E'. unfold on_sched in E'. dret E'. destruct a as [y s]. injection E' as _ Ek.
  split; [|rewrite <- Ek; cbn; by eapply Hg].
  eapply core_sched; [|done|exact Hc|exact E]. intros x' s' Es.
  eapply (event_reach e _ held m); [done|apply Hc|by apply Ha|done].
Qed.

Lemma safe_futex_block held pid cid : safe held (k_futex_block (W:=W) pid cid).
Proof.
  intros k x k' Hc _ E. unfold k_futex_block in E. apply M_bind_Ret_inv in E as (t & k1 & E1 & E).
  destruct (fm_target_inv held pid cid k t k1 Hc E1) as [-> Ht]. clear E1.
  destruct t as [e|p]; [by injection E as _ <-|]. destruct (Ht p eq_refl) as [H0 Hp].
  apply M_bind_Ret_inv in E as (b & k1 & E1 & E).
  destruct (core_futex held p (kf_count p) (EFutexCount p) k b k1) as [Hc1 Hp1]; [done..| |done|done|done|].
  { unfold kf_count, kf. grows_tac. }
  destruct b; [|by injection E as _ <-]. apply M_bind_Ret_inv in E as (l & k2 & E2 & E).
  destruct (core_futex held p (kf_lock p) (EFutexLock p) k1 l k2) as [Hc2 Hp2]; [done..| |done|done|done|].
  { unfold kf_lock, kf. grows_tac. }
  destruct l as [[|]|]; [|by injection E as _ <-|done]. apply M_bind_Ret_inv in E as (b & k3 & E3 & E). injection E as _ <-.
  eapply core_sched; [|apply grows_block|exact Hc2|exact E3]. intros x' s' Es.
  by apply (block_reach (FutexBlock p) (k_sched k2) held x' s' (proj1 Hc2) (conj H0 Hp2)).
Qed.

Lemma safe_futex_unblock held pid cid n : 0 <= n → safe held (k_futex_unblock (W:=W) pid cid n).
Proof.
  intros Hn k x k' [Hr Hl] _ E. unfold k_futex_unblock in E. apply M_bind_Ret_inv in E as (k0 & k1 & E0 & E). injection E0 as <- <-.
  unfold on_futexes, on_caps in E. destruct (k_caps k !! pid) as [c|] eqn:Ec; [|done]. cbn [unwrap mbind res_bind] in E.
  unfold fm_unblock, fm_target, mbind, M_bind in E. cbn [fst] in E.
  destruct (cm_data (pc_futex c) !! cid) as [cap|] eqn:Ecap.
  2: { cbn in E. injection E as _ <-. split; [done|]. cbn. by eapply live_same. }
  destruct (flag_contains (c_flags cap) CF_READ).
  2: { cbn in E. injection E as _ <-. split; [done|]. cbn. by eapply live_same. }
  unfold on_world in E. cbn [snd fst] in E. destruct (kf_unblock _ _ _ _) as [[y s]| | |] eqn:Eu; [|done..].
  cbn in E. injection E as _ <-. destruct (Hl pid c cid cap Ec Ecap) as [H0 Hp]. split.
  - by eapply unblock_reach.
  - cbn. eapply live_same; [|done|done]. eapply live_grows; [done|].
    assert (grows (kf_unblock (qfuel k) (c_object cap) n)) as Hg; [|by eapply Hg].
    unfold kf_unblock, kf. apply grows_bind; [grows_tac|intros f]. apply grows_bind; [apply grows_put|intros _]. apply grows_state_move.
Qed.

(** Objects of the other types keep no count: their world stays. *)
Lemma plain_destroy t id m (s : Sched) b m' s' :
  cm_destroy (CO:=plain_object t) id (m, s) = Ret (b, (m', s')) → s' = s.
Proof.
  unfold cm_destroy, cm_remove, mbind, M_bind. cbn [fst snd].
  destruct (cm_data m !! id); [by intros [= _ _ <-]|by intros [= _ _ <-]].
Qed.

Lemma plain_clone t id fl m (s : Sched) o m' s' :
  cm_clone_cap (CO:=plain_object t) id fl (m, s) = Ret (o, (m', s')) → s' = s.
Proof.
  unfold cm_clone_cap, and_from_flags, cap_clone, cm_insert, cm_put, get, put, lift, mbind, M_bind. cbn [fst snd on_obj inc_ref plain_object].
  destruct (cm_data m !! id) as [c|]; [|by intros [= _ _ <-]]. cbn. destruct (set_base_id _ _) as [[i d]| | |]; [|done..]. cbn.
  destruct (cm_data m !! i); [by intros [= _ _ <-]|by intros [= _ _ <-]].
Qed.

Lemma with_capmap_cases (KF : CapObject Sched) {T} t (f : ∀ CO : CapObject Sched, CM (W:=Sched) T) c s x c' s' :
  with_capmap KF t f (c, s) = Ret (x, (c', s')) →
  (∃ m, f KF (pc_futex c, s) = Ret (x, (m, s')) ∧ c' = mkPCaps m (pc_smem c) (pc_channels c) (pc_keys c)) ∨
  pc_futex c' = pc_futex c ∧ ∃ t m m', f (plain_object t) (m, s) = Ret (x, (m', s')).
Proof.
  intros E. unfold with_capmap in E. destruct t; try done; apply res_bind_Ret_inv in E as ([y [m w]] & E & Es); injection Es as <- <- <-.
  - right. split; [done|]. by exists Channel, (pc_channels c), m.
  - left. by exists m.
  - right. split; [done|]. by exists SMem, (pc_smem c), m.
  - right. split; [done|]. by exists Key, (pc_keys c), m.
Qed.

(** A call on the capabilities of a process, opened. *)
Lemma on_caps_inv pid {T} (m : PCM (W:=Sched) T) (k : Kernel_) x k' :
  on_caps pid m k = Ret (x, k') →
  ∃ c c' s', k_caps k !! pid = Some c ∧ m (c, k_sched k) = Ret (x, (c', s')) ∧
    k_sched k' = s' ∧ k_caps k' = <[pid := c']> (k_caps k).
Proof.
  intros E. unfold on_caps in E. destruct (k_caps k !! pid) as [c|] eqn:Ec; [|done]. cbn [unwrap mbind res_bind] in E.
  apply res_bind_Ret_inv in E as ([y [c' s']] & E & Es). injection Es as <- <-. by exists c, c', s'.
Qed.

Lemma core_caps held pid (k k' : Kernel_) c c' :
  k_caps k !! pid = Some c → k_caps k' = <[pid := c']> (k_caps k) → reachable (k_sched k', held) →
  caps_live (<[pid := c']> (k_caps k)) (kfutexes (k_sched k')) → core held k'.
Proof. intros Hc E Hr Hl. split; [done|]. by rewrite E. Qed.

Lemma safe_cap_destroy held pid a1 : safe held (KF ← futexes; on_caps (W:=W) pid (sys_cap_destroy KF a1)).
Proof.
  intros k x k' [Hr Hl] _ E. unfold futexes, mbind at 1, M_bind at 1 in E.
  apply on_caps_inv in E as (c & c' & s' & Hc & E & Es & Ec). subst s'.
  unfold sys_cap_destroy in E. apply M_bind_Ret_inv in E as (t & s1 & E1 & E).
  apply M_bind_Ret_inv in E as (b & s2 & E2 & E). injection E as _ Es2. subst s2.
  unfold lift in E1. apply res_bind_Ret_inv in E1 as (t' & _ & E1). injection E1 as -> <-.
  eapply core_caps; [exact Hc|exact Ec|..]; apply with_capmap_cases in E2 as [(m & E2 & ->)|(Hf & t' & m & m' & E2)].
  - apply destroy_futex in E2 as [Ed E2]. destruct (cm_data (pc_futex c) !! a1) as [cap|] eqn:Ecap; [|by rewrite E2].
    destruct (Hl pid c a1 cap Hc Ecap). by eapply dec_ref_reach.
  - apply plain_destroy in E2. by rewrite E2.
  - apply destroy_futex in E2 as [Ed E2]. eapply live_delete; [|done|exact Ed].
    destruct (cm_data (pc_futex c) !! a1) as [cap|] eqn:Ecap; [|by rewrite E2].
    eapply live_grows; [done|]. by eapply grows_dec_ref.
  - apply plain_destroy in E2. rewrite E2. by eapply live_same.
Qed.

Lemma grows_inc_ref p : grows (kf_inc_ref p).
Proof. unfold kf_inc_ref, kf. grows_tac. Qed.

Lemma safe_cap_clone held pid a1 o : safe held (KF ← futexes; on_caps (W:=W) pid (sys_cap_clone KF a1 o)).
Proof.
  intros k x k' [Hr Hl] Hok E. unfold futexes, mbind at 1, M_bind at 1 in E.
  apply on_caps_inv in E as (c & c' & s' & Hc & E & Es & Ec). subst s'.
  unfold sys_cap_clone in E. apply M_bind_Ret_inv in E as (t & s1 & E1 & E).
  apply M_bind_Ret_inv in E as (b & s2 & E2 & E). injection E as _ Es2. subst s2.
  unfold lift in E1. apply res_bind_Ret_inv in E1 as (t' & _ & E1). injection E1 as -> <-.
  destruct (Hok pid c Hc) as (Hwf & _).
  eapply core_caps; [exact Hc|exact Ec|..]; apply with_capmap_cases in E2 as [(m & E2 & ->)|(Hf & t' & m & m' & E2)].
  - apply clone_futex in E2; [|done]. destruct (cm_data (pc_futex c) !! a1) as [cap|] eqn:Ecap; [|by destruct E2 as [_ ->]].
    destruct (Hl pid c a1 cap Hc Ecap), E2 as [E2 _]. by eapply inc_ref_reach.
  - apply plain_clone in E2. by rewrite E2.
  - apply clone_futex in E2; [|done]. destruct (cm_data (pc_futex c) !! a1) as [cap|] eqn:Ecap.
    + destruct (Hl pid c a1 cap Hc Ecap) as [H0 Hp], E2 as (E2 & i & d & Ed & Eo). rewrite <- Eo in H0, Hp.
      eapply live_insert; [|done|exact Ed|done|by eapply grows_inc_ref]. eapply live_grows; [done|]. by eapply grows_inc_ref.
    + destruct E2 as [-> ->]. by eapply live_same.
  - apply plain_clone in E2. rewrite E2. by eapply live_same.
Qed.

Lemma safe_futex_new held pid : safe held (k_futex_new (W:=W) new_kfutex pid).
Proof.
  intros k x k' Hc Hok E. unfold k_futex_new in E.
  apply M_bind_Ret_inv in E as (k0 & k1 & E0 & E). injection E0 as <- <-. set (p := new_kfutex _) in E.
  apply M_bind_Ret_inv in E as ([] & k1 & E0 & E). injection E0 as <-.
  apply M_bind_Ret_inv in E as ([] & k2 & E1 & E). destruct (Hfutex (kfutexes (k_sched k))) as [H0 Hp]. fold p in H0, Hp.
  assert (core held k2 ∧ k_caps k2 = k_caps k) as [[Hr2 Hl2] Hcaps].
  { split; [|unfold on_sched in E1; dret E1; destruct a as [y s]; by injection E1 as _ <-].
    revert E1. apply core_sched; [| |by apply (core_same held k)].
    - intros x' s' Es. by apply (event_reach (EFutexNew p (k_next_fuid k)) _ held (kfutex_new p (k_next_fuid k)) x' s' eq_refl (proj1 Hc)).
    - unfold kfutex_new. apply grows_bind; [apply grows_put|intros _; apply grows_ensure]. }
  assert (is_Some (kfutexes (k_sched k2) !! p)) as Hp2.
  { unfold on_sched in E1. dret E1. destruct a as [y s]. injection E1 as _ <-. cbn. cbn in E0.
    apply M_bind_Ret_inv in E0 as ([] & s1 & E1 & E0). injection E1 as <-. eapply grows_ensure; [exact E0|].
    cbn. rewrite lookup_insert_eq. by eexists. }
  unfold futexes, mbind at 1, M_bind at 1 in E. unfold on_futexes in E.
  apply on_caps_inv in E as (c & c' & s' & Hc' & E & Es & Ec). subst s'.
  apply res_bind_Ret_inv in E as ([id [f s']] & E & Ef). injection Ef as <- <- Es.
  apply M_bind_Ret_inv in E as (cap & [f1 s1] & E2 & E3). unfold cap_new in E2.
  apply M_bind_Ret_inv in E2 as ([] & s2 & E2 & E4). injection E4 as <- ->.
  apply inc_ref_inv in E2 as [Hf E2]. cbn [fst snd] in Hf, E2. subst f1. rewrite Hcaps in Hc'.
  destruct (Hok pid c Hc') as (Hwf & _). apply insert_futex in E3 as [Es' Ed]; [|done|by unfold rights, CF_READ].
  rewrite Es' in Es. clear Es'. cbn [c_object c_flags] in Ed.
  eapply core_caps; [rewrite Hcaps; exact Hc'|exact Ec|rewrite <- Es; by eapply inc_ref_reach|]. rewrite <- Es, Hcaps.
  assert (∀ q, is_Some (kfutexes (k_sched k2) !! q) → is_Some (kfutexes s1 !! q)) as Hg by (by eapply grows_inc_ref).
  eapply (live_insert pid c id (mkCap p CF_READ id)); [|done|exact Ed|done|by apply Hg].
  eapply live_grows; [|exact Hg]. by rewrite <- Hcaps.
Qed.

Lemma thread_new_shape fuel pid uid tid regs v t v' :
  Thread.thread_new MAX_MAP_ADDR fuel pid uid tid regs v = Ret (inr t, v') →
  th_process t = pid ∧ th_tuid t = (pid, tid) ∧ th_state t = Ready.
Proof.
  unfold Thread.thread_new, new_stack_size. intros E. apply M_bind_Ret_inv in E as ([e|[s kk]] & v1 & E1 & E); [done|].
  apply M_bind_Ret_inv in E as (r & v2 & E2 & E). by injection E as <- _.
Qed.

Lemma safe_new_thread held fuel pid uid regs k x k' :
  core held k → tids_left (k_sched k) →
  k_new_thread (W:=W) MAX_MAP_ADDR new_thread_at fuel pid uid regs k = Ret (x, k') → core held k'.
Proof.
  intros Hc Ht E. unfold k_new_thread in E. apply M_bind_Ret_inv in E as (k0 & k1 & E0 & E). injection E0 as <- <-.
  apply M_bind_Ret_inv in E as (pr & k1 & E0 & E).
  assert (k1 = k ∧ procs (k_sched k) !! pid = Some pr) as [-> Hpr].
  { unfold on_sched, the_process in E0. apply res_bind_Ret_inv in E0 as ([y s] & E1 & Ey). injection Ey as <- <-.
    apply M_bind_Ret_inv in E1 as (s0 & s1 & E1 & E2). injection E1 as <- <-. unfold lift in E2.
    destruct (procs (k_sched k) !! pid); [|done]. injection E2 as <- <-. split; [by destruct k|done]. }
  apply M_bind_Ret_inv in E as (t & k1 & E1 & E).
  assert (core held k1 ∧ k_sched k1 = k_sched k) as [Hc1 Hs1].
  { unfold on_vm in E1. dret E1. dret E1. destruct a0 as [y v]. injection E1 as _ <-. split; [by apply (core_same held k)|done]. }
  revert E. apply core_sched; [|apply grows_new_thread|done]. intros x' s' Es. rewrite Hs1 in Es.
  eapply (event_reach (ENewThread pid _) (k_sched k) held _ x' s' eq_refl (proj1 Hc)); [|exact Es].
  exists pr. destruct (Ht pid pr Hpr) as (T1 & T2 & T3). split_and!; try done.
  intros a t' Hb. destruct t as [e|t]; [done|]. injection Hb as <- <-. split; [apply Hthread|].
  unfold on_vm in E1. dret E1. dret E1. destruct a0 as [y v]. injection E1 as -> _. by eapply thread_new_shape.
Qed.

Lemma safe_tail held {T U} (m : M Kernel_ T) (f : T → M Kernel_ U) :
  safe held m → (∀ y k1 x k', f y k1 = Ret (x, k') → k' = k1) → safe held (m ≫= f).
Proof. intros Hm Hf k x k' Hc Hok E. apply M_bind_Ret_inv in E as (y & k1 & E1 & E2). apply Hf in E2 as ->. by eapply Hm. Qed.

Abbreviation run := (run_syscall (W:=W) MAX_MAP_ADDR KERNEL_VMA new_truncate new_arc new_kfutex new_thread_at heap_room).
Abbreviation dispatch_ := (dispatch (W:=W) MAX_MAP_ADDR KERNEL_VMA new_truncate new_arc new_kfutex new_thread_at heap_room).

(** Every handler but two begins by asking who calls. *)
Lemma asks_caller fuel f v k x k' :
  run fuel f v k = Ret (x, k') → k_caps k' = k_caps k ∨ ∃ r, proc_c k = Ret (r, k).
Proof.
  assert (∀ T (m : Z * PrivLevel → M Kernel_ T) y, (p ← proc_c; m p) k = Ret (y, k') → ∃ r, proc_c k = Ret (r, k)) as Ha.
  { intros T m y E. apply M_bind_Ret_inv in E as (r & k1 & E & _). destruct (proc_c_inv _ _ _ E) as [-> _]. by exists r. }
  intros E. destruct f; cbn [run_syscall] in E; try done; try (right; eapply Ha; exact E).
  - left. unfold k_print_debug in E. apply M_bind_Ret_inv in E as (y & k1 & E & E1). injection E1 as _ <-.
    unfold on_devs in E. dret E. destruct a as [? [? ?]]. by injection E as _ <-.
  - left. by injection E as _ <-.
Qed.

Lemma answer_same r v (k : Kernel_) x k' : answer r v k = Ret (x, k') → k' = k.
Proof. by intros [= _ <-]. Qed.

(** Once it knows the caller, a handler that makes one call and answers. *)
Lemma handler_core held {T} (m : Z * PrivLevel → M Kernel_ T) (r : T → list Z) v k x k' :
  core held k → caps_ok k → (∀ p, safe held (m p)) → (p ← proc_c; y ← m p; answer (r y) v) k = Ret (x, k') → core held k'.
Proof.
  intros Hc Hok Hm E. apply M_bind_Ret_inv in E as (p & k1 & E1 & E). apply proc_c_inv in E1 as [-> _].
  apply M_bind_Ret_inv in E as (y & k1 & E1 & E). apply answer_same in E as ->. by eapply Hm.
Qed.

Lemma handlers_core held fuel f v k x k' :
  Forall is_usize (sv_args v) → core held k → caps_ok k → tids_left (k_sched k) →
  run fuel f v k = Ret (x, k') → core held k'.
Proof.
  intros Hv Hc Hok Ht E. destruct f; cbn [run_syscall] in E; try done.
  - revert E. apply safe_tail; [apply safe_devs| |done|done]. by intros y k1 z k2 [= _ <-].
  - (* spawn reads *)
    unfold sys_spawn in E. apply M_bind_Ret_inv in E as ([pid uid] & k1 & E1 & E). apply proc_c_inv in E1 as [-> _].
    destruct (match uid with PSuperUser => false | _ => true end); [by apply answer_same in E as ->|].
    assert (∀ T U (u : UserData T) ptr (g : option T → M Kernel_ U) y, (o ← k_fetch KERNEL_VMA pid u ptr; g o) k = Ret (y, k') →
      ∃ o, g o k = Ret (y, k')) as Hf.
    { intros T U u ptr g y H. apply M_bind_Ret_inv in H as (o & k1 & H1 & H). unfold k_fetch in H1. dret H1. dret H1.
      injection H1 as _ <-. by exists o. }
    assert (∀ U st (g : option (list Z) → M Kernel_ U) y, (o ← k_string KERNEL_VMA heap_room pid st; g o) k = Ret (y, k') →
      ∃ o, g o k = Ret (y, k')) as Hs.
    { intros U st g y H. apply M_bind_Ret_inv in H as (o & k1 & H1 & H). unfold k_string in H1. dret H1. dret H1.
      injection H1 as _ <-. by exists o. }
    apply Hf in E as [[st|] E]; [|by apply answer_same in E as ->].
    apply Hs in E as [[nm|] E]; [|by apply answer_same in E as ->].
    apply Hs in E as [[pa|] E]; [done|by apply answer_same in E as ->].
  - by injection E as _ <-.
  - unfold sys_thread_new in E. apply M_bind_Ret_inv in E as (p & k1 & E1 & E). apply proc_c_inv in E1 as [-> _].
    apply M_bind_Ret_inv in E as (y & k1 & E1 & E). apply safe_new_thread with (held := held) in E1; [|done..].
    destruct y; by apply answer_same in E as ->.
  - unfold sys_thread_block in E. apply M_bind_Ret_inv in E as (p & k1 & E1 & E). apply proc_c_inv in E1 as [-> _].
    destruct (block_state p.1 (sv_a1 v) (sv_a2 v)) as [st|] eqn:Est; [|by apply answer_same in E as ->].
    apply M_bind_Ret_inv in E as (b & k1 & E1 & E). injection E as _ <-. revert E1.
    apply core_sched; [|apply grows_block|done]. intros b' s'. apply block_reach; [apply Hc|].
    unfold block_state in Est. repeat (destruct (_ =? _); [by injection Est as <-|]). done.
  - eapply handler_core; [exact Hc|exact Hok| |exact E]. intros p. apply safe_vm.
  - unfold k_cap_destroy in E. apply M_bind_Ret_inv in E as (p & k1 & E1 & E). apply proc_c_inv in E1 as [-> _].
    change (((KF ← futexes; on_caps (W:=W) p.1 (sys_cap_destroy KF (sv_a1 v))) ≫= λ r, answer [r] v) k = Ret (x, k')) in E.
    eapply safe_tail; [apply (safe_cap_destroy held p.1 (sv_a1 v))| |exact Hc|exact Hok|exact E].
    intros r k1 z k2 H. by apply answer_same in H.
  - unfold k_cap_clone in E. apply M_bind_Ret_inv in E as (p & k1 & E1 & E). apply proc_c_inv in E1 as [-> _].
    change (((KF ← futexes; on_caps (W:=W) p.1 (sys_cap_clone KF (sv_a1 v) (sv_options v))) ≫= λ r, answer [r.1; r.2] v) k = Ret (x, k')) in E.
    eapply safe_tail; [apply (safe_cap_clone held p.1 (sv_a1 v) (sv_options v))| |exact Hc|exact Hok|exact E].
    intros r k1 z k2 H. by apply answer_same in H.
  - eapply handler_core; [exact Hc|exact Hok| |exact E]. intros p. apply safe_mp.
  - eapply handler_core; [exact Hc|exact Hok| |exact E]. intros p. apply safe_mp.
  - eapply handler_core; [exact Hc|exact Hok| |exact E]. intros p. apply safe_mp.
  - eapply handler_core; [exact Hc|exact Hok| |exact E]. intros p. apply safe_futex_new.
  - unfold sys_futex_block in E. apply M_bind_Ret_inv in E as (p & k1 & E1 & E). apply proc_c_inv in E1 as [-> _].
    eapply safe_tail; [apply (safe_futex_block held p.1 (sv_a1 v))| |exact Hc|exact Hok|exact E].
    intros [e|b] k1 z k2 H; [by apply answer_same in H|by injection H].
  - unfold sys_futex_unblock in E. apply M_bind_Ret_inv in E as (p & k1 & E1 & E). apply proc_c_inv in E1 as [-> _].
    eapply safe_tail; [apply (safe_futex_unblock held p.1 (sv_a1 v) (sv_a3 v))| |exact Hc|exact Hok|exact E].
    + do 2 apply Forall_inv_tail in Hv. apply Forall_inv in Hv. apply Hv.
    + intros [e|b] k1 z k2 H; by apply answer_same in H.
Qed.

(** C2: the system calls are events of the scheduler: from a kernel whose scheduler is in a
    reachable state, whose capabilities are well formed and name live futexes, any call
    with any arguments that returns leads to such a kernel again. *)
Theorem syscalls_keep_sched held fuel n v k x k' :
  Forall is_usize (sv_args v) → kernel_ok held k → tids_left (k_sched k) →
  dispatch_ fuel n v k = Ret (x, k') → kernel_ok held k'.
Proof.
  intros Hv (Hr & Hl & Hok) Ht E. unfold dispatch in E.
  destruct (syscalls !! Z.to_nat n) as [f|]; [|by injection E as _ <-].
  destruct (handlers_core held fuel f v k x k' Hv (conj Hr Hl) Hok Ht E) as [Hr' Hl']. split_and!; [done|done|].
  destruct (asks_caller fuel f v k x k' E) as [Hsame|[[pid uid] Hp]].
  - intros q c. rewrite Hsame. apply Hok.
  - by apply (handlers_only MAX_MAP_ADDR KERNEL_VMA new_truncate new_arc new_kfutex new_thread_at heap_room fuel f v pid uid k k x k' Hp E).
Qed.
End kernel_safe.

(** ** A system call after a boot *)
Section demo.
#[local] Existing Instance dev.
#[local] Existing Instance first_cpu.
#[local] Existing Instance bump_mem.
#[local] Existing Instance mute_devices.

(** An allocator of objects: the address after the highest one in use. *)
Definition above {A} (m : gmap Z A) : Z := 4096 + foldr (λ p, Z.max p.1) 0 (map_to_list m).

Lemma above_fresh {A} (m : gmap Z A) : above m ≠ 0 ∧ m !! above m = None.
Proof.
  assert (∀ (l : list (Z * A)) p, p ∈ l → p.1 <= foldr (λ p, Z.max p.1) 0 l) as Hle.
  { induction l as [|q l IH]; intros p Hp; [by apply elem_of_nil in Hp|]. cbn [foldr].
    apply elem_of_cons in Hp as [<-|Hp]; [lia|]. pose proof (IH p Hp). lia. }
  assert (∀ l : list (Z * A), 0 <= foldr (λ p, Z.max p.1) 0 l) as H0 by (induction l; cbn [foldr]; lia).
  unfold above. split; [pose proof (H0 (map_to_list m)); lia|].
  destruct (m !! _) as [x|] eqn:E; [|done]. apply elem_of_map_to_list, Hle in E. cbn [fst] in E. lia.
Qed.

(** The kernel process runs its first thread and asks for a futex. *)
Definition booted : Kernel (W:=Z) :=
  mkKernel (demo_run demo_boot).1 {[0 := no_caps]} {[0 := ([], 0x9000)]} (mkPT ∅ 0x10000) ∅ 0 demo_cpu dev_new (λ _, None).
Abbreviation booted_dispatch := (dispatch (W:=Z) demo_max demo_vma (λ a, a) above above above (λ _, true)).

Lemma booted_ok : kernel_ok (demo_run demo_boot).2 booted.
Proof.
  assert (k_caps booted = {[0 := no_caps]}) as Hc by done. split_and!.
  - destruct (demo_run demo_boot) as [s h] eqn:E. cbn. pose proof demo_boot_reachable as H. unfold booted. rewrite E in *. exact H.
  - intros pid c id cap H. rewrite Hc in H. apply lookup_singleton_Some in H as [_ <-]. done.
  - intros pid c H. rewrite Hc in H. apply lookup_singleton_Some in H as [_ <-]. apply no_caps_ok.
Qed.

Lemma booted_tids : tids_left (k_sched booted).
Proof.
  intros pid pr H. assert (procs (k_sched booted) = {[0 := default (demo_proc 0) (procs (k_sched booted) !! 0)]}) as Hp
    by (vm_compute; reflexivity).
  rewrite Hp in H. apply lookup_singleton_Some in H as [_ <-]. split_and!.
  all: vm_compute; done.
Qed.

Lemma syscalls_keep_sched_witness :
  ∃ x k', booted_dispatch 9 24 (demo_vals 0 0) booted = Ret (x, k') ∧
    is_Some (kfutexes (k_sched k') !! 4096) ∧ kernel_ok (demo_run demo_boot).2 k'.
Proof.
  assert (H : ∃ x k', booted_dispatch 9 24 (demo_vals 0 0) booted = Ret (x, k') ∧ is_Some (kfutexes (k_sched k') !! 4096)).
  { do 2 eexists. split; [vm_compute; reflexivity|vm_compute; by eexists]. }
  destruct H as (x & k' & E & Hf). exists x, k'. split; [exact E|split; [exact Hf|]].
  refine (syscalls_keep_sched (W:=Z) demo_max demo_vma (λ a, a) above above above (λ _, true) above_fresh
    (λ m, proj2 (above_fresh m)) (demo_run demo_boot).2 9 24 (demo_vals 0 0) booted x k' _ booted_ok booted_tids E).
  repeat constructor; done.
Defined.
End demo.
