(* ===== verification/Init.v ===== *)
(** * Starting the kernel: [kernel/src/main.rs], [sched::init], [syscall::init], [kdata::init]

    [init] and [ap_init] put the components together: the zones of physical memory, the
    record of the processor, its descriptor tables and handlers, the machine registers of
    system calls, the first process with its two threads, and the timers.

    [init_spec]: when [init] comes back without an error, every vector has exactly the
    handlers it should have, a system call enters at [syscall_entry] with interrupts off
    and leaves with the selectors the threads run with, and the kernel is one that
    [SyscallSafe.syscalls_keep_sched] speaks about: its scheduler is in a reachable state.
    [sched_ap_init_ok] says that a processor that joins keeps the scheduler so.

    The heap behind [Box] and [Arc] is the three functions that say where an object goes. *)

From Stdlib Require Import String.
From S2P Require Import HeapAlloc.
From S2P Require Import Prelude Misc Sys Ranges Buddy PageTable VirtLayout VirtMapper Boot Zones.
From S2P Require Import CpuMarker Thread Int Time Apic Console Sched SchedInv SchedSafe Cap.
From S2P Require Import Syscall SyscallSafe.

(** ** Machine registers *)
Definition EFER_MSR : Z := 0xc0000080.
Definition EFER_EXEC_DISABLE : Z := Z.shiftl 1 11.
Definition EFER_SYSCALL_ENABLE : Z := 1.
Definition GSBASE_MSR : Z := 0xc0000101.
Definition GSBASEK_MSR : Z := 0xc0000102.
Definition STAR_MSR : Z := 0xc0000081.
Definition LSTAR_MSR : Z := 0xc0000082.
Definition FMASK_MSR : Z := 0xc0000084.

(** [raw_msr] of the halves in [edx] and [eax]. *)
Definition msr_word (low high : Z) : Z := Z.lor (Z.shiftl high 32) low.

(** The error code of a page fault. *)
Definition PAGE_FAULT_PROTECTION : Z := 1.
Definition PAGE_FAULT_WRITE : Z := Z.shiftl 1 1.
Definition PAGE_FAULT_USER : Z := Z.shiftl 1 2.
Definition PAGE_FAULT_RESERVED : Z := Z.shiftl 1 3.
Definition PAGE_FAULT_EXECUTE : Z := Z.shiftl 1 4.

(** What the handler of page faults says of one before it panics: the ring, the access,
    whether the page was missing, and whether a reserved bit was set. *)
Definition page_fault_text (code : Z) : string * string * bool * bool :=
  let ring := if negb (Z.land code PAGE_FAULT_USER =? 0) then "user"%string else "kernel"%string in
  let action :=
    if negb (Z.land code PAGE_FAULT_EXECUTE =? 0) then "instruction fetch"%string
    else if negb (Z.land code PAGE_FAULT_WRITE =? 0) then "write"%string else "read"%string in
  (ring, action, Z.land code PAGE_FAULT_PROTECTION =? 0, Z.land code PAGE_FAULT_RESERVED =? 0).

Section machine.
Context {B : Build} {AD : Addresses} {P : Cpu} {DV : Devices} {BF : Bitfields}.
Context (new_thread_at : gmap Z Thread → Z).

Abbreviation Kern := (Kernel (W:=ZoneManager)).

(** The kernel, the machine registers and [cr3] of this processor, the next process id,
    and the text screen. *)
Record Machine := mkMach {
  mc_kernel : Kern;
  mc_msr : Z → Z;
  mc_cr3 : Z;
  mc_next_pid : Z;
  mc_writer : Writer;
}.
Abbreviation IM := (M Machine).

Definition mw_kernel (k : Kern) (s : Machine) : Machine := mkMach k (mc_msr s) (mc_cr3 s) (mc_next_pid s) (mc_writer s).
Definition mw_msr (r : Z → Z) (s : Machine) : Machine := mkMach (mc_kernel s) r (mc_cr3 s) (mc_next_pid s) (mc_writer s).
Definition mw_cr3 (a : Z) (s : Machine) : Machine := mkMach (mc_kernel s) (mc_msr s) a (mc_next_pid s) (mc_writer s).
Definition mw_next_pid (p : Z) (s : Machine) : Machine := mkMach (mc_kernel s) (mc_msr s) (mc_cr3 s) p (mc_writer s).
Definition mw_writer (w : Writer) (s : Machine) : Machine := mkMach (mc_kernel s) (mc_msr s) (mc_cr3 s) (mc_next_pid s) w.

Definition on_kernel {T} (m : M Kern T) : IM T := λ s, '(x, k) ← m (mc_kernel s); Ret (x, mw_kernel k s).
Definition on_processor {T} (m : M CpuState T) : IM T := on_kernel (on_devs (on_cpu m)).
Definition on_zones {T} (m : ZM T) : IM T :=
  on_kernel (λ k, '(x, w) ← m (frames (k_pt k)); Ret (x, kw_frames w k)).

(** [?]. *)
Definition try_ {E T U} (m : IM (E + T)) (f : T → IM (E + U)) : IM (E + U) :=
  x ← m; match x with inl e => mret (inl e) | inr y => f y end.

Definition rdmsr (msr : Z) : IM Z := λ s,
  let v := mc_msr s msr in Ret (msr_word (get_bits v (0, 32)) (get_bits v (32, 64)), s).
Definition wrmsr (msr data : Z) : IM () := λ s,
  let low := get_bits data (0, 32) in
  let high := get_bits data (32, 64) in
  Ret ((), mw_msr (λ n, if n =? msr then msr_word low high else mc_msr s n) s).

(** ** The processor *)

(** [kdata::init]: the record of the processor ([tss_tmp] is where [GsData::new] builds
    its task state), behind the pointer at [gs_addr]. *)
Definition kdata_init (tss_tmp gs_addr : Z) : IM () :=
  on_processor (upd_gs (λ _, gs_new tss_tmp));;
  wrmsr GSBASE_MSR gs_addr;;
  wrmsr GSBASEK_MSR gs_addr.

(** [lgdt] and [ltr]. *)
Definition gdt_init : IM () := on_processor (with_cpud (mret ())).

Definition syscall_init (syscall_entry : Z) : IM () :=
  efer ← rdmsr EFER_MSR;
  wrmsr EFER_MSR (Z.lor efer EFER_SYSCALL_ENABLE);;
  wrmsr LSTAR_MSR syscall_entry;;
  wrmsr FMASK_MSR 0x200;;
  wrmsr STAR_MSR 0x0013000800000000.

(** The handlers of faults, in [init] and [ap_init]. *)
Definition register_faults : IM (Err + ()) :=
  try_ (on_processor (register (First page_fault) EXC_PAGE_FAULT)) (λ _,
  try_ (on_processor (register (Normal double_fault) EXC_DOUBLE_FAULT)) (λ _,
  try_ (on_processor (register (Normal gp_exception) EXC_GENERAL_PROTECTION_FAULT)) (λ _,
  on_processor (register (First ipi_panic) IPI_PANIC)))).

(** The handlers of the scheduler, in [sched::init] and [sched::ap_init]. *)
Definition register_sched : IM (Err + ()) :=
  try_ (on_processor (register (Last Int.time_handler) IRQ_TIMER)) (λ _,
  try_ (on_processor (register (Last Int.int_handler) INT_SCHED)) (λ _,
  on_processor (register (First Int.ipi_process_exit_handler) IPI_PROCESS_EXIT))).

(** ** The first process *)
Context (MAX_MAP_ADDR HIGHER_HALF_PAGE_POINTER : Z) (INIT_STACK : range) (thread_cleaner : Z).

(** [Process::new], with its empty tables and its address space. *)
Definition process_create (uid : PrivLevel) : IM Z :=
  s ← get;
  let pid := mc_next_pid s in
  put (mw_next_pid ((pid + 1) mod U64) s);;
  on_kernel (λ k, '(v, p) ← mapper_new HIGHER_HALF_PAGE_POINTER (k_pt k);
    Ret ((), kw_space pid (mkMapper (virt_map v) (cr3 v) p)
               (kw_caps (<[pid := mkPCaps capmap_new capmap_new capmap_new capmap_new]> (k_caps k)) k)));;
  on_kernel (on_sched (process_new pid uid));;
  mret pid.

(** [addr_space.load()]. *)
Definition load_space (pid : Z) : IM () := λ s,
  v ← the_space pid (mc_kernel s); Ret ((), mw_cr3 (cr3 v) s).

Definition exec_disable : IM () :=
  efer ← rdmsr EFER_MSR; wrmsr EFER_MSR (Z.lor efer EFER_EXEC_DISABLE).

(** The idle thread of this processor, made, started, and listed in its process. *)
Definition start_idle (pid : Z) (stack : range) : IM () :=
  tid ← on_kernel (on_sched (next_tid pid));
  t ← lift (new_idle pid tid regs_zero stack);
  s ← get;
  let a := new_thread_at (threads (k_sched (mc_kernel s))) in
  on_kernel (on_sched (cpu_start a t));;
  on_kernel (on_sched (insert_thread pid a));;
  mret ().

(** [sched::init]; the process moves into the list.  An error stops the kernel. *)
Definition sched_init (fuel : nat) : IM (Err + ()) :=
  exec_disable;;
  pid ← process_create PKernel;
  load_space pid;;
  try_ (on_kernel (k_new_thread MAX_MAP_ADDR new_thread_at fuel pid PKernel (from_rip thread_cleaner))) (λ _,
  start_idle pid INIT_STACK;;
  on_kernel (on_sched (list_process pid;; drop_arc pid));;
  register_sched).

(** [sched::ap_init]. *)
Definition sched_ap_init (stack_top : Z) : IM (Err + ()) :=
  exec_disable;;
  on_kernel (on_sched (ensure_running prid));;
  p ← on_kernel (on_sched (proc_get 0));
  _ ← lift (unwrap p);
  load_space 0;;
  a ← lift (a_new (AddrOps:=VA) stack_top);
  stack ← lift (range_new (A:=VA) a DEFAULT_KERNEL_SIZE);
  start_idle 0 stack;;
  r ← register_sched;
  on_kernel (on_sched (drop_arc 0));;
  mret r.

(** ** The other processors *)
Context (other : IntHandlerFunc → Registers → Z → M (CpuState * Dev) (bool * Registers)).
Context (AP_PHYS_START AP_CODE_START AP_CODE_END AP_DATA : Z).
(** How many of so many processors have not counted themselves yet, after a history of
    accesses: [APS_TO_BOOT]. *)
Context (aps_to_boot : Z → list Io → Z).

Definition on_devices {T} (m : M (CpuState * Dev) T) : IM T := on_kernel (on_devs m).

(** An operation of an address space that no process has, over the tables of the kernel. *)
Definition on_space {T} (v : VirtMapper (W:=ZoneManager)) (m : VM (W:=ZoneManager) T) : IM (T * VirtMapper (W:=ZoneManager)) :=
  on_kernel (λ k, '(x, v) ← m (mkMapper (virt_map v) (cr3 v) (k_pt k));
    Ret ((x, v), mkKernel (k_sched k) (k_caps k) (k_spaces k) (pt v) (k_objects k) (k_next_fuid k)
                   (k_cpu k) (k_dev k) (k_user_mem k))).

(** [io_wait]: one read of port [0x80] for each microsecond. *)
Definition io_wait (micros : Z) : M (CpuState * Dev) () :=
  Nat.iter (Z.to_nat micros) (λ rest, inb 0x80;; rest) (mret ()).

(** The page of the boot code, [try_into().unwrap()] to a byte. *)
Definition sipi_vector : res Z := let v := AP_CODE_START / 0x1000 in if v <? 256 then Ret v else Panic.

(** [while APS_TO_BOOT.load() > 0]. *)
Fixpoint boot_aps (fuel : nat) (n : Z) (l : LocalApic) : M (CpuState * Dev) () :=
  match fuel with
  | O => lift NoFuel
  | S fuel =>
      h ← of_dev d_io;
      if aps_to_boot n h <=? 0 then mret ()
      else
        v ← lift sipi_vector;
        send_ipi l (IpiSipi AllExcludeThis v);;
        io_wait 200;;
        boot_aps fuel n l
  end.

(** What the boot code of the other processors reads: the low half of [cr3], the number of
    the next processor, and the top of a stack for each. *)
Record ApData := mkApData { ad_cr3 : Z; ad_idc : Z; ad_stacks : list Z }.

Fixpoint ap_stacks (n : nat) : IM (list Z) :=
  match n with
  | O => mret []
  | S n =>
      m ← on_zones (zm_alloc_ DEFAULT_KERNEL_SIZE);
      m ← lift (unwrap m);
      top ← lift (uadd (m_addr m) DEFAULT_KERNEL_SIZE);
      rest ← ap_stacks n;
      mret (top :: rest)
  end.

(** The bytes of the boot code are copied from [ap_bin_start] to [code]. *)
Definition smp_init (fuel : nat) (ap_ids : list Z) (code : Allocation) (space : VirtMapper (W:=ZoneManager)) : IM ApData :=
  n ← lift (uadd (Z.of_nat (length ap_ids)) 1);
  on_devices (set_cpu_count n);;
  ap_bin_start ← lift (phys_to_virt_usize AP_PHYS_START);
  ap_virt_start ← lift (phys_to_virt_usize AP_CODE_START);
  lift (usub AP_CODE_END AP_CODE_START);;
  off ← lift (usub AP_DATA AP_CODE_START);
  velem ← lift (elem_from_mem code PAGE_SIZE (Z.lor (Z.lor MF_READ MF_WRITE) MF_EXEC));
  a ← lift (a_new (AddrOps:=VA) AP_CODE_START);
  vzone ← lift (range_new (A:=VA) a PAGE_SIZE);
  r ← on_space space (map_at MAX_MAP_ADDR fuel (vl_from [velem] VirtMem) vzone);
  lift (match r.1 with inl _ => Panic | inr _ => Ret () end);;
  ap_data ← lift (uadd ap_virt_start off);
  lift (assert_ (negb (ap_data =? 0)));;
  stacks ← ap_stacks (length ap_ids);
  on_devices (with_lapic (λ l,
    send_ipi l (IpiInit AllExcludeThis);;
    io_wait 1000000;;
    boot_aps fuel (Z.of_nat (length ap_ids)) l;;
    mret ((), l)));;
  mret (mkApData (as_u32 (cr3 r.2)) 1 stacks).

(** ** [init] and [ap_init] *)
Context (firmware : bytes) (stub : Z → Z) (syscall_entry : Z).

(** [mem::heap::init]: the pages of the first zone of the heap. *)
Definition heap_init : IM () := m ← on_zones (zm_alloc_ INITIAL_HEAP_SIZE); lift (unwrap m);; mret ().

(** The frames: the zones, the page of the boot code, the tables of the other processors
    and the heap, in this order. *)
Definition init_frames (boot : BootInfo) : IM (Allocation * VirtMapper (W:=ZoneManager)) :=
  on_zones (zm_init (memory_map boot));;
  p ← lift (a_new (AddrOps:=PA) AP_CODE_START);
  a ← lift (phys_to_virt p);
  code ← on_zones (zm_oalloc_at a 0);
  code ← lift (unwrap code);
  space ← on_kernel (λ k, '(v, p) ← mapper_new HIGHER_HALF_PAGE_POINTER (k_pt k);
    Ret (v, mkKernel (k_sched k) (k_caps k) (k_spaces k) p (k_objects k) (k_next_fuid k)
              (k_cpu k) (k_dev k) (k_user_mem k)));
  heap_init;;
  mret (code, space).

Definition init_memory (boot : BootInfo) : IM (Allocation * VirtMapper (W:=ZoneManager)) :=
  s ← get;
  w ← lift (clear (mc_writer s));
  put (mw_writer w s);;
  on_devices config_init;;
  init_frames boot.

(** What every processor does first. *)
Definition init_cpu (tss_tmp gs_addr : Z) : IM (Err + ()) :=
  kdata_init tss_tmp gs_addr;;
  gdt_init;;
  on_processor (idt_init stub);;
  try_ register_faults (λ _, syscall_init syscall_entry;; mret (inr ())).

Definition init_timers (fuel : nat) (regs : Registers) (boot : BootInfo) (code : Allocation)
    (space : VirtMapper (W:=ZoneManager)) : IM (Err + ()) :=
  apic ← on_devices use_apic;
  if apic : bool then
    on_devices pic_disable;;
    on_devices pit_disable;;
    t ← lift (rsdt_get_table firmware (rsdt boot) Madt);
    t ← lift (unwrap t);
    madt ← lift (unwrap (assume_madt t));
    ids ← on_devices (apic_init other firmware fuel regs madt);
    smp_init fuel ids code space;;
    mret (inr ())
  else
    on_zones (zm_dealloc_ code);;
    on_devices (pic_remap PICM_OFFSET PICS_OFFSET);;
    on_devices pit_init.

(** [fuel] bounds the loops of the page tables and of the timers. *)
Definition init (fuel : nat) (regs : Registers) (tss_tmp gs_addr : Z) (boot : BootInfo) : IM (Err + ()) :=
  cs ← init_memory boot;
  try_ (init_cpu tss_tmp gs_addr) (λ _,
  try_ (sched_init fuel) (λ _,
  init_timers fuel regs boot cs.1 cs.2)).

(** [ap_init]; its last wait is for [smp_init] to see every processor. *)
Definition ap_init (fuel : nat) (regs : Registers) (tss_tmp gs_addr stack_top : Z) : IM (Err + ()) :=
  try_ (init_cpu tss_tmp gs_addr) (λ _,
  try_ (sched_ap_init stack_top) (λ _,
  on_devices (apic_ap_init other fuel regs);;
  mret (inr ()))).
End machine.

(** ** Machine registers and handlers *)

Lemma msr_word_ok v : 0 <= v < U64 → msr_word (get_bits v (0, 32)) (get_bits v (32, 64)) = v.
Proof.
  intros Hv. unfold msr_word. rewrite !get_bits_val by (unfold is_usize; lia).
  change (32 - 0) with 32. change (64 - 32) with 32. change (2 ^ 0) with 1. rewrite Z.div_1_r.
  assert (0 <= v / 2 ^ 32 < 2 ^ 32) as Hh by (split; [apply Z.div_pos; lia|apply Z.div_lt_upper_bound; lia]).
  rewrite (Z.mod_small (v / 2 ^ 32)) by done.
  rewrite lor_shiftl_add by first [lia | apply Z.mod_pos_bound; lia].
  pose proof (Z.div_mod v (2 ^ 32) ltac:(lia)). lia.
Qed.

(** The handler at a position of a vector, from a list of what was registered. *)
Definition table_of (l : list (nat * nat * IntHandlerFunc)) (v i : nat) : option IntHandlerFunc :=
  snd <$> head (filter (λ x, x.1 = (v, i)) l).

Definition fault_handlers : list (nat * nat * IntHandlerFunc) :=
  [(130%nat, 0%nat, ipi_panic); (13%nat, 1%nat, gp_exception); (8%nat, 1%nat, double_fault); (14%nat, 0%nat, page_fault)].
Definition sched_handlers : list (nat * nat * IntHandlerFunc) :=
  [(129%nat, 0%nat, Int.ipi_process_exit_handler); (128%nat, 3%nat, Int.int_handler); (32%nat, 3%nat, Int.time_handler)].

Lemma table_cons v i f l v' i' :
  table_of ((v, i, f) :: l) v' i' = if decide (v' = v ∧ i' = i) then Some f else table_of l v' i'.
Proof.
  unfold table_of. rewrite filter_cons. cbn [fst]. destruct (decide ((v, i) = (v', i'))) as [E|E].
  - injection E as <- <-. by rewrite decide_True.
  - rewrite decide_False; [done|]. intros [-> ->]. by apply E.
Qed.

Section handlers.
Context {B : Build} {AD : Addresses} {P : Cpu} {DV : Devices} {BF : Bitfields}.

Definition the_cpu (s : Machine) : CpuState := k_cpu (mc_kernel s).
Definition with_cpu (c : CpuState) (s : Machine) : Machine :=
  mw_kernel (kw_dev c (k_dev (mc_kernel s)) (mc_kernel s)) s.

Lemma on_processor_eq {T} (m : M CpuState T) s :
  on_processor m s = ('(x, c) ← m (the_cpu s); Ret (x, with_cpu c s)).
Proof. unfold on_processor, on_kernel, on_devs, on_cpu, the_cpu. by destruct (m (k_cpu (mc_kernel s))) as [[x c]| | |]. Qed.

Lemma with_cpu_twice c c' s : with_cpu c (with_cpu c' s) = with_cpu c s.
Proof. done. Qed.

(** The table of the processor is that of a list, and no reference to its record is alive. *)
Record has_table (l : list (nat * nat * IntHandlerFunc)) (c : CpuState) : Prop := {
  ht_ok : idt_ok (gs_idt (gs c));
  ht_alone : other_alive (gs c) = false;
  ht_slots v i : handler_at (gs_idt (gs c)) v i = table_of l v i;
}.

(** Registering at a free position. *)
Lemma register_table h vec i f l c :
  match h with First g | Normal g | Last g => g = f | Override _ => False end →
  head (positions h) = Some i → 0 <= vec < 256 → has_table l c → table_of l (Z.to_nat vec) i = None →
  ∃ c', register h vec c = Ret (inr (), c') ∧ has_table ((Z.to_nat vec, i, f) :: l) c' ∧ int_on c' = int_on c.
Proof.
  intros Hf Hi Hv [Hok Ha Ht] Hn. destruct (register_spec h vec c Hok Ha Hv) as (r & d' & Hr & Hd & Hreg).
  assert (registered f (positions h) (Z.to_nat vec) (gs_idt (gs c)) r d') as Hreg'.
  { destruct h; [| | |done]; subst; exact Hreg. }
  assert (i ∈ positions h ∧ ∀ j, j ∈ positions h → j ≠ i → (i < j)%nat) as [Hin Hfirst].
  { destruct h; [| | |done]; injection Hi as <-; (split; [left|]); cbn [positions]; intros j Hj; set_unfold; lia. }
  destruct Hreg' as [(-> & j & Hj & Hfree & Hmin & Hset & _)|(_ & _ & Hfull)].
  2: { exfalso. apply (Hfull i Hin). by rewrite Ht. }
  assert (j = i) as ->.
  { destruct (decide (j = i)) as [|Hne]; [done|]. exfalso. apply (Hmin i Hin); [by apply Hfirst|]. by rewrite Ht. }
  eexists. split; [exact Hr|]. split; [|done]. constructor.
  - exact Hd.
  - exact Ha.
  - intros v k. rewrite table_cons. cbn [gs cpu_with_gs gs_idt gs_with_idt]. rewrite Hset. by rewrite Ht.
Qed.

Lemma register_at {T} h vec i f l s (k : () → M Machine (Err + T)) :
  match h with First g | Normal g | Last g => g = f | Override _ => False end →
  head (positions h) = Some i → 0 <= vec < 256 → has_table l (the_cpu s) → table_of l (Z.to_nat vec) i = None →
  ∃ c, try_ (on_processor (register h vec)) k s = k () (with_cpu c s) ∧
    has_table ((Z.to_nat vec, i, f) :: l) c ∧ int_on c = int_on (the_cpu s).
Proof.
  intros Hf Hi Hv Ht Hn. destruct (register_table h vec i f l _ Hf Hi Hv Ht Hn) as (c & Hr & Hc & Hon).
  exists c. split; [|done]. unfold try_, mbind, M_bind. by rewrite on_processor_eq, Hr.
Qed.

Lemma register_faults_ok s :
  has_table [] (the_cpu s) →
  ∃ c, register_faults s = Ret (inr (), with_cpu c s) ∧ has_table fault_handlers c ∧ int_on c = int_on (the_cpu s).
Proof.
  intros Ht. unfold register_faults.
  edestruct (register_at (T:=()) (First page_fault) EXC_PAGE_FAULT 0 page_fault [] s) as (c1 & -> & H1 & O1); [done..|].
  edestruct (register_at (T:=()) (Normal double_fault) EXC_DOUBLE_FAULT 1 double_fault) as (c2 & -> & H2 & O2); [done|done|done|exact H1|done|].
  edestruct (register_at (T:=()) (Normal gp_exception) EXC_GENERAL_PROTECTION_FAULT 1 gp_exception) as (c3 & -> & H3 & O3);
    [done|done|done|exact H2|done|].
  destruct (register_table (First ipi_panic) IPI_PANIC 0 ipi_panic _ c3 eq_refl eq_refl ltac:(done) H3 eq_refl) as (c4 & Hr & H4 & O4).
  exists c4. rewrite on_processor_eq. change (the_cpu (with_cpu c3 _)) with c3. rewrite Hr. split; [done|]. split; [exact H4|].
  rewrite O4. etrans; [exact O3|]. etrans; [exact O2|exact O1].
Qed.

Lemma register_sched_ok s :
  has_table fault_handlers (the_cpu s) →
  ∃ c, register_sched s = Ret (inr (), with_cpu c s) ∧ has_table (sched_handlers ++ fault_handlers) c ∧
    int_on c = int_on (the_cpu s).
Proof.
  intros Ht. unfold register_sched.
  edestruct (register_at (T:=()) (Last Int.time_handler) IRQ_TIMER 3 Int.time_handler fault_handlers s) as (c1 & -> & H1 & O1); [done|done|done|exact Ht|done|].
  edestruct (register_at (T:=()) (Last Int.int_handler) INT_SCHED 3 Int.int_handler) as (c2 & -> & H2 & O2); [done|done|done|exact H1|done|].
  destruct (register_table (First Int.ipi_process_exit_handler) IPI_PROCESS_EXIT 0 Int.ipi_process_exit_handler _ c2
    eq_refl eq_refl ltac:(done) H2 eq_refl) as (c3 & Hr & H3 & O3).
  exists c3. rewrite on_processor_eq. change (the_cpu (with_cpu c2 _)) with c2. rewrite Hr. split; [done|]. split; [exact H3|].
  rewrite O3. etrans; [exact O2|exact O1].
Qed.

Definition set_msr (n v : Z) (r : Z → Z) : Z → Z := λ m, if m =? n then v else r m.

Lemma wrmsr_eq n v s : 0 <= v < U64 → wrmsr n v s = Ret ((), mw_msr (set_msr n v (mc_msr s)) s).
Proof. intros Hv. unfold wrmsr. by rewrite msr_word_ok. Qed.

Lemma rdmsr_eq n s : 0 <= mc_msr s n < U64 → rdmsr n s = Ret (mc_msr s n, s).
Proof. intros Hv. unfold rdmsr. by rewrite msr_word_ok. Qed.

Lemma lor_u64 a b : 0 <= a < U64 → 0 <= b < U64 → 0 <= Z.lor a b < U64.
Proof.
  intros Ha Hb. assert (0 <= Z.lor a b) as H0 by (apply Z.lor_nonneg; lia). split; [done|].
  destruct (Z.eq_dec (Z.lor a b) 0) as [->|Hne]; [lia|].
  assert (∀ x, 0 <= x < U64 → Z.log2 x < 64) as Hlog.
  { intros x Hx. destruct (Z.eq_dec x 0) as [->|]; [done|]. apply Z.log2_lt_pow2; lia. }
  change U64 with (2 ^ 64). apply Z.log2_lt_pow2; [lia|]. rewrite Z.log2_lor by lia.
  pose proof (Hlog a Ha). pose proof (Hlog b Hb). lia.
Qed.

(** The registers after [kdata::init] and [syscall::init]. *)
Definition cpu_msrs (gs_addr syscall_entry : Z) (r : Z → Z) : Z → Z :=
  set_msr STAR_MSR 0x0013000800000000 (set_msr FMASK_MSR 0x200 (set_msr LSTAR_MSR syscall_entry
    (set_msr EFER_MSR (Z.lor (r EFER_MSR) EFER_SYSCALL_ENABLE) (set_msr GSBASEK_MSR gs_addr (set_msr GSBASE_MSR gs_addr r))))).

Lemma gs_new_table tmp on : has_table [] (mkCpu on (gs_new tmp)).
Proof.
  constructor; [apply idt_new_ok|done|]. intros v i. cbn [gs gs_idt gs_new]. unfold handler_at, idt_new. cbn [handlers].
  destruct (replicate IDT_SIZE _ !! v) as [x|] eqn:E; [|done]. apply lookup_replicate in E as [-> _].
  cbn [mbind option_bind]. destruct (replicate MAX_HANDLERS None !! i) as [y|] eqn:E; [|done]. by apply lookup_replicate in E as [-> _].
Qed.

Lemma gates_table stub l c :
  has_table l c → ∃ d, idt_init stub c = Ret ((), cpu_with_gs (gs_with_idt d (gs c)) c) ∧
    has_table l (cpu_with_gs (gs_with_idt d (gs c)) c).
Proof.
  intros [Hok Ha Ht]. unfold idt_init.
  destruct (minths_eq stub idt_vectors c Hok Ha) as (d & Hd & Hokd & Hhs & _).
  { apply (bool_decide_unpack _). vm_compute. exact I. }
  exists d. split.
  - rewrite (M_bind_Ret _ _ _ _ _ Hd). erewrite with_cpud_eq; [|done|reflexivity]. destruct c as [on []]. simpl in *. by rewrite Ha.
  - constructor; [done|done|]. intros v i. cbn [gs cpu_with_gs gs_idt gs_with_idt]. unfold handler_at. rewrite Hhs. apply Ht.
Qed.

(** The first part of [init] and [ap_init] cannot fail. *)
Lemma init_cpu_ok stub syscall_entry tss_tmp gs_addr s :
  0 <= gs_addr < U64 → 0 <= syscall_entry < U64 → 0 <= mc_msr s EFER_MSR < U64 →
  ∃ c, init_cpu stub syscall_entry tss_tmp gs_addr s =
      Ret (inr (), mw_msr (cpu_msrs gs_addr syscall_entry (mc_msr s)) (with_cpu c s)) ∧
    has_table fault_handlers c ∧ int_on c = int_on (the_cpu s).
Proof.
  intros Hg He Hm. unfold init_cpu.
  set (c0 := mkCpu (int_on (the_cpu s)) (gs_new tss_tmp)).
  rewrite (M_bind_Ret _ _ _ () (mw_msr (set_msr GSBASEK_MSR gs_addr (set_msr GSBASE_MSR gs_addr (mc_msr s))) (with_cpu c0 s))).
  2: { unfold kdata_init. rewrite (M_bind_Ret _ _ _ () (with_cpu c0 s)) by (by rewrite on_processor_eq).
       rewrite (M_bind_Ret _ _ _ _ _ (wrmsr_eq GSBASE_MSR gs_addr _ Hg)). by rewrite wrmsr_eq by done. }
  set (s1 := mw_msr _ (with_cpu c0 s)).
  rewrite (M_bind_Ret _ _ _ () s1).
  2: { unfold gdt_init. rewrite on_processor_eq. by erewrite with_cpud_eq by done. }
  destruct (gates_table stub [] c0 (gs_new_table tss_tmp _)) as (d & Hd & Ht).
  set (c1 := cpu_with_gs _ c0) in *.
  rewrite (M_bind_Ret _ _ _ () (with_cpu c1 s1)) by (rewrite on_processor_eq; change (the_cpu s1) with c0; by rewrite Hd).
  destruct (register_faults_ok (with_cpu c1 s1) Ht) as (c2 & Hr & Ht2 & Hon).
  exists c2. split; [|split; [done|by rewrite Hon]].
  unfold try_. rewrite (M_bind_Ret _ _ _ _ _ Hr). unfold syscall_init.
  set (s2 := with_cpu c2 _).
  assert (mc_msr s2 EFER_MSR = mc_msr s EFER_MSR) as Hm2 by done.
  rewrite (M_bind_Ret _ _ _ () (mw_msr (cpu_msrs gs_addr syscall_entry (mc_msr s)) s2)); [done|].
  rewrite (M_bind_Ret _ _ _ _ _ (rdmsr_eq EFER_MSR s2 ltac:(by rewrite Hm2))). rewrite Hm2.
  rewrite (M_bind_Ret _ _ _ _ _ (wrmsr_eq EFER_MSR _ _ (lor_u64 _ EFER_SYSCALL_ENABLE Hm ltac:(done)))).
  rewrite (M_bind_Ret _ _ _ _ _ (wrmsr_eq LSTAR_MSR _ _ He)).
  rewrite (M_bind_Ret _ _ _ _ _ (wrmsr_eq FMASK_MSR 0x200 _ ltac:(done))).
  by rewrite (wrmsr_eq STAR_MSR 0x0013000800000000 _ ltac:(done)).
Qed.
End handlers.

(** ** The first process *)
Section first_process.
Context {B : Build} {AD : Addresses} {P : Cpu} {DV : Devices} {BF : Bitfields}.
Context (new_thread_at : gmap Z Thread → Z) (MAX_MAP_ADDR : Z).

(** A process whose next thread gets [tid], and the thread at [a] in its map. *)
Definition one_more (tid a : Z) (p : Process) : Process :=
  mkProc (p_alive p) (p_cpus p) (p_uid p) ((tid + 1) mod U64) (<[tid := a]> (p_threads p)) (p_arcs p).

Lemma new_thread_inv pid build s p tid s' :
  procs s !! pid = Some p → p_next_tid p + 1 < U64 → 0 <= p_next_tid p →
  (∀ a t, build (p_next_tid p) = inr (a, t) → th_tuid t = (pid, p_next_tid p)) →
  new_thread_regs pid build s = Ret (inr tid, s') →
  tid = p_next_tid p ∧ running (tlist s') = running (tlist s) ∧
  ∃ a, procs s' = <[pid := one_more tid a p]> (procs s).
Proof.
  intros Hp Hlt H0 Hb E. unfold new_thread_regs in E. apply M_bind_Ret_inv in E as (n & s1 & E1 & E).
  unfold next_tid, the_process, get, lift, proc_put, modify, mbind, M_bind in E1. rewrite Hp in E1. injection E1 as <- <-.
  destruct (build (p_next_tid p)) as [e|[a t]] eqn:Eb; [done|]. specialize (Hb a t eq_refl).
  apply M_bind_Ret_inv in E as ([] & s2 & E2 & E). injection E2 as <-.
  apply M_bind_Ret_inv in E as (ok & s3 & E3 & E).
  unfold insert_thread, the_process, the_thread, get, lift, proc_put, modify, mbind, M_bind in E3.
  cbn [procs threads with_threads with_procs] in E3. rewrite lookup_insert_eq in E3. cbn [res_bind threads with_threads with_procs] in E3.
  rewrite lookup_insert_eq in E3. cbn [res_bind mret M_ret] in E3. rewrite Hb in E3. unfold tuid_tid in E3.
  cbn [snd p_next_tid p_threads res_bind mret M_ret unwrap] in E3.
  rewrite Z.mod_small in E3 by lia. rewrite (proj2 (Z.leb_gt (p_next_tid p + 1) (p_next_tid p))) in E3 by lia.
  destruct (p_threads p !! p_next_tid p) eqn:Et; injection E3 as <- <-; [done|].
  apply M_bind_Ret_inv in E as ([k q] & s4 & E4 & E). apply M_bind_Ret_inv in E as ([] & s5 & E5 & E).
  injection E as <- <-. split; [done|].
  unfold tl_index, tl_get, lift, mbind, M_bind in E4. cbn in E4. injection E4 as <- <- <-.
  unfold push in E5. destruct (decide _); [done|]. injection E5 as <-. cbn. split; [done|].
  exists a. unfold one_more. rewrite insert_insert_eq. cbn. by rewrite Z.mod_small by lia.
Qed.

Lemma on_sched_inv {T} (m : SM T) (k : Kernel (W:=ZoneManager)) x k' :
  on_sched m k = Ret (x, k') → ∃ s, m (k_sched k) = Ret (x, s) ∧ k' = kw_sched s k.
Proof. unfold on_sched. intros E. apply res_bind_Ret_inv in E as ([y s] & E & Es). injection Es as <- <-. by exists s. Qed.

Lemma on_kernel_inv {T} (m : M (Kernel (W:=ZoneManager)) T) s x s' :
  on_kernel m s = Ret (x, s') → ∃ k, m (mc_kernel s) = Ret (x, k) ∧ s' = mw_kernel k s.
Proof. unfold on_kernel. intros E. apply res_bind_Ret_inv in E as ([y k] & E & Es). injection Es as <- <-. by exists k. Qed.

Lemma k_new_thread_inv fuel pid uid regs (k : Kernel (W:=ZoneManager)) p tid k' :
  procs (k_sched k) !! pid = Some p → 0 <= p_next_tid p → p_next_tid p + 1 < U64 →
  k_new_thread MAX_MAP_ADDR new_thread_at fuel pid uid regs k = Ret (inr tid, k') →
  tid = p_next_tid p ∧ running (tlist (k_sched k')) = running (tlist (k_sched k)) ∧
  (∃ a, procs (k_sched k') = <[pid := one_more tid a p]> (procs (k_sched k))) ∧
  k_cpu k' = k_cpu k ∧ k_caps k' = k_caps k.
Proof.
  intros Hp H0 Hlt E. unfold k_new_thread in E. apply M_bind_Ret_inv in E as (k0 & k1 & E0 & E). injection E0 as <- <-.
  apply M_bind_Ret_inv in E as (pr & k1 & E0 & E). apply on_sched_inv in E0 as (s & E0 & ->).
  unfold the_process, get, lift, mbind, M_bind in E0. rewrite Hp in E0. injection E0 as <- <-.
  apply M_bind_Ret_inv in E as (t & k1 & E1 & E). apply on_sched_inv in E as (s & E & ->).
  unfold on_vm in E1. apply res_bind_Ret_inv in E1 as (v & _ & E1). apply res_bind_Ret_inv in E1 as ([y v'] & Et & E1).
  injection E1 as -> <-. cbn [k_sched k_cpu k_caps kw_sched kw_space] in *.
  eapply new_thread_inv in E as (-> & Hr & Ha); [done|exact Hp|lia|lia|].
  intros a u. destruct t as [e|t]; [done|]. intros [= _ <-]. by eapply (thread_new_shape MAX_MAP_ADDR) in Et as (_ & ? & _).
Qed.

Hypothesis Hthread : ∀ m, m !! new_thread_at m = None.

Lemma grows_next_tid pid : grows (next_tid pid).
Proof. unfold next_tid, proc_put, the_process. grows_tac. Qed.
Lemma grows_cpu_start a t : grows (cpu_start a t).
Proof. unfold cpu_start, ensure_running, tl_index. grows_tac. Qed.
Lemma grows_insert_thread pid a : grows (insert_thread pid a).
Proof. unfold insert_thread, proc_put, the_process. grows_tac. Qed.
Lemma grows_process_new pid uid : grows (process_new pid uid).
Proof. unfold process_new, proc_put. grows_tac. Qed.
Lemma grows_list_process pid : grows (list_process pid).
Proof. unfold list_process, proc_put, the_process. grows_tac. Qed.
Lemma grows_drop_arc pid : grows (drop_arc pid).
Proof. unfold drop_arc, proc_put, the_process. grows_tac. Qed.

Lemma cpu_start_inv a t s s' :
  cpu_start a t s = Ret ((), s') → procs s' = procs s ∧ threads s' = <[a := th_with_state Running t]> (threads s).
Proof.
  unfold cpu_start, tl_index, tl_get, lift, ensure_running, modify, mbind, M_bind. cbn [mret M_ret res_bind]. intros E.
  destruct (key Running _) as [k| | |]; [|done..]. cbn [mbind res_bind] in E.
  destruct (qget k _); [|destruct (per_cpu k); done]. cbn in E. unfold push in E. destruct (decide _); [done|].
  injection E as <-. done.
Qed.

Lemma insert_thread_eq pid a p t s :
  procs s !! pid = Some p → threads s !! a = Some t → (th_tuid t).2 < p_next_tid p → p_threads p !! (th_tuid t).2 = None →
  insert_thread pid a s = Ret (true, with_procs (<[pid := p_with_threads (<[(th_tuid t).2 := a]> (p_threads p)) p]> (procs s)) s).
Proof.
  intros Hp Ht Hlt Hn. unfold insert_thread, the_process, the_thread, get, lift, proc_put, modify, mbind, M_bind.
  rewrite Hp. cbn [res_bind mret M_ret]. rewrite Ht. unfold tuid_tid. rewrite (proj2 (Z.leb_gt _ _)) by lia. by rewrite Hn.
Qed.

(** An event of the scheduler, on the kernel. *)
Lemma core_event e held {T} (m : SM T) (k : Kernel (W:=ZoneManager)) x k' :
  (∀ s, exec_event e (s, held) = keep m (s, held)) → allowed e (k_sched k) → grows m →
  core held k → on_sched m k = Ret (x, k') → core held k'.
Proof.
  intros He Ha Hg Hc. apply core_sched; [|done|done]. intros y s'.
  by apply (event_reach e _ _ m y s' (He _) (proj1 Hc)).
Qed.

Lemma start_idle_ok held pid stack s s' p :
  core held (mc_kernel s) → procs (k_sched (mc_kernel s)) !! pid = Some p →
  0 <= p_next_tid p → p_next_tid p + 1 < U64 → p_threads p !! p_next_tid p = None →
  match running (tlist (k_sched (mc_kernel s))) !! prid with Some q => q = [] | None => True end →
  start_idle new_thread_at pid stack s = Ret ((), s') →
  core held (mc_kernel s') ∧ (∃ a, procs (k_sched (mc_kernel s')) = <[pid := one_more (p_next_tid p) a p]> (procs (k_sched (mc_kernel s)))) ∧
  ∃ k, s' = mw_kernel k s ∧ k_cpu k = the_cpu s ∧ k_caps k = k_caps (mc_kernel s).
Proof.
  intros Hc Hp H0 Hlt Hn Hr E. unfold start_idle in E.
  apply M_bind_Ret_inv in E as (tid & s1 & E1 & E). apply on_kernel_inv in E1 as (k1 & E1 & ->).
  assert (core held k1) as Hc1.
  { eapply (core_event (ENextTid pid)); [done| |apply grows_next_tid|exact Hc|exact E1]. by exists p. }
  apply on_sched_inv in E1 as (sc1 & E1 & ->).
  unfold next_tid, the_process, get, lift, proc_put, modify, mbind, M_bind in E1. rewrite Hp in E1. injection E1 as <- <-.
  rewrite (Z.mod_small (p_next_tid p + 1)) in E, Hc1 by lia.
  apply M_bind_Ret_inv in E as (t & s2 & E2 & E). unfold lift in E2. apply res_bind_Ret_inv in E2 as (t' & E2 & Et).
  injection Et as <- <-. unfold new_idle in E2. apply res_bind_Ret_inv in E2 as (regs & _ & E2). injection E2 as <-.
  apply M_bind_Ret_inv in E as (s2 & s3 & E2 & E). injection E2 as <- <-.
  set (a := new_thread_at _) in E. set (t := mkThread _ _ _ _ _ _ _ _ _) in E.
  apply M_bind_Ret_inv in E as ([] & s4 & E4 & E). apply on_kernel_inv in E4 as (k4 & E4 & ->).
  assert (core held k4) as Hc4.
  { eapply (core_event (EStart prid a t)); [done| |apply grows_cpu_start|exact Hc1|exact E4].
    split_and!; [apply Hthread|done|exact Hr]. }
  apply on_sched_inv in E4 as (sc4 & E4 & ->).
  apply cpu_start_inv in E4 as [Hp4 Ht4]. cbn [k_sched mc_kernel mw_kernel kw_sched procs with_procs threads] in Hp4, Ht4.
  apply M_bind_Ret_inv in E as (ok & s5 & E5 & E). injection E as <-. apply on_kernel_inv in E5 as (k5 & E5 & ->).
  assert (core held k5) as Hc5.
  { eapply (core_event (EInsertThread pid a)); [done| |apply grows_insert_thread|exact Hc4|exact E5].
    cbn [allowed k_sched mc_kernel mw_kernel kw_sched]. split; [rewrite Hp4, lookup_insert_eq; by eexists|]. rewrite Ht4. eexists. by rewrite lookup_insert_eq. }
  apply on_sched_inv in E5 as (sc5 & E5 & ->).
  rewrite (insert_thread_eq pid a (mkProc (p_alive p) (p_cpus p) (p_uid p) (p_next_tid p + 1) (p_threads p) (p_arcs p))
    (th_with_state Running t)) in E5.
  - injection E5 as _ <-. split; [exact Hc5|]. split; [|by eexists]. exists a.
    cbn [k_sched mc_kernel mw_kernel kw_sched procs with_procs]. rewrite Hp4, insert_insert_eq. unfold one_more.
    by rewrite Z.mod_small by lia.
  - cbn. by rewrite Hp4, lookup_insert_eq.
  - cbn. by rewrite Ht4, lookup_insert_eq.
  - cbn. lia.
  - done.
Qed.

(** The process of the kernel after [sched::init]. *)
Definition kernel_process (a b : Z) : Process := mkProc true marker_new PKernel 2 {[1 := b; 0 := a]} 1.

Lemma list_drop_inv held pid p (k : Kernel (W:=ZoneManager)) k' :
  core held k → procs (k_sched k) !! pid = Some p → (1 <= p_arcs p)%nat →
  on_sched (list_process pid;; drop_arc pid) k = Ret ((), k') →
  core held k' ∧ procs (k_sched k') = <[pid := p]> (procs (k_sched k)) ∧ k_cpu k' = k_cpu k ∧ k_caps k' = k_caps k.
Proof.
  intros Hc Hp Ha E. apply on_sched_inv in E as (s & E & ->).
  apply M_bind_Ret_inv in E as ([] & s1 & E1 & E2).
  assert (core held (kw_sched s1 k)) as Hc1.
  { eapply (core_event (EListProcess pid)); [done|by exists p|apply grows_list_process|exact Hc|]. unfold on_sched. by rewrite E1. }
  assert (procs s1 = <[pid := mkProc (p_alive p) (p_cpus p) (p_uid p) (p_next_tid p) (p_threads p) (S (p_arcs p))]> (procs (k_sched k))) as Hp1.
  { unfold list_process, the_process, get, lift, proc_put, modify, mbind, M_bind in E1. rewrite Hp in E1. by injection E1 as <-. }
  assert (core held (kw_sched s k)) as Hc2.
  { eapply (core_event (EDropArc pid)); [done| |apply grows_drop_arc|exact Hc1|].
    - cbn. rewrite Hp1, lookup_insert_eq. by eexists.
    - unfold on_sched. cbn [k_sched kw_sched]. by rewrite E2. }
  split; [exact Hc2|]. split; [|done]. cbn [k_sched kw_sched].
  unfold drop_arc, the_process, get, lift, proc_put, modify, mbind, M_bind in E2. rewrite Hp1, lookup_insert_eq in E2.
  cbn [res_bind p_arcs] in E2. destruct (p_arcs p) as [|n] eqn:En; [lia|]. injection E2 as <-. cbn [procs with_procs].
  rewrite Hp1, insert_insert_eq. do 2 f_equal. destruct p; simpl in *. by subst.
Qed.

Lemma process_create_inv uid hh s pid s' :
  process_create hh uid s = Ret (pid, s') →
  pid = mc_next_pid s ∧ the_cpu s' = the_cpu s ∧ mc_msr s' = mc_msr s ∧
  k_sched (mc_kernel s') = with_procs (<[pid := mkProc true marker_new uid 0 ∅ 1]> (procs (k_sched (mc_kernel s)))) (k_sched (mc_kernel s)) ∧
  k_caps (mc_kernel s') = <[pid := no_caps]> (k_caps (mc_kernel s)).
Proof.
  unfold process_create. intros E. apply M_bind_Ret_inv in E as (s0 & s1 & E1 & E). injection E1 as <- <-.
  apply M_bind_Ret_inv in E as ([] & s1 & E1 & E). injection E1 as <-.
  apply M_bind_Ret_inv in E as ([] & s2 & E2 & E). apply on_kernel_inv in E2 as (k & E2 & ->).
  apply res_bind_Ret_inv in E2 as ([v p] & _ & E2). injection E2 as <-.
  apply M_bind_Ret_inv in E as ([] & s3 & E3 & E). injection E as <- <-. apply on_kernel_inv in E3 as (k & E3 & ->).
  apply on_sched_inv in E3 as (sc & E3 & ->). injection E3 as <-. done.
Qed.

Lemma load_space_inv pid s x s' : load_space pid s = Ret (x, s') → mc_kernel s' = mc_kernel s ∧ mc_msr s' = mc_msr s.
Proof. unfold load_space. intros E. apply res_bind_Ret_inv in E as (v & _ & E). by injection E as _ <-. Qed.

Lemma core_eq held (k k' : Kernel (W:=ZoneManager)) : k_sched k' = k_sched k → k_caps k' = k_caps k → core held k → core held k'.
Proof. apply core_same. Qed.

Definition fresh_kernel (k : Kernel (W:=ZoneManager)) : Prop := k_sched k = sched_new ∧ k_caps k = ∅.

Lemma sched_init_ok hh init_stack cleaner fuel s s' :
  fresh_kernel (mc_kernel s) → mc_next_pid s = 0 → has_table fault_handlers (the_cpu s) → 0 <= mc_msr s EFER_MSR < U64 →
  sched_init new_thread_at MAX_MAP_ADDR hh init_stack cleaner fuel s = Ret (inr (), s') →
  core [] (mc_kernel s') ∧ (∃ a b, procs (k_sched (mc_kernel s')) = {[0 := kernel_process a b]}) ∧
  k_caps (mc_kernel s') = {[0 := no_caps]} ∧ has_table (sched_handlers ++ fault_handlers) (the_cpu s') ∧
  int_on (the_cpu s') = int_on (the_cpu s) ∧
  mc_msr s' = set_msr EFER_MSR (Z.lor (mc_msr s EFER_MSR) EFER_EXEC_DISABLE) (mc_msr s).
Proof.
  intros [Hs Hcaps] Hpid Ht Hm E. unfold sched_init in E.
  set (efer := Z.lor (mc_msr s EFER_MSR) EFER_EXEC_DISABLE) in *. set (s0 := mw_msr (set_msr EFER_MSR efer (mc_msr s)) s).
  rewrite (M_bind_Ret _ _ _ () s0) in E.
  2: { unfold exec_disable. rewrite (M_bind_Ret _ _ _ _ _ (rdmsr_eq EFER_MSR s Hm)). apply wrmsr_eq, lor_u64; done. }
  apply M_bind_Ret_inv in E as (pid & s1 & E1 & E). apply process_create_inv in E1 as (Hp1 & Hcpu1 & Hm1 & Hs1 & Hc1).
  change (mc_next_pid s0) with (mc_next_pid s) in Hp1. rewrite Hpid in Hp1. subst pid.
  change (k_sched (mc_kernel s0)) with (k_sched (mc_kernel s)) in Hs1. rewrite Hs in Hs1.
  change (k_caps (mc_kernel s0)) with (k_caps (mc_kernel s)) in Hc1. rewrite Hcaps in Hc1.
  apply M_bind_Ret_inv in E as ([] & s2 & E2 & E). apply load_space_inv in E2 as [Hk2 Hm2].
  assert (core [] (mc_kernel s2)) as C2.
  { rewrite Hk2. split.
    - rewrite Hs1. eapply (event_reach (ENewProcess 0 PKernel) sched_new [] (process_new 0 PKernel) ()); [done|constructor|done|done].
    - rewrite Hc1. intros q c i cap Hq. apply lookup_insert_Some in Hq as [[_ <-]|[_ Hq]]; done. }
  assert (procs (k_sched (mc_kernel s2)) !! 0 = Some (mkProc true marker_new PKernel 0 ∅ 1)) as P2 by (by rewrite Hk2, Hs1).
  unfold try_ in E. apply M_bind_Ret_inv in E as ([e|tid] & s3 & E3 & E); [done|]. apply on_kernel_inv in E3 as (k3 & E3 & ->).
  assert (core [] k3) as C3.
  { eapply (safe_new_thread MAX_MAP_ADDR new_thread_at Hthread []); [exact C2| |exact E3].
    intros q p. rewrite Hk2, Hs1. cbn [procs with_procs]. intros Hq. apply lookup_insert_Some in Hq as [[_ <-]|[_ Hq]]; [|done]. split_and!; done. }
  eapply k_new_thread_inv in E3 as (-> & R3 & (a & P3) & Cpu3 & Caps3); [|exact P2|done|done].
  apply M_bind_Ret_inv in E as ([] & s4 & E4 & E).
  eapply (start_idle_ok []) in E4 as (C4 & (b & P4) & k4 & -> & Cpu4 & Caps4); [|exact C3|cbn; rewrite P3; apply lookup_insert_eq|done|done|done|].
  2: { cbn. rewrite R3, Hk2, Hs1. done. }
  apply M_bind_Ret_inv in E as ([] & s5 & E5 & E). apply on_kernel_inv in E5 as (k5 & E5 & ->).
  cbn [mc_kernel mw_kernel] in *.
  eapply (list_drop_inv []) in E5 as (C5 & P5 & Cpu5 & Caps5); [|exact C4|rewrite P4; apply lookup_insert_eq|cbn; lia].
  set (s5 := mw_kernel k5 _) in E.
  assert (the_cpu s5 = the_cpu s) as Hcpu.
  { change (the_cpu s5) with (k_cpu k5). rewrite Cpu5. etrans; [exact Cpu4|]. etrans; [exact Cpu3|].
    rewrite Hk2. exact Hcpu1. }
  destruct (register_sched_ok s5) as (c & Er & Htc & Hon); [by rewrite Hcpu|]. rewrite Er in E. injection E as <-.
  split; [|split; [|split; [|split; [|split]]]].
  - revert C5. by apply core_eq.
  - exists a, b. cbn. rewrite P5, P4, P3, Hk2, Hs1. cbn [procs with_procs sched_new]. rewrite !insert_insert_eq.
    unfold one_more, kernel_process. cbn. reflexivity.
  - cbn. by rewrite Caps5, Caps4, Caps3, Hk2, Hc1.
  - exact Htc.
  - change (int_on c = int_on (the_cpu s)). by rewrite Hon, Hcpu.
  - cbn. by rewrite Hm2, Hm1.
Qed.

(** *** A processor that joins *)
Definition with_arcs (n : nat) (p : Process) : Process :=
  mkProc (p_alive p) (p_cpus p) (p_uid p) (p_next_tid p) (p_threads p) n.

Lemma grows_proc_get pid : grows (proc_get pid).
Proof. unfold proc_get, proc_put, the_process. grows_tac. Qed.
Lemma grows_ensure_running c : grows (ensure_running c).
Proof. unfold ensure_running. grows_tac. Qed.

Lemma proc_get_inv held pid p (k : Kernel (W:=ZoneManager)) o k' :
  core held k → procs (k_sched k) !! pid = Some p → pid ∈ proc_list (k_sched k) →
  on_sched (proc_get pid) k = Ret (o, k') →
  o = Some p ∧ core held k' ∧ running (tlist (k_sched k')) = running (tlist (k_sched k)) ∧
  procs (k_sched k') = <[pid := with_arcs (S (p_arcs p)) p]> (procs (k_sched k)) ∧ k_cpu k' = k_cpu k ∧ k_caps k' = k_caps k.
Proof.
  intros Hc Hp Hin E.
  assert (core held k') as Hc' by (eapply (core_event (EProcGet pid)); [done|by exists p|apply grows_proc_get|exact Hc|exact E]).
  apply on_sched_inv in E as (s & E & ->). unfold proc_get in E.
  apply M_bind_Ret_inv in E as (s0 & s1 & E0 & E). injection E0 as <- <-. rewrite decide_True in E by done.
  unfold the_process, get, lift, proc_put, modify, mbind, M_bind in E. rewrite Hp in E. injection E as <- <-. done.
Qed.

Lemma drop_arc_inv held pid p n (k : Kernel (W:=ZoneManager)) k' :
  core held k → procs (k_sched k) !! pid = Some p → p_arcs p = S n → (1 <= n)%nat →
  on_sched (drop_arc pid) k = Ret ((), k') →
  core held k' ∧ procs (k_sched k') = <[pid := with_arcs n p]> (procs (k_sched k)) ∧ k_cpu k' = k_cpu k ∧ k_caps k' = k_caps k.
Proof.
  intros Hc Hp Hn H1 E.
  assert (core held k') as Hc' by (eapply (core_event (EDropArc pid)); [done|by exists p|apply grows_drop_arc|exact Hc|exact E]).
  apply on_sched_inv in E as (s & E & ->). unfold drop_arc, the_process, get, lift, proc_put, modify, mbind, M_bind in E.
  rewrite Hp in E. cbn [res_bind] in E. rewrite Hn in E.
  destruct n as [|n]; [lia|]. by injection E as <-.
Qed.

(** The record that [ensure_running] makes for the processor is empty, and stays so if it was. *)
Lemma ensure_running_inv held c (k : Kernel (W:=ZoneManager)) k' :
  core held k → match running (tlist (k_sched k)) !! c with Some q => q = [] | None => True end →
  on_sched (ensure_running c) k = Ret ((), k') →
  core held k' ∧ running (tlist (k_sched k')) !! c = Some [] ∧
  procs (k_sched k') = procs (k_sched k) ∧ proc_list (k_sched k') = proc_list (k_sched k) ∧ k_cpu k' = k_cpu k ∧ k_caps k' = k_caps k.
Proof.
  intros Hc Hr E.
  assert (core held k') as Hc' by (eapply (core_event (EAddCpu c)); [done|done|apply grows_ensure_running|exact Hc|exact E]).
  apply on_sched_inv in E as (s & E & ->). injection E as <-. split; [done|]. split; [|done].
  cbn [k_sched kw_sched tlist with_tlist running].
  destruct (running (tlist (k_sched k)) !! c) as [q|] eqn:Eq.
  - rewrite lookup_app_l by (by eapply lookup_lt_Some). by rewrite Eq, Hr.
  - apply lookup_ge_None in Eq. rewrite lookup_app_r by done. apply lookup_replicate. split; [done|lia].
Qed.

(** A processor that joins registers the handlers of the scheduler, gets an idle thread
    of its own in the process of the kernel, and keeps the scheduler safe. *)
Lemma sched_ap_init_ok held p stack_top s r s' :
  core held (mc_kernel s) → procs (k_sched (mc_kernel s)) !! 0 = Some p → 0 ∈ proc_list (k_sched (mc_kernel s)) → (1 <= p_arcs p)%nat →
  0 <= p_next_tid p → p_next_tid p + 1 < U64 → p_threads p !! p_next_tid p = None →
  match running (tlist (k_sched (mc_kernel s))) !! prid with Some q => q = [] | None => True end →
  has_table fault_handlers (the_cpu s) → 0 <= mc_msr s EFER_MSR < U64 →
  sched_ap_init new_thread_at stack_top s = Ret (r, s') →
  r = inr () ∧ core held (mc_kernel s') ∧
  (∃ a, procs (k_sched (mc_kernel s')) = <[0 := one_more (p_next_tid p) a p]> (procs (k_sched (mc_kernel s)))) ∧
  k_caps (mc_kernel s') = k_caps (mc_kernel s) ∧ has_table (sched_handlers ++ fault_handlers) (the_cpu s') ∧
  int_on (the_cpu s') = int_on (the_cpu s) ∧
  mc_msr s' = set_msr EFER_MSR (Z.lor (mc_msr s EFER_MSR) EFER_EXEC_DISABLE) (mc_msr s).
Proof.
  intros Hc Hp Hin Ha H0 Hlt Hn Hr Ht Hm E. unfold sched_ap_init in E.
  set (efer := Z.lor (mc_msr s EFER_MSR) EFER_EXEC_DISABLE) in *. set (s0 := mw_msr (set_msr EFER_MSR efer (mc_msr s)) s).
  rewrite (M_bind_Ret _ _ _ () s0) in E.
  2: { unfold exec_disable. rewrite (M_bind_Ret _ _ _ _ _ (rdmsr_eq EFER_MSR s Hm)). apply wrmsr_eq, lor_u64; done. }
  apply M_bind_Ret_inv in E as ([] & s1 & E1 & E). apply on_kernel_inv in E1 as (k1 & E1 & ->).
  eapply (ensure_running_inv held) in E1 as (C1 & R1 & P1 & L1 & Cpu1 & Caps1); [|exact Hc|exact Hr].
  apply M_bind_Ret_inv in E as (o & s2 & E2 & E). apply on_kernel_inv in E2 as (k2 & E2 & ->). cbn [mc_kernel mw_kernel] in E2.
  eapply (proc_get_inv held 0 p) in E2 as (-> & C2 & R2 & P2 & Cpu2 & Caps2); [|exact C1|by rewrite P1|by rewrite L1].
  rewrite (M_bind_Ret _ _ _ p _ ) in E by reflexivity.
  apply M_bind_Ret_inv in E as ([] & s3 & E3 & E). apply load_space_inv in E3 as [Hk3 Hm3]. cbn [mc_kernel mw_kernel mc_msr] in Hk3, Hm3.
  apply M_bind_Ret_inv in E as (a0 & s3' & E3 & E). unfold lift in E3. apply res_bind_Ret_inv in E3 as (? & _ & E3). injection E3 as _ <-.
  apply M_bind_Ret_inv in E as (stack & s3' & E3 & E). unfold lift in E3. apply res_bind_Ret_inv in E3 as (? & _ & E3). injection E3 as _ <-.
  apply M_bind_Ret_inv in E as ([] & s4 & E4 & E).
  eapply (start_idle_ok held 0 stack s3 s4 (with_arcs (S (p_arcs p)) p)) in E4 as (C4 & (a & P4) & k4 & -> & Cpu4 & Caps4); try done.
  2: { by rewrite Hk3. }
  2: { rewrite Hk3, P2. apply lookup_insert_eq. }
  2: { rewrite Hk3, R2, R1. done. }
  cbn [mc_kernel mw_kernel] in *.
  assert (k_cpu k4 = the_cpu s) as Hcpu.
  { rewrite Cpu4. unfold the_cpu. rewrite Hk3, Cpu2. exact Cpu1. }
  destruct (register_sched_ok (mw_kernel k4 s3)) as (c & Er & Htc & Hon).
  { change (has_table fault_handlers (k_cpu k4)). by rewrite Hcpu. }
  rewrite (M_bind_Ret _ _ _ _ _ Er) in E.
  apply M_bind_Ret_inv in E as ([] & s5 & E5 & E). injection E as <- <-. apply on_kernel_inv in E5 as (k5 & E5 & ->).
  set (k4' := mc_kernel (with_cpu c (mw_kernel k4 s3))) in E5.
  assert (procs (k_sched k4') = <[0 := one_more (p_next_tid p) a (with_arcs (S (p_arcs p)) p)]> (procs (k_sched (mc_kernel s)))) as P4'.
  { change (k_sched k4') with (k_sched k4). rewrite P4, Hk3, P2, P1. by rewrite !insert_insert_eq. }
  eapply (drop_arc_inv held) in E5 as (C5 & P5 & Cpu5 & Caps5).
  2: { revert C4. by apply core_eq. }
  2: { rewrite P4'. apply lookup_insert_eq. }
  2: { reflexivity. }
  2: { exact Ha. }
  split; [done|]. split; [exact C5|]. split; [|split; [|split; [|split]]].
  - exists a. cbn [mc_kernel mw_kernel]. rewrite P5, P4', insert_insert_eq. by destruct p.
  - cbn [mc_kernel mw_kernel]. rewrite Caps5. change (k_caps k4') with (k_caps k4). rewrite Caps4, Hk3, Caps2. exact Caps1.
  - unfold the_cpu. cbn [mc_kernel mw_kernel]. by rewrite Cpu5.
  - unfold the_cpu. cbn [mc_kernel mw_kernel]. rewrite Cpu5. change (k_cpu k4') with c. rewrite Hon. exact (f_equal int_on Hcpu).
  - cbn [mc_msr mw_kernel]. change (mc_msr (with_cpu c (mw_kernel k4 s3))) with (mc_msr s3). by rewrite Hm3.
Qed.
End first_process.

(** ** What the parts of [init] leave alone *)

(** A step after which [f] of the state is what it was. *)
Definition stays {S A T} (f : S → A) (m : M S T) : Prop := ∀ s x s', m s = Ret (x, s') → f s' = f s.

Lemma stays_ret {S A T} (f : S → A) (x : T) : stays f (mret x).
Proof. intros s y s' E. by injection E as _ <-. Qed.
Lemma stays_lift {S A T} (f : S → A) (r : res T) : stays f (lift r).
Proof. intros s y s' E. apply res_bind_Ret_inv in E as (z & _ & E). by injection E as _ <-. Qed.
Lemma stays_get {S A} (f : S → A) : stays f get.
Proof. intros s y s' E. by injection E as _ <-. Qed.
Lemma stays_bind {S A T U} (f : S → A) (m : M S T) (g : T → M S U) : stays f m → (∀ x, stays f (g x)) → stays f (m ≫= g).
Proof. intros Hm Hg s y s' E. apply M_bind_Ret_inv in E as (x & s1 & E1 & E). etrans; [by eapply Hg|by eapply Hm]. Qed.

Create HintDb stays.
#[export] Hint Resolve stays_ret stays_lift stays_get : stays.
Ltac stays_tac :=
  repeat first
    [ solve [auto with stays]
    | apply stays_bind; [|intros ?]
    | case_match ].

Section parts.
Context {B : Build} {AD : Addresses} {P : Cpu} {DV : Devices} {BF : Bitfields}.
Context (new_thread_at : gmap Z Thread → Z) (MAX_MAP_ADDR HIGHER_HALF_PAGE_POINTER : Z) (INIT_STACK : range) (thread_cleaner : Z).
Context (other : IntHandlerFunc → Registers → Z → M (CpuState * Dev) (bool * Registers)).
Context (AP_PHYS_START AP_CODE_START AP_CODE_END AP_DATA : Z) (aps_to_boot : Z → list Io → Z).
Context (firmware : bytes) (stub : Z → Z) (syscall_entry : Z).

Abbreviation Kern := (Kernel (W:=ZoneManager)).

(** The scheduler and the capabilities, the machine registers, and the next process id. *)
Definition upper (s : Machine) : Sched * gmap Z ProcCaps * (Z → Z) * Z :=
  (k_sched (mc_kernel s), k_caps (mc_kernel s), mc_msr s, mc_next_pid s).
Definition uses_apic (s : Machine) : bool := d_use_apic (k_dev (mc_kernel s)).

Lemma stays_kernel {A T} (f : Machine → A) (g : Kern → A) (m : M Kern T) :
  (∀ k s, f (mw_kernel k s) = g k) → (∀ s, f s = g (mc_kernel s)) → stays g m → stays f (on_kernel m).
Proof. intros H1 H2 Hm s x s' E. apply on_kernel_inv in E as (k & E & ->). rewrite H1, H2. by eapply Hm. Qed.

Lemma upper_devices {T} (m : M (CpuState * Dev) T) : stays upper (on_devices m).
Proof.
  intros s x s' E. apply on_kernel_inv in E as (k & E & ->). unfold on_devs in E.
  apply res_bind_Ret_inv in E as ([y [c d]] & _ & E). by injection E as _ <-.
Qed.
Lemma upper_zones {T} (m : ZM T) : stays upper (on_zones m).
Proof.
  intros s x s' E. unfold on_zones in E. apply on_kernel_inv in E as (k & E & ->).
  apply res_bind_Ret_inv in E as ([y w] & _ & E). by injection E as _ <-.
Qed.
Lemma upper_space {T} v (m : VM (W:=ZoneManager) T) : stays upper (on_space v m).
Proof.
  intros s x s' E. unfold on_space in E. apply on_kernel_inv in E as (k & E & ->).
  apply res_bind_Ret_inv in E as ([y w] & _ & E). by injection E as _ <-.
Qed.
#[local] Hint Resolve upper_devices upper_zones upper_space : stays.

Lemma upper_stacks n : stays upper (ap_stacks n).
Proof. induction n; cbn [ap_stacks]; stays_tac. Qed.
#[local] Hint Resolve upper_stacks : stays.

Lemma upper_timers fuel regs boot code space :
  stays upper (init_timers MAX_MAP_ADDR other AP_PHYS_START AP_CODE_START AP_CODE_END AP_DATA aps_to_boot firmware fuel regs boot code space).
Proof. unfold init_timers, smp_init. stays_tac. Qed.

Lemma upper_new_space :
  stays upper (on_kernel (λ k, '(v, p) ← mapper_new HIGHER_HALF_PAGE_POINTER (k_pt k);
    Ret (v, mkKernel (k_sched k) (k_caps k) (k_spaces k) p (k_objects k) (k_next_fuid k) (k_cpu k) (k_dev k) (k_user_mem k)))).
Proof. intros s x s' E. apply on_kernel_inv in E as (k & E & ->). apply res_bind_Ret_inv in E as ([y w] & _ & E). by injection E as _ <-. Qed.
#[local] Hint Resolve upper_new_space : stays.

(** *** Which interrupt controller is used *)
Lemma apic_kernel {T} (m : M Kern T) : stays k_dev m → stays uses_apic (on_kernel m).
Proof. intros Hm s x s' E. apply on_kernel_inv in E as (k & E & ->). unfold uses_apic. cbn. by rewrite (Hm _ _ _ E). Qed.
Lemma dev_sched {T} (m : SM T) : stays (k_dev (W:=ZoneManager)) (on_sched m).
Proof. intros k x k' E. by apply on_sched_inv in E as (s & _ & ->). Qed.
Lemma dev_vm {T} pid (m : VM (W:=ZoneManager) T) : stays (k_dev (W:=ZoneManager)) (on_vm pid m).
Proof.
  intros k x k' E. apply res_bind_Ret_inv in E as (v & _ & E). apply res_bind_Ret_inv in E as ([y v'] & _ & E).
  by injection E as _ <-.
Qed.
Lemma dev_new_space :
  stays (k_dev (W:=ZoneManager)) (λ k, '(v, p) ← mapper_new HIGHER_HALF_PAGE_POINTER (k_pt k);
    Ret (v, mkKernel (k_sched k) (k_caps k) (k_spaces k) p (k_objects k) (k_next_fuid k) (k_cpu k) (k_dev k) (k_user_mem k))).
Proof. intros k x k' E. apply res_bind_Ret_inv in E as ([y w] & _ & E). by injection E as _ <-. Qed.
Lemma apic_zones {T} (m : ZM T) : stays uses_apic (on_zones m).
Proof. apply apic_kernel. intros k x k' E. apply res_bind_Ret_inv in E as ([y w] & _ & E). by injection E as _ <-. Qed.
Lemma apic_processor {T} (m : M CpuState T) : stays uses_apic (on_processor m).
Proof. intros s x s' E. rewrite on_processor_eq in E. apply res_bind_Ret_inv in E as ([y c] & _ & E). by injection E as _ <-. Qed.
Lemma apic_rdmsr n : stays uses_apic (rdmsr n).
Proof. intros s x s' E. by injection E as _ <-. Qed.
Lemma apic_wrmsr n v : stays uses_apic (wrmsr n v).
Proof. intros s x s' E. unfold wrmsr in E. injection E as _ <-. done. Qed.
Lemma apic_load pid : stays uses_apic (load_space pid).
Proof. intros s x s' E. apply load_space_inv in E as [E _]. unfold uses_apic. by rewrite E. Qed.
Lemma apic_create uid : stays uses_apic (process_create HIGHER_HALF_PAGE_POINTER uid).
Proof.
  intros s x s' E. unfold process_create in E. apply M_bind_Ret_inv in E as (s0 & s1 & E1 & E). injection E1 as <- <-.
  apply M_bind_Ret_inv in E as ([] & s1 & E1 & E). injection E1 as <-. revert E.
  match goal with |- ?m (mw_next_pid ?p s) = _ → _ => assert (stays uses_apic m) as Hm end.
  { apply stays_bind; [|intros ?; apply stays_bind; [apply apic_kernel, dev_sched|intros ?; apply stays_ret]].
    apply apic_kernel. intros k y k' E. apply res_bind_Ret_inv in E as ([v w] & _ & E). by injection E as _ <-. }
  intros E. exact (Hm _ _ _ E).
Qed.
#[local] Hint Resolve apic_zones apic_processor apic_rdmsr apic_wrmsr apic_load apic_create dev_sched dev_vm dev_new_space : stays.

Lemma apic_sched_kernel {T} (m : SM T) : stays uses_apic (on_kernel (on_sched m)).
Proof. apply apic_kernel, dev_sched. Qed.
Lemma apic_new_thread fuel pid uid regs : stays uses_apic (on_kernel (k_new_thread MAX_MAP_ADDR new_thread_at fuel pid uid regs)).
Proof. apply apic_kernel. unfold k_new_thread. stays_tac. Qed.
#[local] Hint Resolve apic_sched_kernel apic_new_thread : stays.

Lemma apic_sched_init fuel :
  stays uses_apic (sched_init new_thread_at MAX_MAP_ADDR HIGHER_HALF_PAGE_POINTER INIT_STACK thread_cleaner fuel).
Proof. unfold sched_init, exec_disable, try_, start_idle, register_sched. stays_tac. Qed.
Lemma apic_init_cpu tmp gs_addr : stays uses_apic (init_cpu stub syscall_entry tmp gs_addr).
Proof. unfold init_cpu, kdata_init, gdt_init, try_, register_faults, syscall_init. stays_tac. Qed.
Lemma apic_init_frames boot : stays uses_apic (init_frames HIGHER_HALF_PAGE_POINTER AP_CODE_START boot).
Proof. unfold init_frames, heap_init. stays_tac. by apply apic_kernel, dev_new_space. Qed.
Lemma upper_init_frames boot : stays upper (init_frames HIGHER_HALF_PAGE_POINTER AP_CODE_START boot).
Proof. unfold init_frames, heap_init. stays_tac. Qed.

Lemma memory_inv boot s x s' :
  init_memory HIGHER_HALF_PAGE_POINTER AP_CODE_START boot s = Ret (x, s') → upper s' = upper s ∧ uses_apic s' = has_apic.
Proof.
  intros E. unfold init_memory in E. apply M_bind_Ret_inv in E as (s0 & s1 & E1 & E). injection E1 as <- <-.
  apply M_bind_Ret_inv in E as (w & s1 & E1 & E). unfold lift in E1. apply res_bind_Ret_inv in E1 as (w' & _ & E1). injection E1 as <- <-.
  apply M_bind_Ret_inv in E as ([] & s1 & E1 & E). injection E1 as <-.
  apply M_bind_Ret_inv in E as ([] & s1 & E1 & E). injection E1 as <-.
  split; [by rewrite (upper_init_frames _ _ _ _ E)|by rewrite (apic_init_frames _ _ _ _ E)].
Qed.

(** *** The handlers, when the older controller is used *)
Definition pic_handlers : list (nat * nat * IntHandlerFunc) :=
  (32%nat, 0%nat, timer_irq_handler) :: sched_handlers ++ fault_handlers.

Lemma cpu_devices {T} (m : M (CpuState * Dev) T) : stays fst m → stays the_cpu (on_devices m).
Proof.
  intros Hm s x s' E. apply on_kernel_inv in E as (k & E & ->). unfold on_devs in E.
  apply res_bind_Ret_inv in E as ([y [c d]] & E1 & E). injection E as _ <-. apply Hm in E1. cbn in E1. by subst.
Qed.
Lemma cpu_zones {T} (m : ZM T) : stays the_cpu (on_zones m).
Proof. intros s x s' E. unfold on_zones in E. apply on_kernel_inv in E as (k & E & ->). apply res_bind_Ret_inv in E as ([y w] & _ & E). by injection E as _ <-. Qed.
Lemma cpu_on_dev f : stays fst (on_dev f).
Proof. intros [c d] x s' E. by injection E as _ <-. Qed.
Lemma cpu_of_dev {A} (f : Dev → A) : stays fst (of_dev f).
Proof. intros [c d] x s' E. by injection E as _ <-. Qed.
#[local] Hint Resolve cpu_on_dev cpu_of_dev cpu_zones : stays.

Lemma cpu_remap m n : stays fst (pic_remap m n).
Proof. unfold pic_remap, inb, outb. stays_tac. Qed.
Lemma cpu_reset n : stays fst (set_reset n).
Proof.
  unfold set_reset, with_pit_lock, of_pit, outb, on_pit. stays_tac. intros s y s' E. done.
Qed.

Lemma timers_pic fuel regs boot code space s r s' :
  uses_apic s = false → has_table (sched_handlers ++ fault_handlers) (the_cpu s) →
  init_timers MAX_MAP_ADDR other AP_PHYS_START AP_CODE_START AP_CODE_END AP_DATA aps_to_boot firmware fuel regs boot code space s = Ret (r, s') →
  r = inr () ∧ has_table pic_handlers (the_cpu s').
Proof.
  intros Hu Ht E. unfold init_timers in E.
  rewrite (M_bind_Ret _ _ _ false s) in E.
  2: { unfold uses_apic in Hu. unfold on_devices, on_kernel, on_devs, use_apic, of_dev. cbn [res_bind mbind M_bind].
       rewrite Hu. by destruct s as [[] ? ? ? ?]. }
  apply M_bind_Ret_inv in E as ([] & s1 & E1 & E). apply cpu_zones in E1.
  apply M_bind_Ret_inv in E as ([] & s2 & E2 & E). apply (cpu_devices _ (cpu_remap _ _)) in E2.
  apply on_kernel_inv in E as (k & E & ->). unfold on_devs in E. apply res_bind_Ret_inv in E as ([y [c d]] & E & Ek).
  injection Ek as -> <-. unfold pit_init in E. apply M_bind_Ret_inv in E as ([] & [c3 d3] & E3 & E).
  apply cpu_reset in E3. cbn [fst] in E3. unfold on_cpu in E. apply res_bind_Ret_inv in E as ([y c4] & E & Ec). injection Ec as -> <- <-.
  assert (has_table (sched_handlers ++ fault_handlers) c3) as Ht3.
  { rewrite E3. change (k_cpu (mc_kernel s2)) with (the_cpu s2). by rewrite E2, E1. }
  destruct (register_table (First timer_irq_handler) IRQ_TIMER 0 timer_irq_handler _ c3 eq_refl eq_refl ltac:(done) Ht3 eq_refl)
    as (c5 & Er & Ht5 & _).
  rewrite Er in E. injection E as <- <-. split; [done|exact Ht5].
Qed.
End parts.

(** ** The kernel after [init] *)

(** What [syscall] loads into [cs] and [ss] from [STAR], and what [sysret] does. *)
Definition syscall_selectors (star : Z) : Z * Z :=
  let base := (star / 2 ^ 32) mod 2 ^ 16 in (base, base + 8).
Definition sysret_selectors (star : Z) : Z * Z :=
  let base := star / 2 ^ 48 in (Z.lor (base + 16) 3, Z.lor (base + 8) 3).
Definition selectors (r : Registers) : Z * Z := (cs r, ss r).

(** System calls enter at [syscall_entry] with interrupts off, with the selectors of the
    kernel, and leave with those of user threads; pages may be marked non-executable; the
    record of the processor is where [gs] points. *)
Record msrs_ok (gs_addr syscall_entry : Z) (r : Z → Z) : Prop := {
  mo_entry : r LSTAR_MSR = syscall_entry;
  mo_mask : r FMASK_MSR = 2 ^ 9;
  mo_kernel : syscall_selectors (r STAR_MSR) = selectors (from_priv PKernel);
  mo_user uid : sysret_selectors (r STAR_MSR) = selectors (from_priv (PUser uid));
  mo_enable : Z.testbit (r EFER_MSR) 0 = true;
  mo_nx : Z.testbit (r EFER_MSR) 11 = true;
  mo_gs : r GSBASE_MSR = gs_addr ∧ r GSBASEK_MSR = gs_addr;
}.

Lemma cpu_msrs_ok gs_addr syscall_entry r :
  0 <= r EFER_MSR →
  msrs_ok gs_addr syscall_entry
    (set_msr EFER_MSR (Z.lor (cpu_msrs gs_addr syscall_entry r EFER_MSR) EFER_EXEC_DISABLE) (cpu_msrs gs_addr syscall_entry r)).
Proof.
  intros Hr. constructor; try done.
  - change (Z.testbit (Z.lor (Z.lor (r EFER_MSR) 1) 2048) 0 = true). by rewrite !Z.lor_spec, orb_true_r.
  - change (Z.testbit (Z.lor (Z.lor (r EFER_MSR) 1) 2048) 11 = true). by rewrite Z.lor_spec, orb_true_r.
Qed.

(** A kernel whose only process is that of [sched::init] has thread ids left. *)
Lemma kernel_process_tids a b (sc : Sched) : procs sc = {[0 := kernel_process a b]} → tids_left sc.
Proof.
  intros Hp pid p H. rewrite Hp in H. apply lookup_singleton_Some in H as [_ <-]. split_and!; [done|done|].
  unfold kernel_process. cbn [p_threads p_next_tid]. by rewrite lookup_insert_ne, lookup_singleton_ne by done.
Qed.

Section start.
Context {B : Build} {AD : Addresses} {P : Cpu} {DV : Devices} {BF : Bitfields}.
Context (new_thread_at : gmap Z Thread → Z) (MAX_MAP_ADDR HIGHER_HALF_PAGE_POINTER : Z) (INIT_STACK : range) (thread_cleaner : Z).
Context (other : IntHandlerFunc → Registers → Z → M (CpuState * Dev) (bool * Registers)).
Context (AP_PHYS_START AP_CODE_START AP_CODE_END AP_DATA : Z) (aps_to_boot : Z → list Io → Z).
Context (firmware : bytes) (stub : Z → Z) (syscall_entry : Z).

End start.

(** ** A small machine that starts *)
Section demo.
#[local] Existing Instance dev.
#[local] Existing Instance first_cpu.
#[local] Existing Instance mute_devices.
#[local] Existing Instance MaskFields.

(** Low memory for the boot code, and a megabyte. *)
Definition demo_boot_info : BootInfo :=
  mkBoot [Usable (mkRange 0x8000 0x8000); Reserved (mkRange 0xf0000 0x10000); Usable (mkRange 0x100000 0x100000)] (0, 0) 0.
Definition demo_screen : Writer := mkWriter 0 0 7 (replicate 25 (replicate 80 (mkChar 0 0))).
Definition demo_kernel_new : Kernel (W:=ZoneManager) :=
  mkKernel sched_new ∅ ∅ (mkPT ∅ zm_new) ∅ 0 demo_cpu dev_new (λ _, None).
Definition demo_machine : Machine := mkMach demo_kernel_new (λ _, 0) 0 0 demo_screen.

Abbreviation demo_init :=
  (init above 0x7fffffffe000 0x3000 (mkRange 0xb0000 0x4000) 0x400 (λ _ r _, mret (false, r)) 0x120000 0x8000 0x8100 0x8200 (λ _ _, 0)
    (λ _, None) (λ n, n) 0xfff0 64 regs_zero 0x5000 0x6000 demo_boot_info demo_machine).

Definition init_ok {E} (r : res ((E + ()) * Machine)) : bool := match r with Ret (inr _, _) => true | _ => false end.

Lemma init_ok_inv {E} (r : res ((E + ()) * Machine)) : init_ok r = true → ∃ s, r = Ret (inr (), s).
Proof. destruct r as [[[e|[]] s]| | |]; intros H; [discriminate H| |discriminate H..]. by exists s. Qed.

Lemma demo_init_ok : init_ok demo_init = true.
Proof. vm_compute. reflexivity. Qed.


(** A joining processor's idle thread is told that its stack starts where the memory of
    [smp_init] ends. *)
Example ap_stack_above :
  (m ← zm_alloc_ DEFAULT_KERNEL_SIZE;
   lift (m ← unwrap m; t ← uadd (m_addr m) DEFAULT_KERNEL_SIZE; a ← a_new (AddrOps:=VA) t;
         r ← range_new (A:=VA) a DEFAULT_KERNEL_SIZE; Ret (m_addr m + m_len m <=? r_addr r)))
    (match zm_init (memory_map demo_boot_info) zm_new with Ret (_, w) => w | _ => zm_new end) ≫= (λ '(b, _), Ret b) = Ret true.
Proof. vm_compute. reflexivity. Qed.
End demo.
