(* ===== verification/NLVec.v ===== *)
(** * The lock-free vector and map: [libutil/src/collections/nlvec.rs], [nlvecmap.rs]

    An [NLVec] is an atomic pointer to a vector of pointers to its elements.  A reader
    loads the pointer and reads the vector; a writer copies the vector, changes the copy,
    and puts it in place with a compare-and-exchange, again from the start if it fails, and
    frees the vector that was there.

    The first part runs the operations of one caller to their end.  In the second part
    threads interleave at their atomic operations.  Boxes are addresses of a heap; reading or
    freeing one that is not there is undefined. *)

From Stdlib Require Import Sorted.
From S2P Require Import Prelude.

(** The global allocator: an address that is not in use. *)
Class Heap := {
  fresh_addr : gset Z → Z;
  fresh_addr_new X : fresh_addr X ∉ X;
  fresh_addr_null X : fresh_addr X ≠ 0;
}.

(** ** The steps on the vectors *)

(** The pointer, and the vectors in the heap. *)
Record Boxes := mkBoxes { cell : Z; vecs : gmap Z (list Z) }.

Definition load_box (p : Z) (b : Boxes) : res (list Z) :=
  if p =? 0 then Panic else match vecs b !! p with Some v => Ret v | None => UB end.

Definition new_box (n : Z) (v : list Z) (b : Boxes) : Boxes := mkBoxes (cell b) (<[n := v]> (vecs b)).

Definition exchange (p n : Z) (b : Boxes) : option Boxes :=
  if cell b =? p then Some (mkBoxes n (vecs b)) else None.

Definition free_box (p : Z) (b : Boxes) : res Boxes :=
  match vecs b !! p with Some _ => Ret (mkBoxes (cell b) (delete p (vecs b))) | None => UB end.

(** ** [NLVec], one caller at a time *)

Section nlvec.
Context {H : Heap} {T : Type}.

Record NLVec := mkNLVec { vbox : Boxes; elems : gmap Z T }.

Definition NM := M NLVec.

Definition nlvec_new : NLVec :=
  let p := fresh_addr ∅ in mkNLVec (mkBoxes p {[ p := [] ]}) ∅.

(** The functions given to [read] and [write] may look at the elements. *)
Definition read {V} (f : gmap Z T → list Z → res V) : NM V := λ s,
  v ← load_box (cell (vbox s)) (vbox s); x ← f (elems s) v; Ret (x, s).

Fixpoint write {V} (fuel : nat) (f : gmap Z T → list Z → res (V * list Z)) : NM V := λ s,
  match fuel with
  | O => NoFuel
  | S fuel =>
      let ptr := cell (vbox s) in
      vec ← load_box ptr (vbox s);
      '(out, vec) ← f (elems s) vec;
      let new_ptr := fresh_addr (dom (vecs (vbox s))) in
      let b := new_box new_ptr vec (vbox s) in
      match exchange ptr new_ptr b with
      | Some b => b ← free_box ptr b; Ret (out, mkNLVec b (elems s))
      | None => b ← free_box new_ptr b; write fuel f (mkNLVec b (elems s))
      end
  end.

(** Elements. *)
Definition elem_at (es : gmap Z T) (p : Z) : res T :=
  if p =? 0 then Panic else match es !! p with Some x => Ret x | None => UB end.

Definition to_heap (x : T) : NM Z := λ s,
  let p := fresh_addr (dom (elems s)) in Ret (p, mkNLVec (vbox s) (<[p := x]> (elems s))).

Definition borrow (p : Z) : NM T := λ s, x ← elem_at (elems s) p; Ret (x, s).

Definition from_heap (p : Z) : NM T := λ s,
  x ← elem_at (elems s) p; Ret (x, mkNLVec (vbox s) (delete p (elems s))).

(** [Vec::insert] and [Vec::remove] panic out of range. *)
Definition vec_insert (i : nat) (p : Z) (v : list Z) : res (list Z) :=
  if (i <=? length v)%nat then Ret (take i v ++ p :: drop i v) else Panic.
Definition vec_remove (i : nat) (v : list Z) : res (Z * list Z) :=
  match v !! i with Some p => Ret (p, delete i v) | None => Panic end.

Definition nlvec_len : NM nat := read (λ _ v, Ret (length v)).
Definition nlvec_is_empty : NM bool := read (λ _ v, Ret (match v with [] => true | _ => false end)).

Definition nlvec_get (index : nat) : NM (option T) :=
  o ← read (λ _ v, Ret (v !! index));
  match o with
  | None => mret None
  | Some p => x ← borrow p; mret (Some x)
  end.

Definition nlvec_insert (fuel index : nat) (x : T) : NM () :=
  p ← to_heap x; write fuel (λ _ v, v ← vec_insert index p v; Ret ((), v)).

Definition nlvec_push (fuel : nat) (x : T) : NM () :=
  p ← to_heap x; write fuel (λ _ v, Ret ((), v ++ [p])).

Definition nlvec_remove (fuel index : nat) : NM T :=
  p ← write fuel (λ _ v, vec_remove index v); from_heap p.

Definition nlvec_pop (fuel : nat) : NM (option T) :=
  o ← write fuel (λ _ v, Ret (last v, take (length v - 1) v));
  match o with None => mret None | Some p => x ← from_heap p; mret (Some x) end.
End nlvec.
Arguments NLVec : clear implicits.

(** ** [NLVecMap]: a vector of nodes sorted by key *)

(** The map in use is keyed by [usize]. *)
Record MapNode (V : Type) := mkMapNode { n_key : Z; n_value : V }.
Arguments mkMapNode {V} n_key n_value.
Arguments n_key {V} m.
Arguments n_value {V} m.

Section nlvecmap.
Context {H : Heap} {V : Type}.

Definition MM := NM (T:=MapNode V).

(** [slice::binary_search_by] on [left, left + size), halving. *)
Fixpoint bsearch (fuel : nat) (cmp : Z → res comparison) (v : list Z) (left right : nat) : res (nat + nat) :=
  match fuel with
  | O => NoFuel
  | S fuel =>
      if (left <? right)%nat then
        let mid := (left + (right - left) / 2)%nat in
        p ← unwrap (v !! mid);
        c ← cmp p;
        match c with
        | Lt => bsearch fuel cmp v (mid + 1) right
        | Gt => bsearch fuel cmp v left mid
        | Eq => Ret (inl mid)
        end
      else Ret (inr left)
  end.

Definition map_search (es : gmap Z (MapNode V)) (v : list Z) (key : Z) : res (nat + nat) :=
  bsearch (S (length v)) (λ p, n ← elem_at es p; Ret (n_key n ?= key)) v 0 (length v).

Definition map_new : NLVec (MapNode V) := nlvec_new.
Definition map_len : MM nat := nlvec_len.

(** What [get], [insert] and [remove] do to the copy of the vector; [remove] leaves it. *)
Definition get_in (key : Z) (es : gmap Z (MapNode V)) (v : list Z) : res (option V * list Z) :=
  r ← map_search es v key;
  match r with
  | inl i => p ← unwrap (v !! i); n ← elem_at es p; Ret (Some (n_value n), v)
  | inr _ => Ret (None, v)
  end.

Definition insert_in (key node : Z) (es : gmap Z (MapNode V)) (v : list Z) : res (option Z * list Z) :=
  r ← map_search es v key;
  match r with
  | inl i => '(out, v) ← vec_remove i v; v ← vec_insert i node v; Ret (Some out, v)
  | inr i => v ← vec_insert i node v; Ret (None, v)
  end.

Definition remove_in (key : Z) (es : gmap Z (MapNode V)) (v : list Z) : res (option Z * list Z) :=
  r ← map_search es v key;
  match r with
  | inl i => p ← unwrap (v !! i); Ret (Some p, v)
  | inr _ => Ret (None, v)
  end.

Definition map_out (o : option Z) : MM (option V) :=
  match o with None => mret None | Some p => n ← from_heap p; mret (Some (n_value n)) end.

Definition map_get (fuel : nat) (key : Z) : MM (option V) := write fuel (get_in key).

Definition map_insert (fuel : nat) (key : Z) (value : V) : MM (option V) :=
  node ← to_heap (mkMapNode key value); o ← write fuel (insert_in key node); map_out o.

Definition map_remove (fuel : nat) (key : Z) : MM (option V) :=
  o ← write fuel (remove_in key); map_out o.
End nlvecmap.

(** ** What the map does *)

Section map_spec.
Context {H : Heap} {V : Type}.
Implicit Types (s : NLVec (MapNode V)) (l : list (Z * V)) (m : gmap Z V).

(** One caller's exchange always succeeds. *)
Lemma write_once {U} fuel (f : gmap Z (MapNode V) → list Z → res (U * list Z)) s v out v' :
  load_box (cell (vbox s)) (vbox s) = Ret v → f (elems s) v = Ret (out, v') →
  ∃ b, write (S fuel) f s = Ret (out, mkNLVec b (elems s)) ∧ load_box (cell b) b = Ret v'.
Proof.
  intros Hv Hf. cbn [write]. rewrite Hv. cbn [mbind res_bind]. rewrite Hf. cbn [mbind res_bind].
  unfold load_box in Hv. destruct (cell (vbox s) =? 0); [done|].
  destruct (vecs (vbox s) !! cell (vbox s)) as [v0|] eqn:E; [|done].
  pose proof (fresh_addr_new (dom (vecs (vbox s)))) as Hn. pose proof (fresh_addr_null (dom (vecs (vbox s)))) as H0.
  set (n := fresh_addr _) in *. assert (n ≠ cell (vbox s)) as Hne.
  { intros ->. apply Hn, elem_of_dom. by eexists. }
  unfold exchange. cbn [new_box cell vecs]. rewrite Z.eqb_refl. unfold free_box. cbn [vecs cell].
  rewrite lookup_insert_ne, E by done. cbn [mbind res_bind]. eexists. split; [done|].
  unfold load_box. cbn [vecs cell]. rewrite (proj2 (Z.eqb_neq n 0)) by done.
  by rewrite lookup_delete_ne, lookup_insert_eq.
Qed.

(** The vector [ps] of the map holds the nodes [l], in strict order of keys. *)
Record holds s (ps : list Z) l : Prop := {
  h_vec : load_box (cell (vbox s)) (vbox s) = Ret ps;
  h_nodes : Forall2 (λ p (kv : Z * V), p ≠ 0 ∧ elems s !! p = Some (mkMapNode kv.1 kv.2)) ps l;
  h_nodup : NoDup ps;
  h_sorted : StronglySorted Z.lt l.*1;
}.

Lemma sorted_lookup (ks : list Z) : StronglySorted Z.lt ks →
  ∀ i j a b, ks !! i = Some a → ks !! j = Some b → (i < j)%nat → a < b.
Proof.
  induction 1 as [|k ks Hs IH Hk]; intros i j a b Hi Hj Hij; [done|].
  destruct j as [|j]; [lia|]. destruct i as [|i]; simplify_eq/=.
  - eapply Forall_lookup_1; [exact Hk|exact Hj].
  - apply (IH i j); [done..|lia].
Qed.

(** Where the search comes to. *)
Definition found (key : Z) (ks : list Z) (r : nat + nat) : Prop :=
  match r with
  | inl i => ks !! i = Some key
  | inr i => (i <= length ks)%nat ∧ (∀ j k, ks !! j = Some k → if (j <? i)%nat then k < key else key < k)
  end.

Lemma bsearch_found cmp v ks key fuel : ∀ left right,
  length v = length ks → StronglySorted Z.lt ks →
  (∀ i p k, v !! i = Some p → ks !! i = Some k → cmp p = Ret (k ?= key)) →
  (left <= right <= length ks)%nat → (right - left < fuel)%nat →
  (∀ j k, ks !! j = Some k → (j < left)%nat → k < key) →
  (∀ j k, ks !! j = Some k → (right <= j)%nat → key < k) →
  ∃ r, bsearch fuel cmp v left right = Ret r ∧ found key ks r.
Proof.
  induction fuel as [|fuel IH]; intros left right Hlen Hs Hc Hr Hf Hlo Hhi; [lia|]. cbn [bsearch].
  destruct (Nat.ltb_spec left right) as [Hlt|Hge].
  - pose proof (Nat.div_lt (right - left) 2). set (mid := (left + (right - left) / 2)%nat).
    assert (left <= mid < right)%nat by (subst mid; destruct (decide (right - left = 0)%nat); lia).
    destruct (lookup_lt_is_Some_2 v mid) as [p Hp]; [lia|]. destruct (lookup_lt_is_Some_2 ks mid) as [k Hk]; [lia|].
    rewrite Hp. cbn [unwrap mbind res_bind]. rewrite (Hc _ _ _ Hp Hk). cbn [mbind res_bind].
    destruct (Z.compare_spec k key) as [->|Hlt'|Hgt].
    + by exists (inl mid).
    + apply IH; [done..|lia|lia| |done]. intros j k' Hj Hlt''.
      destruct (decide (j = mid)) as [->|]; [congruence|]. pose proof (sorted_lookup ks Hs j mid k' k Hj Hk). lia.
    + apply IH; [done..|lia|lia|done|]. intros j k' Hj Hle.
      destruct (decide (j = mid)) as [->|]; [congruence|]. pose proof (sorted_lookup ks Hs mid j k k' Hk Hj). lia.
  - exists (inr left). split; [done|]. split; [lia|]. intros j k Hj. destruct (Nat.ltb_spec j left).
    + by apply (Hlo j).
    + apply (Hhi j); [done|lia].
Qed.

Lemma holds_node s ps l i p : holds s ps l → ps !! i = Some p → ∃ k v, l !! i = Some (k, v) ∧
  elem_at (elems s) p = Ret (mkMapNode k v).
Proof.
  intros Hh Hp. destruct (Forall2_lookup_l _ _ _ _ _ (h_nodes _ _ _ Hh) Hp) as ([k v] & Hl & H0 & He).
  exists k, v. split; [done|]. unfold elem_at. by rewrite (proj2 (Z.eqb_neq p 0)), He.
Qed.

Lemma search_found s ps l key : holds s ps l → ∃ r, map_search (elems s) ps key = Ret r ∧ found key l.*1 r.
Proof.
  intros Hh. pose proof (Forall2_length _ _ _ (h_nodes _ _ _ Hh)) as Hlen.
  apply bsearch_found; rewrite ?length_fmap; try apply Hh; try lia.
  - intros i p k Hp Hk. destruct (holds_node _ _ _ _ _ Hh Hp) as (k' & v & Hl & ->). cbn.
    rewrite list_lookup_fmap, Hl in Hk. by injection Hk as ->.
  - intros j k Hj. pose proof (lookup_lt_Some _ _ _ Hj). rewrite length_fmap in *. lia.
Qed.

(** The state holds the finite map [m]. *)
Definition maps s m : Prop := ∃ ps l, holds s ps l ∧ l ≡ₚ map_to_list m.

Lemma maps_found s ps l m key : holds s ps l → l ≡ₚ map_to_list m →
  ∃ r, map_search (elems s) ps key = Ret r ∧
  match r with
  | inl i => ∃ p v, ps !! i = Some p ∧ l !! i = Some (key, v) ∧ elem_at (elems s) p = Ret (mkMapNode key v) ∧
      m !! key = Some v
  | inr i => (i <= length ps)%nat ∧ m !! key = None ∧
      ∀ j k, l.*1 !! j = Some k → if (j <? i)%nat then k < key else key < k
  end.
Proof.
  intros Hh Hl. destruct (search_found _ _ _ key Hh) as (r & E & Hr). exists r. split; [done|].
  pose proof (Forall2_length _ _ _ (h_nodes _ _ _ Hh)) as Hlen.
  destruct r as [i|i]; cbn [found] in Hr.
  - rewrite list_lookup_fmap in Hr. destruct (l !! i) as [[k v]|] eqn:El; [|done]. injection Hr as ->.
    destruct (lookup_lt_is_Some_2 ps i) as [p Hp]; [apply lookup_lt_Some in El; lia|].
    destruct (holds_node _ _ _ _ _ Hh Hp) as (k' & v' & El' & Ep). rewrite El in El'. injection El' as <- <-.
    exists p, v. split_and!; try done. apply elem_of_map_to_list. rewrite <- Hl. by eapply list_elem_of_lookup_2.
  - destruct Hr as [Hi Hr]. rewrite length_fmap in Hi. split_and!; [lia| |done].
    apply eq_None_not_Some. intros [v Hv]. apply elem_of_map_to_list in Hv. rewrite <- Hl in Hv.
    apply list_elem_of_lookup in Hv as [j Hj]. specialize (Hr j key). rewrite list_lookup_fmap, Hj in Hr.
    specialize (Hr eq_refl). destruct (j <? i)%nat; lia.
Qed.

Lemma maps_get fuel key s m : maps s m →
  ∃ s', map_get (S fuel) key s = Ret (m !! key, s') ∧ maps s' m.
Proof.
  intros (ps & l & Hh & Hl). destruct (maps_found _ _ _ _ key Hh Hl) as (r & E & Hr).
  destruct (write_once fuel (get_in key) s ps (m !! key) ps) as (b & E1 & E2); [apply Hh| |].
  { unfold get_in. rewrite E. cbn [mbind res_bind]. destruct r as [i|i].
    - destruct Hr as (p & v & Hp & _ & Ep & ->). rewrite Hp. cbn [unwrap mbind res_bind]. by rewrite Ep.
    - by destruct Hr as (_ & -> & _). }
  eexists. split; [exact E1|]. exists ps, l. split; [|done]. destruct Hh. by constructor.
Qed.

Lemma maps_len s m : maps s m → map_len s = Ret (size m, s).
Proof.
  intros (ps & l & Hh & Hl). unfold map_len, nlvec_len, read. rewrite (h_vec _ _ _ Hh). cbn [mbind res_bind].
  rewrite (Forall2_length _ _ _ (h_nodes _ _ _ Hh)), Hl. by rewrite length_map_to_list.
Qed.

Lemma maps_new : maps map_new ∅.
Proof.
  exists [], []. split; [|by rewrite map_to_list_empty]. constructor; try constructor.
  cbn. unfold load_box. cbn [cell vecs]. rewrite (proj2 (Z.eqb_neq _ 0)) by apply fresh_addr_null.
  by rewrite lookup_singleton_eq.
Qed.

(** *** Inserting *)

Lemma Forall2_impl_elem {A B} (P Q : A → B → Prop) xs ys :
  Forall2 P xs ys → (∀ x y, x ∈ xs → P x y → Q x y) → Forall2 Q xs ys.
Proof.
  induction 1 as [|x y xs ys Hxy _ IH]; intros HQ; constructor.
  - apply HQ; [left|done].
  - apply IH. intros x' y' Hx'. apply HQ. by right.
Qed.

Lemma to_heap_ok (x : MapNode V) s ps l : holds s ps l →
  ∃ p s', to_heap x s = Ret (p, s') ∧ holds s' ps l ∧ (p ∉ ps) ∧ p ≠ 0 ∧ elems s' !! p = Some x.
Proof.
  intros Hh. pose proof (fresh_addr_new (dom (elems s))) as Hn. pose proof (fresh_addr_null (dom (elems s))) as H0.
  eexists _, _. split; [done|]. set (p := fresh_addr _) in *.
  assert (p ∉ ps) as Hp.
  { intros [i Hi]%list_elem_of_lookup. destruct (Forall2_lookup_l _ _ _ _ _ (h_nodes _ _ _ Hh) Hi) as (kv & _ & _ & He).
    apply Hn, elem_of_dom. by eexists. }
  split; [|split_and!; [done|done|cbn; apply lookup_insert_eq]]. destruct Hh as [h1 h2 h3 h4]. constructor; try done. cbn.
  eapply Forall2_impl_elem; [exact h2|]. cbn. intros q kv Hq [? ?]. split; [done|].
  rewrite lookup_insert_ne; [done|]. by intros ->.
Qed.

Lemma keys_insert_sorted (ks : list Z) key i : StronglySorted Z.lt ks → (i <= length ks)%nat →
  (∀ j k, ks !! j = Some k → if (j <? i)%nat then k < key else key < k) →
  StronglySorted Z.lt (take i ks ++ key :: drop i ks).
Proof.
  revert i. induction ks as [|k ks IH]; intros i Hs Hi Hk.
  - destruct i; [by repeat constructor|simpl in Hi; lia].
  - apply StronglySorted_inv in Hs as [Hs Hf]. destruct i as [|i]; cbn [take drop app].
    + pose proof (Hk 0%nat k eq_refl). cbn in H0. constructor; [by constructor|].
      constructor; [done|]. eapply Forall_impl; [exact Hf|]. intros. cbn in *. lia.
    + pose proof (Hk 0%nat k eq_refl) as H0. cbn in H0. cbn [length] in Hi. constructor.
      * apply IH; [done|lia|]. intros j k' Hj. specialize (Hk (S j) k' Hj).
        change (S j <? S i)%nat with (j <? i)%nat in Hk. done.
      * apply Forall_app. split; [by apply Forall_take|]. constructor; [done|by apply Forall_drop].
Qed.

Lemma vec_swap i p q (v : list Z) : v !! i = Some q →
  vec_remove i v = Ret (q, delete i v) ∧ vec_insert i p (delete i v) = Ret (<[i := p]> v).
Proof.
  intros Hq. pose proof (lookup_lt_Some _ _ _ Hq). unfold vec_remove. rewrite Hq. split; [done|].
  unfold vec_insert. rewrite length_delete by done. rewrite (proj2 (Nat.leb_le _ _)) by lia.
  rewrite delete_take_drop, insert_take_drop by done.
  rewrite take_app_length', drop_app_length' by (rewrite length_take; lia). done.
Qed.

Lemma holds_insert s ps l i p key v :
  holds s ps l → p ∉ ps → p ≠ 0 → elems s !! p = Some (mkMapNode key v) → (i <= length ps)%nat →
  (∀ j k, l.*1 !! j = Some k → if (j <? i)%nat then k < key else key < k) →
  ∀ b, load_box (cell b) b = Ret (take i ps ++ p :: drop i ps) →
  holds (mkNLVec b (elems s)) (take i ps ++ p :: drop i ps) (take i l ++ (key, v) :: drop i l).
Proof.
  intros [h1 h2 h3 h4] Hp H0 He Hi Hk b Hb. pose proof (Forall2_length _ _ _ h2). constructor; cbn [vbox elems]; [done|..].
  - apply Forall2_app; [by apply Forall2_take|]. constructor; [done|by apply Forall2_drop].
  - rewrite <- (take_drop i ps) in h3, Hp. apply NoDup_app in h3 as (h5 & h6 & h7).
    rewrite not_elem_of_app in Hp. apply NoDup_app. split; [done|]. split.
    + intros x Hx [->|Hx']%elem_of_cons; [tauto|by eapply h6].
    + constructor; tauto.
  - rewrite fmap_app, fmap_cons, fmap_take, fmap_drop. apply keys_insert_sorted; [done|rewrite length_fmap; lia|done].
Qed.

Lemma holds_replace s ps l i p q key v0 v :
  holds s ps l → ps !! i = Some q → l !! i = Some (key, v0) → p ∉ ps → p ≠ 0 → elems s !! p = Some (mkMapNode key v) →
  ∀ b, load_box (cell b) b = Ret (<[i := p]> ps) →
  holds (mkNLVec b (delete q (elems s))) (<[i := p]> ps) (<[i := (key, v)]> l).
Proof.
  intros [h1 h2 h3 h4] Hq Hl Hp H0 He b Hb.
  assert (NoDup (<[i := p]> ps)) as Hnd.
  { apply NoDup_alt. intros j k x. rewrite !list_lookup_insert_Some. rewrite list_elem_of_lookup in Hp.
    intros [(-> & -> & _)|[? Hj]] [(-> & Ek & _)|[? Hk]]; try done.
    - exfalso. apply Hp. by exists k.
    - subst x. exfalso. apply Hp. by exists j.
    - by apply (NoDup_lookup ps j k x). }
  constructor; cbn [vbox elems]; [done| |done|].
  - assert (Forall2 (λ p (kv : Z * V), p ≠ 0 ∧ elems s !! p = Some (mkMapNode kv.1 kv.2)) (<[i:=p]> ps) (<[i:=(key, v)]> l)) as Hf
      by by apply Forall2_insert.
    eapply Forall2_impl_elem; [exact Hf|]. cbn. intros x kv Hx [? ?]. split; [done|].
    rewrite lookup_delete_ne; [done|]. intros <-. apply list_elem_of_lookup in Hx as [j Hj].
    apply list_lookup_insert_Some in Hj as [(-> & -> & _)|[? Hj]].
    + apply Hp. by eapply list_elem_of_lookup_2.
    + pose proof (NoDup_lookup ps i j q h3 Hq Hj). done.
  - rewrite list_fmap_insert, list_insert_id; [done|]. by rewrite list_lookup_fmap, Hl.
Qed.

Lemma maps_insert fuel key value s m : maps s m →
  ∃ s', map_insert (S fuel) key value s = Ret (m !! key, s') ∧ maps s' (<[key := value]> m).
Proof.
  intros (ps & l & Hh & Hl). unfold map_insert.
  destruct (to_heap_ok (mkMapNode key value) s ps l Hh) as (p & s1 & E & Hh1 & Hp & Hp0 & He).
  unfold mbind, M_bind. rewrite E. destruct (maps_found _ _ _ _ key Hh1 Hl) as (r & Er & Hr).
  pose proof (Forall2_length _ _ _ (h_nodes _ _ _ Hh1)) as Hlen.
  destruct r as [i|i].
  - destruct Hr as (q & v0 & Hq & Hli & Eq & Hm). destruct (vec_swap i p q ps Hq) as [V1 V2].
    destruct (write_once fuel (insert_in key p) s1 ps (Some q) (<[i := p]> ps)) as (b & E1 & E2); [apply Hh1| |].
    { unfold insert_in. rewrite Er. cbn [mbind res_bind]. rewrite V1. cbn [mbind res_bind]. rewrite V2. done. }
    rewrite E1. unfold map_out, from_heap, mbind, M_bind. cbn [elems]. rewrite Eq. cbn [mbind res_bind]. rewrite Hm.
    eexists. split; [done|]. exists (<[i := p]> ps), (<[i := (key, value)]> l). cbn [vbox elems]. split.
    + eapply holds_replace; eassumption.
    + rewrite insert_take_drop by (apply lookup_lt_Some in Hli; done).
      rewrite <- insert_delete_eq. rewrite map_to_list_insert by apply lookup_delete_eq.
      rewrite <- Permutation_middle. constructor. apply (Permutation_cons_inv (a:=(key, v0))).
      etrans; [apply Permutation_middle|]. by rewrite (take_drop_middle l i (key, v0) Hli), map_to_list_delete.
  - destruct Hr as (Hi & Hm & Hk).
    destruct (write_once fuel (insert_in key p) s1 ps None (take i ps ++ p :: drop i ps)) as (b & E1 & E2); [apply Hh1| |].
    { unfold insert_in. rewrite Er. cbn [mbind res_bind]. unfold vec_insert. by rewrite (proj2 (Nat.leb_le _ _)) by lia. }
    rewrite E1. rewrite Hm. eexists. split; [done|].
    exists (take i ps ++ p :: drop i ps), (take i l ++ (key, value) :: drop i l). split.
    + by apply holds_insert.
    + rewrite map_to_list_insert by done. rewrite <- Permutation_middle. constructor. by rewrite take_drop.
Qed.

(** *** Histories of one caller *)

Inductive map_op := OpGet (key : Z) | OpInsert (key : Z) (value : V) | OpLen.

Definition exec_op (fuel : nat) (o : map_op) : MM (option V + nat) :=
  match o with
  | OpGet key => x ← map_get fuel key; mret (inl x)
  | OpInsert key value => x ← map_insert fuel key value; mret (inl x)
  | OpLen => n ← map_len; mret (inr n)
  end.

Fixpoint exec_ops (fuel : nat) (os : list map_op) : MM (list (option V + nat)) :=
  match os with
  | [] => mret []
  | o :: os => x ← exec_op fuel o; xs ← exec_ops fuel os; mret (x :: xs)
  end.

(** The same on finite maps. *)
Definition ref_op (o : map_op) m : (option V + nat) * gmap Z V :=
  match o with
  | OpGet key => (inl (m !! key), m)
  | OpInsert key value => (inl (m !! key), <[key := value]> m)
  | OpLen => (inr (size m), m)
  end.

Fixpoint ref_ops (os : list map_op) m : list (option V + nat) * gmap Z V :=
  match os with
  | [] => ([], m)
  | o :: os => let '(x, m) := ref_op o m in let '(xs, m) := ref_ops os m in (x :: xs, m)
  end.

Lemma exec_op_ok fuel o s m : maps s m →
  ∃ s', exec_op (S fuel) o s = Ret ((ref_op o m).1, s') ∧ maps s' (ref_op o m).2.
Proof.
  intros Hm. destruct o as [key|key value|]; cbn [exec_op ref_op fst snd]; unfold mbind, M_bind.
  - destruct (maps_get fuel key s m Hm) as (s' & -> & ?). by exists s'.
  - destruct (maps_insert fuel key value s m Hm) as (s' & -> & ?). by exists s'.
  - rewrite (maps_len s m Hm). by exists s.
Qed.

Lemma exec_ops_ok fuel os : ∀ s m, maps s m →
  ∃ s', exec_ops (S fuel) os s = Ret ((ref_ops os m).1, s') ∧ maps s' (ref_ops os m).2.
Proof.
  induction os as [|o os IH]; intros s m Hm; cbn [exec_ops ref_ops]; [by exists s|].
  destruct (exec_op_ok fuel o s m Hm) as (s1 & E1 & H1). destruct (ref_op o m) as [x m1]. cbn [fst snd] in *.
  destruct (IH s1 m1 H1) as (s2 & E2 & H2). destruct (ref_ops os m1) as [xs m2]. cbn [fst snd] in *.
  exists s2. unfold mbind, M_bind. by rewrite E1, E2.
Qed.

(** C17: Used by one caller, without [remove], the map is a finite map: whatever is inserted and
    looked up, in whatever order, each call returns, in one round of its loop, what it
    returns on a finite map. *)
Theorem nlvecmap_equiv fuel os :
  ∃ s, exec_ops (S fuel) os map_new = Ret ((ref_ops os ∅).1, s).
Proof.
  destruct (exec_ops_ok fuel os map_new ∅ maps_new) as (s & E & _). by exists s.
Qed.

(** A search that came to a node comes to it again once it is gone. *)
Lemma bsearch_gone cmp cmp' v i p fuel : ∀ left right,
  NoDup v → v !! i = Some p → (∀ q, q ≠ p → cmp' q = cmp q) → cmp' p = UB →
  bsearch fuel cmp v left right = Ret (inl i) → bsearch fuel cmp' v left right = UB.
Proof.
  induction fuel as [|fuel IH]; intros left right Hnd Hi Hc Hp Hb; [done|]. cbn [bsearch] in *.
  destruct (left <? right)%nat; [|done]. set (mid := (left + _)%nat) in *.
  destruct (v !! mid) as [q|] eqn:Eq; [|done]. cbn [unwrap mbind res_bind] in *.
  destruct (decide (q = p)) as [->|Hne]; [by rewrite Hp|]. rewrite (Hc q Hne).
  destruct (cmp q) as [c| | |]; [|done..]. cbn [mbind res_bind] in *.
  destruct c; [|by apply IH..]. injection Hb as ->. congruence.
Qed.

(** [remove] frees the node of the key and leaves its pointer in the vector: looking the
    same key up again is undefined behaviour. *)
Theorem nlvecmap_remove_dangles fuel os key v :
  (ref_ops os ∅).2 !! key = Some v →
  ∃ s s' outs, exec_ops (S fuel) os map_new = Ret (outs, s) ∧
    map_remove (S fuel) key s = Ret (Some v, s') ∧ map_get (S fuel) key s' = UB.
Proof.
  intros Hv. destruct (exec_ops_ok fuel os map_new ∅ maps_new) as (s & E & ps & l & Hh & Hl).
  destruct (maps_found _ _ _ _ key Hh Hl) as (r & Er & Hr).
  destruct r as [i|i]; [|destruct Hr as (_ & Hn & _); congruence].
  destruct Hr as (p & v' & Hp & _ & Ep & Hv'). rewrite Hv in Hv'. injection Hv' as <-.
  destruct (write_once fuel (remove_in key) s ps (Some p) ps) as (b & E1 & E2); [apply Hh| |].
  { unfold remove_in. rewrite Er. cbn [mbind res_bind]. by rewrite Hp. }
  exists s, (mkNLVec b (delete p (elems s))), (ref_ops os ∅).1. split; [done|].
  unfold map_remove, mbind, M_bind. rewrite E1. unfold map_out, from_heap, mbind, M_bind. cbn [elems]. rewrite Ep.
  split; [done|]. unfold map_get. cbn [write vbox elems]. rewrite E2. cbn [mbind res_bind].
  unfold get_in, map_search. rewrite (bsearch_gone (λ p, n ← elem_at (elems s) p; Ret (n_key n ?= key)) _ ps i p); try done.
  - apply Hh.
  - intros q Hq. unfold elem_at. by rewrite lookup_delete_ne.
  - unfold elem_at in *. destruct (p =? 0); [done|]. by rewrite lookup_delete_eq.
Qed.
End map_spec.

(** ** Threads that interleave *)

Section threads.
Context {V : Type}.

(** A write: the result and the vector it makes of the one it is given. *)
Definition vop : Type := list Z → V * list Z.

(** Where a thread is. *)
Inductive vpc :=
  | VIdle                                          (* outside *)
  | VRead (p : Z)                                  (* in [read], with the pointer loaded *)
  | VLoad (f : vop)                                (* in [write], at the load *)
  | VCopy (f : vop) (p : Z)                        (* about to copy the vector at [p] *)
  | VExchange (f : vop) (p n : Z) (out : V)        (* at the exchange, with the copy at [n] *)
  | VFree (p : Z)                                  (* won, about to free the old vector *)
  | VLost (f : vop) (n : Z).                       (* lost, about to free the copy *)

(** The record [made] of all vectors there ever were is not part of the program. *)
Record vstate := mkVState { vb : Boxes; made : gmap Z (list Z); vpcs : list vpc }.

Definition vgoto (t : nat) (p : vpc) (b : Boxes) (s : vstate) : vstate := mkVState b (made s) (<[t := p]> (vpcs s)).
Definition vmake (n : Z) (v : list Z) (s : vstate) : vstate :=
  mkVState (new_box n v (vb s)) (<[n := v]> (made s)) (vpcs s).

Definition vinit (p : Z) (v : list Z) (k : nat) : vstate :=
  mkVState (mkBoxes p {[ p := v ]}) {[ p := v ]} (repeat VIdle k).

(** One atomic operation of thread [t].  An exchange that succeeds is an event.  The heap gives
    an address that is free; [reuse] says whether it may be one that was in use before. *)
Inductive vstep (reuse : Prop) (t : nat) (s : vstate) : option (vop * V) → vstate → Prop :=
  | v_read : vpcs s !! t = Some VIdle → vstep reuse t s None (vgoto t (VRead (cell (vb s))) (vb s) s)
  | v_look p v : vpcs s !! t = Some (VRead p) → load_box p (vb s) = Ret v →
      vstep reuse t s None (vgoto t VIdle (vb s) s)
  | v_write f : vpcs s !! t = Some VIdle → vstep reuse t s None (vgoto t (VLoad f) (vb s) s)
  | v_load f : vpcs s !! t = Some (VLoad f) → vstep reuse t s None (vgoto t (VCopy f (cell (vb s))) (vb s) s)
  | v_copy f p n v out v' : vpcs s !! t = Some (VCopy f p) → load_box p (vb s) = Ret v → f v = (out, v') →
      n ≠ 0 → vecs (vb s) !! n = None → reuse ∨ made s !! n = None →
      vstep reuse t s None (vgoto t (VExchange f p n out) (new_box n v' (vb s)) (vmake n v' s))
  | v_won f p n out b : vpcs s !! t = Some (VExchange f p n out) → exchange p n (vb s) = Some b →
      vstep reuse t s (Some (f, out)) (vgoto t (VFree p) b s)
  | v_lost f p n out : vpcs s !! t = Some (VExchange f p n out) → exchange p n (vb s) = None →
      vstep reuse t s None (vgoto t (VLost f n) (vb s) s)
  | v_free p b : vpcs s !! t = Some (VFree p) → free_box p (vb s) = Ret b → vstep reuse t s None (vgoto t VIdle b s)
  | v_again f n b : vpcs s !! t = Some (VLost f n) → free_box n (vb s) = Ret b →
      vstep reuse t s None (vgoto t (VLoad f) b s).

(** Threads about to do what is undefined: to read, or to free. *)
Definition v_reads_freed (t : nat) (s : vstate) : Prop :=
  ∃ p, (vpcs s !! t = Some (VRead p) ∨ ∃ f, vpcs s !! t = Some (VCopy f p)) ∧ load_box p (vb s) = UB.
Definition v_frees_freed (t : nat) (s : vstate) : Prop :=
  ∃ p, (vpcs s !! t = Some (VFree p) ∨ ∃ f, vpcs s !! t = Some (VLost f p)) ∧ free_box p (vb s) = UB.

(** Executions, with the writes that took effect. *)
Inductive vsteps (reuse : Prop) : vstate → list (vop * V) → vstate → Prop :=
  | vs_refl s : vsteps reuse s [] s
  | vs_step t s1 s2 s3 o es : vstep reuse t s1 o s2 → vsteps reuse s2 es s3 →
      vsteps reuse s1 (match o with Some e => e :: es | None => es end) s3.

(** Writes done one after another on [v] give these results, and [v']. *)
Fixpoint one_by_one (v : list Z) (es : list (vop * V)) (v' : list Z) : Prop :=
  match es with
  | [] => v' = v
  | (f, out) :: es => ∃ v1, f v = (out, v1) ∧ one_by_one v1 es v'
  end.

(** The vector a thread has to itself. *)
Definition own (p : vpc) : option Z :=
  match p with VExchange _ _ n _ => Some n | VFree p => Some p | VLost _ n => Some n | _ => None end.

Record vinv (s : vstate) (v : list Z) : Prop := {
  vi_cell : vecs (vb s) !! cell (vb s) = Some v;
  vi_made p w : vecs (vb s) !! p = Some w → made s !! p = Some w;
  vi_own t pc a : vpcs s !! t = Some pc → own pc = Some a → a ≠ cell (vb s) ∧ is_Some (vecs (vb s) !! a);
  vi_apart t u p q a : vpcs s !! t = Some p → vpcs s !! u = Some q → own p = Some a → own q = Some a → t = u;
  vi_copy t f p n out : vpcs s !! t = Some (VExchange f p n out) →
    ∃ w w', made s !! p = Some w ∧ f w = (out, w') ∧ made s !! n = Some w';
}.

Lemma vinit_inv p v k : vinv (vinit p v k) v.
Proof.
  assert (∀ t pc, vpcs (vinit p v k) !! t = Some pc → pc = VIdle) as Hi.
  { intros t pc Ht. apply list_elem_of_lookup_2, list_elem_of_In, repeat_spec in Ht. done. }
  constructor; cbn [vinit vb cell vecs made].
  - by rewrite lookup_singleton_eq.
  - done.
  - intros t pc a Ht Ho. by rewrite (Hi _ _ Ht) in Ho.
  - intros t u pc q a Ht _ Ho _. by rewrite (Hi _ _ Ht) in Ho.
  - intros t f q n out Ht. by specialize (Hi _ _ Ht).
Qed.

(** Another place for thread [t], that owns nothing more. *)
Lemma goto_lookup (s : vstate) t u p b q : vpcs (vgoto t p b s) !! u = Some q →
  (u = t ∧ q = p) ∨ (u ≠ t ∧ vpcs s !! u = Some q).
Proof. cbn. intros [(-> & -> & _)|[? ?]]%list_lookup_insert_Some; [by left|right; by split]. Qed.

Lemma vinv_quiet s v t p q :
  vinv s v → vpcs s !! t = Some p → (∀ a, own q = Some a → own p = Some a) →
  (∀ f p n out, q ≠ VExchange f p n out) → vinv (vgoto t q (vb s) s) v.
Proof.
  intros [h1 h2 h3 h4 h5] Ht Ho Hq. constructor; [done|done|..].
  - intros u r a [[-> ->]|[_ Hu]]%goto_lookup Hr; eauto.
  - intros u w r r' a [[-> ->]|[Hn Hu]]%goto_lookup [[-> ->]|[Hn' Hw]]%goto_lookup Hr Hr'; eauto.
  - intros u f r n out [[-> E]|[_ Hu]]%goto_lookup; [by destruct (Hq f r n out)|eauto].
Qed.

(** A vector that goes, with the thread that owned it. *)
Lemma vinv_free s v t p q a b :
  vinv s v → vpcs s !! t = Some p → own p = Some a → own q = None → free_box a (vb s) = Ret b →
  vinv (vgoto t q b s) v.
Proof.
  intros [h1 h2 h3 h4 h5] Ht Ha Hq Hb. unfold free_box in Hb.
  destruct (vecs (vb s) !! a); [|done]. injection Hb as <-.
  destruct (h3 t p a Ht Ha) as [Hac _]. constructor; cbn [vgoto vb cell vecs made].
  - by rewrite lookup_delete_ne.
  - intros x w [_ Hx]%lookup_delete_Some. by apply h2.
  - intros u r x [[-> ->]|[Hn Hu]]%goto_lookup Hr; [congruence|]. destruct (h3 u r x Hu Hr) as [? ?]. split; [done|].
    rewrite lookup_delete_ne; [done|]. intros <-. by destruct (Hn (h4 u t r p a Hu Ht Hr Ha)).
  - intros u w r r' x [[-> ->]|[Hn Hu]]%goto_lookup [[-> ->]|[Hn' Hw]]%goto_lookup Hr Hr'; try congruence. eauto.
  - intros u f r n out [[-> <-]|[_ Hu]]%goto_lookup; [done|eauto].
Qed.

Lemma vinv_copy s v t f p w n out w' :
  vinv s v → vpcs s !! t = Some (VCopy f p) → load_box p (vb s) = Ret w → f w = (out, w') →
  made s !! n = None → vinv (vgoto t (VExchange f p n out) (new_box n w' (vb s)) (vmake n w' s)) v.
Proof.
  intros [h1 h2 h3 h4 h5] Ht Hp Hf Hn.
  assert (∀ x y, made s !! x = Some y → n ≠ x) as Hne by congruence.
  assert (vecs (vb s) !! p = Some w) as Hw.
  { unfold load_box in Hp. destruct (p =? 0); [done|]. destruct (vecs (vb s) !! p); [by injection Hp as ->|done]. }
  assert (∀ u r x, vpcs s !! u = Some r → own r = Some x → n ≠ x) as Hown.
  { intros u r x Hu Hr. destruct (h3 u r x Hu Hr) as [_ [y Hy]]. eapply Hne, h2, Hy. }
  constructor; cbn [vgoto vb cell vecs made new_box vmake].
  - rewrite lookup_insert_ne; [done|]. eapply Hne, h2, h1.
  - intros x y Hx. destruct (decide (n = x)) as [<-|Hnx].
    + rewrite lookup_insert_eq in *. done.
    + rewrite lookup_insert_ne in * by done. by apply h2.
  - intros u r x [[-> ->]|[_ Hu]]%goto_lookup Hr.
    + injection Hr as <-. split; [eapply not_eq_sym, not_eq_sym, Hne, h2, h1|]. rewrite lookup_insert_eq. by eexists.
    + destruct (h3 u r x Hu Hr) as [? ?]. split; [done|]. rewrite lookup_insert_ne; [done|]. by eapply Hown.
  - intros u z r r' x [[-> ->]|[Hn1 Hu]]%goto_lookup [[-> ->]|[Hn2 Hz]]%goto_lookup Hr Hr'; [done|..|eauto].
    + injection Hr as <-. by destruct (Hown z r' n Hz Hr').
    + injection Hr' as <-. by destruct (Hown u r n Hu Hr).
  - intros u g r m o [[-> E]|[_ Hu]]%goto_lookup.
    + injection E as -> -> -> ->. exists w, w'. rewrite lookup_insert_eq, lookup_insert_ne by (eapply Hne, h2, Hw). auto.
    + destruct (h5 u g r m o Hu) as (y & y' & Hy & Hg & Hy'). exists y, y'.
      rewrite !lookup_insert_ne by (eapply Hne; eassumption). done.
Qed.

(** The exchange that succeeds finds the vector it copied. *)
Lemma vinv_won s v t f p n out b :
  vinv s v → vpcs s !! t = Some (VExchange f p n out) → exchange p n (vb s) = Some b →
  ∃ v', f v = (out, v') ∧ vinv (vgoto t (VFree p) b s) v'.
Proof.
  intros [h1 h2 h3 h4 h5] Ht Hb. unfold exchange in Hb.
  destruct (Z.eqb_spec (cell (vb s)) p) as [<-|]; [|done]. injection Hb as <-.
  destruct (h5 _ _ _ _ _ Ht) as (w & w' & Hw & Hf & Hw'). rewrite (h2 _ _ h1) in Hw. injection Hw as <-.
  destruct (h3 _ _ n Ht eq_refl) as [Hnc [y Hy]]. pose proof (h2 _ _ Hy) as Hy'. rewrite Hw' in Hy'. injection Hy' as <-.
  exists w'. split; [done|]. constructor; cbn [vgoto vb cell vecs made].
  - done.
  - done.
  - intros u r x [[-> ->]|[Hn Hu]]%goto_lookup Hr.
    + injection Hr as <-. split; [by apply not_eq_sym|by exists v].
    + split; [|by apply (h3 u r x)]. intros ->. by destruct (Hn (h4 u t _ _ n Hu Ht Hr eq_refl)).
  - intros u z r r' x [[-> ->]|[Hn1 Hu]]%goto_lookup [[-> ->]|[Hn2 Hz]]%goto_lookup Hr Hr'; [done|..|eauto].
    + injection Hr as <-. by destruct (h3 z r' _ Hz Hr').
    + injection Hr' as <-. by destruct (h3 u r _ Hu Hr).
  - intros u g r m o [[-> E]|[_ Hu]]%goto_lookup; [done|eauto].
Qed.

Lemma vstep_inv t s o s' v : vinv s v → vstep False t s o s' →
  ∃ v', vinv s' v' ∧ match o with Some (f, out) => f v = (out, v') | None => v' = v end.
Proof.
  intros Hs. destruct 1 as [Ht|p w Ht _|f Ht|f Ht|f p n w out w' Ht Hp Hf H0 Hn [[]|Hm]|f p n out b Ht Hb|f p n out Ht Hb|p b Ht Hb|f n b Ht Hb];
    try (exists v; split; [|done]).
  1-4: by eapply vinv_quiet.
  - by eapply vinv_copy.
  - destruct (vinv_won s v t f p n out b Hs Ht Hb) as (v' & Hf & Hv). by exists v'.
  - by eapply vinv_quiet.
  - by eapply vinv_free.
  - by eapply vinv_free.
Qed.

Lemma vsteps_inv s es s' : vsteps False s es s' → ∀ v, vinv s v → ∃ v', vinv s' v' ∧ one_by_one v es v'.
Proof.
  induction 1 as [s|t s1 s2 s3 o es Hs _ IH]; intros v Hv; [by exists v|].
  destruct (vstep_inv _ _ _ _ _ Hv Hs) as (v1 & Hv1 & Ho). destruct (IH v1 Hv1) as (v2 & Hv2 & He).
  exists v2. split; [done|]. destruct o as [[f out]|]; [|by subst]. by exists v1.
Qed.

End threads.

(** ** What readers and a busy heap run into *)

Definition push_op (x : Z) : vop (V:=()) := λ v, ((), v ++ [x]).

Lemma vs_quiet {V} reuse t (s1 s2 s3 : vstate (V:=V)) es :
  vstep reuse t s1 None s2 → vsteps reuse s2 es s3 → vsteps reuse s1 es s3.
Proof. apply (vs_step reuse t s1 s2 s3 None). Qed.

Lemma vs_event {V} reuse t (s1 s2 s3 : vstate (V:=V)) e es :
  vstep reuse t s1 (Some e) s2 → vsteps reuse s2 es s3 → vsteps reuse s1 (e :: es) s3.
Proof. apply (vs_step reuse t s1 s2 s3 (Some e)). Qed.

(** These add a step of thread [t] to an execution, and compute the state after it. *)
Ltac settle := lazymatch goal with |- vsteps ?r ?s ?es ?s' => let v := eval vm_compute in s in refine ((_ : vsteps r v es s') <: vsteps r s es s') end.
Ltac run_read t := eapply (vs_quiet _ t); [eapply v_read; reflexivity|]; settle.
Ltac run_write t f := eapply (vs_quiet _ t); [apply (v_write _ _ _ f); reflexivity|]; settle.
Ltac run_load t := eapply (vs_quiet _ t); [eapply v_load; reflexivity|]; settle.
Ltac run_copy t n := eapply (vs_quiet _ t); [eapply (v_copy _ _ _ _ _ n); first [reflexivity | discriminate | by left | by right]|]; settle.
Ltac run_won t := eapply (vs_event _ t); [eapply v_won; reflexivity|]; settle; eapply (vs_quiet _ t); [eapply v_free; reflexivity|]; settle.

(** Two ways in which an [NLVec] fails.  A reader that has loaded the pointer reads a freed
    vector, which is undefined, when a write comes in between.  And when the heap does use an
    address again, an exchange can succeed on a vector that is not the one copied: two
    elements that were pushed are gone. *)
Theorem nlvec_races :
  (∃ es s, vsteps (V:=()) False (vinit 16 [] 2) es s ∧ v_reads_freed 0 s) ∧
  ∃ s, vsteps True (vinit 16 [] 2) [(push_op 2, ()); (push_op 3, ()); (push_op 1, ())] s ∧
    vpcs s = [VIdle; VIdle] ∧ vecs (vb s) !! cell (vb s) = Some [1].
Proof.
  split.
  - eexists _, _. split.
    + run_read 0%nat. run_write 1%nat (push_op 2). run_load 1%nat. run_copy 1%nat 32.
      run_won 1%nat. apply vs_refl.
    + exists 16. split; [by left|reflexivity].
  - eexists. split.
    + run_write 0%nat (push_op 1). run_load 0%nat. run_copy 0%nat 32.
      run_write 1%nat (push_op 2). run_load 1%nat. run_copy 1%nat 48.
      run_won 1%nat.
      run_write 1%nat (push_op 3). run_load 1%nat. run_copy 1%nat 16.
      run_won 1%nat.
      run_won 0%nat. apply vs_refl.
    + split; reflexivity.
Qed.

(** ** Concrete runs *)

(** A heap that grows. *)
Definition top_addr (X : gset Z) : Z := foldr Z.max 0 (elements X) + 1.

Lemma top_addr_above X x : x ∈ X → x < top_addr X.
Proof.
  intros Hx%elem_of_elements. unfold top_addr. induction (elements X) as [|y l IH]; [by apply elem_of_nil in Hx|].
  apply elem_of_cons in Hx as [->|Hx]; simpl; [lia|]. specialize (IH Hx). lia.
Qed.

Lemma top_addr_pos X : 0 < top_addr X.
Proof. unfold top_addr. induction (elements X); simpl; lia. Qed.

#[export] Program Instance GrowingHeap : Heap := {| fresh_addr := top_addr |}.
Next Obligation. intros X Hx%top_addr_above. lia. Qed.
Next Obligation. intros X. pose proof (top_addr_pos X). simpl. lia. Qed.

Definition demo_ops : list (map_op (V:=Z)) := [OpInsert 7 70; OpInsert 3 30; OpInsert 7 71; OpGet 3; OpGet 5; OpLen].

Example demo_ops_run :
  fst <$> exec_ops 1 demo_ops map_new = Ret [inl None; inl None; inl (Some 70); inl (Some 30); inl None; inr 2%nat].
Proof. vm_compute. reflexivity. Qed.

Lemma nlvecmap_remove_dangles_witness :
  (ref_ops demo_ops ∅).2 !! 7 = Some 71 ∧
  ∃ s s' outs, exec_ops 1 demo_ops map_new = Ret (outs, s) ∧
    map_remove 1 7 s = Ret (Some 71, s') ∧ map_get 1 7 s' = UB.
Proof.
  split; [vm_compute; reflexivity|].
  apply (nlvecmap_remove_dangles 0 demo_ops 7 71). vm_compute. reflexivity.
Defined.

(** One push among two threads. *)
Lemma demo_push : ∃ s, vsteps (V:=()) False (vinit 16 [] 2) [(push_op 2, ())] s ∧ vpcs s = [VIdle; VIdle].
Proof.
  eexists. split.
  - run_write 1%nat (push_op 2). run_load 1%nat. run_copy 1%nat 32. run_won 1%nat. apply vs_refl.
  - reflexivity.
Qed.

