(* ===== verification/Elf.v ===== *)
(** * Loading programs: [kernel/src/sched/elf.rs] and [Process::from_elf] of [sched/process.rs]

    An ELF file is a list of bytes.  The parser checks its header and cuts out its program
    headers; [from_elf] allocates memory for each section, copies the bytes of the file
    there and maps it in the address space of the new process.  What the pages of a section
    then hold is its image. *)

From Stdlib Require Import String.
From S2P Require Import Prelude Misc Sys Ranges Buddy PageTable VirtLayout VirtMapper MemSys.

(** ** Headers *)

(** Little-endian words. *)
Definition le_word (bs : list Z) : Z := foldr (λ b n, b + 256 * n) 0 bs.
Definition field (data : list Z) (off n : nat) : Z := le_word (take n (drop off data)).

Record ElfHeader := mkElf {
  e_magic : Z; e_bits : Z; e_endianness : Z; e_header_version : Z; e_abi : Z; e_unused : Z;
  e_info : Z; e_arch : Z; e_elf_version : Z; e_entry : Z; e_program_header : Z; e_section_header : Z;
  e_flags : Z; e_header_size : Z; e_phdr_entry_size : Z; e_phdr_len : Z;
  e_shdr_entry_size : Z; e_shdr_len : Z; e_shdr_names_index : Z;
}.

Definition size_of_ElfHeader : nat := 64.

(** The packed structure at the start of the file. *)
Definition elf_header_at (data : list Z) : ElfHeader :=
  mkElf (field data 0 4) (field data 4 1) (field data 5 1) (field data 6 1) (field data 7 1) (field data 8 8)
    (field data 16 2) (field data 18 2) (field data 20 4) (field data 24 8) (field data 32 8) (field data 40 8)
    (field data 48 4) (field data 52 2) (field data 54 2) (field data 56 2) (field data 58 2) (field data 60 2)
    (field data 62 2).

Definition elf_header_new (data : list Z) : Err + ElfHeader :=
  if (length data <? size_of_ElfHeader)%nat then inl (mkErr "invalid elf header")
  else inr (elf_header_at data).

Record ProgramHeader := mkPHdr {
  ptype : Z; ph_flags : Z; p_offset : Z; p_vaddr : Z; p_unused : Z; p_filesz : Z; p_memsz : Z; p_align : Z;
}.

Definition size_of_ProgramHeader : nat := 56.

Definition program_header_at (data : list Z) : ProgramHeader :=
  mkPHdr (field data 0 4) (field data 4 4) (field data 8 8) (field data 16 8) (field data 24 8) (field data 32 8)
    (field data 40 8) (field data 48 8).

Definition ELF_MAGIC : Z := 0x464c457f.
Definition BIT_64 : Z := 2.
Definition LITTLE_ENDIAN : Z := 1.
Definition SYSTEM_V_ABI : Z := 0.
Definition EXECUTABLE : Z := 2.
Definition X64 : Z := 0x3e.
Definition P_TYPE_LOAD : Z := 1.

Definition elf_check (h : ElfHeader) : option Err :=
  if negb (e_magic h =? ELF_MAGIC) then Some (mkErr "Binary is not ELF")
  else if negb (e_bits h =? BIT_64) || negb (e_endianness h =? LITTLE_ENDIAN) || negb (e_arch h =? X64)
  then Some (mkErr "Binary is not an x64 binary")
  else if negb (e_abi h =? SYSTEM_V_ABI) then Some (mkErr "Binary does not use system V abi")
  else if negb (e_info h =? EXECUTABLE) then Some (mkErr "Binary is not an executable")
  else if negb (e_phdr_entry_size h =? Z.of_nat size_of_ProgramHeader)
  then Some (mkErr "Invalid ELF program header sizes")
  else None.

(** [PHdrFlags]. *)
Definition PHdrFlags : list Z := [1; 2; 4].
Definition ph_readable (f : Z) : bool := flag_contains f 4.
Definition ph_writable (f : Z) : bool := flag_contains f 2.
Definition ph_executable (f : Z) : bool := flag_contains f 1.

(** ** [SpawnMapFlags] of [process.rs] *)
Definition SPAWN_READ : Z := 1.
Definition SPAWN_WRITE : Z := 2.
Definition SPAWN_EXEC : Z := 4.
Definition SPAWN_NO_COPY : Z := 8.
Definition SPAWN_COPY_ON_WRITE : Z := 16.
Definition SPAWN_MOVE : Z := 32.
Definition SPAWN_PROTECTED : Z := 64.
Definition SPAWN_SPAWN_PTR : Z := 128.

Definition as_map_flags (f : Z) : Z :=
  let out := Z.lor MF_USER MF_EXACT_SIZE in
  let out := if flag_contains f SPAWN_READ then Z.lor out MF_READ else out in
  let out := if flag_contains f SPAWN_WRITE then Z.lor out MF_WRITE else out in
  if flag_contains f SPAWN_EXEC then Z.lor out MF_EXEC else out.
Definition rwx_bits (f : Z) : Z := get_bits f (0, 3).

(** ** The parser *)

Record ElfSection := mkSection {
  sec_range : range;
  sec_data : option (list Z);
  sec_offset : Z;
  sec_flags : Z;
}.

Record ElfParser := mkParser { el_data : list Z; elf_header : ElfHeader; el_headers : list ProgramHeader }.

Section parser.
Context {B : Build} {AD : Addresses}.

(** [extract_slice] and [extract], for a type of [size] bytes: the bytes of the slice. *)
Definition extract (size : Z) (data : list Z) (index len : Z) : res (option (list Z)) :=
  n ← umul len size;
  e ← uadd index n;
  Ret (if (index <=? e) && (e <=? Z.of_nat (length data))
       then Some (take (Z.to_nat (e - index)) (drop (Z.to_nat index) data)) else None).

(** The elements of a slice of program headers. *)
Definition headers_of (len : nat) (bs : list Z) : list ProgramHeader :=
  (λ i, program_header_at (drop (i * size_of_ProgramHeader) bs)) <$> seq 0 len.

Definition elf_parser_new (data : list Z) : res (Err + ElfParser) :=
  match elf_header_new data with
  | inl e => Ret (inl e)
  | inr h =>
      match elf_check h with
      | Some e => Ret (inl e)
      | None =>
          bs ← extract (Z.of_nat size_of_ProgramHeader) data (e_program_header h) (e_phdr_len h);
          Ret match bs with
              | None => inl (mkErr "invalid program headers")
              | Some bs => inr (mkParser data h (headers_of (Z.to_nat (e_phdr_len h)) bs))
              end
      end
  end.

(** No bytes, or those of the file; [None] when it does not have them. *)
Definition section_data (data : list Z) (h : ProgramHeader) : res (option (option (list Z))) :=
  if p_filesz h =? 0 then Ret (Some None)
  else
    d ← extract 1 data (p_offset h) (p_filesz h);
    Ret match d with Some d => Some (Some d) | None => None end.

(** The section of one header: none if it is not to be loaded, or its bytes are not there. *)
Definition header_section (data : list Z) (h : ProgramHeader) : res (option ElfSection) :=
  if negb (ptype h =? P_TYPE_LOAD) then Ret None
  else if p_memsz h =? 0 then Ret None
  else
    a ← a_new (AddrOps:=VA) (p_vaddr h);
    let virt_range := new_unaligned a (p_memsz h) in
    virt_range_aligned ← aligned (A:=VA) virt_range;
    d ← section_data data h;
    match d with
    | None => Ret None
    | Some d =>
        off ← usub (as_usize virt_range) (as_usize virt_range_aligned);
        Ret (Some (mkSection virt_range_aligned d off (ph_flags h)))
    end.

Fixpoint sections_of (data : list Z) (hs : list ProgramHeader) : res (list ElfSection) :=
  match hs with
  | [] => Ret []
  | h :: hs =>
      o ← header_section data h;
      ss ← sections_of data hs;
      Ret match o with Some s => s :: ss | None => ss end
  end.

Definition program_headers (p : ElfParser) : res (list ElfSection) := sections_of (el_data p) (el_headers p).
Definition entry_point (p : ElfParser) : Z := e_entry (elf_header p).
End parser.

(** ** [Process::from_elf], up to the process list *)

Section load.
Context {B : Build} {AD : Addresses} {W : Type} {PM : PhysMem W} {FA : FrameAllocator W}.
Context (MAX_MAP_ADDR : Z).

Definition base_flag (uid : PrivLevel) : Z :=
  match as_cpu_priv uid with
  | Ring3 => Z.lor (Z.lor MF_USER MF_READ) MF_EXACT_SIZE
  | _ => Z.lor MF_READ MF_EXACT_SIZE
  end.

Definition section_flags (uid : PrivLevel) (sf : Z) : Z :=
  let flags := base_flag uid in
  let flags := if ph_writable sf then Z.lor flags MF_WRITE else flags in
  if ph_executable sf then Z.lor flags MF_EXEC else flags.

(** Zeroed memory of [n] bytes after the section is copied there; a copy past its end is out
    of bounds. *)
Definition image (s : ElfSection) (n : Z) : res (list Z) :=
  let mem := replicate (Z.to_nat n) 0 in
  match sec_data s with
  | None => Ret mem
  | Some d =>
      if sec_offset s + Z.of_nat (length d) <=? n
      then Ret (take (Z.to_nat (sec_offset s)) mem ++ d ++ drop (Z.to_nat (sec_offset s) + length d) mem)
      else UB
  end.

(** What is mapped for a section: where, what it holds, with which flags. *)
Definition load_section (fuel : nat) (uid : PrivLevel) (s : ElfSection) : VM (W:=W) (Err + range * list Z * Z) :=
  let flags := section_flags uid (sec_flags s) in
  let vrange := sec_range s in
  m ← on_w (zm_alloc (r_size vrange));
  match m with
  | None => mret (inl (mkErr "not enough memory to load executable"))
  | Some mem =>
      bytes ← lift (image s (m_len mem));
      v_elem ← lift (elem_from_mem mem (r_size vrange) flags);
      r ← map_at MAX_MAP_ADDR fuel (vl_from [v_elem] Protected) vrange;
      mret match r with inl e => inl (Err_from_MemErr e) | inr v => inr (v, bytes, flags) end
  end.

Fixpoint load_sections (fuel : nat) (uid : PrivLevel) (ss : list ElfSection)
    : VM (W:=W) (Err + list (range * list Z * Z)) :=
  match ss with
  | [] => mret (inr [])
  | s :: ss =>
      r ← load_section fuel uid s;
      match r with
      | inl e => mret (inl e)
      | inr x =>
          rs ← load_sections fuel uid ss;
          mret match rs with inl e => inl e | inr xs => inr (x :: xs) end
      end
  end.

(** The sections in memory, and where the first thread starts. *)
Definition from_elf_load (fuel : nat) (uid : PrivLevel) (elf_data : list Z)
    : VM (W:=W) (Err + list (range * list Z * Z) * Z) :=
  p ← lift (elf_parser_new elf_data);
  match p with
  | inl e => mret (inl e)
  | inr elf =>
      sections ← lift (program_headers elf);
      r ← load_sections fuel uid sections;
      mret match r with inl e => inl e | inr xs => inr (xs, entry_point elf) end
  end.
End load.

(** ** Words of the file *)

Definition bytes_ok (data : list Z) : Prop := Forall (λ b, 0 <= b < 256) data.

Lemma le_word_range bs : bytes_ok bs → 0 <= le_word bs < 256 ^ Z.of_nat (length bs).
Proof.
  induction 1 as [|b bs Hb _ IH]; [done|]. change (le_word (b :: bs)) with (b + 256 * le_word bs).
  cbn [length]. rewrite Nat2Z.inj_succ, Z.pow_succ_r by lia. lia.
Qed.

Lemma field_range data off n : bytes_ok data → 0 <= field data off n < 256 ^ Z.of_nat n.
Proof.
  intros Hd. unfold field. assert (bytes_ok (take n (drop off data))) as Hb by by apply Forall_take, Forall_drop.
  pose proof (le_word_range _ Hb) as [H1 H2]. split; [done|]. eapply Z.lt_le_trans; [exact H2|].
  apply Z.pow_le_mono_r; [lia|]. rewrite length_take. lia.
Qed.

(** A word inside a slice is a word of the file. *)
Lemma field_slice data i len off n :
  (off + n <= len)%nat → field (take len (drop i data)) off n = field data (i + off) n.
Proof.
  intros H. unfold field. f_equal.
  rewrite skipn_firstn_comm, take_take, drop_drop. f_equal; lia.
Qed.

Lemma program_header_slice data i len off :
  (off + size_of_ProgramHeader <= len)%nat →
  program_header_at (drop off (take len (drop i data))) = program_header_at (drop (i + off) data).
Proof.
  intros H. rewrite skipn_firstn_comm, drop_drop. unfold program_header_at, size_of_ProgramHeader in *.
  f_equal; unfold field; f_equal; rewrite skipn_firstn_comm, take_take; f_equal; lia.
Qed.

Section parser_spec.
Context {B : Build} {AD : Addresses} {VL : AddrLaws (A:=VA)}.

(** What [extract] gives: the bytes of the file, if they are there. *)
Lemma extract_eq size data index len :
  0 <= index → 0 <= len → 0 < size → is_usize (len * size) → Z.of_nat (length data) < U64 →
  extract size data index len =
    if index + len * size <=? Z.of_nat (length data)
    then Ret (Some (take (Z.to_nat (len * size)) (drop (Z.to_nat index) data)))
    else if (index + len * size <? U64) || negb overflow_checks then Ret None else Panic.
Proof.
  intros Hi Hl Hs [Hn1 Hn2] Hd. unfold extract, umul. rewrite checked_ok by lia. cbn [mbind res_bind].
  unfold uadd. destruct (Z.ltb_spec (index + len * size) U64) as [Hlt|Hge].
  - rewrite checked_ok by lia. cbn [mbind res_bind orb]. rewrite (proj2 (Z.leb_le _ _)) by lia. cbn [andb].
    destruct (_ <=? _); [|done]. do 4 f_equal. lia.
  - rewrite (proj2 (Z.leb_gt _ (Z.of_nat (length data)))) by lia. cbn [orb]. unfold checked.
    rewrite (proj2 (Z.ltb_ge _ _)) by lia. rewrite andb_false_r. destruct overflow_checks; [done|]. cbn [mbind res_bind negb].
    assert ((index + len * size) mod U64 < index) as Hw.
    { destruct (Z.lt_ge_cases index U64).
      - rewrite <- (Z.mod_unique (index + len * size) U64 1 (index + len * size - U64)); lia.
      - pose proof (Z.mod_pos_bound (index + len * size) U64). lia. }
    by rewrite (proj2 (Z.leb_gt _ _)) by lia.
Qed.

(** The program headers of the file. *)
Definition file_headers (data : list Z) (h : ElfHeader) : list ProgramHeader :=
  (λ i, program_header_at (drop (Z.to_nat (e_program_header h) + i * size_of_ProgramHeader) data)) <$>
    seq 0 (Z.to_nat (e_phdr_len h)).

(** The bytes of the program headers, when they are all in the file. *)
Lemma extract_headers data :
  bytes_ok data → Z.of_nat (length data) < U64 →
  let h := elf_header_at data in
  let last := e_program_header h + e_phdr_len h * Z.of_nat size_of_ProgramHeader in
  ∃ bs, headers_of (Z.to_nat (e_phdr_len h)) bs = file_headers data h ∧
  extract (Z.of_nat size_of_ProgramHeader) data (e_program_header h) (e_phdr_len h) =
    if last <=? Z.of_nat (length data) then Ret (Some bs)
    else if (last <? U64) || negb overflow_checks then Ret None else Panic.
Proof.
  intros Hd Hlen h last. pose proof (field_range data 32 8 Hd) as Hp. pose proof (field_range data 56 2 Hd) as Hn.
  change (field data 32 8) with (e_program_header h) in Hp. change (field data 56 2) with (e_phdr_len h) in Hn.
  change (256 ^ Z.of_nat 2) with 65536 in Hn.
  exists (take (Z.to_nat (e_phdr_len h * Z.of_nat size_of_ProgramHeader)) (drop (Z.to_nat (e_program_header h)) data)). split.
  - unfold headers_of, file_headers. apply list_fmap_ext. intros k i Hi. apply lookup_seq in Hi as [-> Hk]. cbn [Nat.add].
    apply program_header_slice. unfold size_of_ProgramHeader in *. lia.
  - apply extract_eq; [lia|lia|done|unfold is_usize, size_of_ProgramHeader; lia|done].
Qed.

(** What the parser gives when it gives something. *)
Lemma elf_parser_inv data p :
  bytes_ok data → Z.of_nat (length data) < U64 → elf_parser_new data = Ret (inr p) →
  p = mkParser data (elf_header_at data) (file_headers data (elf_header_at data)).
Proof.
  intros Hd Hlen. unfold elf_parser_new, elf_header_new. destruct (_ <? _)%nat; [done|]. destruct (elf_check _); [done|].
  destruct (extract_headers data Hd Hlen) as (bs & Hbs & ->).
  destruct (_ <=? _); [cbn [mbind res_bind]; rewrite Hbs; by intros [= <-]|by destruct (_ || _)].
Qed.

(** C38: On any file the parser reads only bytes that are there: it gives the header and the
    program headers of the file exactly when the checks of the header hold and the table lies
    in the file, and an error otherwise; only when the end of the table overflows a word does
    the development profile panic. *)
Theorem elf_parser_spec data :
  bytes_ok data → Z.of_nat (length data) < U64 →
  elf_parser_new data =
    match elf_header_new data with
    | inl e => Ret (inl e)
    | inr h =>
        let last := e_program_header h + e_phdr_len h * Z.of_nat size_of_ProgramHeader in
        match elf_check h with
        | Some e => Ret (inl e)
        | None =>
            if last <=? Z.of_nat (length data) then Ret (inr (mkParser data h (file_headers data h)))
            else if (last <? U64) || negb overflow_checks then Ret (inl (mkErr "invalid program headers"))
            else Panic
        end
    end.
Proof.
  intros Hd Hlen. unfold elf_parser_new, elf_header_new. destruct (_ <? _)%nat; [done|]. cbv zeta.
  destruct (elf_check (elf_header_at data)); [done|]. destruct (extract_headers data Hd Hlen) as (bs & <- & ->).
  destruct (_ <=? _); [done|by destruct (_ || _)].
Qed.
End parser_spec.

(** *** Flags *)

(** The rights of a mapping are the three low bits of the flags of the spawn. *)
Lemma as_map_flags_rwx f : is_usize f → as_map_flags f = rwx_bits f + MF_USER + MF_EXACT_SIZE.
Proof.
  intros Hf. unfold rwx_bits. rewrite get_bits_val by (unfold is_usize in *; lia). change (2 ^ 0) with 1. rewrite Z.div_1_r.
  change (2 ^ (3 - 0)) with 8. unfold as_map_flags.
  assert (∀ k, In k [1; 2; 4] → flag_contains f k = flag_contains (f mod 8) k) as Hk.
  { intros k Hk. unfold flag_contains. f_equal. change 8 with (2 ^ 3). rewrite <- Z.land_ones by lia. rewrite <- Z.land_assoc.
    f_equal. destruct Hk as [<-|[<-|[<-|[]]]]; reflexivity. }
  rewrite !Hk by (cbn; tauto). pose proof (Z.mod_pos_bound f 8 ltac:(lia)) as Hr. revert Hr. generalize (f mod 8). intros r Hr.
  assert (r = 0 ∨ r = 1 ∨ r = 2 ∨ r = 3 ∨ r = 4 ∨ r = 5 ∨ r = 6 ∨ r = 7) as Hc by lia.
  destruct Hc as [->|[->|[->|[->|[->|[->|[->| ->]]]]]]]; reflexivity.
Qed.

(** ** What is loaded *)

(** A segment that the program can have: in the file and in the lower half. *)
Record loadable (data : list Z) (h : ProgramHeader) : Prop := {
  ld_type : ptype h = P_TYPE_LOAD;
  ld_mem : 0 < p_memsz h;
  ld_addr : 0 <= p_vaddr h ∧ p_vaddr h + p_memsz h + PAGE_SIZE <= 2 ^ 47 - PAGE_SIZE;
  ld_file : 0 <= p_offset h ∧ p_offset h + p_filesz h <= Z.of_nat (length data);
  ld_size : 0 <= p_filesz h <= p_memsz h;
}.

(** The byte the segment has at an address: that of the file, or zero. *)
Definition segment_byte (data : list Z) (h : ProgramHeader) (a : Z) : Z :=
  if (p_vaddr h <=? a) && (a <? p_vaddr h + p_filesz h)
  then nth (Z.to_nat (p_offset h + (a - p_vaddr h))) data 0 else 0.

Section load_spec.
Context {B : Build} {AD : Addresses} {VL : AddrLaws (A:=VA)}.

Lemma aligned_around a n :
  0 <= a → 0 < n → a + n + PAGE_SIZE <= 2 ^ 47 - PAGE_SIZE →
  ∃ v, aligned (A:=VA) (mkRange a n) = Ret v ∧ page_range v ∧ r_end v <= LOW ∧ r_addr v <= a ∧ a + n <= r_end v.
Proof.
  intros Ha Hn Hb. unfold aligned, new_aligned, PAGE_SIZE, r_end, LOW in *. cbn [r_addr r_size].
  change (psize K4) with 4096.
  assert (∀ x, 0 <= x <= 2 ^ 47 - 4096 → @canon VA VL x) as Hc by (intros; apply canon_low; lia).
  pose proof (Z.mod_pos_bound (- (a + n)) 4096 eq_refl) as He. pose proof (Z.mod_pos_bound a 4096 eq_refl) as Hm.
  set (e := a + n + (- (a + n)) mod 4096).
  assert (4096 | e) as He'.
  { apply divide_mod0; [done|]. subst e. by rewrite Zplus_mod_idemp_r, Z.add_opp_diag_r. }
  assert (4096 | a - a mod 4096) as Hd. { exists (a / 4096). pose proof (Z_div_mod_eq_full a 4096). lia. }
  rewrite a_add_ok by first [lia | apply Hc; lia]. cbn [mbind res_bind].
  rewrite a_up_ok by first [by exists 12 | lia | apply Hc; subst e; lia]. fold e. cbn [mbind res_bind].
  rewrite a_down_ok by first [by exists 12 | lia | apply Hc; lia]. cbn [mbind res_bind].
  rewrite a_sub_ok by first [subst e; lia | apply Hc; subst e; lia]. cbn [mbind res_bind].
  rewrite align_up_eq by first [subst e; lia | by exists 12].
  cbn [mbind res_bind]. set (sz := e - a + 4096 - 1 - (e - a + 4096 - 1) mod 4096).
  assert (sz = e - (a - a mod 4096)) as Hsz.
  { destruct He' as [q Hq], Hd as [r Hr]. subst sz.
    rewrite <- (Z.mod_unique (e - a + 4096 - 1) 4096 (q - r) (4095 - a mod 4096)); lia. }
  exists (mkRange (a - a mod 4096) sz). split; [done|]. unfold page_range, PAGE_SIZE. cbn [r_addr r_size].
  assert (4096 | sz) by (rewrite Hsz; by apply Z.divide_sub_r).
  assert (0 <= a - a mod 4096) by (pose proof (Z.mod_le a 4096); lia).
  split_and!; try done; subst e; lia.
Qed.

Lemma nth_zeros k j : nth j (replicate k 0) 0 = 0.
Proof. revert j. induction k; intros [|j]; cbn; eauto. Qed.

Lemma nth_image (off n i : nat) (d : list Z) :
  (off + length d <= n)%nat → (i < n)%nat →
  nth i (take off (replicate n 0) ++ d ++ drop (off + length d) (replicate n 0)) 0 =
    if decide (off <= i < off + length d)%nat then nth (i - off) d 0 else 0.
Proof.
  intros Hl Hi. rewrite take_replicate, drop_replicate, Nat.min_l by lia.
  destruct (decide _) as [[H1 H2]|Hno].
  - rewrite app_nth2; rewrite length_replicate; [|lia]. by rewrite app_nth1 by lia.
  - destruct (decide (i < off)%nat).
    + rewrite app_nth1 by (rewrite length_replicate; lia). apply nth_zeros.
    + rewrite app_nth2; rewrite length_replicate; [|lia]. rewrite app_nth2 by lia. apply nth_zeros.
Qed.

(** The image of the section of a segment. *)
Lemma section_image data h :
  loadable data h → Z.of_nat (length data) < U64 →
  ∃ s, header_section data h = Ret (Some s) ∧ sec_flags s = ph_flags h ∧
    page_range (sec_range s) ∧ r_end (sec_range s) <= LOW ∧
    r_addr (sec_range s) <= p_vaddr h ∧ p_vaddr h + p_memsz h <= r_end (sec_range s) ∧
    ∀ n, r_size (sec_range s) <= n → ∃ bytes, image s n = Ret bytes ∧ Z.of_nat (length bytes) = n ∧
      ∀ a, r_addr (sec_range s) <= a < r_addr (sec_range s) + n →
        nth (Z.to_nat (a - r_addr (sec_range s))) bytes 0 = segment_byte data h a.
Proof.
  intros [L1 L2 [L3 L4] [L5 L6] L7] Hlen. unfold header_section.
  rewrite L1, Z.eqb_refl, (proj2 (Z.eqb_neq _ _)) by lia. cbn [negb].
  rewrite a_new_ok by (apply canon_low; unfold PAGE_SIZE in *; lia). cbn [mbind res_bind]. unfold new_unaligned.
  destruct (aligned_around (p_vaddr h) (p_memsz h)) as (v & -> & V1 & V2 & V3 & V4); [lia..|]. cbn [mbind res_bind].
  pose proof V1 as (_ & _ & V5 & V6 & _). unfold r_end, LOW, PAGE_SIZE in *.
  assert (section_data data h = Ret (Some (if p_filesz h =? 0 then None else
    Some (take (Z.to_nat (p_filesz h)) (drop (Z.to_nat (p_offset h)) data))))) as ->.
  { unfold section_data. destruct (Z.eqb_spec (p_filesz h) 0); [done|].
    rewrite extract_eq by (unfold is_usize; lia). rewrite Z.mul_1_r, (proj2 (Z.leb_le _ _)) by lia. done. }
  cbn [mbind res_bind]. unfold as_usize. cbn [r_addr]. rewrite usub_ok by lia. cbn [mbind res_bind].
  eexists. split; [done|]. cbn [sec_range sec_flags]. split_and!; [done..|].
  intros n Hn. unfold image. cbn [sec_data sec_offset].
  destruct (Z.eqb_spec (p_filesz h) 0) as [E|E].
  - eexists. split; [done|]. rewrite length_replicate. split; [lia|]. intros a Ha. unfold segment_byte.
    rewrite E. rewrite (proj2 (andb_false_iff _ _)) by (destruct (Z.leb_spec (p_vaddr h) a); [right; apply Z.ltb_ge; lia|by left]).
    apply nth_zeros.
  - set (d := take _ _). assert (length d = Z.to_nat (p_filesz h)) as Hd.
    { subst d. rewrite length_take, length_drop. lia. }
    rewrite (proj2 (Z.leb_le _ _)) by lia. eexists. split; [done|].
    set (off := Z.to_nat (p_vaddr h - r_addr v)).
    split; [rewrite !length_app, length_take, length_drop, length_replicate; lia|]. intros a Ha.
    rewrite nth_image by lia. unfold segment_byte.
    destruct (decide _) as [[H1 H2]|Hno].
    + rewrite (proj2 (Z.leb_le _ _)), (proj2 (Z.ltb_lt _ _)) by lia. cbn [andb].
      subst d. rewrite nth_firstn, nth_skipn. destruct (Nat.ltb_spec (Z.to_nat (a - r_addr v) - off) (Z.to_nat (p_filesz h))); [f_equal; lia|lia].
    + rewrite (proj2 (andb_false_iff _ _)); [done|].
      destruct (Z.leb_spec (p_vaddr h) a); [right; apply Z.ltb_ge; lia|by left].
Qed.

(** ** The whole file *)

Context {W : Type} {PM : PhysMem W} {FA : FrameAllocator W} (MAX_MAP_ADDR : Z).

(** Memory is at least as long as asked. *)
Hypothesis zm_alloc_size : ∀ n w m w', zm_alloc n w = Ret (Some m, w') → n <= m_len m.

Lemma map_at_range fuel l v (s : VirtMapper (W:=W)) v' s' :
  page_range v → r_end v <= LOW → map_at MAX_MAP_ADDR fuel l v s = Ret (inr v', s') → v' = v.
Proof.
  intros Hv Hl H. unfold map_at in H. rewrite (aligned_page v Hv Hl) in H. do 2 (step H). simplify_eq.
  destruct (negb _); [by apply drop_err_inv in H as [_ ?]|].
  destruct (_ =? 0); [by apply drop_err_inv in H as [_ ?]|]. do 2 (step H).
  destruct a1; [|by apply drop_err_inv in H as [_ ?]].
  unfold install in H. do 4 (step H). apply VM_ret_inv in H as [Er _]. by injection Er.
Qed.

Lemma load_section_inv fuel uid sec (s : VirtMapper (W:=W)) v bytes fl s' :
  page_range (sec_range sec) → r_end (sec_range sec) <= LOW →
  load_section MAX_MAP_ADDR fuel uid sec s = Ret (inr (v, bytes, fl), s') →
  v = sec_range sec ∧ fl = section_flags uid (sec_flags sec) ∧ ∃ n, r_size v <= n ∧ image sec n = Ret bytes.
Proof.
  intros Hv Hl H. unfold load_section in H. dret H. apply on_w_inv in E as [_ Em]. destruct a as [m|]; [|done].
  dret H. apply lift_inv in E as [Ei ->]. dret H. apply lift_inv in E as [_ ->]. dret H. rename E into Ea.
  apply VM_ret_inv in H as [H ->]. destruct a1 as [e|v0]; [done|]. injection H as -> -> ->.
  apply map_at_range in Ea as ->; [|done..]. split; [done|]. split; [done|]. exists (m_len m).
  split; [by eapply zm_alloc_size|done].
Qed.

Lemma load_sections_inv fuel uid secs : ∀ (s : VirtMapper (W:=W)) xs s' sec,
  load_sections MAX_MAP_ADDR fuel uid secs s = Ret (inr xs, s') → sec ∈ secs →
  page_range (sec_range sec) → r_end (sec_range sec) <= LOW →
  ∃ bytes n, (sec_range sec, bytes, section_flags uid (sec_flags sec)) ∈ xs ∧
    r_size (sec_range sec) <= n ∧ image sec n = Ret bytes.
Proof.
  induction secs as [|sec0 secs IH]; intros s xs s' sec H Hin Hv Hl; [by apply elem_of_nil in Hin|].
  cbn [load_sections] in H. dret H. destruct a as [e|x]; [done|]. dret H. apply VM_ret_inv in H as [H ->].
  destruct a as [e|ys]; [done|]. injection H as ->. apply elem_of_cons in Hin as [->|Hin].
  - destruct x as [[v bytes] fl]. apply load_section_inv in E as (-> & -> & n & Hn & Hi); [|done..].
    exists bytes, n. split; [left|done].
  - destruct (IH _ _ _ _ E0 Hin Hv Hl) as (bytes & n & Hx & Hn). exists bytes, n. split; [by right|done].
Qed.

Lemma sections_of_elem data hs : ∀ ss h sec,
  sections_of data hs = Ret ss → h ∈ hs → header_section data h = Ret (Some sec) → sec ∈ ss.
Proof.
  induction hs as [|h0 hs IH]; intros ss h sec H Hin Hs; [by apply elem_of_nil in Hin|].
  cbn [sections_of] in H. dret H. dret H. injection H as <-. apply elem_of_cons in Hin as [->|Hin].
  - rewrite Hs in E. injection E as <-. left.
  - pose proof (IH _ _ _ E0 Hin Hs). destruct a; [by right|done].
Qed.


Lemma extract_length size data index len bs :
  0 <= index < U64 → 0 <= len * size → 0 < size → index + len * size < U64 →
  extract size data index len = Ret (Some bs) → Z.of_nat (length bs) = len * size.
Proof.
  intros Hi Hn Hs Hu H. unfold extract in H. u. unfold umul, uadd in H. rewrite checked_ok in H by lia.
  cbn [mbind res_bind] in H. rewrite checked_ok in H by lia. cbn [mbind res_bind] in H.
  destruct (Z.leb_spec index (index + len * size)); [|done]. cbn [andb] in H.
  destruct (Z.leb_spec (index + len * size) (Z.of_nat (length data))); [|done]. injection H as <-.
  rewrite length_take, length_drop. lia.
Qed.

(** That the bytes of a segment fit its memory is nowhere checked: with a file size above
    the memory size, the copy runs past the memory that was allocated for the pages of the
    segment. *)
Theorem elf_filesz_unchecked fuel uid data h sec m (s s1 : VirtMapper (W:=W)) :
  0 <= p_offset h → 0 < p_filesz h → p_offset h + p_filesz h < U64 →
  header_section data h = Ret (Some sec) →
  on_w (zm_alloc (r_size (sec_range sec))) s = Ret (Some m, s1) →
  m_len m < sec_offset sec + p_filesz h →
  load_section MAX_MAP_ADDR fuel uid sec s = UB.
Proof.
  intros Ho Hf Hu H Hm Hlt. unfold load_section, mbind, M_bind. rewrite Hm. unfold header_section in H.
  destruct (negb _); [done|]. destruct (_ =? 0); [done|]. dret H. dret H. dret H.
  destruct a1 as [d|]; [|done]. dret H. injection H as <-. unfold section_data in E1.
  rewrite (proj2 (Z.eqb_neq _ _)) in E1 by lia. dret E1. destruct a2 as [bs|]; [|done]. injection E1 as <-.
  apply extract_length in E3; [|lia..]. rewrite Z.mul_1_r in E3. cbn [sec_offset] in Hlt.
  unfold lift, image. cbn [sec_data sec_offset]. by rewrite (proj2 (Z.leb_gt _ _)) by lia.
Qed.
End load_spec.

(** ** A concrete file *)

#[local] Existing Instance dev.

Fixpoint le_bytes (n : nat) (w : Z) : list Z :=
  match n with O => [] | S n => w mod 256 :: le_bytes n (w / 256) end.

(** One program header, at 64, and the bytes of its segment, at 120. *)
Definition demo_elf (vaddr memsz : Z) (bytes : list Z) : list Z :=
  le_bytes 4 ELF_MAGIC ++ [2; 1; 1; 0] ++ le_bytes 8 0 ++ le_bytes 2 2 ++ le_bytes 2 X64 ++ le_bytes 4 1 ++
  le_bytes 8 (vaddr + 1) ++ le_bytes 8 64 ++ le_bytes 8 0 ++ le_bytes 4 0 ++ le_bytes 2 64 ++ le_bytes 2 56 ++
  le_bytes 2 1 ++ le_bytes 2 0 ++ le_bytes 2 0 ++ le_bytes 2 0 ++
  le_bytes 4 1 ++ le_bytes 4 5 ++ le_bytes 8 120 ++ le_bytes 8 vaddr ++ le_bytes 8 0 ++
  le_bytes 8 (Z.of_nat (length bytes)) ++ le_bytes 8 memsz ++ le_bytes 8 4096 ++ bytes.

Definition demo_file : list Z := demo_elf 0x400010 5 [1; 2; 3].
Definition demo_header : ProgramHeader := mkPHdr 1 5 120 0x400010 0 3 5 4096.

Lemma demo_file_ok : bytes_ok demo_file.
Proof. apply (bool_decide_unpack _). vm_compute. exact I. Qed.

Lemma log_alloc_size n (w : LogWorld) m w' : zm_alloc n w = Ret (Some m, w') → n <= m_len m.
Proof. intros [= <- _]. simpl. lia. Qed.

Lemma demo_headers : file_headers demo_file (elf_header_at demo_file) = [demo_header].
Proof. vm_compute. reflexivity. Qed.

Lemma demo_loadable : loadable demo_file demo_header.
Proof. by constructor. Qed.

Definition demo_loaded : list (range * list Z * Z) * Z :=
  match from_elf_load (B:=dev) demo_max 10 (PUser 5) demo_file demo_space with
  | Ret (inr x, _) => x
  | _ => ([], 0)
  end.

Definition demo_loaded_space : VirtMapper (W:=LogWorld) :=
  match from_elf_load (B:=dev) demo_max 10 (PUser 5) demo_file demo_space with
  | Ret (_, s) => s
  | _ => demo_space
  end.

Lemma demo_load : from_elf_load (B:=dev) demo_max 10 (PUser 5) demo_file demo_space =
  Ret (inr (demo_loaded.1, demo_loaded.2), demo_loaded_space).
Proof. vm_compute. reflexivity. Qed.


Lemma elf_parser_spec_witness :
  elf_parser_new (B:=dev) demo_file = Ret (inr (mkParser demo_file (elf_header_at demo_file) [demo_header])).
Proof.
  rewrite (elf_parser_spec (B:=dev) demo_file demo_file_ok) by (vm_compute; reflexivity). vm_compute. reflexivity.
Defined.

(** 4097 bytes for a segment of one byte. *)
Definition bad_file : list Z := demo_elf 0x400000 1 (repeat 7 4097).
Definition bad_header : ProgramHeader := mkPHdr 1 5 120 0x400000 0 4097 1 4096.

Definition bad_section : ElfSection := mkSection (mkRange 0x400000 0x1000) (Some (repeat 7 4097)) 0 5.

Lemma elf_filesz_unchecked_witness :
  load_section (B:=dev) demo_max 10 (PUser 5) bad_section demo_space = UB.
Proof.
  refine (elf_filesz_unchecked (B:=dev) demo_max 10 (PUser 5) bad_file bad_header bad_section
    (mkAlloc 0x400000 0x1000 0) demo_space (mkMapper (virt_map demo_space) (cr3 demo_space)
      (mkPT (tables (pt demo_space)) (mkLog 0x401000 (lw_frame (frames (pt demo_space))) []))) _ _ _ _ _ _);
    try done; vm_compute; reflexivity.
Defined.
