(* ===== verification/Spawn.v ===== *)
(** * A process from an executable: [Process::from_elf] of [kernel/src/sched/process.rs]

    [Elf] has the parser and the loading of the sections; here they are put on the whole
    machine of [Init]: the process is made, its sections are mapped into its address space,
    it goes into the list of processes, and its first thread starts at the entry point.
    [from_elf_spec] says what is left of it when one of these fails. *)

From Stdlib Require Import String.
From S2P Require Import Prelude Misc Sys Ranges Buddy PageTable VirtLayout VirtMapper Boot Zones.
From S2P Require Import CpuMarker Thread Int Time Apic Console Sched SchedInv SchedSafe Cap.
From S2P Require Import Syscall SyscallSafe Init Elf.

Section spawn.
Context {B : Build} {AD : Addresses} {P : Cpu} {DV : Devices} {BF : Bitfields}.
Context (new_thread_at : gmap Z Thread → Z) (MAX_MAP_ADDR HIGHER_HALF_PAGE_POINTER : Z).

Abbreviation IM := (M Machine).
Abbreviation Kern := (Kernel (W:=ZoneManager)).

Definition kw_gone (pid : Z) (k : Kern) : Kern :=
  mkKernel (k_sched k) (delete pid (k_caps k)) (delete pid (k_spaces k)) (k_pt k) (k_objects k) (k_next_fuid k)
    (k_cpu k) (k_dev k) (k_user_mem k).

(** The [Arc] of a process goes; with the last one its address space and its tables of
    capabilities go. *)
Definition process_drop (pid : Z) : IM () :=
  on_kernel (on_sched (drop_arc pid));;
  s ← get;
  if decide (is_Some (procs (k_sched (mc_kernel s)) !! pid)) then mret () else
  on_kernel (on_vm pid (mapper_drop (W:=ZoneManager)));;
  on_kernel (λ k, Ret ((), kw_gone pid k)).

(** What [?] leaves behind: [process] is dropped on the way out. *)
Definition from_elf (fuel : nat) (uid : PrivLevel) (elf_data : list Z) : IM (Err + Z) :=
  pid ← process_create HIGHER_HALF_PAGE_POINTER uid;
  r ← on_kernel (on_vm pid (from_elf_load MAX_MAP_ADDR fuel uid elf_data));
  match r with
  | inl e => process_drop pid;; mret (inl e)
  | inr (_, entry) =>
      on_kernel (on_sched (list_process pid));;
      r ← on_kernel (k_new_thread MAX_MAP_ADDR new_thread_at fuel pid uid (from_rip entry));
      match r with
      | inl err => on_kernel (on_sched (unlist_process pid));; process_drop pid;; mret (inl err)
      | inr _ => mret (inr pid)
      end
  end.

(** ** What becomes of the process *)

Definition plist (s : Machine) : gset Z := proc_list (k_sched (mc_kernel s)).
Definition processes (s : Machine) : gmap Z Process := procs (k_sched (mc_kernel s)).

(** Making a thread leaves the list of processes, the other processes and the number of
    [Arc]s alone; a thread that is made is ready, in the map of its process. *)
Definition made_thread (pid : Z) (build : Z → Err + (Z * Thread)) (p : Process) (tid : Z) (s s' : Sched) : Prop :=
  ∃ a t, build tid = inr (a, t) ∧ threads s' !! a = Some t ∧ a ∈ ready (tlist s') ∧
    procs s' = <[pid := one_more tid a p]> (procs s).

Lemma new_thread_regs_inv pid build p s r s' :
  procs s !! pid = Some p → 0 <= p_next_tid p → p_next_tid p + 1 < U64 →
  (∀ a t, build (p_next_tid p) = inr (a, t) → th_tuid t = (pid, p_next_tid p)) →
  new_thread_regs pid build s = Ret (r, s') →
  proc_list s' = proc_list s ∧ (∃ p', procs s' = <[pid := p']> (procs s) ∧ p_arcs p' = p_arcs p) ∧
  (∀ tid, r = inr tid → tid = p_next_tid p ∧ made_thread pid build p tid s s').
Proof.
  intros Hp H0 Hlt Hb E. unfold new_thread_regs in E. apply M_bind_Ret_inv in E as (n & s1 & E1 & E).
  unfold next_tid, the_process, get, lift, proc_put, modify, mbind, M_bind in E1. rewrite Hp in E1. injection E1 as <- <-.
  destruct (build (p_next_tid p)) as [e|[a t]] eqn:Eb; [injection E as <- <-; split_and!; [done|by eexists|done]|].
  specialize (Hb a t eq_refl). apply M_bind_Ret_inv in E as ([] & s2 & E2 & E). injection E2 as <-.
  apply M_bind_Ret_inv in E as (ok & s3 & E3 & E).
  set (p1 := mkProc (p_alive p) (p_cpus p) (p_uid p) (p_next_tid p + 1) (p_threads p) (p_arcs p)).
  rewrite (Z.mod_small (p_next_tid p + 1)) in E3 by lia.
  set (s1 := with_threads (<[a:=t]> _) _) in E3.
  destruct (p_threads p !! p_next_tid p) as [b|] eqn:Et.
  - assert (ok = false ∧ s3 = s1) as [-> ->].
    { unfold insert_thread, the_process, the_thread, get, lift, mbind, M_bind in E3. subst s1.
      cbn [procs threads with_threads with_procs] in E3. rewrite lookup_insert_eq in E3. cbn [res_bind threads with_threads with_procs] in E3.
      rewrite lookup_insert_eq in E3. cbn [res_bind mret M_ret] in E3. rewrite Hb in E3. unfold tuid_tid in E3.
      cbn [snd p_next_tid p_threads res_bind mret M_ret unwrap] in E3.
      rewrite (proj2 (Z.leb_gt _ _)) in E3 by lia. rewrite Et in E3. by injection E3. }
    injection E as <- <-. split_and!; [done|by eexists|done].
  - rewrite (insert_thread_eq pid a p1 t) in E3;
      [|apply lookup_insert_eq|apply lookup_insert_eq|rewrite Hb; cbn; lia|by rewrite Hb].
    injection E3 as <- <-. apply M_bind_Ret_inv in E as ([k q] & s4 & E4 & E).
    apply M_bind_Ret_inv in E as ([] & s5 & E5 & E). injection E as <- <-.
    unfold tl_index, tl_get, lift, mbind, M_bind in E4. cbn in E4. injection E4 as <- <- <-.
    unfold push in E5. destruct (decide _); [done|]. injection E5 as <-. cbn. rewrite insert_insert_eq.
    split_and!; [done|by eexists|]. intros tid [= <-]. split; [done|]. exists a, t. split_and!; [done|apply lookup_insert_eq|set_solver|].
    unfold one_more, p_with_threads, p1. cbn. by rewrite Hb, Z.mod_small by lia.
Qed.

Lemma on_vm_inv pid {T} (m : VM (W:=ZoneManager) T) k x k' :
  on_vm pid m k = Ret (x, k') → k_sched k' = k_sched k ∧ k_caps k' = k_caps k.
Proof.
  intros E. apply res_bind_Ret_inv in E as (v & _ & E). apply res_bind_Ret_inv in E as ([y v'] & _ & E).
  by injection E as _ <-.
Qed.

Lemma k_new_thread_made fuel pid uid regs (k : Kern) p r k' :
  procs (k_sched k) !! pid = Some p → 0 <= p_next_tid p → p_next_tid p + 1 < U64 →
  k_new_thread MAX_MAP_ADDR new_thread_at fuel pid uid regs k = Ret (r, k') →
  k_caps k' = k_caps k ∧ proc_list (k_sched k') = proc_list (k_sched k) ∧
  (∃ p', procs (k_sched k') = <[pid := p']> (procs (k_sched k)) ∧ p_arcs p' = p_arcs p) ∧
  (∀ tid, r = inr tid → ∃ a t, threads (k_sched k') !! a = Some t ∧ a ∈ ready (tlist (k_sched k')) ∧
    rip (th_regs t) = rip regs ∧ rpl (cs (th_regs t)) = cpl_n (as_cpu_priv uid) ∧
    procs (k_sched k') = <[pid := one_more (p_next_tid p) a p]> (procs (k_sched k))).
Proof.
  intros Hp H0 Hlt E. unfold k_new_thread in E. apply M_bind_Ret_inv in E as (k0 & k1 & E0 & E). injection E0 as <- <-.
  apply M_bind_Ret_inv in E as (pr & k1 & E0 & E). apply on_sched_inv in E0 as (s & E0 & ->).
  unfold the_process, get, lift, mbind, M_bind in E0. rewrite Hp in E0. injection E0 as <- <-.
  apply M_bind_Ret_inv in E as (t & k1 & E1 & E). pose proof E1 as E2. apply on_vm_inv in E1 as [Es Ec].
  apply res_bind_Ret_inv in E2 as (v & _ & E2). apply res_bind_Ret_inv in E2 as ([y v'] & Et & E2). injection E2 as -> _.
  apply on_sched_inv in E as (s & E & ->). rewrite Es in E. cbn [k_sched kw_sched k_caps] in *.
  apply (new_thread_regs_inv pid _ p) in E as (Hl & Ha & Hm); [|exact Hp|done|done|].
  2: { intros a u. destruct t as [e|t]; [done|]. intros [= _ <-]. by eapply (thread_new_shape MAX_MAP_ADDR) in Et as (_ & ? & _). }
  split_and!; [done|done|exact Ha|]. intros tid Er. apply Hm in Er as (-> & a & u & Eb & Hu & Hin & Hps).
  destruct t as [e|t]; [done|]. injection Eb as <- <-. apply new_thread_ring in Et as (Hcs & _ & _ & _ & Hi & _). by eexists _, _.
Qed.

Hypothesis Hthread : ∀ m, m !! new_thread_at m = None.

(** A process made for an id that is new. *)
Definition fresh_pid (pid : Z) (k : Kern) : Prop :=
  procs (k_sched k) !! pid = None ∧ (pid ∉ proc_list (k_sched k)) ∧ k_caps k !! pid = None.
Definition new_process (uid : PrivLevel) : Process := mkProc true marker_new uid 0 ∅ 1.

Lemma core_new_process held pid uid (k k' : Kern) :
  core held k → fresh_pid pid k →
  k_sched k' = with_procs (<[pid := new_process uid]> (procs (k_sched k))) (k_sched k) →
  k_caps k' = <[pid := no_caps]> (k_caps k) → core held k'.
Proof.
  intros [Hr Hl] (Hp & _ & _) Es Ec. split.
  - rewrite Es. by eapply (event_reach (ENewProcess pid uid) _ _ (process_new pid uid) ()).
  - rewrite Es, Ec. intros q c i cap [[_ <-]|[_ Hq]]%lookup_insert_Some; [done|]. by eapply Hl.
Qed.

(** The last [Arc]. *)
Lemma process_drop_ok held pid p s s' :
  core held (mc_kernel s) → processes s !! pid = Some p → p_arcs p = 1%nat →
  process_drop pid s = Ret ((), s') →
  core held (mc_kernel s') ∧ processes s' = delete pid (processes s) ∧ plist s' = plist s ∧
  k_caps (mc_kernel s') = delete pid (k_caps (mc_kernel s)).
Proof.
  intros Hc Hp H1 E. unfold process_drop in E.
  apply M_bind_Ret_inv in E as ([] & s1 & E1 & E). apply on_kernel_inv in E1 as (k1 & E1 & ->).
  assert (core held k1) as Hc1 by (eapply (core_event (EDropArc pid)); [done|by exists p|apply grows_drop_arc|exact Hc|exact E1]).
  apply on_sched_inv in E1 as (sc & E1 & ->). unfold drop_arc, the_process, get, lift, modify, mbind, M_bind in E1.
  unfold processes in Hp. rewrite Hp in E1. cbn [res_bind] in E1. rewrite H1 in E1. injection E1 as <-.
  apply M_bind_Ret_inv in E as (s0 & s2 & E2 & E). injection E2 as <- <-.
  rewrite decide_False in E by (cbn; rewrite lookup_delete_eq; by intros [? ?]).
  apply M_bind_Ret_inv in E as ([] & s2 & E2 & E). apply on_kernel_inv in E2 as (k2 & E2 & ->).
  apply on_vm_inv in E2 as [Es Ec]. injection E as <-. unfold processes, plist. cbn in *. rewrite Es, Ec.
  split; [|done]. destruct Hc1 as [Hr Hl]. split; cbn; rewrite Es; [exact Hr|]. rewrite Ec.
  intros q c i cap [_ Hq]%lookup_delete_Some. by eapply Hl.
Qed.

Lemma unlist_process_ok held pid p n s s' :
  core held (mc_kernel s) → processes s !! pid = Some p → p_arcs p = S (S n) → pid ∈ plist s →
  on_kernel (on_sched (unlist_process pid)) s = Ret ((), s') →
  core held (mc_kernel s') ∧ processes s' = <[pid := with_arcs (S n) p]> (processes s) ∧ plist s' = plist s ∖ {[pid]} ∧
  k_caps (mc_kernel s') = k_caps (mc_kernel s).
Proof.
  intros Hc Hp Ha Hin E. apply on_kernel_inv in E as (k1 & E & ->).
  assert (core held k1) as Hc1.
  { eapply (core_event (EUnlist pid)); [done|by exists p| |exact Hc|exact E]. unfold unlist_process, drop_arc, proc_put, the_process. grows_tac. }
  apply on_sched_inv in E as (sc & E & ->). split; [exact Hc1|].
  unfold unlist_process in E. apply M_bind_Ret_inv in E as (s0 & s1 & E1 & E). injection E1 as <- <-.
  unfold plist in Hin. apply M_bind_Ret_inv in E as ([] & s1 & E1 & E). injection E1 as <-. rewrite decide_True in E by done.
  unfold drop_arc, the_process, get, lift, proc_put, modify, mbind, M_bind in E. unfold processes in *.
  cbn [procs with_proc_list] in E. rewrite Hp in E. cbn [res_bind] in E. rewrite Ha in E. by injection E as <-.
Qed.

Lemma list_process_ok held pid p s s' :
  core held (mc_kernel s) → processes s !! pid = Some p →
  on_kernel (on_sched (list_process pid)) s = Ret ((), s') →
  core held (mc_kernel s') ∧ processes s' = <[pid := with_arcs (S (p_arcs p)) p]> (processes s) ∧
  plist s' = {[pid]} ∪ plist s ∧ k_caps (mc_kernel s') = k_caps (mc_kernel s) ∧ mc_next_pid s' = mc_next_pid s.
Proof.
  intros Hc Hp E. apply on_kernel_inv in E as (k1 & E & ->).
  assert (core held k1) as Hc1 by (eapply (core_event (EListProcess pid)); [done|by exists p|apply grows_list_process|exact Hc|exact E]).
  apply on_sched_inv in E as (sc & E & ->). split; [exact Hc1|]. unfold processes in *.
  unfold list_process, the_process, get, lift, proc_put, modify, mbind, M_bind in E. rewrite Hp in E. by injection E as <-.
Qed.

(** A process of its own: what [from_elf] adds to the machine. *)
Definition spawned (pid : Z) (uid : PrivLevel) (entry : Z) (s s' : Machine) : Prop :=
  plist s' = {[pid]} ∪ plist s ∧ k_caps (mc_kernel s') = <[pid := no_caps]> (k_caps (mc_kernel s)) ∧
  ∃ a t, processes s' = <[pid := with_arcs 2 (one_more 0 a (new_process uid))]> (processes s) ∧
    threads (k_sched (mc_kernel s')) !! a = Some t ∧ a ∈ ready (tlist (k_sched (mc_kernel s'))) ∧
    rip (th_regs t) = entry ∧ rpl (cs (th_regs t)) = cpl_n (as_cpu_priv uid).

(** Nothing is left of it. *)
Definition unspawned (s s' : Machine) : Prop :=
  processes s' = processes s ∧ plist s' = plist s ∧ k_caps (mc_kernel s') = k_caps (mc_kernel s).

(** The second half: the process is listed and its first thread made. *)
Lemma list_spawn_ok held fuel uid entry pid s r s' :
  core held (mc_kernel s) → tids_left (k_sched (mc_kernel s)) → processes s !! pid = Some (new_process uid) →
  (on_kernel (on_sched (list_process pid));;
   r ← on_kernel (k_new_thread MAX_MAP_ADDR new_thread_at fuel pid uid (from_rip entry));
   match r with
   | inl err => on_kernel (on_sched (unlist_process pid));; process_drop pid;; mret (inl err)
   | inr _ => mret (inr pid)
   end) s = Ret (r, s') →
  core held (mc_kernel s') ∧
  match r with
  | inl _ => processes s' = delete pid (processes s) ∧ plist s' = ({[pid]} ∪ plist s) ∖ {[pid]} ∧
             k_caps (mc_kernel s') = delete pid (k_caps (mc_kernel s))
  | inr q => q = pid ∧ plist s' = {[pid]} ∪ plist s ∧ k_caps (mc_kernel s') = k_caps (mc_kernel s) ∧
      ∃ a t, processes s' = <[pid := with_arcs 2 (one_more 0 a (new_process uid))]> (processes s) ∧
        threads (k_sched (mc_kernel s')) !! a = Some t ∧ a ∈ ready (tlist (k_sched (mc_kernel s'))) ∧
        rip (th_regs t) = entry ∧ rpl (cs (th_regs t)) = cpl_n (as_cpu_priv uid)
  end.
Proof.
  intros Hc Ht Hp E. apply M_bind_Ret_inv in E as ([] & s1 & E1 & E).
  apply (list_process_ok held pid _ _ _ Hc Hp) in E1 as (C1 & P1 & L1 & K1 & _).
  apply M_bind_Ret_inv in E as (q & s2 & E2 & E). apply on_kernel_inv in E2 as (k2 & E2 & ->).
  assert (tids_left (k_sched (mc_kernel s1))) as Ht1.
  { intros j p. fold (processes s1). rewrite P1. intros [[_ <-]|[_ Hj]]%lookup_insert_Some; [done|by eapply Ht]. }
  assert (core held k2) as C2 by (eapply (safe_new_thread MAX_MAP_ADDR new_thread_at Hthread held); [exact C1|exact Ht1|exact E2]).
  apply (k_new_thread_made _ _ _ _ _ (with_arcs 2 (new_process uid))) in E2 as (K2 & L2 & (p' & P2 & A2) & M2);
    [|fold (processes s1); by rewrite P1, lookup_insert_eq|done|done].
  fold (plist s1) in L2. fold (processes s1) in P2, M2. rewrite P1, insert_insert_eq in P2. rewrite P1 in M2.
  destruct q as [e|tid].
  - apply M_bind_Ret_inv in E as ([] & s3 & E3 & E). apply M_bind_Ret_inv in E as ([] & s4 & E4 & E). injection E as <- <-.
    apply (unlist_process_ok held pid p' 0) in E3 as (C3 & P3 & L3 & K3); [|exact C2| |exact A2|].
    2: { unfold processes. cbn. by rewrite P2, lookup_insert_eq. }
    2: { unfold plist. cbn. rewrite L2, L1. set_solver. }
    unfold processes at 2 in P3. cbn in P3. rewrite P2, insert_insert_eq in P3.
    apply (process_drop_ok held pid (with_arcs 1 p')) in E4 as (C4 & P4 & L4 & K4); [|exact C3|by rewrite P3, lookup_insert_eq|done].
    split; [exact C4|]. split_and!.
    + by rewrite P4, P3, delete_insert_eq.
    + rewrite L4, L3. unfold plist at 1. cbn. by rewrite L2, L1.
    + rewrite K4, K3. cbn. by rewrite K2, K1.
  - injection E as <- <-. split; [exact C2|]. split_and!; [done|by unfold plist at 1; cbn; rewrite L2, L1|by cbn; rewrite K2, K1|].
    destruct (M2 tid eq_refl) as (a & t & Hta & Hin & Hi & Hcs & Hps). exists a, t. split_and!; try done.
    unfold processes at 1. cbn. by rewrite Hps, insert_insert_eq.
Qed.

(** Where the first thread starts is what the header says. *)
Lemma load_entry fuel uid data (v : VirtMapper (W:=ZoneManager)) xs entry v' :
  bytes_ok data → Z.of_nat (length data) < U64 →
  from_elf_load MAX_MAP_ADDR fuel uid data v = Ret (inr (xs, entry), v') → entry = e_entry (elf_header_at data).
Proof.
  intros Hb Hlen H. unfold from_elf_load in H. dret H. apply lift_inv in E as [E ->].
  destruct a as [e|p]; [by apply VM_ret_inv in H as [H _]|]. apply elf_parser_inv in E as ->; [|done..].
  dret H. apply lift_inv in E as [_ ->]. dret H. apply VM_ret_inv in H as [H _].
  destruct a0; [done|]. by injection H as _ ->.
Qed.

Lemma fresh_delete {V} (m : gmap Z V) i x : m !! i = None → delete i (<[i := x]> m) = m.
Proof. intros H. by rewrite delete_insert_id. Qed.

Lemma unspawned_ok held s s' :
  core held (mc_kernel s') → caps_ok (mc_kernel s) → tids_left (k_sched (mc_kernel s)) → unspawned s s' →
  kernel_ok held (mc_kernel s') ∧ tids_left (k_sched (mc_kernel s')) ∧ unspawned s s'.
Proof.
  intros [Hr Hl] Hok Ht H. pose proof H as (Hp & Hpl & Hc). split; [split; [done|split; [done|]]|split; [|exact H]].
  - intros q c. rewrite Hc. apply Hok.
  - intros q p. unfold processes in Hp. rewrite Hp. apply Ht.
Qed.

Lemma spawned_ok held pid uid entry s s' :
  core held (mc_kernel s') → caps_ok (mc_kernel s) → tids_left (k_sched (mc_kernel s)) → spawned pid uid entry s s' →
  kernel_ok held (mc_kernel s') ∧ tids_left (k_sched (mc_kernel s')) ∧ spawned pid uid entry s s'.
Proof.
  intros [Hr Hl] Hok Ht H. pose proof H as (_ & Hc & a & t & Hp & _). split; [split; [done|split; [done|]]|split; [|exact H]].
  - intros q c. rewrite Hc. intros [[_ <-]|[_ Hq]]%lookup_insert_Some; [apply no_caps_ok|by eapply Hok].
  - intros q p. unfold processes in Hp. rewrite Hp.
    intros [[_ <-]|[_ Hq]]%lookup_insert_Some; [|by eapply Ht]. cbn. by split_and!.
Qed.

End spawn.

(** ** A small machine that loads a program *)
Section demo.
#[local] Existing Instance dev.
#[local] Existing Instance first_cpu.
#[local] Existing Instance mute_devices.
#[local] Existing Instance MaskFields.

(** The zones are set up, and there is no process yet. *)
Definition demo_zones : ZoneManager := match zm_init (memory_map demo_boot_info) zm_new with Ret (_, w) => w | _ => zm_new end.
Definition demo_idle : Machine := mw_kernel (kw_frames demo_zones demo_kernel_new) demo_machine.

Abbreviation demo_spawn file := (from_elf above 0x7fffffffe000 0x3000 64 (PUser 5) file demo_idle).
Definition spawn_result (r : res ((Err + Z) * Machine)) : option (Err + Z) := match r with Ret (x, _) => Some x | _ => None end.

Lemma spawn_result_inv r x : spawn_result r = Some x → ∃ s, r = Ret (x, s).
Proof. destruct r as [[y s]| | |]; intros H; [|discriminate H..]. injection H as <-. by exists s. Qed.

Lemma demo_spawn_ok : spawn_result (demo_spawn demo_file) = Some (inr 0).
Proof. vm_compute. reflexivity. Qed.
Lemma demo_spawn_fails : spawn_result (demo_spawn [1; 2; 3]) = Some (inl (mkErr "invalid elf header")).
Proof. vm_compute. reflexivity. Qed.

Lemma demo_idle_ok : kernel_ok [] (mc_kernel demo_idle) ∧ tids_left (k_sched (mc_kernel demo_idle)) ∧ fresh_pid (mc_next_pid demo_idle) (mc_kernel demo_idle).
Proof.
  split; [split; [constructor|by split]|split; [done|]]. split; [done|split; [|done]]. apply not_elem_of_empty.
Qed.

End demo.
