(* ===== verification/UserLib.v ===== *)
(** * Small libraries: [libutil/src/lib.rs], [std/src/io.rs], [std/src/rt.rs], [kernel/src/int/manager.rs]

    The table of calls through which [libutil] reaches whoever links it, what the standard
    library of user programs puts into it, how that library prints, and the map of
    interrupt overrides. *)

From S2P Require Import Prelude Misc Sys Ranges Buddy.

(** ** The calls of [libutil] *)
Section calls.
Context {W : Type}.

Record UtilCalls := mkCalls {
  futex_new_ : M W Z;
  futex_destroy_ : Z → M W ();
  block_ : Z → M W ();
  unblock_ : Z → M W ();
  alloc_ : Z → M W (option Allocation);
  dealloc_ : Allocation → M W ();
}.

(** [UTIL_CALLS], beside the state that the calls work on. *)
Abbreviation LM := (M (option UtilCalls * W)).

(** [UTIL_CALLS.as_ref().unwrap()]. *)
Definition via {T} (f : UtilCalls → M W T) : LM T := λ '(c, w),
  u ← unwrap c; '(x, w) ← f u w; Ret (x, (c, w)).

Definition util_futex_new_call : LM Z := via futex_new_.
Definition util_futex_destroy_call (id : Z) : LM () := via (λ u, futex_destroy_ u id).
Definition util_block_call (id : Z) : LM () := via (λ u, block_ u id).
Definition util_unblock_call (id : Z) : LM () := via (λ u, unblock_ u id).
Definition util_alloc_call (size : Z) : LM (option Allocation) := via (λ u, alloc_ u size).
Definition util_dealloc_call (mem : Allocation) : LM () := via (λ u, dealloc_ u mem).

(** [init] for the kernel, which has a heap of its own. *)
Definition util_init (calls : UtilCalls) : LM () := λ '(_, w), Ret ((), (Some calls, w)).

(** Before [init] every call panics; after it, every call is that of the table, and the
    table stays. *)
Lemma via_init {T} (f : UtilCalls → M W T) calls c w :
  via f (None, w) = Panic ∧
  (_ ← util_init calls; via f) (c, w) = '(x, w) ← f calls w; Ret (x, (Some calls, w)).
Proof. done. Qed.
End calls.

(** ** What user programs put into the table *)
Section user_calls.
Context {W : Type}.

(** The functions of [sys] they use: [futex_block] does nothing, [futex_unblock] and
    [realloc] are [unimplemented!()]. *)
Definition sys_futex_block_ (addr : Z) : M W () := mret ().
Definition sys_futex_unblock_ (addr n : Z) : M W Z := lift Panic.
Definition sys_realloc_ (mem size at_addr options : Z) : M W (option (Z * Z)) := lift Panic.

Definition REALLOC_READ : Z := 1.
Definition REALLOC_WRITE : Z := 2.

Definition user_calls : UtilCalls (W:=W) :=
  mkCalls (lift Panic) (λ _, lift Panic) (λ id, sys_futex_block_ id)
    (λ id, sys_futex_unblock_ id 1;; mret ())
    (λ size, o ← sys_realloc_ 0 size 0 (Z.lor REALLOC_READ REALLOC_WRITE);
             match o with
             | None => mret None
             | Some (addr, len) => mret (Some (mkAlloc addr len 0))
             end)
    (λ mem, o ← sys_realloc_ (m_addr mem) 0 0 (Z.lor REALLOC_READ REALLOC_WRITE);
            match o with None => lift Panic | Some _ => mret () end).

(** So a user program has no heap yet: its first allocation panics. *)
Lemma user_heap_panics size w : alloc_ user_calls size w = Panic.
Proof. done. Qed.
End user_calls.

(** ** Printing *)

Definition SIZE : nat := 80.

(** The buffer, how much of it is filled, and the calls of [print_debug] so far. *)
Record Printing := mkPrinting { pr_bytes : list Z; pr_i : nat; pr_calls : list (list Z * nat) }.

Definition print_debug (p : Printing) (n : nat) : Printing :=
  mkPrinting (pr_bytes p) (pr_i p) (pr_calls p ++ [(pr_bytes p, n)]).

Definition put_byte (p : Printing) (byte : Z) : res Printing :=
  if (pr_i p <? length (pr_bytes p))%nat then
    let p := mkPrinting (<[pr_i p := byte]> (pr_bytes p)) (S (pr_i p)) (pr_calls p) in
    Ret (if (pr_i p =? SIZE)%nat then print_debug (mkPrinting (pr_bytes p) 0 (pr_calls p)) SIZE else p)
  else Panic.

Fixpoint put_bytes (p : Printing) (s : list Z) : res Printing :=
  match s with [] => Ret p | b :: s => p ← put_byte p b; put_bytes p s end.

(** [Printer::write_str]: the calls it makes. *)
Definition write_str (s : list Z) : res (list (list Z * nat)) :=
  p ← put_bytes (mkPrinting (replicate SIZE 0) 0 []) s;
  Ret (pr_calls (print_debug p (pr_i p))).

(** What the kernel prints for a call: the first bytes of its buffer. *)
Definition told (calls : list (list Z * nat)) : list Z := concat (List.map (λ '(b, n), take n b) calls).

Lemma told_snoc calls b n : told (calls ++ [(b, n)]) = told calls ++ take n b.
Proof. unfold told. rewrite List.map_app, concat_app. cbn. by rewrite app_nil_r. Qed.

Definition printing_ok (p : Printing) : Prop :=
  length (pr_bytes p) = SIZE ∧ (pr_i p < SIZE)%nat ∧ Forall (λ '(b, n), length b = SIZE ∧ (n <= SIZE)%nat) (pr_calls p).
Definition so_far (p : Printing) : list Z := told (pr_calls p) ++ take (pr_i p) (pr_bytes p).

Lemma put_byte_ok p b : printing_ok p → ∃ p', put_byte p b = Ret p' ∧ printing_ok p' ∧ so_far p' = so_far p ++ [b].
Proof.
  destruct p as [bs i cs]. intros (Hl & Hi & Hc). cbn [pr_bytes pr_i pr_calls] in *. unfold put_byte.
  cbn [pr_bytes pr_i pr_calls]. rewrite (proj2 (Nat.ltb_lt _ _)) by lia. eexists. split; [done|].
  assert (take (S i) (<[i := b]> bs) = take i bs ++ [b]) as Ht.
  { rewrite (take_S_r _ i b) by (apply list_lookup_insert_eq; lia). by rewrite take_insert_ge by lia. }
  unfold so_far, printing_ok. destruct (Nat.eqb_spec (S i) SIZE) as [E|Hne]; cbn [pr_bytes pr_i pr_calls print_debug];
    rewrite length_insert; (split; [split_and!; try lia|]); try done.
  - apply Forall_app. split; [done|]. apply Forall_singleton. by rewrite length_insert.
  - cbn [take]. rewrite app_nil_r, told_snoc, <- E, Ht. by rewrite app_assoc.
  - by rewrite Ht, app_assoc.
Qed.

Lemma put_bytes_ok s : ∀ p, printing_ok p → ∃ p', put_bytes p s = Ret p' ∧ printing_ok p' ∧ so_far p' = so_far p ++ s.
Proof.
  induction s as [|b s IH]; intros p Hp; cbn [put_bytes]; [exists p; by rewrite app_nil_r|].
  destruct (put_byte_ok p b Hp) as (q & -> & Hq & Eq). destruct (IH q Hq) as (r & Er & Hr & Es).
  exists r. split; [exact Er|]. split; [done|]. rewrite Es, Eq, <- app_assoc. done.
Qed.

(** A string of any length is told whole, in calls that the kernel does not cut: it
    prints at most 80 bytes of each. *)
Theorem write_str_prints s :
  ∃ calls, write_str s = Ret calls ∧ told calls = s ∧ Forall (λ '(b, n), length b = SIZE ∧ (n <= SIZE)%nat) calls.
Proof.
  destruct (put_bytes_ok s (mkPrinting (replicate SIZE 0) 0 [])) as (p & E & (Hl & Hi & Hc) & Es).
  { split_and!; [done|unfold SIZE; cbn; lia|constructor]. }
  eexists. split; [unfold write_str; by rewrite E|]. cbn [pr_calls print_debug]. split.
  - rewrite told_snoc. exact Es.
  - apply Forall_app. split; [done|]. apply Forall_singleton. split; [done|lia].
Qed.

(** ** Interrupt overrides *)
Abbreviation IrqManager := (gmap Z Z).
Definition irq_manager_new : IrqManager := ∅.
Definition irqm_get_irq (m : IrqManager) (irq : Z) : Z := match m !! irq with Some i => i | None => irq end.
Definition irqm_override_irq (m : IrqManager) (irq_in irq_out : Z) : IrqManager := <[irq_in := irq_out]> m.

Lemma override_get m i o j :
  irqm_get_irq irq_manager_new j = j ∧ irqm_get_irq (irqm_override_irq m i o) j = if decide (j = i) then o else irqm_get_irq m j.
Proof.
  split; [done|]. unfold irqm_get_irq, irqm_override_irq. destruct (decide (j = i)) as [->|Hne];
    [by rewrite lookup_insert_eq|by rewrite lookup_insert_ne by congruence].
Qed.
